(* ===== verification/_CoqProject ===== *)
-Q . S2P
Prelude.v
UrlApi.v
DeterministicRng.v
NodeUrl.v
RoutingScope.v
LiveNodes.v
Refresh.v
Membership.v
RefreshInterleaving.v
Hasher.v
Classifier.v
QueryPlan.v
DiscoveryTasks.v
Resolver.v
ResolverSpec.v
AffinityPlan.v
Http.v
OptimizeHeaders.v
Compression.v
Decompression.v
Interceptors.v
Sdk.v
Config.v
DiscoveryHttp.v
DiscoveryTransport.v
DiscoveryOwner.v
DiscoveryInterleaving.v
DiscoveryLoop.v
LiveNodesBuild.v
Validation.v
Client.v
Passthroughs.v
Text.v
Errors.v
System.v
SystemTasks.v
