(* ===== verification/Prelude.v ===== *)
(** * A verification library for the ScyllaDB Alternator client (Rust)

    The driver ([src/src/*.rs]) wraps the AWS DynamoDB SDK for ScyllaDB
    Alternator: it discovers the nodes of a cluster, routes every attempt of a
    request to one of them, sends writes of the same partition key to the same
    coordinator, and compresses, trims and decodes what goes over the wire.  This
    library translates the driver's own logic into executable definitions, with
    the names of the source, and proves what each part promises.  What the
    driver only calls ([url], [http], [flate2], [tokio], the AWS SDK, ...) is a
    type class per library with its documented laws, and each class has a small
    concrete instance on which the witnesses evaluate.

    ** The parts and how they interact

    - Routing scopes ([RoutingScope.v], [routing_scope.rs]): chains of cluster,
      datacenter and rack scopes, the [/localnodes] query of each, and the
      rack-free chain of the affinity view.
    - Node addresses ([UrlApi.v], [NodeUrl.v]; [build_seed_url] and friends of
      [live_nodes.rs]): URLs from hosts; IPv6 detection is written out.
    - Node views ([LiveNodes.v]; [NodeView]): membership, refresh generations,
      the round-robin counter, as atomic operations.
    - Discovery refresh ([Refresh.v]; [update_live_nodes_from] and callees): the
      queue of candidates, the fallback chain, cluster unions, with the effects
      as a trace.  [Membership.v] states what every refresh guarantees of the
      view it writes and relies on of the answers it gets.
    - Concurrent refreshes ([RefreshInterleaving.v]; [update_live_nodes_from]
      again): any number of refreshes of one view, one access, answer or local
      step at a time, among the requests that draw from it.
    - Discovery transport ([DiscoveryTransport.v]; [get_live_nodes] and the two
      HTTP clients behind it): one [/localnodes] request under its deadline, and
      the instance of the refresh's network that it gives.
    - Discovery loop ([DiscoveryLoop.v]; [run_discovery_loop] and its sleep): one
      turn of the background task and when the next one starts.
    - Discovery owner ([DiscoveryOwner.v]; [DiscoveryManager],
      [DiscoveryRuntime], [LiveNodes]): one background loop per client, its
      liveness probe, take-over between runtimes, activity, the affinity task.
    - Concurrent accesses ([DiscoveryInterleaving.v]; [ensure_discovery_started]
      and [retain_discovery_owner] again): any number of calls in progress, one
      atomic action at a time, with the start/transfer mutex as state.
    - Owned tasks ([DiscoveryTasks.v]; [discovery.rs]): admission and shutdown.
    - Discovery construction ([DiscoveryHttp.v], [LiveNodesBuild.v]; [try_new],
      the choice of the HTTP client and the native roots).
    - Partition-key routing ([keyrouting/]): the byte encoding of keys
      ([Hasher.v]), the xorshift generator ([DeterministicRng.v]), which requests
      qualify ([Classifier.v]), the background resolver of key names
      ([Resolver.v]) and the life cycle of a table it implements
      ([ResolverSpec.v]).
    - Query plans ([QueryPlan.v]) and the affinity plan of a request
      ([AffinityPlan.v], [interceptors.rs]).
    - The wire ([Http.v], [OptimizeHeaders.v] with the user agent,
      [Compression.v], [Decompression.v]) and the hooks of the driver's
      interceptors ([Interceptors.v]).
    - Configuration ([Sdk.v], [Config.v]; [config.rs]) and the client
      ([Client.v]; [client.rs]), with the adapters through which the SDK's
      validators run ([Validation.v]) and the operation wrappers
      ([Passthroughs.v]).
    - The texts of the errors and their sources ([Errors.v]), over what the
      standard library makes of strings and numbers ([Text.v]).
    - The composition ([System.v]): a built client under any interleaving of
      the atomic actions of accesses and take-overs, the steps of its refreshes,
      the ends of its tasks, key discoveries, plans and attempts; and which task
      runs which refresh ([SystemTasks.v]).

    A client is built from a configuration ([Client.try_from_conf]), which
    validates the seeds ([LiveNodesBuild.try_new]), wires the interceptors and
    starts discovery ([Manager.ensure_discovery_started]).  The loop refreshes
    the ordinary view, then the affinity view with the outcomes already known.  A
    request gets a plan before serialization ([AffinityPlan.get_query_plan] or
    [Plan.new_basic]), each attempt takes its next node
    ([Hooks.modify_before_signing]), and planning a key whose name is unknown
    triggers the resolver ([Resolver.trigger_discovery]).

    ** State and operations

    Shared mutable objects are explicit state: a [NodeView] with its refresh
    mutex inlined, a [PartitionKeyResolver] with its three locks, a
    [DiscoveryManager] whose [DiscoveryRuntime]s are referred to by position
    ([Arc::ptr_eq]), handles ([LiveNodes]) that name the view they read.  Each
    critical section is one step; histories are lists of events ([ViewEvent],
    [TaskEvent], [ManagerEvent]) or a step relation with any number of concurrent
    activities ([Resolver.system_step]), so that theorems quantify over all
    interleavings of the steps.  In [DiscoveryOwner.v] a whole access is one step;
    [undisturbed_call_exact] shows that step to be what the atomic actions of
    [DiscoveryInterleaving.v] compose to.  Likewise a refresh in [Refresh.v] runs
    in one go, with what others do to the view before each of its accesses given
    by the interface ([probe], [interfere]), and [refreshes_sequentialize] shows
    that the interleaved refreshes of [RefreshInterleaving.v] are such refreshes.
    The composition advances accesses and refreshes in those steps too.  A
    refresh belongs to the loop or the affinity task that runs it; a loop
    refreshes only while the task registry tracks it, [AbortHandle::is_finished]
    is false of every tracked task, and a task ends where it awaits.
    Errors are [Result]
    values, a panic is [None] (or the error with the panic's message, for the
    builder), and theorems state where panics cannot happen.  A [u64] is a [Z]
    with its wrap-around written out; [usize] counters wrap at 64 bits; durations
    and instants are nanoseconds.

    ** What the theorems show

    - Plans: [seeded_plan_canonical], [preferred_node_is_plan_head],
      [ordered_plan_attempts], [round_robin_plan_covers], [round_robin_even].
    - Affinity: [batch_plan_sorted_by_votes], [same_key_same_plan],
      [query_plan_total], [batch_plan_order_independent], [should_apply_exact],
      [hash_input_injective].
    - The whole client: [requests_stay_on_endpoint], [requests_always_routed],
      [client_state_well_formed], [one_refresh_per_view],
      [client_comes_to_rest].
    - Membership: [refresh_terminates], [refresh_publishes_first_available],
      [refresh_requests_bounded], [cluster_pass_unions],
      [affinity_reuses_outcomes], [newest_refresh_wins], [view_never_empty],
      [without_rack_widens]; and for interleaved refreshes
      [refreshes_sequentialize], [interleaved_refreshes_ok],
      [newest_refresh_stands], [refresh_steps_terminate].
    - Ownership: [one_discovery_loop], [handoff_needs_silence],
      [access_takes_over_exactly], [stop_is_final], [client_starts_discovery],
      [loop_iteration_exact], [access_refreshes_soon], and under arbitrary
      interleavings [concurrent_starts_safe], [calls_return] and
      [undisturbed_call_exact].
    - The discovery request: [discovery_answer_decoded].
    - Resolver: [single_flight], [discovery_bounded], [resolver_refines_tables],
      [partition_key_final].
    - The wire: [attempts_follow_plan], [signature_survives],
      [strip_headers_exact], [parse_signed_headers_roundtrip],
      [compress_request_lossless], [decompression_bounded],
      [no_silent_truncation], [body_frames_faithful],
      [response_decoding_exact], [overrides_win].
    - Construction: [construction_fails_closed], [client_wiring],
      [unsigned_requests_exact], [auth_options_exclusive], [try_new_outcome],
      [seed_order_irrelevant], [validation_captured], [adapters_transparent],
      [passthroughs_exact].
    - Errors: [build_error_identified], [error_text_carries_source],
      [refusal_identified].

    ** Fuel

    Four loops are not structural.  A refresh has the fuel [measure + 1] of its
    first loop state and [refresh_terminates] proves that it never runs out; the
    seeded selection has the number of nodes left, which it consumes one by one
    ([PlanFacts.seeded_loop_total]); the retry loop of the resolver is given
    fuel above its retry bound ([discovery_bounded]); the hexadecimal escape of
    a character has the six digits that a [char] has at most
    ([TextFacts.read_hex_digits]).  Parsers of strings use their length.  Refreshes
    as activities need no fuel: their step relation is well-founded
    ([refresh_steps_terminate]), and so is that of all the work a client has under
    way ([client_comes_to_rest]).

    ** What is not modelled

    - What the driver only calls: the SDK's signing, retries and transport, the
      runtime, the codecs, the TLS stack.  They are the classes.
    - The texts of the errors of other crates and which characters beyond ASCII
      [Debug] prints as they are, which are classes; derived [Debug]
      implementations; the [name] of an interceptor, which nothing in the driver
      reads; and the re-exports of [lib.rs].
    - Time inside the runtimes: how long an answer, a timeout or a poll takes.
      The discovery loop sees times of its own events only.
    - Weak memory: each step sees the last writes.  The driver's shared flags are
      written with release and read with acquire ordering, and its counter is an
      atomic increment.
    - Constructors and accessors the source compiles for its tests only.

    ** Bounds of the composition

    A system starts from a client that discovery was not turned off for; its
    events are unbounded in number and order.  Where the environment decides
    (shuffles, answers, clocks, when a task is polled, aborted or lost with its
    runtime) an event takes the decision as its argument, and the theorems hold
    for all of them.  The guard of a loop that ends ([LoopStopped],
    [LoopCleared]) and the polls of its probes ([LoopPolled]) may come at any
    moment, more often than they can in the driver. *)

From stdpp Require Export prelude strings gmap sorting list.


(** ** Fallible code: Rust's [Result] and the [?] operator *)

Inductive Result (A E : Type) : Type :=
| Ok (a : A)
| Err (e : E).
Arguments Ok {A E} a.
Arguments Err {A E} e.

#[export] Instance Result_eq_dec {A E} `{EqDecision A, EqDecision E} : EqDecision (Result A E).
Proof. solve_decision. Defined.

Definition result_bind {A B E} (r : Result A E) (k : A → Result B E) : Result B E :=
  match r with
  | Ok a => k a
  | Err e => Err e
  end.

(** [map_err]: the error of a failing call becomes the caller's error. *)
Definition map_err {A E F} (f : E → F) (r : Result A E) : Result A F :=
  match r with
  | Ok a => Ok a
  | Err e => Err (f e)
  end.

(** [Option::ok_or]. *)
Definition ok_or {A E} (o : option A) (e : E) : Result A E :=
  match o with
  | Some a => Ok a
  | None => Err e
  end.

(** [Result::ok]. *)
Definition result_ok {A E} (r : Result A E) : option A :=
  match r with
  | Ok a => Some a
  | Err _ => None
  end.

(** [iter.map(f).collect::<Result<Vec<_>, _>>()]: the first error wins. *)
Fixpoint collect_results {A B E} (f : A → Result B E) (l : list A) : Result (list B) E :=
  match l with
  | [] => Ok []
  | x :: l' =>
      result_bind (f x) (λ y, result_bind (collect_results f l') (λ ys, Ok (y :: ys)))
  end.

Declare Scope alternator_scope.
Delimit Scope alternator_scope with alt.
Notation "x ←? e ; k" := (result_bind e (λ x, k))
  (at level 20, e at level 100, k at level 200, right associativity) : alternator_scope.

(** ** Machine integers

    [u64], [u128] and [usize] (64 bits wide: the targets the driver is built
    for) are values of [Z]; wrap-around is written out with [wrap]. *)

Definition wrap (w z : Z) : Z := (z `mod` 2 ^ w)%Z.
Definition wrap64 (z : Z) : Z := wrap 64 z.

(** [x as i64] for a [u64] [x]: two's complement reinterpretation. *)
Definition u64_as_i64 (z : Z) : Z := if decide (z < 2 ^ 63)%Z then z else (z - 2 ^ 64)%Z.
(** [x as u64] for an [i64] [x]. *)
Definition i64_as_u64 (z : Z) : Z := wrap64 z.

Definition is_u64 (z : Z) : Prop := (0 ≤ z < 2 ^ 64)%Z.
#[global] Instance is_u64_dec z : Decision (is_u64 z).
Proof. unfold is_u64. apply _. Defined.

(** [usize::saturating_mul] and friends clamp at the top of the width. *)
Definition u64_max : Z := (2 ^ 64 - 1)%Z.
Definition saturating_mul64 (x y : Z) : Z := Z.min (x * y) u64_max.

(** Durations and instants are nanoseconds ([Duration::from_secs],
    [Duration::from_millis], [saturating_duration_since]). *)
Definition from_millis (ms : Z) : Z := (ms * 1000000)%Z.
Definition from_secs (s : Z) : Z := (s * 1000000000)%Z.
Definition saturating_duration_since (now earlier : Z) : Z := Z.max 0 (now - earlier).

(** ** Vectors *)

(** [Vec::swap_remove]: takes out the element at [i] and puts the last element
    in its place; [None] is the panic on an index out of range. *)
Definition swap_remove {A} (i : nat) (l : list A) : option (A * list A) :=
  match l !! i, last l with
  | Some x, Some y => Some (x, take (length l - 1) (<[i:=y]> l))
  | _, _ => None
  end.

(** [iter().position(p)]. *)
Fixpoint position {A} (p : A → bool) (l : list A) : option nat :=
  match l with
  | [] => None
  | x :: l' => if p x then Some 0 else S <$> position p l'
  end.

(** [Vec::dedup_by]: drops an element that is the same as the element kept
    just before it; the first element of every run stays. *)
Fixpoint dedup_from {A} (same : A → A → bool) (kept : A) (l : list A) : list A :=
  match l with
  | [] => []
  | x :: l' => if same x kept then dedup_from same kept l' else x :: dedup_from same x l'
  end.
Definition dedup_by {A} (same : A → A → bool) (l : list A) : list A :=
  match l with
  | [] => []
  | x :: l' => x :: dedup_from same x l'
  end.

(** A sort by a string key ([sort_by(|a, b| key(a).cmp(key(b)))]): Rust orders
    strings by their bytes, which is [String.le]. *)
Definition key_le {A} (key : A → string) (x y : A) : Prop := String.le (key x) (key y).
#[global] Instance key_le_dec {A} (key : A → string) : RelDecision (key_le key).
Proof. unfold key_le. intros x y. apply _. Defined.
Definition sort_by_key {A} (key : A → string) (l : list A) : list A :=
  merge_sort (key_le key) l.

(** ** Shared automation *)

Create HintDb alternator.

(** Case analysis on every match and boolean test of the goal, then clean up. *)
Ltac split_cases :=
  repeat (case_match || case_decide || case_bool_decide); simplify_eq/=.

(** Decides an equation between closed terms by evaluation, leaving the type
    arguments of the terms alone. *)
Ltac vm_refl :=
  match goal with |- _ = ?y => vm_cast_no_check (@eq_refl _ y) end.

(** Results named by the evaluation itself ([default d e], [ok_default d e]):
    only the head constructor of [e] has to be computed. *)
Definition ok_default {A E} (d : A) (r : Result A E) : A :=
  match r with Ok a => a | Err _ => d end.
Lemma some_default {A} (d : A) (o : option A) : (if o then true else false) = true → o = Some (default d o).
Proof. by destruct o. Qed.
Lemma ok_is_default {A E} (d : A) (r : Result A E) :
  (if r then true else false) = true → r = Ok (ok_default d r).
Proof. by destruct r. Qed.

(** Splits conjunctions in the context and the goal, then finishes. *)
Ltac finish := repeat split; eauto with alternator lia.

(** ** Lemmas: results *)

Lemma collect_results_Forall2 {A B E} (f : A → Result B E) l ys :
  collect_results f l = Ok ys ↔ Forall2 (λ x y, f x = Ok y) l ys.
Proof.
  revert ys. induction l as [|x l IH]; intros ys; simpl.
  - split; [intros [= <-]; constructor | inversion 1; done].
  - split.
    + destruct (f x) as [y|e] eqn:Hx; simpl; [|done].
      destruct (collect_results f l) as [ys'|e] eqn:Hl; simpl; [|done].
      intros [= <-]. constructor; [done|]. by apply IH.
    + inversion 1 as [|? y ? ys' Hy Hys]; subst. rewrite Hy. simpl.
      apply IH in Hys. by rewrite Hys.
Qed.

Lemma collect_results_length {A B E} (f : A → Result B E) l ys :
  collect_results f l = Ok ys → length ys = length l.
Proof. intros H%collect_results_Forall2. by apply Forall2_length in H. Qed.

Lemma map_err_Ok {A E F} (f : E → F) (r : Result A E) a : map_err f r = Ok a ↔ r = Ok a.
Proof. destruct r; simpl; naive_solver. Qed.
Lemma map_err_Err {A E F} (f : E → F) (r : Result A E) x :
  map_err f r = Err x ↔ ∃ e, r = Err e ∧ x = f e.
Proof. destruct r; simpl; naive_solver. Qed.

(** The first seed host that fails is what [collect] returns. *)
Lemma collect_results_Err {A B E} (f : A → Result B E) l e :
  collect_results f l = Err e → ∃ x, x ∈ l ∧ f x = Err e.
Proof.
  induction l as [|x l IH]; simpl; [done|].
  destruct (f x) as [y|e'] eqn:Hx; simpl.
  - destruct (collect_results f l); simpl; [done|]. intros [= ->].
    destruct (IH eq_refl) as (x' & ? & ?). exists x'. split; [by right|done].
  - intros [= ->]. exists x. split; [by left|done].
Qed.

(** Collecting succeeds whatever the order, with the results in that order. *)
Lemma collect_results_Permutation {A B E} (f : A → Result B E) l l' ys :
  l ≡ₚ l' → collect_results f l = Ok ys →
  ∃ ys', collect_results f l' = Ok ys' ∧ ys ≡ₚ ys'.
Proof.
  intros Hp. rewrite collect_results_Forall2. setoid_rewrite collect_results_Forall2.
  revert ys. induction Hp as [|x l l' Hp IH|x y l|l1 l2 l3 _ IH1 _ IH2]; intros ys Hf.
  - by exists ys.
  - apply Forall2_cons_inv_l in Hf as (z & zs & Hx & Hl & ->).
    destruct (IH zs Hl) as (zs' & ? & ?). exists (z :: zs'). split; [by constructor|by constructor].
  - apply Forall2_cons_inv_l in Hf as (z & zs & Hy & Hl & ->).
    apply Forall2_cons_inv_l in Hl as (w & ws & Hx & Hl & ->).
    exists (w :: z :: ws). split; [by repeat constructor|constructor].
  - destruct (IH1 ys Hf) as (ys2 & H2 & ?). destruct (IH2 ys2 H2) as (ys3 & ? & ?).
    exists ys3. split; [done|by etrans].
Qed.

(** ** Lemmas: machine integers *)

Lemma wrap64_is_u64 z : is_u64 (wrap64 z).
Proof. unfold is_u64, wrap64, wrap. apply Z.mod_pos_bound. lia. Qed.
#[export] Hint Resolve wrap64_is_u64 : alternator.

Lemma wrap64_small z : is_u64 z → wrap64 z = z.
Proof. unfold is_u64, wrap64, wrap. intros. by apply Z.mod_small. Qed.

(** The round trip [u64 -> i64 -> u64] loses nothing. *)
Lemma u64_i64_u64 z : is_u64 z → i64_as_u64 (u64_as_i64 z) = z.
Proof.
  unfold is_u64, i64_as_u64, u64_as_i64, wrap64, wrap. intros Hz. case_decide.
  - apply Z.mod_small. lia.
  - rewrite <-(Z.mod_small z (2 ^ 64)) at 2 by lia.
    rewrite <-(Z.mod_add (z - 2 ^ 64) 1 (2 ^ 64)) by lia. f_equal. lia.
Qed.

(** ** Lemmas: vectors *)

Lemma swap_remove_Permutation {A} i (l l' : list A) x :
  swap_remove i l = Some (x, l') → x :: l' ≡ₚ l.
Proof.
  unfold swap_remove. intros Hs.
  destruct (l !! i) as [x'|] eqn:Hi; [|done].
  destruct (last l) as [y|] eqn:Hlast; [|done]. simplify_eq.
  apply last_Some in Hlast as [k ->].
  rewrite length_app, Nat.add_sub.
  apply lookup_app_Some in Hi as [Hi | [Hge Hi]].
  - rewrite insert_app_l by eauto using lookup_lt_Some.
    rewrite take_app_length' by (by rewrite length_insert).
    rewrite <-(take_drop_middle k i x Hi) at 2.
    rewrite insert_take_drop by eauto using lookup_lt_Some.
    rewrite <-app_assoc, <-app_comm_cons, <-!Permutation_middle.
    by rewrite app_nil_r.
  - apply list_lookup_singleton_Some in Hi as [Hi <-].
    assert (i = length k) as -> by lia.
    rewrite insert_app_r_alt, Nat.sub_diag by lia. simpl.
    rewrite take_app_length. by apply Permutation_cons_append.
Qed.

Lemma swap_remove_is_Some {A} i (l : list A) :
  i < length l → is_Some (swap_remove i l).
Proof.
  intros Hi. unfold swap_remove.
  destruct (lookup_lt_is_Some_2 l i Hi) as [x ->].
  destruct (last l) as [y|] eqn:Hl; [by eauto|].
  apply last_None in Hl as ->. simpl in Hi. lia.
Qed.

(** ** Lemmas: sorting by a string key *)

Section sort_by_key.
Context {A : Type} (key : A → string).

#[export] Instance key_le_total : Total (key_le key).
Proof. intros x y. unfold key_le. apply (total String.le). Qed.
#[export] Instance key_le_trans : Transitive (key_le key).
Proof. intros x y z. unfold key_le. apply transitivity. Qed.

Lemma sort_by_key_Permutation l : sort_by_key key l ≡ₚ l.
Proof. apply merge_sort_Permutation. Qed.

Lemma elem_of_sort_by_key l x : x ∈ sort_by_key key l ↔ x ∈ l.
Proof. by rewrite sort_by_key_Permutation. Qed.

Lemma length_sort_by_key l : length (sort_by_key key l) = length l.
Proof. by rewrite sort_by_key_Permutation. Qed.

Lemma NoDup_sort_by_key l : NoDup (sort_by_key key l) ↔ NoDup l.
Proof. by rewrite sort_by_key_Permutation. Qed.

Lemma Sorted_sort_by_key l : StronglySorted (key_le key) (sort_by_key key l).
Proof. apply (StronglySorted_merge_sort _). Qed.

Context `{!Inj (=) (=) key}.

#[export] Instance key_le_antisymm : AntiSymm (=) (key_le key).
Proof.
  intros x y. unfold key_le. intros H1 H2. apply (inj key). by apply (anti_symm String.le).
Qed.

(** The sorted order is canonical: it depends on the elements only. *)
Lemma sort_by_key_canonical l1 l2 : l1 ≡ₚ l2 → sort_by_key key l1 = sort_by_key key l2.
Proof.
  intros Hp. apply (StronglySorted_unique (key_le key)); [apply Sorted_sort_by_key..|].
  by rewrite !sort_by_key_Permutation.
Qed.

Lemma sort_by_key_sorted l : StronglySorted (key_le key) l → sort_by_key key l = l.
Proof.
  intros Hs. apply (StronglySorted_unique (key_le key));
    [apply Sorted_sort_by_key|done|apply sort_by_key_Permutation].
Qed.

(** Deduplication by the same key. *)
Definition same_key (x y : A) : bool := bool_decide (key x = key y).

Lemma elem_of_dedup_from k l x : x ∈ k :: dedup_from same_key k l ↔ x ∈ k :: l.
Proof.
  revert k. induction l as [|y l IH]; intros k; simpl; [done|].
  unfold same_key at 1. case_bool_decide as Heq.
  - apply (inj key) in Heq as ->. rewrite IH, !elem_of_cons. naive_solver.
  - rewrite elem_of_cons, IH, !elem_of_cons. naive_solver.
Qed.

Lemma elem_of_dedup_by l x : x ∈ dedup_by same_key l ↔ x ∈ l.
Proof. destruct l as [|k l]; [done|]. apply elem_of_dedup_from. Qed.

Lemma NoDup_dedup_from k l :
  StronglySorted (key_le key) (k :: l) →
  StronglySorted (key_le key) (k :: dedup_from same_key k l) ∧
  NoDup (k :: dedup_from same_key k l).
Proof.
  revert k. induction l as [|y l IH]; intros k Hs; simpl.
  { split; [done|]. apply NoDup_singleton. }
  apply StronglySorted_inv in Hs as [Hs Hk]. apply Forall_cons in Hk as [Hky Hk].
  destruct (same_key y k) eqn:Heq; unfold same_key in Heq;
    [apply bool_decide_eq_true in Heq|apply bool_decide_eq_false in Heq].
  - apply (inj key) in Heq as ->. by apply IH.
  - destruct (IH y Hs) as [Hss Hnd]. apply StronglySorted_inv in Hs as [Hs Hy].
    assert (Hall : Forall (key_le key k) (y :: dedup_from same_key y l)).
    { apply Forall_forall. intros x Hx. rewrite elem_of_dedup_from in Hx.
      apply elem_of_cons in Hx as [->|Hx]; [done|].
      rewrite Forall_forall in Hk. auto. }
    split; [by constructor|]. apply NoDup_cons. split; [|done].
    intros Hx. rewrite elem_of_dedup_from in Hx.
    apply elem_of_cons in Hx as [->|Hx]; [done|].
    rewrite Forall_forall in Hy. pose proof (Hy _ Hx).
    apply Heq. f_equal. by apply (anti_symm (key_le key)).
Qed.

Lemma NoDup_sort_dedup l : NoDup (dedup_by same_key (sort_by_key key l)).
Proof.
  pose proof (Sorted_sort_by_key l) as Hs. destruct (sort_by_key key l) as [|k l']; [constructor|].
  by apply NoDup_dedup_from.
Qed.

Lemma Sorted_sort_dedup l :
  StronglySorted (key_le key) (dedup_by same_key (sort_by_key key l)).
Proof.
  pose proof (Sorted_sort_by_key l) as Hs. destruct (sort_by_key key l) as [|k l']; [constructor|].
  by apply NoDup_dedup_from.
Qed.

Lemma elem_of_sort_dedup l x : x ∈ dedup_by same_key (sort_by_key key l) ↔ x ∈ l.
Proof. by rewrite elem_of_dedup_by, elem_of_sort_by_key. Qed.

(** A sorted, deduplicated list depends on the set of its elements only. *)
Lemma sort_dedup_canonical l1 l2 :
  (∀ x, x ∈ l1 ↔ x ∈ l2) →
  dedup_by same_key (sort_by_key key l1) = dedup_by same_key (sort_by_key key l2).
Proof.
  intros Hl. apply (StronglySorted_unique (key_le key)); [apply Sorted_sort_dedup..|].
  apply NoDup_Permutation; [apply NoDup_sort_dedup..|]. intros x.
  by rewrite !elem_of_sort_dedup.
Qed.

End sort_by_key.

(** ** Lemmas: strings *)

Lemma app_assoc_str s t u : String.app (String.app s t) u = String.app s (String.app t u).
Proof. induction s as [|a s IH]; [done|]. exact (f_equal (String a) IH). Qed.

#[export] Instance app_inj_str s : Inj (=) (=) (String.app s).
Proof. induction s as [|a s IH]; intros t u Htu; [done|]. apply IH. by injection Htu. Qed.

Lemma app_cancel_str s s' t : String.app s t = String.app s' t → s = s'.
Proof.
  assert (Hlen : ∀ a b, String.length (String.app a b) = String.length a + String.length b).
  { intros a b. induction a as [|x a IH]; [done|]. exact (f_equal S IH). }
  assert (Hnil : ∀ x a, t ≠ String.app (String x a) t).
  { intros x a He%(f_equal String.length). rewrite Hlen in He. simpl in He. lia. }
  revert s'. induction s as [|x s IH]; intros [|x' s'] He; [done| | |].
  - by destruct (Hnil x' s').
  - by destruct (Hnil x s).
  - injection He as -> He. f_equal. by apply IH.
Qed.

(** ** Lemmas: rotations *)

Lemma rotate_lookup_mod {A} (l : list A) n i :
  i < length l → rotate n l !! i = l !! ((n + i) `mod` length l).
Proof.
  intros Hi. rewrite lookup_rotate_r by done. f_equal. unfold rotate_nat_add.
  rewrite <-(Nat2Z.id ((n + i) `mod` length l)), Nat2Z.inj_mod, Nat2Z.inj_add. done.
Qed.

Lemma rotate_Permutation {A} (l : list A) n : rotate n l ≡ₚ l.
Proof. unfold rotate. rewrite Permutation_app_comm. by rewrite take_drop. Qed.

(** ** Lemmas: keys *)

(** Elements with pairwise distinct images are determined by their image. *)
Lemma NoDup_fmap_inj_in {A B} (f : A → B) (l : list A) x y :
  NoDup (f <$> l) → x ∈ l → y ∈ l → f x = f y → x = y.
Proof.
  intros Hnd Hx Hy Hf. apply list_elem_of_lookup in Hx as [i Hi].
  apply list_elem_of_lookup in Hy as [j Hj].
  assert (i = j) as ->.
  { apply (NoDup_lookup _ _ _ (f x) Hnd); rewrite list_lookup_fmap.
    - by rewrite Hi.
    - by rewrite Hj, Hf. }
  congruence.
Qed.

(** ** Lemmas: simulation

    A concrete step relation refines an abstract one when every concrete step is
    matched by some abstract steps, possibly none, between related states. *)

Section simulation.
Context {C A : Type} (concrete : relation C) (abstract : relation A) (related : C → A → Prop).

Definition forward_simulation : Prop :=
  ∀ c c' a, concrete c c' → related c a → ∃ a', rtc abstract a a' ∧ related c' a'.

Lemma simulation_rtc c c' a :
  forward_simulation → rtc concrete c c' → related c a → ∃ a', rtc abstract a a' ∧ related c' a'.
Proof.
  intros Hsim Hr. revert a. induction Hr as [c|c1 c2 c3 Hstep _ IH]; intros a Ha; [by exists a|].
  destruct (Hsim _ _ _ Hstep Ha) as (a1 & Hr1 & Ha1). destruct (IH a1 Ha1) as (a2 & Hr2 & Ha2).
  exists a2. split; [by etrans|done].
Qed.
End simulation.
