(* ===== verification/UrlApi.v ===== *)
(** * The interface to the [url] crate

    Node addresses are values of the third-party type [url::Url].  The client
    only moves them around, compares them, reads a few components and edits
    them through setters, so the type and its operations are a class that every
    file below is parametric in; what a theorem needs of the crate is a law of
    one of the law classes, each of which restates the crate's documentation.
    [StrUrl] is a concrete implementation in which a URL is its serialization;
    the witnesses and examples run on it. *)

From S2P Require Import Prelude.

(** [url::ParseError]. *)
Inductive ParseError : Type :=
| EmptyHost
| IdnaError
| InvalidPort
| InvalidIpv4Address
| InvalidIpv6Address
| InvalidDomainCharacter
| RelativeUrlWithoutBase
| RelativeUrlWithCannotBeABaseBase
| SetHostOnCannotBeABaseUrl
| Overflow.

Class UrlApi := {
  Url : Type;
  Url_eq_dec :: EqDecision Url;
  Url_countable :: Countable Url;
  (** [Url::as_str]: the serialization. *)
  as_str : Url → string;
  (** [Url::parse]. *)
  Url_parse : string → Result Url ParseError;
  (** [url::Host::parse], of which the driver only uses the verdict. *)
  Host_parse : string → Result unit ParseError;
  (** [Url::scheme], [Url::host_str], [Url::port], [Url::port_or_known_default]. *)
  scheme : Url → string;
  host_str : Url → option string;
  port : Url → option Z;
  port_or_known_default : Url → option Z;
  (** The setters; [None] is their [Err(())]. *)
  set_scheme : Url → string → option Url;
  set_host : Url → option string → option Url;
  set_port : Url → option Z → option Url;
  set_path : Url → string → Url;
  (** [query_pairs_mut().append_pair(name, value)]. *)
  append_pair : Url → string → string → Url;
}.

(** [Url] is compared, ordered and hashed by its serialization. *)
Class UrlEqLaws `{UrlApi} : Prop := {
  as_str_inj :: Inj (=) (=) as_str;
}.

(** ** A URL as its serialization *)

Module StrUrl.

(** Everything up to and after the first occurrence of [sep]. *)
Fixpoint cut (sep s : string) : option (string * string) :=
  if String.prefix sep s
  then Some (EmptyString, String.substring (String.length sep)
                            (String.length s - String.length sep) s)
  else match s with
       | EmptyString => None
       | String c s' => (λ '(a, b), (String c a, b)) <$> cut sep s'
       end.

Definition scheme_of (u : string) : string :=
  from_option fst u (cut "://" u).
Definition rest_of (u : string) : string :=
  from_option snd u (cut "://" u).
Definition authority_of (u : string) : string :=
  from_option fst (rest_of u) (cut "/" (rest_of u)).
Definition path_of (u : string) : string :=
  from_option snd EmptyString (cut "/" (rest_of u)).
Definition host_of (u : string) : string :=
  from_option fst (authority_of u) (cut ":" (authority_of u)).
Definition port_text (u : string) : option string := snd <$> cut ":" (authority_of u).

Definition digit (c : Ascii.ascii) : option Z :=
  (λ n : nat, Z.of_nat n) <$> Ascii.is_nat c.
Fixpoint read_num (acc : Z) (s : string) : option Z :=
  match s with
  | EmptyString => Some acc
  | String c s' => d ← digit c; read_num (acc * 10 + d)%Z s'
  end.
Fixpoint show_fuel (fuel : nat) (z : Z) (acc : string) : string :=
  match fuel with
  | O => acc
  | S f =>
      let acc := String (Ascii.ascii_of_nat (48 + Z.to_nat (z `mod` 10))) acc in
      if decide (z < 10)%Z then acc else show_fuel f (z `div` 10)%Z acc
  end.
Definition show_num (z : Z) : string := show_fuel 20 z EmptyString.

Definition mk (s a p : string) : string := String.app s (String.app "://" (String.app a (String.app "/" p))).
Definition with_port (h : string) (p : option Z) : string :=
  match p with Some p => String.app h (String.app ":" (show_num p)) | None => h end.

#[export] Instance api : UrlApi := {|
  Url := string;
  as_str u := u;
  Url_parse s :=
    match cut "://" s with
    | Some (sch, rest) =>
        Ok (match cut "/" rest with
            | Some (a, p) => mk sch a p
            | None => mk sch rest EmptyString
            end)
    | None => Err RelativeUrlWithoutBase
    end;
  Host_parse h := if decide (h = EmptyString) then Err EmptyHost else Ok ();
  scheme := scheme_of;
  host_str u := Some (host_of u);
  port u := port_text u ≫= read_num 0;
  port_or_known_default u :=
    match port_text u ≫= read_num 0 with
    | Some p => Some p
    | None => if decide (scheme_of u = "https") then Some 443%Z
              else if decide (scheme_of u = "http") then Some 80%Z else None
    end;
  set_scheme u s := Some (mk s (authority_of u) (path_of u));
  set_host u h :=
    match h with
    | Some h => Some (mk (scheme_of u) (with_port h (port_text u ≫= read_num 0)) (path_of u))
    | None => None
    end;
  set_port u p := Some (mk (scheme_of u) (with_port (host_of u) p) (path_of u));
  set_path u p := mk (scheme_of u) (authority_of u)
                     (if String.prefix "/" p then String.substring 1 (String.length p - 1) p else p);
  append_pair u k v :=
    String.app u (String.app (match cut "?" u with Some _ => "&" | None => "?" end)
                  (String.app k (String.app "=" v)));
|}.

#[export] Instance eq_laws : UrlEqLaws.
Proof. split. intros u v. simpl. exact id. Qed.

End StrUrl.
