(* ===== verification/DeterministicRng.v ===== *)
(** * The deterministic generator ([src/src/keyrouting/deterministic_rng.rs])

    The xorshift64* generator that turns a partition-key hash into an order of
    the nodes.  The state is a [u64]; shifts and the final multiplication wrap
    at 64 bits.  The theorems: the state never reaches the absorbing value 0
    and distinct states never merge (the step is injective), and an index
    stays below its bound, with the 128-bit product never overflowing. *)

From S2P Require Import Prelude.
From Stdlib Require Import Znumtheory Zpow_facts.

(** [DeterministicRng]: its only field is [state]. *)
Record DeterministicRng := mkRng { state : Z }.

Module Rng.

(** [DeterministicRng::new]: the [i64] seed is read as a [u64], and 0 (on
    which xorshift would be stuck) is replaced by a constant. *)
Definition new (seed : Z) : DeterministicRng :=
  let s := i64_as_u64 seed in
  mkRng (if decide (s = 0)%Z then 0x9e3779b97f4a7c15%Z else s).

(** [value ^= value >> n] *)
Definition xor_shr (n value : Z) : Z := Z.lxor value (Z.shiftr value n).
(** [value ^= value << n] *)
Definition xor_shl (n value : Z) : Z := Z.lxor value (wrap64 (Z.shiftl value n)).

(** The state update of [next_u64]. *)
Definition step (value : Z) : Z := xor_shr 27 (xor_shl 25 (xor_shr 12 value)).

(** [next_u64]: the output and the generator after it. *)
Definition next_u64 (r : DeterministicRng) : Z * DeterministicRng :=
  let value := step (state r) in
  (wrap64 (value * 0x2545f4914f6cdd1d), mkRng value).

(** [index]: [None] is the panic on an upper bound of zero. *)
Definition index (r : DeterministicRng) (upper_bound : Z) : option (Z * DeterministicRng) :=
  if decide (0 < upper_bound)%Z then
    let '(out, r') := next_u64 r in
    Some (wrap64 (Z.shiftr (wrap 128 (out * upper_bound)) 64), r')
  else None.

(** The state invariant: a non-zero [u64]. *)
Definition valid (r : DeterministicRng) : Prop := (0 < state r < 2 ^ 64)%Z.

(** [n] states after [r]. *)
Definition iter_step (n : nat) (r : DeterministicRng) : DeterministicRng :=
  Nat.iter n (λ r, snd (next_u64 r)) r.

(** ** The two halves of a xorshift step are linear with a trivial kernel *)

Lemma xor_shr_kernel n v : (0 < n)%Z → (0 ≤ v)%Z → xor_shr n v = 0%Z → v = 0%Z.
Proof.
  intros Hn Hv H0. destruct (decide (v = 0)%Z) as [|Hne]; [done|exfalso].
  assert (Hb : Z.testbit v (Z.log2 v) = true) by (apply Z.bit_log2; lia).
  assert (Hx : Z.testbit (xor_shr n v) (Z.log2 v) = true).
  { unfold xor_shr. rewrite Z.lxor_spec, Z.shiftr_spec, Hb by apply Z.log2_nonneg.
    rewrite Z.bits_above_log2 by lia. done. }
  rewrite H0, Z.bits_0 in Hx. done.
Qed.

Lemma xor_shl_kernel n v : (0 < n)%Z → is_u64 v → xor_shl n v = 0%Z → v = 0%Z.
Proof.
  unfold xor_shl. intros Hn Hv Hx%Z.lxor_eq. unfold is_u64, wrap64, wrap in *.
  rewrite Z.shiftl_mul_pow2 in Hx by lia.
  assert (Hdiv : (2 ^ 64 | (2 ^ n - 1) * v)%Z).
  { exists (v * 2 ^ n / 2 ^ 64)%Z.
    pose proof (Z.div_mod (v * 2 ^ n) (2 ^ 64) ltac:(lia)) as Hdm. lia. }
  apply Z.gauss in Hdiv.
  - destruct Hdiv as [k Hk]. destruct (decide (k = 0)%Z) as [->|]; lia.
  - apply Z.Symmetric_coprime, Z.coprime_pow_r; [lia|].
    unfold Z.coprime.
    replace (2 ^ n - 1)%Z with (-1 + 2 ^ (n - 1) * 2)%Z; cycle 1.
    { replace n with (n - 1 + 1)%Z at 2 by lia. rewrite Z.pow_add_r by lia. lia. }
    by rewrite Z.gcd_comm, Z.gcd_add_mult_diag_r.
Qed.

Lemma lxor_u64 a b : is_u64 a → is_u64 b → is_u64 (Z.lxor a b).
Proof.
  unfold is_u64. intros Ha Hb.
  assert (Hlog : ∀ x, (0 ≤ x < 2 ^ 64)%Z → (Z.log2 x < 64)%Z).
  { intros x Hx. destruct (decide (x = 0)%Z) as [->|]; [done|apply Z.log2_lt_pow2; lia]. }
  assert (Hnn : (0 ≤ Z.lxor a b)%Z) by (apply Z.lxor_nonneg; lia).
  destruct (decide (Z.lxor a b = 0)%Z) as [->|Hne]; [lia|].
  split; [done|]. apply Z.log2_lt_pow2; [lia|].
  pose proof (Z.log2_lxor a b). pose proof (Hlog a Ha). pose proof (Hlog b Hb). lia.
Qed.

Lemma shiftr_u64 n a : (0 ≤ n)%Z → is_u64 a → is_u64 (Z.shiftr a n).
Proof.
  unfold is_u64. intros Hn Ha. rewrite Z.shiftr_div_pow2 by done.
  split; [apply Z.div_pos; lia|]. apply Z.div_lt_upper_bound; [lia|].
  pose proof (Z.pow_pos_nonneg 2 n). nia.
Qed.

Lemma xor_shr_u64 n a : (0 ≤ n)%Z → is_u64 a → is_u64 (xor_shr n a).
Proof. intros. apply lxor_u64, shiftr_u64; done. Qed.
Lemma xor_shl_u64 n a : is_u64 a → is_u64 (xor_shl n a).
Proof. intros. apply lxor_u64, wrap64_is_u64; done. Qed.

Lemma step_u64 a : is_u64 a → is_u64 (step a).
Proof. intros. apply xor_shr_u64, xor_shl_u64, xor_shr_u64; done || lia. Qed.

Lemma step_kernel a : is_u64 a → step a = 0%Z → a = 0%Z.
Proof.
  intros Ha H0.
  assert (Ha1 : is_u64 (xor_shr 12 a)) by (apply xor_shr_u64; done).
  pose proof (xor_shl_u64 25 _ Ha1) as Ha2.
  apply xor_shr_kernel in H0; [|lia|apply Ha2].
  apply xor_shl_kernel in H0; [|lia|done].
  apply xor_shr_kernel in H0; [done|lia|apply Ha].
Qed.

(** Both shifts distribute over exclusive or, hence so does the step. *)
Lemma step_lxor a b : step (Z.lxor a b) = Z.lxor (step a) (step b).
Proof.
  assert (Hr : ∀ n x y, xor_shr n (Z.lxor x y) = Z.lxor (xor_shr n x) (xor_shr n y)).
  { intros n x y. unfold xor_shr. rewrite Z.shiftr_lxor, !Z.lxor_assoc. f_equal.
    rewrite <-!Z.lxor_assoc, (Z.lxor_comm y). done. }
  assert (Hl : ∀ n x y, xor_shl n (Z.lxor x y) = Z.lxor (xor_shl n x) (xor_shl n y)).
  { intros n x y. unfold xor_shl, wrap64, wrap. rewrite <-!Z.land_ones by lia.
    rewrite Z.shiftl_lxor.
    assert (Hd : ∀ p q m, Z.land (Z.lxor p q) m = Z.lxor (Z.land p m) (Z.land q m)).
    { intros p q m. apply Z.bits_inj'. intros i Hi.
      rewrite ?Z.land_spec, ?Z.lxor_spec, ?Z.land_spec.
      by destruct (Z.testbit p i), (Z.testbit q i), (Z.testbit m i). }
    rewrite Hd, !Z.lxor_assoc. f_equal. rewrite <-!Z.lxor_assoc, (Z.lxor_comm y). done. }
  unfold step. by rewrite Hr, Hl, Hr.
Qed.

Lemma step_inj a b : is_u64 a → is_u64 b → step a = step b → a = b.
Proof.
  intros Ha Hb Hab. apply Z.lxor_eq, step_kernel.
  - by apply lxor_u64.
  - by rewrite step_lxor, Hab, Z.lxor_nilpotent.
Qed.

Lemma valid_u64 r : valid r → is_u64 (state r).
Proof. unfold valid, is_u64. lia. Qed.

Lemma new_valid seed : valid (new seed).
Proof.
  unfold valid, new. case_decide; simpl; [lia|].
  pose proof (wrap64_is_u64 seed). unfold is_u64, i64_as_u64 in *. lia.
Qed.

Lemma next_u64_valid r : valid r → valid (snd (next_u64 r)).
Proof.
  intros Hr. pose proof (step_u64 _ (valid_u64 _ Hr)) as Hs.
  unfold valid, is_u64 in *. simpl.
  assert (step (state r) ≠ 0%Z); [|lia].
  intros H0. apply step_kernel in H0; unfold is_u64; lia.
Qed.

Lemma iter_step_valid n r : valid r → valid (iter_step n r).
Proof. intros Hr. induction n as [|n IH]; simpl; [done|]. by apply next_u64_valid. Qed.

(** The shape of [index] on a positive bound: the wraps are never taken. *)
Lemma index_eq r ub :
  (0 < ub ≤ 2 ^ 64)%Z →
  index r ub = Some ((fst (next_u64 r) * ub) `div` 2 ^ 64, snd (next_u64 r))%Z ∧
  (0 ≤ (fst (next_u64 r) * ub) `div` 2 ^ 64 < ub)%Z.
Proof.
  intros Hub. pose proof (wrap64_is_u64 (step (state r) * 0x2545f4914f6cdd1d)) as Ho.
  unfold index, next_u64. rewrite decide_True by lia. cbn [fst snd].
  set (o := wrap64 _) in *. unfold is_u64 in Ho.
  assert (Hlt : (0 ≤ (o * ub) `div` 2 ^ 64 < ub)%Z).
  { split; [apply Z.div_pos; nia|]. apply Z.div_lt_upper_bound; nia. }
  split; [|done]. unfold wrap. rewrite (Z.mod_small (o * ub)) by nia.
  rewrite Z.shiftr_div_pow2 by lia. rewrite wrap64_small; [done|].
  unfold is_u64. lia.
Qed.
End Rng.

#[global] Arguments Rng.new _ : simpl never.
#[global] Arguments Rng.index _ _ : simpl never.

(** The generator never gets stuck: from any seed (0 included) and after
    any number of draws its state is a non-zero 64-bit integer. *)
Theorem rng_never_stuck (seed : Z) (n : nat) :
  (0 < state (Rng.iter_step n (Rng.new seed)) < 2 ^ 64)%Z.
Proof. apply Rng.iter_step_valid, Rng.new_valid. Qed.

(** Different seeds stay different: two generators in different states
    never reach the same state after the same number of draws, so no two
    partition-key hashes are conflated by the generator. *)
Theorem rng_states_never_merge (r1 r2 : DeterministicRng) (n : nat) :
  Rng.valid r1 → Rng.valid r2 → r1 ≠ r2 →
  Rng.iter_step n r1 ≠ Rng.iter_step n r2.
Proof.
  intros H1 H2 Hne. induction n as [|n IH]; simpl; [done|]. intros [= Heq].
  apply Rng.step_inj in Heq.
  - apply IH. destruct (Rng.iter_step n r1), (Rng.iter_step n r2). simpl in *. congruence.
  - by apply Rng.valid_u64, Rng.iter_step_valid.
  - by apply Rng.valid_u64, Rng.iter_step_valid.
Qed.

Lemma rng_states_never_merge_witness :
  Rng.iter_step 3 (Rng.new 42) ≠ Rng.iter_step 3 (Rng.new (-1)).
Proof.
  apply (rng_states_never_merge (Rng.new 42) (Rng.new (-1)) 3).
  - vm_compute. split; reflexivity.
  - vm_compute. split; reflexivity.
  - vm_compute. discriminate.
Defined.

(** [index] panics exactly on a zero bound; on a bound of at most [2^64] it
    returns an index below the bound, the 128-bit product does not overflow and
    the index is the high half of that product. *)
Theorem rng_index_in_bounds (r : DeterministicRng) (upper_bound : Z) :
  (0 ≤ upper_bound ≤ 2 ^ 64)%Z →
  match Rng.index r upper_bound with
  | None => upper_bound = 0%Z
  | Some (i, r') =>
      (0 ≤ i < upper_bound)%Z ∧ r' = snd (Rng.next_u64 r) ∧
      (fst (Rng.next_u64 r) * upper_bound < 2 ^ 128)%Z ∧
      i = ((fst (Rng.next_u64 r) * upper_bound) `div` 2 ^ 64)%Z
  end.
Proof.
  intros Hub. destruct (decide (upper_bound = 0)%Z) as [->|Hne]; [done|].
  destruct (Rng.index_eq r upper_bound) as [-> Hi]; [lia|].
  pose proof (wrap64_is_u64 (Rng.step (state r) * 0x2545f4914f6cdd1d)) as Ho.
  unfold is_u64 in Ho. simpl fst in *. repeat split; try done; try lia. nia.
Qed.

Lemma rng_index_in_bounds_witness :
  match Rng.index (Rng.new 42) 10 with
  | None => (10 = 0)%Z
  | Some (i, r') =>
      (0 ≤ i < 10)%Z ∧ r' = snd (Rng.next_u64 (Rng.new 42)) ∧
      (fst (Rng.next_u64 (Rng.new 42)) * 10 < 2 ^ 128)%Z ∧
      i = ((fst (Rng.next_u64 (Rng.new 42)) * 10) `div` 2 ^ 64)%Z
  end.
Proof. apply (rng_index_in_bounds (Rng.new 42) 10). lia. Defined.
