(* ===== verification/NodeUrl.v ===== *)
(** * Node addresses ([build_seed_url] and friends of [src/src/live_nodes.rs])

    How a host name or address from the configuration or from a [/localnodes]
    response becomes a URL.  The URI-scheme check and the IPv6 test are written
    out ([std::net::Ipv6Addr]'s parser is the standard library's, of which the
    verdict is used); parsing and editing the URL is the [url] crate's. *)

From S2P Require Import Prelude UrlApi.
From Stdlib Require Import Ascii.

(** ** ASCII classes of [u8] *)

Module AsciiClass.

Definition code (c : Ascii.ascii) : N := Ascii.N_of_ascii c.
Definition between (lo hi : N) (c : Ascii.ascii) : bool :=
  N.leb lo (code c) && N.leb (code c) hi.
Definition is_digit (c : Ascii.ascii) : bool := between 48 57 c.
Definition is_lower (c : Ascii.ascii) : bool := between 97 122 c.
Definition is_upper (c : Ascii.ascii) : bool := between 65 90 c.
Definition is_alphabetic (c : Ascii.ascii) : bool := is_lower c || is_upper c.
Definition is_alphanumeric (c : Ascii.ascii) : bool := is_alphabetic c || is_digit c.
Definition is_hexdigit (c : Ascii.ascii) : bool :=
  is_digit c || between 97 102 c || between 65 70 c.
(** [u8::is_ascii_whitespace]: space, tab, LF, FF, CR. *)
Definition is_ascii_whitespace (c : Ascii.ascii) : bool :=
  bool_decide (code c ∈ [32; 9; 10; 12; 13]%N).
Definition to_lower (c : Ascii.ascii) : Ascii.ascii :=
  if is_upper c then Ascii.ascii_of_N (code c + 32) else c.

End AsciiClass.

(** [bytes().all(p)]. *)
Fixpoint str_all (p : Ascii.ascii → bool) (s : string) : bool :=
  match s with
  | EmptyString => true
  | String c s' => p c && str_all p s'
  end.

(** [to_ascii_lowercase] and [eq_ignore_ascii_case]. *)
Fixpoint to_ascii_lowercase (s : string) : string :=
  match s with
  | EmptyString => EmptyString
  | String c s' => String (AsciiClass.to_lower c) (to_ascii_lowercase s')
  end.
Definition eq_ignore_ascii_case (s t : string) : bool :=
  bool_decide (to_ascii_lowercase s = to_ascii_lowercase t).

(** [strip_prefix] and [strip_suffix] of a string pattern. *)
Fixpoint strip_prefix (p s : string) : option string :=
  match p, s with
  | EmptyString, _ => Some s
  | String a p', String b s' => if Ascii.eqb a b then strip_prefix p' s' else None
  | String _ _, EmptyString => None
  end.
Definition strip_suffix (p s : string) : option string :=
  String.rev <$> strip_prefix (String.rev p) (String.rev s).

(** ** [std::net::Ipv6Addr::from_str], verdict only

    A parser is a function from the input to what is left of it. *)
Module Ipv6.

Definition given_char (c : Ascii.ascii) (s : string) : option string :=
  match s with
  | String c' s' => if Ascii.eqb c c' then Some s' else None
  | EmptyString => None
  end.

(** At least one and at most [max] characters of the class are consumed;
    one more of them is an error ([read_number] with a digit limit). *)
Fixpoint skip_class (p : Ascii.ascii → bool) (max : nat) (s : string) : option string :=
  match s with
  | String c s' =>
      if p c then match max with O => None | S m => skip_class p m s' end else Some s
  | EmptyString => Some EmptyString
  end.
Definition read_hex_group (s : string) : option string :=
  match s with
  | String c _ => if AsciiClass.is_hexdigit c then skip_class AsciiClass.is_hexdigit 4 s else None
  | EmptyString => None
  end.

(** A decimal octet: at most three digits, no leading zero, at most 255. *)
Fixpoint octet_digits (max : nat) (acc : Z) (s : string) : option (Z * string) :=
  match s with
  | String c s' =>
      if AsciiClass.is_digit c then
        match max with
        | O => None
        | S m => octet_digits m (acc * 10 + Z.of_N (AsciiClass.code c) - 48)%Z s'
        end
      else Some (acc, s)
  | EmptyString => Some (acc, s)
  end.
Definition read_octet (s : string) : option string :=
  match s with
  | String c s' =>
      if AsciiClass.is_digit c then
        '(v, rest) ← octet_digits 3 0 s;
        if decide (255 < v)%Z then None
        else if Ascii.eqb c "0"%char && negb (bool_decide (rest = s')) then None
        else Some rest
      else None
  | EmptyString => None
  end.
Definition read_ipv4 (s : string) : option string :=
  s ← read_octet s; s ← given_char "."%char s;
  s ← read_octet s; s ← given_char "."%char s;
  s ← read_octet s; s ← given_char "."%char s; read_octet s.

(** [read_separator(':', i, p)]: the separator precedes all but the first. *)
Definition separated (i : nat) (p : string → option string) (s : string) : option string :=
  match i with O => p s | S _ => s ← given_char ":"%char s; p s end.

(** [read_groups] with [left] slots left from slot [i]: how many groups were
    read, whether they ended in an IPv4 address, and the rest. *)
Fixpoint read_groups (left i : nat) (s : string) : nat * bool * string :=
  match left with
  | O => (i, false, s)
  | S left' =>
      match (match left' with O => None | S _ => separated i read_ipv4 s end) with
      | Some rest => (i + 2, true, rest)
      | None =>
          match separated i read_hex_group s with
          | Some rest => read_groups left' (S i) rest
          | None => (i, false, s)
          end
      end
  end.

Definition read_ipv6 (s : string) : option string :=
  let '(head_size, head_ipv4, rest) := read_groups 8 0 s in
  if decide (head_size = 8) then Some rest
  else if head_ipv4 then None
  else
    rest ← given_char ":"%char rest; rest ← given_char ":"%char rest;
    let '(_, _, rest) := read_groups (8 - (head_size + 1)) 0 rest in Some rest.

(** [s.parse::<Ipv6Addr>().is_ok()]: the whole input is consumed. *)
Definition is_ok (s : string) : bool := bool_decide (read_ipv6 s = Some EmptyString).

Example ipv6_examples :
  (is_ok <$> ["::1"; "2001:db8::8a2e:370:7334"; "::ffff:192.0.2.128"; "1:2:3:4:5:6:7:8"; "::"],
   is_ok <$> ["127.0.0.1"; "node1"; "1:2:3:4:5:6:7"; "1::2::3"; "12345::"; "[::1]"; "::1%eth0";
              "1:2:3:4:5:6:7:8:9"; "::256.1.1.1"; "::01.1.1.1"; ":1"; EmptyString]) =
  ([true; true; true; true; true],
   [false; false; false; false; false; false; false; false; false; false; false; false]).
Proof. vm_compute. reflexivity. Qed.

End Ipv6.

Module NodeUrl.
Section node_url.
Context `{UrlApi}.

(** [is_valid_uri_scheme]. *)
Definition is_valid_uri_scheme (sch : string) : bool :=
  match sch with
  | EmptyString => false
  | String first rest =>
      AsciiClass.is_alphabetic first &&
      str_all (λ b, AsciiClass.is_alphanumeric b
                    || Ascii.eqb b "+"%char || Ascii.eqb b "-"%char || Ascii.eqb b "."%char) rest
  end.

(** [build_node_url]. *)
Definition build_node_url (sch addr : string) (p : option Z) : Result Url ParseError :=
  if negb (is_valid_uri_scheme sch) then Err RelativeUrlWithoutBase
  else
    let authority :=
      if Ipv6.is_ok addr then String.app "[" (String.app addr "]") else addr in
    result_bind (Url_parse (String.app sch (String.app "://" authority))) (λ url,
    ok_or (set_port url p) InvalidPort).

(** [build_seed_url]: an address may come in brackets; what is not an IPv6
    address must be a host on its own. *)
Definition build_seed_url (sch addr : string) (p : option Z) : Result Url ParseError :=
  let unbracketed :=
    default addr (strip_prefix "[" addr ≫= strip_suffix "]") in
  if Ipv6.is_ok unbracketed then build_node_url sch unbracketed p
  else result_bind (Host_parse addr) (λ _, build_node_url sch unbracketed p).

(** [node_is_in_list]. *)
Definition node_is_in_list (node : Url) (nodes : list Url) : bool :=
  existsb (λ known, bool_decide (host_str known = host_str node) &&
                    bool_decide (port_or_known_default known = port_or_known_default node)) nodes.

End node_url.
End NodeUrl.
