(* ===== verification/RoutingScope.v ===== *)
(** * Routing scopes ([src/src/routing_scope.rs])

    A scope is a preferred set of nodes (cluster, datacenter or rack) with an
    optional fallback scope, so a scope is a non-empty finite chain.  [chain]
    is [std::iter::successors(Some(self), |s| s.fallback())], the iteration the
    code uses everywhere.  The theorems: appending a fallback is associative
    and appends at the end of the chain; the affinity chain computed by
    [without_rack] is the first-occurrence deduplication of the widened
    chain, in order, without rack restrictions; and in every scope a caller
    can build, [is_cluster] agrees with the discovery query that is sent. *)

From S2P Require Import Prelude UrlApi.

(** [RoutingScope]. *)
Inductive RoutingScope : Type :=
| mkScope (dc : option string) (rack : option string) (fallback : option RoutingScope).

(** [DiscoveryOperation]. *)
Inductive DiscoveryOperation : Type :=
| Cluster
| Datacenter (dc : string)
| Rack (dc rack : string).

#[export] Instance DiscoveryOperation_eq_dec : EqDecision DiscoveryOperation.
Proof. solve_decision. Defined.
#[export] Instance DiscoveryOperation_countable : Countable DiscoveryOperation.
Proof.
  refine (inj_countable'
    (λ op, match op with
           | Cluster => inl ()
           | Datacenter d => inr (inl d)
           | Rack d r => inr (inr (d, r))
           end)
    (λ x, match x with
          | inl () => Cluster
          | inr (inl d) => Datacenter d
          | inr (inr (d, r)) => Rack d r
          end) _).
  by intros [].
Defined.

Module Scope.

(** The accessors. *)
Definition dc (s : RoutingScope) : option string := let '(mkScope d _ _) := s in d.
Definition rack (s : RoutingScope) : option string := let '(mkScope _ r _) := s in r.
Definition fallback (s : RoutingScope) : option RoutingScope := let '(mkScope _ _ f) := s in f.

(** ** Constructors *)

Definition from_cluster : RoutingScope := mkScope None None None.

Definition from_datacenter (d : string) : RoutingScope :=
  if decide (d = EmptyString) then from_cluster else mkScope (Some d) None None.

Definition from_rack (d r : string) : RoutingScope :=
  if decide (d = EmptyString) then from_cluster
  else if decide (r = EmptyString) then from_datacenter d
  else mkScope (Some d) (Some r) None.

(** The loop of [with_fallback] walks to the end of the chain and hangs the new
    scope there. *)
Fixpoint with_fallback (s new_fallback : RoutingScope) : RoutingScope :=
  match s with
  | mkScope d r None => mkScope d r (Some new_fallback)
  | mkScope d r (Some f) => mkScope d r (Some (with_fallback f new_fallback))
  end.

(** [std::iter::successors(Some(self), |scope| scope.fallback())]. *)
Fixpoint chain (s : RoutingScope) : list RoutingScope :=
  s :: match s with
       | mkScope _ _ None => []
       | mkScope _ _ (Some f) => chain f
       end.

(** ** Queries *)

Definition is_cluster (s : RoutingScope) : bool :=
  bool_decide (dc s = None) && bool_decide (rack s = None).

Definition discovery_operation (s : RoutingScope) : DiscoveryOperation :=
  match dc s, rack s with
  | Some d, Some r => Rack d r
  | Some d, None => Datacenter d
  | None, _ => Cluster
  end.

Definition has_rack_restriction (s : RoutingScope) : bool :=
  existsb (λ c, bool_decide (is_Some (rack c))) (chain s).

(** [Self { dc: current.dc.clone(), rack: None, fallback: None }]. *)
Definition widened (current : RoutingScope) : RoutingScope := mkScope (dc current) None None.

(** The loop of [without_rack]: [seen] is the hash set of queries already in the
    result, and the recursive call builds what the [tail] pointer is at. *)
Fixpoint widen_chain (seen : gset DiscoveryOperation) (l : list RoutingScope)
    : option RoutingScope :=
  match l with
  | [] => None
  | current :: l' =>
      let op := discovery_operation (widened current) in
      if decide (op ∈ seen) then widen_chain seen l'
      else Some (mkScope (dc current) None (widen_chain ({[op]} ∪ seen) l'))
  end.

(** [without_rack]; [None] is the panic of [expect]. *)
Definition without_rack (s : RoutingScope) : option RoutingScope := widen_chain ∅ (chain s).

(** ** The [/localnodes] URL of a scope *)

Definition build_localnodes_url_op `{UrlApi} (op : DiscoveryOperation) (base_url : Url) : Url :=
  let base_url := set_path base_url "/localnodes" in
  match op with
  | Cluster => base_url
  | Datacenter d => append_pair base_url "dc" d
  | Rack d r => append_pair (append_pair base_url "dc" d) "rack" r
  end.

Definition build_localnodes_url `{UrlApi} (s : RoutingScope) (base_url : Url) : Url :=
  build_localnodes_url_op (discovery_operation s) base_url.

(** ** Specification-side views of a chain *)

(** What distinguishes the links of a chain: their own datacenter and rack. *)
Definition levels (s : RoutingScope) : list (option string * option string) :=
  (λ c, (dc c, rack c)) <$> chain s.

(** The discovery queries of a chain, in order of preference. *)
Definition operations (s : RoutingScope) : list DiscoveryOperation :=
  discovery_operation <$> chain s.

(** The query of a link once its rack restriction is dropped. *)
Definition widen_op (op : DiscoveryOperation) : DiscoveryOperation :=
  match op with
  | Rack d _ => Datacenter d
  | op => op
  end.

(** A scope never restricts the rack without naming the datacenter. *)
Definition wf (s : RoutingScope) : Prop :=
  Forall (λ c, is_Some (rack c) → is_Some (dc c)) (chain s).

(** The scopes a caller can build: the public constructors and [with_fallback],
    and the affinity chain the client derives from them. *)
Inductive buildable : RoutingScope → Prop :=
| build_cluster : buildable from_cluster
| build_datacenter d : buildable (from_datacenter d)
| build_rack d r : buildable (from_rack d r)
| build_fallback s f : buildable s → buildable f → buildable (with_fallback s f)
| build_widened s w : buildable s → without_rack s = Some w → buildable w.

End Scope.

(** Keeps the first occurrence of every element. *)
Fixpoint dedup_first {A} `{Countable A} (seen : gset A) (l : list A) : list A :=
  match l with
  | [] => []
  | x :: l' => if decide (x ∈ seen) then dedup_first seen l'
               else x :: dedup_first ({[x]} ∪ seen) l'
  end.

(** ** Lemmas: first-occurrence deduplication *)

Section dedup_first.
Context {A} `{Countable A}.
Implicit Types (l : list A) (seen : gset A).

Lemma elem_of_dedup_first seen l x : x ∈ dedup_first seen l ↔ x ∈ l ∧ x ∉ seen.
Proof.
  revert seen. induction l as [|y l IH]; intros seen; simpl; [set_solver|].
  case_decide; rewrite ?elem_of_cons, IH; clear IH;
    destruct (decide (x = y)) as [->|]; set_solver.
Qed.

Lemma NoDup_dedup_first seen l : NoDup (dedup_first seen l).
Proof.
  revert seen. induction l as [|y l IH]; intros seen; simpl; [constructor|].
  case_decide; [done|]. constructor; [|done]. rewrite elem_of_dedup_first. set_solver.
Qed.

Lemma dedup_first_id seen l :
  NoDup l → (∀ x, x ∈ l → x ∉ seen) → dedup_first seen l = l.
Proof.
  intros Hnd. revert seen. induction Hnd as [|y l Hy Hnd IH]; intros seen Hs; simpl; [done|].
  rewrite decide_False by set_solver. f_equal. apply IH. set_solver.
Qed.

Lemma dedup_first_sublist seen l : dedup_first seen l `sublist_of` l.
Proof.
  revert seen. induction l as [|y l IH]; intros seen; simpl; [constructor|].
  case_decide; constructor; apply IH.
Qed.

End dedup_first.

(** ** Lemmas: chains *)

Module ScopeFacts.
Import Scope.

(** Induction along the fallback chain. *)
Lemma scope_ind (P : RoutingScope → Prop) :
  (∀ d r, P (mkScope d r None)) →
  (∀ d r f, P f → P (mkScope d r (Some f))) →
  ∀ s, P s.
Proof.
  intros H0 H1. fix IH 1. intros [d r [f|]]; [apply H1, IH|apply H0].
Qed.

Lemma chain_cons s : chain s = s :: from_option chain [] (fallback s).
Proof. by destruct s as [d r [f|]]. Qed.

Lemma levels_with_fallback s f : levels (with_fallback s f) = levels s ++ levels f.
Proof.
  unfold levels. induction s as [d r|d r s IH] using scope_ind; simpl; [done|].
  f_equal. exact IH.
Qed.

Lemma with_fallback_assoc s f g :
  with_fallback (with_fallback s f) g = with_fallback s (with_fallback f g).
Proof. induction s as [d r|d r s IH] using scope_ind; simpl; by rewrite ?IH. Qed.

Lemma operations_widen_chain seen l w :
  widen_chain seen l = Some w →
  operations w = dedup_first seen (widen_op <$> (discovery_operation <$> l)).
Proof.
  revert seen w. induction l as [|c l IH]; intros seen w; simpl; [done|].
  assert (Hop : discovery_operation (widened c) = widen_op (discovery_operation c)).
  { by destruct c as [[d|] [r|] f]. }
  rewrite <-Hop. case_decide; [by apply IH|]. intros [= <-].
  unfold operations. rewrite chain_cons. cbn [fmap list_fmap fallback]. f_equal.
  destruct (widen_chain _ l) as [w'|] eqn:Hw; [by apply IH in Hw|].
  simpl. symmetry. clear IH. revert Hw. generalize ({[discovery_operation (widened c)]} ∪ seen).
  induction l as [|c' l IH']; intros seen'; simpl; [done|].
  assert (Hop' : discovery_operation (widened c') = widen_op (discovery_operation c')).
  { by destruct c' as [[d|] [r|] f]. }
  rewrite <-Hop'. case_decide; [apply IH'|done].
Qed.

Lemma widen_chain_no_rack seen l w c :
  widen_chain seen l = Some w → c ∈ chain w → rack c = None.
Proof.
  revert seen w. induction l as [|c' l IH]; intros seen w; simpl; [done|].
  case_decide; [by apply IH|]. intros [= <-]. rewrite chain_cons, elem_of_cons.
  intros [->|Hc]; [done|]. simpl in Hc.
  destruct (widen_chain _ l) as [w'|] eqn:Hw; simpl in Hc; [by eapply IH|set_solver].
Qed.

Lemma without_rack_is_Some s : is_Some (without_rack s).
Proof.
  unfold without_rack. rewrite chain_cons. simpl.
  rewrite decide_False by set_solver. by eexists.
Qed.

Lemma has_rack_restriction_false s :
  has_rack_restriction s = false ↔ Forall (λ c, rack c = None) (chain s).
Proof.
  unfold has_rack_restriction. rewrite <-not_true_iff_false, existsb_exists, Forall_forall.
  setoid_rewrite <-list_elem_of_In. setoid_rewrite bool_decide_eq_true. split.
  - intros Hn c Hc. destruct (rack c) eqn:Hr; [|done]. exfalso. apply Hn. eauto.
  - intros Hf (c & Hc & [r Hr]). by rewrite Hf in Hr.
Qed.

Lemma wf_levels s : wf s ↔ Forall (λ p, is_Some p.2 → is_Some p.1) (levels s).
Proof. unfold wf, levels. by rewrite Forall_fmap. Qed.

Lemma wf_with_fallback s f : wf s → wf f → wf (with_fallback s f).
Proof. rewrite !wf_levels, levels_with_fallback. intros. by apply Forall_app. Qed.

Lemma wf_buildable s : buildable s → wf s.
Proof.
  induction 1 as [|d|d r|s f _ IHs _ IHf|s w _ _ Hw].
  - repeat constructor. by intros [? [=]].
  - unfold from_datacenter. case_decide; repeat constructor; by intros [? [=]].
  - unfold from_rack, from_datacenter. repeat case_decide; repeat constructor; by intros [? [=]].
  - by apply wf_with_fallback.
  - apply Forall_forall. intros c Hc [r Hr].
    by rewrite (widen_chain_no_rack _ _ _ _ Hw Hc) in Hr.
Qed.

Lemma is_cluster_operation s :
  (is_Some (rack s) → is_Some (dc s)) →
  is_cluster s = true ↔ discovery_operation s = Cluster.
Proof.
  destruct s as [[d|] [r|] f]; unfold is_cluster, discovery_operation; simpl;
    [by split|by split| |by split].
  intros Hs. destruct Hs as [? [=]]. by eexists.
Qed.

Lemma widen_op_idemp op : widen_op (widen_op op) = widen_op op.
Proof. by destruct op. Qed.

Lemma operations_no_rack s :
  Forall (λ c, rack c = None) (chain s) → widen_op <$> operations s = operations s.
Proof.
  intros Hf. unfold operations. rewrite <-list_fmap_compose. apply list_fmap_ext.
  intros i c Hi. eapply Forall_lookup_1 in Hf; [|done].
  destruct c as [[d|] r f]; simpl in *; by subst.
Qed.

End ScopeFacts.

Section properties.
Import Scope ScopeFacts.

Lemma widen_chain_dcs seen l1 l2 :
  dc <$> l1 = dc <$> l2 → widen_chain seen l1 = widen_chain seen l2.
Proof.
  revert seen l2. induction l1 as [|c1 l1 IH]; intros seen [|c2 l2]; simpl; try done.
  intros [= Hdc Hl].
  assert (widened c1 = widened c2) as -> by (unfold widened; congruence).
  case_decide; [by apply IH|]. by rewrite Hdc, (IH _ _ Hl).
Qed.

Lemma widen_chain_fixed seen w :
  Forall (λ c, rack c = None) (chain w) → NoDup (operations w) →
  (∀ op, op ∈ operations w → op ∉ seen) →
  widen_chain seen (chain w) = Some w.
Proof.
  revert seen. induction w as [d r|d r w IH] using scope_ind; intros seen Hr Hnd Hs.
  - apply Forall_cons in Hr as [Hr _]. assert (r = None) as -> by exact Hr. simpl.
    rewrite decide_False; [done|]. apply Hs. unfold operations. simpl. by left.
  - simpl in Hr. apply Forall_cons in Hr as [Hr0 Hr]. assert (r = None) as -> by exact Hr0.
    unfold operations in Hnd, Hs. simpl in Hnd, Hs. apply NoDup_cons in Hnd as [Hn Hnd].
    simpl. rewrite decide_False by (apply Hs; by left).
    rewrite IH; [done|done|done|]. intros op Hop.
    assert (op ≠ discovery_operation (mkScope d None (Some w))) by (intros ->; done).
    assert (op ∉ seen) by (apply Hs; by right).
    change (discovery_operation (widened (mkScope d None (Some w))))
      with (discovery_operation (mkScope d None (Some w))). set_solver.
Qed.

(** Calling [with_fallback] repeatedly or on a pre-built chain makes no
    difference: the operation is associative, keeps the preferred scope, and the
    links of the result are the links of the old chain followed by the new ones,
    so the order in the code is the order of preference. *)
Theorem with_fallback_appends (s f g : RoutingScope) :
  with_fallback (with_fallback s f) g = with_fallback s (with_fallback f g) ∧
  levels (with_fallback s f) = levels s ++ levels f ∧
  head (levels (with_fallback s f)) = Some (dc s, rack s).
Proof.
  split; [apply with_fallback_assoc|]. split; [apply levels_with_fallback|].
  rewrite levels_with_fallback. unfold levels. by rewrite (chain_cons s).
Qed.

(** [without_rack] never panics; its result has no rack restriction anywhere
    in the chain and sends the discovery queries of the original chain with
    racks widened to their datacenter, each at its first occurrence and in the
    original order of preference. *)
Theorem without_rack_widens (s : RoutingScope) :
  ∃ w, without_rack s = Some w ∧
    has_rack_restriction w = false ∧
    operations w = dedup_first ∅ (widen_op <$> operations s) ∧
    NoDup (operations w).
Proof.
  destruct (without_rack_is_Some s) as [w Hw]. exists w. split; [done|].
  pose proof (operations_widen_chain _ _ _ Hw) as Hops. split; [|split].
  - apply has_rack_restriction_false, Forall_forall. intros c.
    by apply (widen_chain_no_rack _ _ _ _ Hw).
  - by rewrite Hops.
  - rewrite Hops. apply NoDup_dedup_first.
Qed.

(** The affinity chain depends on the datacenters of the configured chain
    only: clients whose scopes differ in their racks alone derive the same
    affinity chain, and deriving it again changes nothing. *)
Theorem affinity_chain_ignores_racks (s1 s2 : RoutingScope) :
  dc <$> chain s1 = dc <$> chain s2 →
  without_rack s1 = without_rack s2 ∧
  ∀ w, without_rack s1 = Some w → without_rack w = Some w.
Proof.
  intros Hdc. split; [by apply widen_chain_dcs|]. intros w Hw.
  apply widen_chain_fixed; [| |set_solver].
  - apply Forall_forall. intros c. by apply (widen_chain_no_rack _ _ _ _ Hw).
  - rewrite (operations_widen_chain _ _ _ Hw). apply NoDup_dedup_first.
Qed.

Lemma affinity_chain_ignores_racks_witness :
  let s1 := with_fallback (from_rack "A" "r1") (from_datacenter "B") in
  let s2 := with_fallback (from_rack "A" "r2") (from_rack "B" "r9") in
  without_rack s1 = without_rack s2 ∧
  ∀ w, without_rack s1 = Some w → without_rack w = Some w.
Proof.
  apply (affinity_chain_ignores_racks
    (with_fallback (from_rack "A" "r1") (from_datacenter "B"))
    (with_fallback (from_rack "A" "r2") (from_rack "B" "r9"))).
  reflexivity.
Defined.

(** In every scope that can be built (constructors, fallbacks, derived
    affinity chains) no link restricts a rack without a datacenter, hence
    [is_cluster], which decides that responses are aggregated, holds exactly for
    the links whose query is the cluster-wide one. *)
Theorem buildable_is_cluster (s c : RoutingScope) :
  buildable s → c ∈ chain s →
  (is_Some (rack c) → is_Some (dc c)) ∧
  (is_cluster c = true ↔ discovery_operation c = Cluster).
Proof.
  intros Hs Hc. pose proof (wf_buildable s Hs) as Hwf.
  unfold wf in Hwf. rewrite Forall_forall in Hwf.
  split; [by apply Hwf|]. by apply is_cluster_operation, Hwf.
Qed.

Lemma buildable_is_cluster_witness :
  (is_Some (rack from_cluster) → is_Some (dc from_cluster)) ∧
  (is_cluster from_cluster = true ↔ discovery_operation from_cluster = Cluster).
Proof.
  apply (buildable_is_cluster (with_fallback (from_rack "A" "r1") from_cluster)).
  - apply build_fallback; constructor.
  - right. left.
Defined.

(** The chain of the affinity documentation: [rack(A,r1) -> rack(B,r2) ->
    cluster] becomes [DC(A) -> DC(B) -> cluster]. *)
Example widened_readme_chain :
  operations <$> without_rack
    (with_fallback (with_fallback (from_rack "A" "r1") (from_rack "B" "r2")) from_cluster)
  = Some [Datacenter "A"; Datacenter "B"; Cluster].
Proof. vm_compute. reflexivity. Qed.

End properties.
