(* ===== verification/LiveNodes.v ===== *)
(** * The node view ([NodeView] and the read path of [src/src/live_nodes.rs])

    A [NodeView] is the current membership of one routing scope, a rotation
    counter for round robin and the generations that order refreshes.  Its
    operations are atomic (each publication holds the refresh mutex), so a
    concurrent history is a sequence of [ViewEvent]s.  The theorems: membership
    never becomes empty, the newest refresh wins whatever the order in which
    refreshes finish, and round robin hands out every live node once before
    giving up, starting where the shared counter points. *)

From S2P Require Import Prelude UrlApi NodeUrl RoutingScope.

(** [NodeView], with its [RefreshState] inlined. *)
Record NodeView `{UrlApi} := mkView {
  routing_scope : RoutingScope;
  counter : Z;
  live_nodes : list Url;
  next_generation : Z;
  latest_published_generation : Z;
}.

(** What runs atomically on a view: [begin_refresh], the publications with the
    generation of the refresh they belong to, and a round-robin draw. *)
Inductive ViewEvent `{UrlApi} : Type :=
| EvBegin
| EvPublish (generation : Z) (new_nodes : list Url)
| EvPartial (generation : Z) (discovered : list Url)
| EvDraw (used_nodes : gset Url).

Module View.
Section view.
Context `{UrlApi}.

(** [sort_by(|a, b| a.as_str().cmp(b.as_str()))] then
    [dedup_by(|a, b| a.as_str() == b.as_str())]. *)
Definition sort_dedup (nodes : list Url) : list Url :=
  dedup_by (same_key as_str) (sort_by_key as_str nodes).

(** [NodeView::new]. *)
Definition new (scope : RoutingScope) (nodes : list Url) : NodeView :=
  mkView _ scope 0 nodes 0 0.

Definition set_live_nodes (nodes : list Url) (v : NodeView) : NodeView :=
  mkView _ (routing_scope v) (counter v) nodes (next_generation v)
    (latest_published_generation v).
Definition set_published (g : Z) (v : NodeView) : NodeView :=
  mkView _ (routing_scope v) (counter v) (live_nodes v) (next_generation v) g.
Definition set_counter (c : Z) (v : NodeView) : NodeView :=
  mkView _ (routing_scope v) c (live_nodes v) (next_generation v)
    (latest_published_generation v).
Definition set_next_generation (g : Z) (v : NodeView) : NodeView :=
  mkView _ (routing_scope v) (counter v) (live_nodes v) g
    (latest_published_generation v).

(** [begin_refresh]: [None] is the panic of [expect] on overflow. *)
Definition begin_refresh (v : NodeView) : option (Z * NodeView) :=
  let g := (next_generation v + 1)%Z in
  if decide (g < 2 ^ 64)%Z then Some (g, set_next_generation g v) else None.

(** [publish_live_nodes]. *)
Definition publish_live_nodes (generation : Z) (new_nodes : list Url) (v : NodeView) : NodeView :=
  if decide (generation < latest_published_generation v)%Z then v
  else
    let v := if decide (live_nodes v ≠ new_nodes) then set_live_nodes new_nodes v else v in
    set_published generation v.

(** [publish_partial_cluster_live_nodes]. *)
Definition publish_partial_cluster_live_nodes (generation : Z) (discovered : list Url)
    (v : NodeView) : NodeView :=
  if decide (generation < latest_published_generation v)%Z then v
  else
    let partial := sort_dedup (live_nodes v ++ discovered) in
    let v := if decide (live_nodes v ≠ partial) then set_live_nodes partial v else v in
    set_published generation v.

(** The [for i in 0..len] loop of the round robin, from iteration [i] on with
    [left] iterations left. *)
Fixpoint rr_scan (nodes : list Url) (used_nodes : gset Url) (start : nat) (left i : nat)
    : option Url :=
  match left with
  | O => None
  | S left' =>
      match nodes !! ((start + i) `mod` length nodes) with
      | Some node =>
          if decide (node ∈ used_nodes) then rr_scan nodes used_nodes start left' (S i)
          else Some node
      | None => None
      end
  end.

(** [get_next_node_round_robin] on the view: [fetch_add] wraps the counter at
    the width of [usize]. *)
Definition get_next_node_round_robin (used_nodes : gset Url) (v : NodeView)
    : option Url * NodeView :=
  let nodes := live_nodes v in
  let len := length nodes in
  if bool_decide (len = 0) || forallb (λ n, bool_decide (n ∈ used_nodes)) nodes then (None, v)
  else
    let start := Z.to_nat (counter v `mod` Z.of_nat len) in
    (rr_scan nodes used_nodes start len 0, set_counter (wrap64 (counter v + 1)) v).

(** One atomic action; a refresh that would overflow its generation panics
    before it changes anything. *)
Definition apply_event (e : ViewEvent) (v : NodeView) : NodeView :=
  match e with
  | EvBegin => from_option snd v (begin_refresh v)
  | EvPublish g nodes => publish_live_nodes g nodes v
  | EvPartial g nodes => publish_partial_cluster_live_nodes g nodes v
  | EvDraw used => snd (get_next_node_round_robin used v)
  end.

(** A history: the events in the order in which they take the lock. *)
Definition run_events (es : list ViewEvent) (v : NodeView) : NodeView :=
  foldl (λ v e, apply_event e v) v es.

(** What the refresh code publishes: never an empty list. *)
Definition publishes_nodes (e : ViewEvent) : Prop :=
  match e with
  | EvPublish _ nodes | EvPartial _ nodes => nodes ≠ []
  | _ => True
  end.

(** ** Specification: the newest refresh wins

    The full publications of a history, newest generation last among those
    that count: a publication counts unless a newer generation was published
    before it. *)
Definition publication (e : ViewEvent) : option (Z * list Url) :=
  match e with EvPublish g nodes => Some (g, nodes) | _ => None end.

(** The publication with the highest generation; the later of two equals. *)
Fixpoint newest (best : Z * list Url) (ps : list (Z * list Url)) : Z * list Url :=
  match ps with
  | [] => best
  | p :: ps' => newest (if decide (p.1 < best.1)%Z then best else p) ps'
  end.

End view.
End View.

Module ViewFacts.
Import View.
Section facts.
Context `{UrlApi}.
Implicit Types (v : NodeView) (nodes : list Url) (used : gset Url).

(** Both publications, without the conditional store. *)
Lemma publish_eq g nodes v :
  publish_live_nodes g nodes v =
  if decide (g < latest_published_generation v)%Z then v
  else set_published g (set_live_nodes nodes v).
Proof.
  unfold publish_live_nodes. case_decide; [done|]. case_decide as Hn; [done|].
  destruct v; simpl in *. by subst.
Qed.

Lemma publish_partial_eq g nodes v :
  publish_partial_cluster_live_nodes g nodes v =
  if decide (g < latest_published_generation v)%Z then v
  else set_published g (set_live_nodes (sort_dedup (live_nodes v ++ nodes)) v).
Proof.
  unfold publish_partial_cluster_live_nodes. case_decide; [done|]. case_decide as Hn; [done|].
  destruct v; simpl in *. by rewrite <-Hn.
Qed.

Lemma draw_live_nodes used v :
  live_nodes (snd (get_next_node_round_robin used v)) = live_nodes v ∧
  latest_published_generation (snd (get_next_node_round_robin used v)) =
    latest_published_generation v.
Proof. unfold get_next_node_round_robin. by case_match. Qed.

Lemma begin_live_nodes v :
  live_nodes (apply_event EvBegin v) = live_nodes v ∧
  latest_published_generation (apply_event EvBegin v) = latest_published_generation v.
Proof. unfold apply_event, begin_refresh. by case_decide. Qed.

(** A newer publication has happened: the event leaves membership alone. *)
Lemma stale_publish g nodes v :
  (g < latest_published_generation v)%Z → publish_live_nodes g nodes v = v.
Proof. intros. unfold publish_live_nodes. by rewrite decide_True. Qed.
Lemma stale_partial g nodes v :
  (g < latest_published_generation v)%Z → publish_partial_cluster_live_nodes g nodes v = v.
Proof. intros. unfold publish_partial_cluster_live_nodes. by rewrite decide_True. Qed.

Lemma latest_monotone e v :
  (latest_published_generation v ≤ latest_published_generation (apply_event e v))%Z.
Proof.
  destruct e; simpl.
  - destruct (begin_live_nodes v) as [_ Hb]. simpl in Hb. rewrite Hb. done.
  - rewrite publish_eq. case_decide; simpl; lia.
  - rewrite publish_partial_eq. case_decide; simpl; lia.
  - destruct (draw_live_nodes used_nodes v) as [_ ->]. done.
Qed.

(** The scope of a view is fixed. *)
Lemma apply_event_scope e v : routing_scope (apply_event e v) = routing_scope v.
Proof.
  destruct e; simpl.
  - unfold begin_refresh. by case_decide.
  - unfold publish_live_nodes. by repeat case_decide.
  - unfold publish_partial_cluster_live_nodes. by repeat case_decide.
  - unfold get_next_node_round_robin. by case_match.
Qed.

Lemma run_events_scope es v : routing_scope (run_events es v) = routing_scope v.
Proof.
  revert v. induction es as [|e es IH]; intros v; simpl; [done|]. by rewrite IH, apply_event_scope.
Qed.

Lemma run_events_app es1 es2 v : run_events (es1 ++ es2) v = run_events es2 (run_events es1 v).
Proof. apply foldl_app. Qed.

Lemma run_events_latest_monotone es v :
  (latest_published_generation v ≤ latest_published_generation (run_events es v))%Z.
Proof.
  revert v. induction es as [|e es IH]; intros v; simpl; [done|].
  etrans; [apply (latest_monotone e)|apply IH].
Qed.

Context `{!UrlEqLaws}.

Lemma elem_of_sort_dedup_nodes nodes n : n ∈ sort_dedup nodes ↔ n ∈ nodes.
Proof. apply (elem_of_sort_dedup as_str). Qed.

Lemma NoDup_sort_dedup_nodes nodes : NoDup (sort_dedup nodes).
Proof. apply (NoDup_sort_dedup as_str). Qed.

Lemma apply_event_nonempty e v :
  publishes_nodes e → live_nodes v ≠ [] → live_nodes (apply_event e v) ≠ [].
Proof.
  intros He Hv. destruct e; simpl.
  - destruct (begin_live_nodes v) as [Hb _]. simpl in Hb. by rewrite Hb.
  - rewrite publish_eq. by case_decide.
  - rewrite publish_partial_eq. case_decide; [done|]. simpl. intros Hnil.
    destruct (live_nodes v) as [|n ns]; [done|].
    assert (n ∈ sort_dedup ((n :: ns) ++ discovered)) as Hin.
    { apply elem_of_sort_dedup_nodes. by left. }
    rewrite Hnil in Hin. by apply elem_of_nil in Hin.
  - by destruct (draw_live_nodes used_nodes v) as [-> _].
Qed.

Lemma run_events_nonempty es v :
  Forall publishes_nodes es → live_nodes v ≠ [] → live_nodes (run_events es v) ≠ [].
Proof.
  intros Hes. revert v. induction Hes as [|e es He Hes IH]; intros v Hv; simpl; [done|].
  by apply IH, apply_event_nonempty.
Qed.

End facts.

Section newest.
Context `{UrlApi}.
Implicit Types (v : NodeView).

Lemma newest_spec best ps :
  newest best ps ∈ best :: ps ∧ Forall (λ p, p.1 ≤ (newest best ps).1)%Z (best :: ps).
Proof.
  revert best. induction ps as [|p ps IH]; intros best; simpl.
  { split; [by left|]. by constructor. }
  case_decide as Hlt.
  - destruct (IH best) as [Hin Hall]. apply Forall_cons in Hall as [Hb Hall]. split.
    + apply elem_of_cons in Hin as [->|Hin]; [by left|by do 2 right].
    + constructor; [done|]. constructor; [lia|done].
  - destruct (IH p) as [Hin Hall]. apply Forall_cons in Hall as [Hb Hall]. split.
    + by right.
    + constructor; [lia|]. by constructor.
Qed.

(** A history without partial publications is its newest publication. *)
Lemma run_events_newest es v :
  Forall (λ e, match e with EvPartial _ _ => False | _ => True end) es →
  (latest_published_generation (run_events es v), live_nodes (run_events es v)) =
  newest (latest_published_generation v, live_nodes v) (omap publication es).
Proof.
  intros Hes. revert v. induction Hes as [|e es He Hes IH]; intros v; [done|].
  change (run_events (e :: es) v) with (run_events es (apply_event e v)). rewrite IH.
  destruct e; simpl; [| |done|].
  - destruct (begin_live_nodes v) as [Hb1 Hb2]. simpl in *. by rewrite Hb1, Hb2.
  - f_equal. rewrite publish_eq. simpl. by case_decide.
  - by destruct (draw_live_nodes used_nodes v) as [-> ->].
Qed.
End newest.

(** ** Round robin *)

Section round_robin.
Context `{UrlApi}.
Implicit Types (v : NodeView) (nodes : list Url) (used : gset Url).

Lemma rr_scan_rotate nodes used start left i :
  i + left = length nodes →
  rr_scan nodes used start left i =
  head (filter (λ n, n ∉ used) (drop i (rotate start nodes))).
Proof.
  revert i. induction left as [|left IH]; intros i Hi; simpl.
  - rewrite drop_ge; [done|]. rewrite length_rotate. lia.
  - assert (Hlt : i < length nodes) by lia.
    rewrite <-rotate_lookup_mod by done.
    destruct (lookup_lt_is_Some_2 (rotate start nodes) i) as [n Hn].
    { by rewrite length_rotate. }
    rewrite Hn, (drop_S _ n) by done. rewrite filter_cons.
    destruct (decide (n ∈ used)) as [Hu|Hu].
    + rewrite (decide_False (P := n ∉ used)) by naive_solver. apply IH. lia.
    + by rewrite (decide_True (P := n ∉ used)).
Qed.

(** A draw: the first unused node of the rotation the counter points at. *)
Lemma get_next_node_spec used v :
  fst (get_next_node_round_robin used v) =
  head (filter (λ n, n ∉ used)
    (rotate (Z.to_nat (counter v `mod` Z.of_nat (length (live_nodes v)))) (live_nodes v))).
Proof.
  unfold get_next_node_round_robin.
  destruct (bool_decide (length (live_nodes v) = 0) || _) eqn:Hb; simpl; cycle 1.
  { rewrite rr_scan_rotate by lia. by rewrite drop_0. }
  apply orb_true_iff in Hb as [Hb|Hb].
  - apply bool_decide_eq_true, length_zero_iff_nil in Hb as ->.
    unfold rotate. by rewrite drop_nil, take_nil.
  - rewrite forallb_forall in Hb.
    set (r := rotate _ _).
    assert (Hr : Forall (λ n, n ∈ used) r).
    { apply Forall_forall. intros n Hn. apply elem_of_rotate in Hn.
      apply list_elem_of_In, Hb in Hn. by apply bool_decide_eq_true in Hn. }
    clearbody r. induction Hr as [|n r Hn Hr IH]; [done|].
    rewrite filter_cons, decide_False by naive_solver. exact IH.
Qed.

Lemma get_next_node_counter used v n :
  fst (get_next_node_round_robin used v) = Some n →
  counter (snd (get_next_node_round_robin used v)) = wrap64 (counter v + 1).
Proof. unfold get_next_node_round_robin. by case_match. Qed.

Lemma get_next_node_None used v :
  fst (get_next_node_round_robin used v) = None ↔ ∀ n, n ∈ live_nodes v → n ∈ used.
Proof.
  rewrite get_next_node_spec. set (r := rotate _ _).
  assert (Hr : ∀ n, n ∈ r ↔ n ∈ live_nodes v) by (intros; apply elem_of_rotate).
  setoid_rewrite <-Hr. clearbody r. split.
  - intros Hh n Hn. destruct (decide (n ∈ used)) as [|Hu]; [done|exfalso].
    assert (Hf : n ∈ filter (λ n, n ∉ used) r) by (apply list_elem_of_filter; split; assumption).
    destruct (filter _ r); [by apply elem_of_nil in Hf|done].
  - intros Hall. destruct (filter (λ n, n ∉ used) r) as [|n ns] eqn:Hf; [done|exfalso].
    assert (n ∈ filter (λ n, n ∉ used) r) as Hin by (rewrite Hf; by left).
    apply list_elem_of_filter in Hin as [? ?]. naive_solver.
Qed.

Lemma get_next_node_Some used v n :
  fst (get_next_node_round_robin used v) = Some n → n ∈ live_nodes v ∧ n ∉ used.
Proof.
  rewrite get_next_node_spec. intros Hh.
  assert (Hin : n ∈ filter (λ n, n ∉ used) (rotate
    (Z.to_nat (counter v `mod` Z.of_nat (length (live_nodes v)))) (live_nodes v))).
  { destruct (filter _ _); [done|]. injection Hh as ->. by left. }
  apply list_elem_of_filter in Hin as [Hu Hin]. by apply elem_of_rotate in Hin.
Qed.

End round_robin.
End ViewFacts.

(** ** What a sequence of first attempts sees *)

(** [k] requests that each draw one node, nothing tried before. *)
Fixpoint draws `{UrlApi} (k : nat) (v : NodeView) : list (option Url) * NodeView :=
  match k with
  | O => ([], v)
  | S k' =>
      let '(o, v1) := View.get_next_node_round_robin ∅ v in
      let '(os, v2) := draws k' v1 in
      (o :: os, v2)
  end.

Section draws.
Context `{UrlApi}.
Import View ViewFacts.
Implicit Types (v : NodeView) (nodes : list Url).

Lemma filter_unused (used : gset Url) (l : list Url) :
  (∀ n, n ∈ l → n ∉ used) → filter (λ n, n ∉ used) l = l.
Proof.
  induction l as [|x l IH]; intros Hl; [done|].
  rewrite filter_cons, decide_True by set_solver. f_equal. apply IH. set_solver.
Qed.

Lemma first_draw v n nodes :
  live_nodes v = n :: nodes →
  get_next_node_round_robin ∅ v =
    ((n :: nodes) !! Z.to_nat (counter v `mod` Z.of_nat (S (length nodes))),
     set_counter (wrap64 (counter v + 1)) v).
Proof.
  intros Hv. pose proof (get_next_node_spec ∅ v) as Hs. rewrite Hv in Hs.
  rewrite filter_unused in Hs by set_solver. simpl length in Hs.
  set (s := Z.to_nat (counter v `mod` Z.of_nat (S (length nodes)))) in *.
  assert (Hlt : s < length (n :: nodes)) by (pose proof (Z.mod_pos_bound (counter v) (Z.of_nat (S (length nodes))) ltac:(lia)); simpl length; subst s; lia).
  assert (Hhd : head (rotate s (n :: nodes)) = (n :: nodes) !! s).
  { rewrite head_lookup, rotate_lookup_mod by (simpl; lia).
    by rewrite Nat.add_0_r, Nat.mod_small. }
  destruct (get_next_node_round_robin ∅ v) as [o v'] eqn:Hd. simpl in Hs.
  rewrite Hs, Hhd. f_equal.
  destruct (lookup_lt_is_Some_2 (n :: nodes) s Hlt) as [x Hx].
  unfold get_next_node_round_robin in Hd. case_match; [|congruence].
  rewrite Hhd, Hx in Hs. congruence.
Qed.

(** Without a counter wrap, the draws walk the rotation. *)
Lemma draws_seq k v n nodes :
  live_nodes v = n :: nodes → (0 ≤ counter v)%Z → (counter v + Z.of_nat k < 2 ^ 64)%Z →
  draws k v =
    ((λ i, (n :: nodes) !! ((Z.to_nat (counter v) + i) `mod` S (length nodes))) <$> seq 0 k,
     set_counter (counter v + Z.of_nat k) v).
Proof.
  revert v. induction k as [|k IH]; intros v Hv H0 Hk.
  { simpl. f_equal. destruct v; simpl. unfold set_counter. simpl. f_equal. lia. }
  simpl. rewrite (first_draw v n nodes Hv).
  rewrite (wrap64_small (counter v + 1)) by (unfold is_u64; lia).
  rewrite IH by (simpl; done || lia). simpl counter. rewrite <-fmap_S_seq.
  assert (Hc : set_counter (counter v + 1 + Z.of_nat k) (set_counter (counter v + 1) v) =
               set_counter (counter v + Z.of_nat (S k)) v).
  { unfold set_counter. simpl. f_equal. lia. }
  rewrite Hc. clear Hc. f_equal. f_equal.
  - f_equal. rewrite Nat.add_0_r.
    rewrite <-(Z2Nat.id (counter v)) at 1 by done. by rewrite <-Nat2Z.inj_mod, Nat2Z.id.
  - rewrite <-list_fmap_compose. apply list_fmap_ext. intros i x _. cbn [compose].
    change ((n :: nodes) !! ((Z.to_nat (counter v + 1) + x) `mod` S (length nodes)) = (n :: nodes) !! ((Z.to_nat (counter v) + S x) `mod` S (length nodes))).
    f_equal. f_equal. rewrite Z2Nat.inj_add by lia. lia.
Qed.

Lemma draws_app k1 k2 v :
  draws (k1 + k2) v =
  let '(o1, v1) := draws k1 v in let '(o2, v2) := draws k2 v1 in (o1 ++ o2, v2).
Proof.
  revert v. induction k1 as [|k1 IH]; intros v; simpl.
  { by destruct (draws k2 v). }
  destruct (get_next_node_round_robin ∅ v) as [o v']. rewrite IH.
  destruct (draws k1 v') as [o1 v1]. by destruct (draws k2 v1).
Qed.

(** One lap of the counter is the rotation of the membership. *)
Lemma draws_lap v :
  live_nodes v ≠ [] → (0 ≤ counter v)%Z →
  (counter v + Z.of_nat (length (live_nodes v)) < 2 ^ 64)%Z →
  draws (length (live_nodes v)) v =
    (Some <$> rotate (Z.to_nat (counter v)) (live_nodes v),
     set_counter (counter v + Z.of_nat (length (live_nodes v))) v).
Proof.
  destruct (live_nodes v) as [|n nodes] eqn:Hv; [done|]. intros _ H0 Hk.
  rewrite (draws_seq _ v n nodes) by done. f_equal.
  apply list_eq. intros i. rewrite !list_lookup_fmap.
  destruct (decide (i < length (n :: nodes))) as [Hi|Hi].
  - rewrite lookup_seq_lt, rotate_lookup_mod by done.
    assert (Hm : (Z.to_nat (counter v) + i) `mod` length (n :: nodes) < length (n :: nodes))
      by (apply Nat.mod_upper_bound; done).
    apply lookup_lt_is_Some_2 in Hm as [x Hx]. rewrite Hx. simpl in Hx |- *. by rewrite Hx.
  - rewrite lookup_seq_ge by lia. rewrite (lookup_ge_None_2 (rotate _ _)); [done|].
    rewrite length_rotate. lia.
Qed.

(** Laps concatenate. *)
Lemma draws_laps q v :
  live_nodes v ≠ [] → (0 ≤ counter v)%Z →
  (counter v + Z.of_nat (q * length (live_nodes v)) < 2 ^ 64)%Z →
  fst (draws (q * length (live_nodes v)) v) ≡ₚ Some <$> concat (replicate q (live_nodes v)).
Proof.
  revert v. induction q as [|q IH]; intros v Hne H0 Hk; [done|].
  change (S q * length (live_nodes v)) with (length (live_nodes v) + q * length (live_nodes v)).
  rewrite draws_app, draws_lap by (done || lia).
  set (v1 := set_counter _ v). specialize (IH v1).
  change (live_nodes v1) with (live_nodes v) in IH.
  assert (IHq := IH Hne ltac:(simpl; lia) ltac:(simpl; lia)). clear IH.
  destruct (draws (q * length (live_nodes v)) v1) as [o2 v2]. simpl in IHq |- *.
  rewrite fmap_app, IHq. by rewrite rotate_Permutation.
Qed.

End draws.

(** ** Properties *)

Section properties.
Context `{UrlApi}.
Import View ViewFacts.
Implicit Types (v : NodeView).

Lemma newest_perm best ps1 ps2 :
  ps1 ≡ₚ ps2 → NoDup (fst <$> ps1) → Forall (λ p, best.1 < p.1)%Z ps1 →
  newest best ps1 = newest best ps2.
Proof.
  intros Hp Hnd Hlt.
  assert (Hnd' : NoDup (fst <$> best :: ps1)).
  { apply NoDup_cons. split; [|done]. intros (p & Hb & Hin)%list_elem_of_fmap.
    rewrite Forall_forall in Hlt. specialize (Hlt _ Hin). lia. }
  destruct (newest_spec best ps1) as [Hin1 Hall1].
  destruct (newest_spec best ps2) as [Hin2 Hall2].
  assert (Hpb : best :: ps1 ≡ₚ best :: ps2) by (by constructor).
  generalize dependent (newest best ps2). intros n2 Hin2 Hall2.
  rewrite <-Hpb in Hin2. rewrite <-Hpb in Hall2.
  rewrite Forall_forall in Hall1, Hall2.
  pose proof (Hall1 _ Hin2). pose proof (Hall2 _ Hin1).
  apply (NoDup_fmap_inj_in fst _ _ _ Hnd' Hin1 Hin2). lia.
Qed.

(** What reaches a view after generation [g] was published and cannot move it. *)
Definition stale_event (g : Z) (e : ViewEvent) : Prop :=
  match e with
  | EvPublish g' _ | EvPartial g' _ => (g' < g)%Z
  | EvBegin | EvDraw _ => True
  end.

(** Membership never becomes empty: a view that starts from a non-empty
    seed list keeps at least one live node through any history of refreshes
    (full and partial publications in any order, stale ones included) and
    draws, as long as no refresh publishes an empty list. *)
Theorem view_never_empty `{!UrlEqLaws} (scope : RoutingScope) (seeds : list Url)
    (es : list ViewEvent) :
  seeds ≠ [] → Forall publishes_nodes es →
  live_nodes (run_events es (new scope seeds)) ≠ [].
Proof. intros Hs Hes. by apply run_events_nonempty. Qed.

(** The newest refresh wins: whatever the order in which overlapping
    refreshes publish their completed results, the view ends with the result of
    the highest generation, so two histories with the same publications end
    with the same membership. *)
Theorem newest_refresh_wins (es1 es2 : list ViewEvent) (v : NodeView) :
  Forall (λ e, match e with EvPartial _ _ => False | _ => True end) es1 →
  Forall (λ e, match e with EvPartial _ _ => False | _ => True end) es2 →
  omap publication es1 ≡ₚ omap publication es2 →
  NoDup (fst <$> omap publication es1) →
  Forall (λ p, latest_published_generation v < p.1)%Z (omap publication es1) →
  let v1 := run_events es1 v in
  live_nodes v1 = live_nodes (run_events es2 v) ∧
  ((latest_published_generation v1, live_nodes v1) ∈ omap publication es1 ∨
     omap publication es1 = [] ∧ live_nodes v1 = live_nodes v) ∧
  Forall (λ p, p.1 ≤ latest_published_generation v1)%Z (omap publication es1).
Proof.
  intros H1 H2 Hp Hnd Hlt v1. subst v1.
  pose proof (run_events_newest es1 v H1) as Hn1.
  pose proof (run_events_newest es2 v H2) as Hn2.
  rewrite <-(newest_perm (latest_published_generation v, live_nodes v) _ _ Hp Hnd Hlt), <-Hn1 in Hn2. injection Hn2 as _ Hl.
  destruct (newest_spec (latest_published_generation v, live_nodes v) (omap publication es1))
    as [Hin Hall]. rewrite <-Hn1 in Hin, Hall. apply Forall_cons in Hall as [_ Hall].
  split; [done|]. split; [|done]. apply elem_of_cons in Hin as [Hin|Hin]; [right|by left].
  injection Hin as Hg Hln. split; [|done].
  destruct (omap publication es1) as [|p ps]; [done|exfalso].
  apply Forall_cons in Hlt as [Hp1 _]. apply Forall_cons in Hall as [Hp2 _]. rewrite <-Hg in Hp1. simpl in *. lia.
Qed.

(** A slow refresh cannot undo a newer one: once generation [g] has been
    published, full and partial publications of older generations, draws and
    started refreshes all leave the membership and its generation alone. *)
Theorem stale_refresh_inert (g : Z) (nodes : list Url) (es : list ViewEvent) (v : NodeView) :
  (latest_published_generation v ≤ g)%Z → Forall (stale_event g) es →
  let v' := run_events es (publish_live_nodes g nodes v) in
  live_nodes v' = nodes ∧ latest_published_generation v' = g.
Proof.
  intros Hg Hes. rewrite publish_eq, decide_False by lia.
  set (v0 := set_published g _).
  assert (H0 : live_nodes v0 = nodes ∧ latest_published_generation v0 = g) by done.
  clearbody v0. revert v0 H0. induction Hes as [|e es He Hes IH]; intros v0 H0; simpl; [done|].
  apply IH. destruct H0 as [Hl Hlat]. destruct e; simpl in *.
  - destruct (begin_live_nodes v0) as [Hb1 Hb2]. simpl in *. by rewrite Hb1, Hb2.
  - by rewrite stale_publish by lia.
  - by rewrite stale_partial by lia.
  - by destruct (draw_live_nodes used_nodes v0) as [-> ->].
Qed.

(** A round-robin draw returns the first unused live node of the rotation
    the shared counter points at; it returns nothing exactly when every live node
    was used (in particular when there is none), and then leaves the counter
    alone; otherwise the counter advances by one, wrapping at its width. *)
Theorem round_robin_draw (used : gset Url) (v : NodeView) :
  let '(o, v') := get_next_node_round_robin used v in
  o = head (filter (λ n, n ∉ used)
        (rotate (Z.to_nat (counter v `mod` Z.of_nat (length (live_nodes v)))) (live_nodes v))) ∧
  (o = None ↔ ∀ n, n ∈ live_nodes v → n ∈ used) ∧
  live_nodes v' = live_nodes v ∧
  counter v' = match o with Some _ => wrap64 (counter v + 1) | None => counter v end.
Proof.
  pose proof (get_next_node_spec used v) as H1.
  pose proof (get_next_node_None used v) as H2.
  pose proof (draw_live_nodes used v) as [H3 _].
  pose proof (get_next_node_counter used v) as H4.
  destruct (get_next_node_round_robin used v) as [o v'] eqn:Hd. simpl in *.
  split; [done|]. split; [done|]. split; [done|].
  destruct o as [n|]; [by apply (H4 n)|].
  unfold get_next_node_round_robin in Hd. case_match eqn:Hb; [by simplify_eq|exfalso].
  injection Hd as Hscan _.
  apply orb_false_iff in Hb as [_ Hb]. apply not_true_iff_false in Hb. apply Hb.
  apply forallb_forall. intros n Hn. apply bool_decide_eq_true.
  apply (proj1 H2 eq_refl). by apply list_elem_of_In.
Qed.

(** Round robin is even: with [q] requests per live node, whatever the
    starting position of the counter, every live node is the first attempt of
    exactly [q] of them (before the counter wraps). *)
Theorem round_robin_even (q : nat) (v : NodeView) :
  live_nodes v ≠ [] → (0 ≤ counter v)%Z →
  (counter v + Z.of_nat (q * length (live_nodes v)) < 2 ^ 64)%Z →
  fst (draws (q * length (live_nodes v)) v) ≡ₚ Some <$> concat (replicate q (live_nodes v)).
Proof. apply draws_laps. Qed.

End properties.

Section witnesses.
Import View ViewFacts StrUrl.

Definition view0 : NodeView := @new api Scope.from_cluster ["http://s:80/"].
Definition history : list (@ViewEvent StrUrl.api) :=
  [EvBegin; EvBegin; EvPublish 2 ["http://b/"; "http://c/"]; EvPublish 1 ["http://a/"]; EvDraw ∅].
Definition history2 : list (@ViewEvent api) :=
  [EvPublish 1 ["http://a/"]; EvPublish 2 ["http://b/"; "http://c/"]].
Definition stale_history : list (@ViewEvent api) :=
  [EvPartial 1 ["http://a/"]; EvBegin; EvPublish 1 ["http://d/"]].

Lemma view_never_empty_witness : live_nodes (run_events history view0) ≠ [].
Proof.
  apply (@view_never_empty api eq_laws Scope.from_cluster ["http://s:80/"] history); [discriminate|].
  repeat constructor; simpl; discriminate.
Defined.

Lemma newest_refresh_wins_witness :
  live_nodes (run_events history view0) =
  live_nodes (run_events history2 view0).
Proof.
  refine (proj1 (@newest_refresh_wins api history
    history2 view0 _ _ _ _ _)).
  - repeat constructor.
  - repeat constructor.
  - simpl. constructor.
  - apply (bool_decide_unpack _). vm_compute. exact I.
  - repeat constructor.
Defined.

Lemma stale_refresh_inert_witness :
  let v' := run_events stale_history
              (publish_live_nodes 2 ["http://b/"] view0) in
  live_nodes v' = ["http://b/"] ∧ latest_published_generation v' = 2%Z.
Proof.
  apply (@stale_refresh_inert api 2 ["http://b/"]
    stale_history view0).
  - simpl. lia.
  - repeat constructor.
Defined.

Lemma round_robin_even_witness :
  let v := @new api Scope.from_cluster ["http://a/"; "http://b/"; "http://c/"] in
  fst (draws (2 * 3) v) ≡ₚ Some <$> concat (replicate 2 ["http://a/"; "http://b/"; "http://c/"]).
Proof.
  apply (@round_robin_even api 2 (@new api Scope.from_cluster ["http://a/"; "http://b/"; "http://c/"])).
  - discriminate.
  - simpl. lia.
  - simpl. lia.
Defined.

Example draws_example :
  fst (draws 4 (set_counter 2 (@new api Scope.from_cluster ["a"; "b"; "c"]))) =
  [Some "c"; Some "a"; Some "b"; Some "c"].
Proof. vm_compute. reflexivity. Qed.

End witnesses.
