(* ===== verification/Refresh.v ===== *)
(** * One discovery refresh ([update_live_nodes_from] and its callees in
      [src/src/live_nodes.rs])

    A refresh walks a queue of candidate nodes and the fallback chain of its
    view's scope.  Everything it does to the outside is recorded in a trace of
    [Effect]s: the [/localnodes] requests with what they were turned into, the
    completed operations it remembers for the affinity view, and its
    publications.  The network, the random shuffle and what others do to the
    view while the refresh awaits an answer or is between two accesses to the
    view are the [Network] interface.

    The theorems: a refresh terminates within a bound given by its candidates,
    its seeds and its fallback chain, and so are the requests it sends bounded;
    it publishes at most one completed
    result, the first non-empty answer along the chain; a cluster pass
    publishes the union of all answers; when nothing answers, every live node
    and every seed is asked once and the membership stays; and the affinity
    refresh never repeats a query the ordinary refresh completed. *)

From S2P Require Import Prelude UrlApi NodeUrl RoutingScope LiveNodes.

(** What a refresh needs of the outside world. *)
Class Network `{UrlApi} := {
  World : Type;
  (** The HTTP client under [tokio::time::timeout]: [None] is the timeout,
      [Some None] a failed request or a body that is no list of strings.  The
      events are what other tasks do to the view before the answer is in. *)
  probe : Url → Z → World → option (option (list string)) * list ViewEvent * World;
  (** What other threads do to the view while the refresh is between two accesses
      to it and awaits nothing. *)
  interfere : World → list ViewEvent * World;
  (** [SliceRandom::shuffle]. *)
  shuffle : list Url → World → list Url * World;
}.

(** [shuffle] permutes. *)
Class NetworkLaws `{Network} : Prop := {
  shuffle_perm : ∀ l w, fst (shuffle l w) ≡ₚ l;
}.

(** Other tasks and threads do nothing to the view but what [Q] allows. *)
Definition others_do `{Network} (Q : ViewEvent → Prop) : Prop :=
  (∀ u timeout w, Forall Q (snd (fst (probe u timeout w)))) ∧ ∀ w, Forall Q (fst (interfere w)).

(** [DiscoveryInputs], less the client handles. *)
Record DiscoveryInputs `{UrlApi} := mkInputs {
  discovery_timeout : option Z;
  seed_urls : list Url;
  alternator_scheme : string;
  inputs_port : option Z;
}.

(** [DiscoveryOutcomes]. *)
Abbreviation DiscoveryOutcomes := (gmap DiscoveryOperation (list Url)).

(** What a refresh does to the outside, in order. *)
Inductive Effect `{UrlApi} : Type :=
| EffRequest (op : DiscoveryOperation) (node : Url) (answer : option (list Url))
| EffOutcome (op : DiscoveryOperation) (nodes : list Url)
| EffPartial (generation : Z) (nodes : list Url)
| EffPublish (generation : Z) (nodes : list Url).

(** The state a refresh threads: the world, the view it refreshes, its trace. *)
Record Run `{Network} := mkRun {
  world : World;
  view : NodeView;
  trace : list Effect;
}.

(** The local variables of the [while let] loop. *)
Record LoopState `{Network} := mkLoop {
  scope : RoutingScope;
  candidates : list Url;
  using_seeds : bool;
  outcomes : DiscoveryOutcomes;
  run : Run;
}.

(** The result of one iteration. *)
Inductive Iteration `{Network} : Type :=
| Continue (st : LoopState)
| Break (st : LoopState).

(** How a refresh ends: [Panicked] is the generation overflow. *)
Inductive Refreshed `{Network} : Type :=
| Finished (o : DiscoveryOutcomes) (r : Run)
| Panicked
| OutOfFuel.

(** [DISCOVERY_HTTP_OPERATION_TIMEOUT]. *)
Definition DISCOVERY_HTTP_OPERATION_TIMEOUT : Z := from_secs 5.

Module Refresh.
Section refresh.
Context `{Network}.

Definition emit (e : Effect) (r : Run) : Run :=
  mkRun _ _ (world r) (view r) (trace r ++ [e]).
Definition set_world (w : World) (r : Run) : Run := mkRun _ _ w (view r) (trace r).
Definition on_view (f : NodeView → NodeView) (r : Run) : Run :=
  mkRun _ _ (world r) (f (view r)) (trace r).

(** Just before an access to the view. *)
Definition pause (r : Run) : Run :=
  let '(meanwhile, w) := interfere (world r) in on_view (View.run_events meanwhile) (set_world w r).

(** [host_to_uri]. *)
Definition host_to_uri (inputs : DiscoveryInputs) (addr : string) : Result Url ParseError :=
  NodeUrl.build_node_url (alternator_scheme inputs) addr (inputs_port inputs).

(** What an answer is turned into: sorted, then addresses that make no URL
    are dropped. *)
Definition answer_nodes (inputs : DiscoveryInputs) (nodes : list string) : list Url :=
  omap (λ addr, result_ok (host_to_uri inputs addr)) (sort_by_key id nodes).

(** [fetch_live_nodes_for_scope]. *)
Definition fetch_live_nodes_for_scope (inputs : DiscoveryInputs) (s : RoutingScope)
    (node_addr : Url) (r : Run) : option (list Url) * Run :=
  let url := Scope.build_localnodes_url s node_addr in
  let request_timeout := default DISCOVERY_HTTP_OPERATION_TIMEOUT (discovery_timeout inputs) in
  let '(answer, meanwhile, w) := probe url request_timeout (world r) in
  let result := answer_nodes inputs <$> mjoin answer in
  (result,
   emit (EffRequest (Scope.discovery_operation s) node_addr result)
     (on_view (View.run_events meanwhile) (set_world w r))).

(** [cluster_discovery_candidates]. *)
Definition cluster_discovery_candidates (inputs : DiscoveryInputs)
    (additional_candidates : list Url) (r : Run) : list Url * Run :=
  let r := pause r in
  let candidates := live_nodes (view r) ++ seed_urls inputs ++ additional_candidates in
  let '(candidates, w) := shuffle (View.sort_dedup candidates) (world r) in
  (candidates, set_world w r).

(** The [for] loop of [discover_cluster_live_nodes_from]. *)
Fixpoint cluster_loop (inputs : DiscoveryInputs) (generation : Z) (candidates : list Url)
    (new_nodes : list Url) (got_response : bool) (r : Run) : list Url * bool * Run :=
  match candidates with
  | [] => (new_nodes, got_response, r)
  | node_addr :: candidates' =>
      if NodeUrl.node_is_in_list node_addr new_nodes then
        cluster_loop inputs generation candidates' new_nodes got_response r
      else
        match fetch_live_nodes_for_scope inputs Scope.from_cluster node_addr r with
        | (Some nodes, r) =>
            let new_nodes := View.sort_dedup (new_nodes ++ nodes) in
            let r :=
              if decide (nodes = []) then r
              else emit (EffPartial generation new_nodes)
                     (on_view (View.publish_partial_cluster_live_nodes generation new_nodes) r) in
            cluster_loop inputs generation candidates' new_nodes true r
        | (None, r) => cluster_loop inputs generation candidates' new_nodes got_response r
        end
  end.

(** [discover_cluster_live_nodes_from]. *)
Definition discover_cluster_live_nodes_from (inputs : DiscoveryInputs) (generation : Z)
    (candidates : list Url) (r : Run) : option (list Url) * Run :=
  let '(new_nodes, got_response, r) := cluster_loop inputs generation candidates [] false r in
  if negb got_response then (None, r) else (Some (View.sort_dedup new_nodes), r).

(** The [let result = ...] of the loop. *)
Definition query (inputs : DiscoveryInputs) (generation : Z) (additional_candidates : list Url)
    (reuse_outcomes : bool) (s : RoutingScope) (node_addr : Url) (o : DiscoveryOutcomes)
    (r : Run) : option (list Url) * Run :=
  match (if reuse_outcomes then o !! Scope.discovery_operation s else None) with
  | Some cached => (Some cached, r)
  | None =>
      if Scope.is_cluster s then
        let '(cluster_candidates, r) :=
          cluster_discovery_candidates inputs additional_candidates r in
        discover_cluster_live_nodes_from inputs generation cluster_candidates r
      else fetch_live_nodes_for_scope inputs s node_addr r
  end.

(** One iteration of the [while let] loop. *)
Definition iteration (inputs : DiscoveryInputs) (generation : Z)
    (additional_candidates : list Url) (reuse_outcomes : bool) (st : LoopState) : Iteration :=
  match candidates st with
  | [] => Break st
  | node_addr :: rest =>
      let s := scope st in
      let key := Scope.discovery_operation s in
      let '(result, r) :=
        query inputs generation additional_candidates reuse_outcomes s node_addr
          (outcomes st) (run st) in
      match result with
      | None =>
          if Scope.is_cluster s then
            Break (mkLoop _ _ s rest (using_seeds st) (outcomes st) r)
          else if bool_decide (rest = []) && negb (using_seeds st) then
            Continue (mkLoop _ _ s (seed_urls inputs) true (outcomes st) r)
          else Continue (mkLoop _ _ s rest (using_seeds st) (outcomes st) r)
      | Some new_nodes =>
          let o := <[key := new_nodes]> (outcomes st) in
          let r := emit (EffOutcome key new_nodes) r in
          match new_nodes with
          | [] =>
              match Scope.fallback s with
              | None => Break (mkLoop _ _ s rest (using_seeds st) o r)
              | Some fallback =>
                  Continue (mkLoop _ _ fallback (rest ++ [node_addr]) (using_seeds st) o r)
              end
          | _ :: _ =>
              Break (mkLoop _ _ s rest (using_seeds st) o
                (emit (EffPublish generation new_nodes)
                  (on_view (View.publish_live_nodes generation new_nodes) (pause r))))
          end
      end
  end.

(** The [while let] loop, with fuel. *)
Fixpoint refresh_loop (fuel : nat) (inputs : DiscoveryInputs) (generation : Z)
    (additional_candidates : list Url) (reuse_outcomes : bool) (st : LoopState)
    : option LoopState :=
  match fuel with
  | O => None
  | S fuel' =>
      match iteration inputs generation additional_candidates reuse_outcomes st with
      | Break st => Some st
      | Continue st =>
          refresh_loop fuel' inputs generation additional_candidates reuse_outcomes st
      end
  end.

(** [for candidate in additional_candidates { if !nodes.contains(..) .. }]. *)
Fixpoint push_missing (nodes additional_candidates : list Url) : list Url :=
  match additional_candidates with
  | [] => nodes
  | c :: cs => push_missing (if decide (c ∈ nodes) then nodes else nodes ++ [c]) cs
  end.

(** The loop's initial state. *)
Definition start (additional_candidates : list Url) (o : DiscoveryOutcomes) (r : Run)
    : LoopState :=
  let '(nodes, w) := shuffle (live_nodes (view r)) (world r) in
  mkLoop _ _ (routing_scope (view r)) (push_missing nodes additional_candidates) false o
    (set_world w r).

(** How many iterations are left at most. *)
Definition measure (inputs : DiscoveryInputs) (st : LoopState) : nat :=
  length (candidates st) + (if using_seeds st then 0 else length (seed_urls inputs))
    + length (Scope.chain (scope st)).

(** [update_live_nodes_from]; the fuel is the bound on the iterations. *)
Definition update_live_nodes_from (inputs : DiscoveryInputs) (o : DiscoveryOutcomes)
    (additional_candidates : list Url) (reuse_outcomes : bool) (r : Run) : Refreshed :=
  match View.begin_refresh (view r) with
  | None => Panicked
  | Some (generation, v) =>
      let st := start additional_candidates o (pause (on_view (λ _, v) r)) in
      match refresh_loop (S (measure inputs st)) inputs generation
              additional_candidates reuse_outcomes st with
      | Some st => Finished (outcomes st) (run st)
      | None => OutOfFuel
      end
  end.

(** [DiscoveryManager::update_live_nodes]: the ordinary view's refresh. *)
Definition update_live_nodes (inputs : DiscoveryInputs) (r : Run) : Refreshed :=
  update_live_nodes_from inputs ∅ [] false r.

(** The task of [start_affinity_refresh]: the affinity view's refresh, which
    reuses the outcomes and takes the ordinary nodes as candidates. *)
Definition affinity_refresh (inputs : DiscoveryInputs) (o : DiscoveryOutcomes)
    (ordinary_candidates : list Url) (r : Run) : Refreshed :=
  update_live_nodes_from inputs o ordinary_candidates true r.

(** ** Projections of a trace *)

Definition trace_outcomes (t : list Effect) : list (DiscoveryOperation * list Url) :=
  omap (λ e, match e with EffOutcome op ns => Some (op, ns) | _ => None end) t.
Definition trace_publications (t : list Effect) : list (Z * list Url) :=
  omap (λ e, match e with EffPublish g ns => Some (g, ns) | _ => None end) t.
Definition trace_partials (t : list Effect) : list (Z * list Url) :=
  omap (λ e, match e with EffPartial g ns => Some (g, ns) | _ => None end) t.
Definition trace_requests (t : list Effect) : list (DiscoveryOperation * Url) :=
  omap (λ e, match e with EffRequest op n _ => Some (op, n) | _ => None end) t.
Definition trace_answers (t : list Effect) : list (list Url) :=
  omap (λ e, match e with EffRequest _ _ a => a | _ => None end) t.

End refresh.
End Refresh.

Module RefreshFacts.
Import Refresh.
Section facts.
Context `{Network}.
Implicit Types (r : Run) (st : LoopState) (inputs : DiscoveryInputs) (g : Z) (t : list Effect).

(** ** Termination *)

Lemma iteration_measure inputs g add reuse st st' :
  iteration inputs g add reuse st = Continue st' → measure inputs st' < measure inputs st.
Proof.
  unfold iteration, measure. destruct (candidates st) as [|n rest] eqn:Hc; [done|].
  destruct (query _ _ _ _ _ _ _ _) as [[new|] r'].
  - destruct new as [|x xs]; [|done].
    destruct (Scope.fallback (scope st)) as [f|] eqn:Hf; [|done]. intros [= <-]. simpl.
    rewrite (ScopeFacts.chain_cons (scope st)), Hf. simpl. rewrite length_app. simpl. lia.
  - destruct (Scope.is_cluster _); [done|].
    destruct (bool_decide (rest = []) && negb (using_seeds st)) eqn:Hb; intros [= <-]; simpl.
    + apply andb_true_iff in Hb as [Hr Hu]. apply bool_decide_eq_true in Hr as ->.
      apply negb_true_iff in Hu as ->. simpl. lia.
    + lia.
Qed.

Lemma refresh_loop_total inputs g add reuse fuel st :
  measure inputs st < fuel → is_Some (refresh_loop fuel inputs g add reuse st).
Proof.
  revert st. induction fuel as [|fuel IH]; intros st Hm; [lia|]. simpl.
  destruct (iteration _ _ _ _ st) as [st'|st'] eqn:Hi; [|by eexists].
  apply IH. apply iteration_measure in Hi. lia.
Qed.

(** A refresh ends, unless it would overflow its generation. *)
Lemma update_live_nodes_total inputs o (add : list Url) (reuse : bool) r :
  if decide (next_generation (view r) + 1 < 2 ^ 64)%Z
  then ∃ o' r', update_live_nodes_from inputs o add reuse r = Finished o' r'
  else update_live_nodes_from inputs o add reuse r = Panicked.
Proof.
  unfold update_live_nodes_from, View.begin_refresh. case_decide; [|done].
  set (st := start _ _ _).
  destruct (refresh_loop_total inputs (next_generation (view r) + 1) add reuse
    (S (measure inputs st)) st) as [st' Hst]; [lia|]. rewrite Hst. by do 2 eexists.
Qed.

(** An invariant of the iterations holds where the loop breaks. *)
Lemma refresh_loop_inv (P Q : LoopState → Prop) inputs g add reuse fuel st st' :
  (∀ a b, P a → iteration inputs g add reuse a = Continue b → P b) →
  (∀ a b, P a → iteration inputs g add reuse a = Break b → Q b) →
  P st → refresh_loop fuel inputs g add reuse st = Some st' → Q st'.
Proof.
  intros HP HQ. revert st. induction fuel as [|fuel IH]; intros st Hst; simpl; [done|].
  destruct (iteration _ _ _ _ st) as [b|b] eqn:Hi; [|intros [= <-]; eauto]. eauto.
Qed.

(** ** What other threads do *)

Lemma pause_trace r : trace (pause r) = trace r.
Proof. unfold pause. by destruct (interfere _). Qed.

Lemma pause_scope r : routing_scope (view (pause r)) = routing_scope (view r).
Proof. unfold pause. destruct (interfere _) as [es w]. apply ViewFacts.run_events_scope. Qed.

(** ** One query *)

Context `{!UrlEqLaws}.

Definition query_effect (g : Z) (op : DiscoveryOperation) (e : Effect) : Prop :=
  match e with
  | EffRequest op' _ _ => op' = op
  | EffPartial g' ns => g' = g ∧ ns ≠ []
  | _ => False
  end.

Lemma sort_dedup_nil (nodes : list Url) : View.sort_dedup nodes = [] ↔ nodes = [].
Proof.
  split; [|by intros ->]. destruct nodes as [|n ns]; [done|]. intros Hs.
  assert (Hin : n ∈ View.sort_dedup (n :: ns)) by (apply ViewFacts.elem_of_sort_dedup_nodes; by left).
  rewrite Hs in Hin. by apply elem_of_nil in Hin.
Qed.

Lemma sort_dedup_app_l (l1 l2 : list Url) :
  View.sort_dedup (View.sort_dedup l1 ++ l2) = View.sort_dedup (l1 ++ l2).
Proof.
  apply (sort_dedup_canonical as_str). intros x.
  by rewrite !elem_of_app, ViewFacts.elem_of_sort_dedup_nodes.
Qed.

Lemma sort_dedup_idemp (l : list Url) :
  View.sort_dedup (View.sort_dedup l) = View.sort_dedup l.
Proof.
  apply (sort_dedup_canonical as_str). intros x. apply ViewFacts.elem_of_sort_dedup_nodes.
Qed.

Lemma fetch_trace inputs s n r res r' :
  fetch_live_nodes_for_scope inputs s n r = (res, r') →
  trace r' = trace r ++ [EffRequest (Scope.discovery_operation s) n res].
Proof.
  unfold fetch_live_nodes_for_scope. destruct (probe _ _ _) as [[a m] w].
  by intros [= <- <-].
Qed.

Lemma cluster_loop_trace inputs g cands new got r new' got' r' :
  cluster_loop inputs g cands new got r = (new', got', r') →
  ∃ t, trace r' = trace r ++ t ∧ Forall (query_effect g Cluster) t.
Proof.
  revert new got r. induction cands as [|c cands IH]; intros new got r; simpl.
  { intros [= _ _ <-]. exists []. by rewrite app_nil_r. }
  case_match; [apply IH|].
  destruct (fetch_live_nodes_for_scope _ _ _ _) as [res r1] eqn:Hf.
  apply fetch_trace in Hf. destruct res as [nodes|].
  - intros (t & Ht & Hq)%IH. case_decide as Hn.
    + exists (EffRequest Cluster c (Some nodes) :: t). split; [|by constructor].
      rewrite Ht, Hf. by rewrite <-app_assoc.
    + exists (EffRequest Cluster c (Some nodes)
              :: EffPartial g (View.sort_dedup (new ++ nodes)) :: t). split.
      * rewrite Ht. simpl. rewrite Hf. by rewrite <-!app_assoc.
      * constructor; [done|]. constructor; [|done]. split; [done|].
        intros Hs. apply (proj1 (sort_dedup_nil _)), app_eq_nil in Hs as [_ ->]. done.
  - intros (t & Ht & Hq)%IH. exists (EffRequest Cluster c None :: t).
    split; [|by constructor]. rewrite Ht, Hf. by rewrite <-app_assoc.
Qed.

Lemma is_cluster_op s : Scope.is_cluster s = true → Scope.discovery_operation s = Cluster.
Proof. by destruct s as [[d|] [r|] f]. Qed.

Lemma query_trace inputs g add reuse s n o r res r' :
  query inputs g add reuse s n o r = (res, r') →
  ∃ t, trace r' = trace r ++ t ∧ Forall (query_effect g (Scope.discovery_operation s)) t ∧
    (reuse = true → is_Some (o !! Scope.discovery_operation s) → t = []).
Proof.
  unfold query. destruct (if reuse then o !! _ else None) as [cached|] eqn:Ho.
  { intros [= _ <-]. exists []. by rewrite app_nil_r. }
  assert (Hno : reuse = true → is_Some (o !! Scope.discovery_operation s) → False).
  { intros -> [x Hx]. congruence. }
  destruct (Scope.is_cluster s) eqn:Hcl.
  - unfold cluster_discovery_candidates, discover_cluster_live_nodes_from.
    destruct (shuffle _ _) as [cc w]. destruct (cluster_loop _ _ _ _ _ _) as [[new got] r1] eqn:Hl.
    intros Hr. apply cluster_loop_trace in Hl as (t & Ht & Hq). exists t.
    cbn [trace set_world] in Ht. rewrite pause_trace in Ht.
    rewrite is_cluster_op in * by done. split; [|split; [done|]].
    + destruct got; simpl in Hr; by simplify_eq/=.
    + intros. exfalso. eauto.
  - intros Hf%fetch_trace. eexists. split; [exact Hf|]. split; [by repeat constructor|].
    intros. exfalso. eauto.
Qed.

Lemma query_effects_proj g op t :
  Forall (query_effect g op) t →
  trace_outcomes t = [] ∧ trace_publications t = [] ∧
  Forall (λ p, p.1 = g ∧ p.2 ≠ []) (trace_partials t) ∧
  Forall (λ p, p.1 = op) (trace_requests t).
Proof.
  induction 1 as [|e t He Ht IH]; [done|]. destruct IH as (IH1 & IH2 & IH3 & IH4).
  destruct e; simpl in *; try done.
  - split; [done|]. split; [done|]. split; [done|]. by constructor.
  - split; [done|]. split; [done|]. split; [by constructor|done].
Qed.

(** ** The walk along the fallback chain *)

(** What the loop has done when it is about to look at the candidates again:
    the scopes passed so far were answered with an empty list, nothing was
    published as complete. *)
Definition walking (s0 : RoutingScope) (o0 : DiscoveryOutcomes) (g : Z) (t0 : list Effect)
    (st : LoopState) : Prop :=
  ∃ t k, trace (run st) = t0 ++ t ∧
    Scope.operations (scope st) = drop k (Scope.operations s0) ∧
    trace_outcomes t = (λ op, (op, [])) <$> take k (Scope.operations s0) ∧
    trace_publications t = [] ∧
    Forall (λ p, p.1 = g ∧ p.2 ≠ []) (trace_partials t) ∧
    outcomes st = foldl (λ m p, <[p.1 := p.2]> m) o0 (trace_outcomes t).

(** How the loop ends. *)
Definition walked (s0 : RoutingScope) (o0 : DiscoveryOutcomes) (g : Z) (t0 : list Effect)
    (st : LoopState) : Prop :=
  ∃ t k, trace (run st) = t0 ++ t ∧
    Forall (λ p, p.1 = g ∧ p.2 ≠ []) (trace_partials t) ∧
    outcomes st = foldl (λ m p, <[p.1 := p.2]> m) o0 (trace_outcomes t) ∧
    (trace_outcomes t = (λ op, (op, [])) <$> take k (Scope.operations s0) ∧
       trace_publications t = [] ∨
     ∃ op ns v, Scope.operations s0 !! k = Some op ∧ ns ≠ [] ∧
       trace_outcomes t = ((λ op, (op, [])) <$> take k (Scope.operations s0)) ++ [(op, ns)] ∧
       trace_publications t = [(g, ns)] ∧
       view (run st) = View.publish_live_nodes g ns v).

Lemma trace_outcomes_app t1 t2 : trace_outcomes (t1 ++ t2) = trace_outcomes t1 ++ trace_outcomes t2.
Proof. apply omap_app. Qed.
Lemma trace_publications_app t1 t2 :
  trace_publications (t1 ++ t2) = trace_publications t1 ++ trace_publications t2.
Proof. apply omap_app. Qed.
Lemma trace_partials_app t1 t2 : trace_partials (t1 ++ t2) = trace_partials t1 ++ trace_partials t2.
Proof. apply omap_app. Qed.
Lemma trace_requests_app t1 t2 : trace_requests (t1 ++ t2) = trace_requests t1 ++ trace_requests t2.
Proof. apply omap_app. Qed.
Lemma trace_answers_app t1 t2 : trace_answers (t1 ++ t2) = trace_answers t1 ++ trace_answers t2.
Proof. apply omap_app. Qed.

(** One more query at the current scope, with what it leaves in the trace. *)
Lemma walking_query s0 o0 g t0 inputs add reuse st n res r' :
  walking s0 o0 g t0 st →
  query inputs g add reuse (scope st) n (outcomes st) (run st) = (res, r') →
  ∃ t k, trace r' = t0 ++ t ∧
    Scope.operations (scope st) = drop k (Scope.operations s0) ∧
    trace_outcomes t = (λ op, (op, [])) <$> take k (Scope.operations s0) ∧
    trace_publications t = [] ∧
    Forall (λ p, p.1 = g ∧ p.2 ≠ []) (trace_partials t) ∧
    outcomes st = foldl (λ m p, <[p.1 := p.2]> m) o0 (trace_outcomes t).
Proof.
  intros (t & k & Ht & Hop & Ho & Hp & Hpa & Hout) (t' & Ht' & Hq & _)%query_trace.
  apply query_effects_proj in Hq as (Hq1 & Hq2 & Hq3 & _).
  exists (t ++ t'), k. rewrite trace_outcomes_app, trace_publications_app, trace_partials_app.
  rewrite Hq1, Hq2, !app_nil_r. rewrite Ht', Ht, <-app_assoc.
  repeat split; try done. by apply Forall_app.
Qed.

Lemma operations_scope_cons s :
  Scope.operations s =
  Scope.discovery_operation s :: from_option Scope.operations [] (Scope.fallback s).
Proof. unfold Scope.operations. rewrite ScopeFacts.chain_cons. by destruct (Scope.fallback s). Qed.

Lemma drop_cons_inv {A} (l l' : list A) k x :
  x :: l' = drop k l → l !! k = Some x ∧ l' = drop (S k) l ∧ take (S k) l = take k l ++ [x].
Proof.
  intros Hd. assert (Hk : l !! k = Some x).
  { rewrite <-(Nat.add_0_r k), <-lookup_drop, <-Hd. done. }
  split; [done|]. split; [|by apply take_S_r].
  rewrite (drop_S l x k Hk) in Hd. by injection Hd.
Qed.

Lemma iteration_walking s0 o0 g t0 inputs add reuse st st' :
  walking s0 o0 g t0 st → iteration inputs g add reuse st = Continue st' →
  walking s0 o0 g t0 st'.
Proof.
  intros Hw. unfold iteration. destruct (candidates st) as [|n rest]; [done|].
  destruct (query _ _ _ _ _ _ _ _) as [res r'] eqn:Hq.
  destruct (walking_query _ _ _ _ _ _ _ _ _ _ _ Hw Hq) as (t & k & Ht & Hop & Ho & Hp & Hpa & Hout).
  destruct res as [[|x xs]|]; [|done|].
  - destruct (Scope.fallback (scope st)) as [f|] eqn:Hf; [|done]. intros [= <-].
    rewrite operations_scope_cons, Hf in Hop.
    apply drop_cons_inv in Hop as (_ & Hop & Htake).
    exists (t ++ [EffOutcome (Scope.discovery_operation (scope st)) []]), (S k). simpl.
    rewrite trace_outcomes_app, trace_publications_app, trace_partials_app, Ht, <-app_assoc.
    rewrite Hp, Htake, fmap_app, Ho, foldl_app, <-Ho, <-Hout. simpl.
    repeat split; try done. by rewrite app_nil_r.
  - destruct (Scope.is_cluster _); [done|].
    destruct (_ && _); intros [= <-]; exists t, k; done.
Qed.

Lemma iteration_walked s0 o0 g t0 inputs add reuse st st' :
  walking s0 o0 g t0 st → iteration inputs g add reuse st = Break st' →
  walked s0 o0 g t0 st'.
Proof.
  intros Hw. unfold iteration. destruct (candidates st) as [|n rest].
  { intros [= <-]. destruct Hw as (t & k & Ht & Hop & Ho & Hp & Hpa & Hout).
    exists t, k. split_and!; try done. by left. }
  destruct (query _ _ _ _ _ _ _ _) as [res r'] eqn:Hq.
  destruct (walking_query _ _ _ _ _ _ _ _ _ _ _ Hw Hq) as (t & k & Ht & Hop & Ho & Hp & Hpa & Hout).
  rewrite operations_scope_cons in Hop. apply drop_cons_inv in Hop as (Hk & _ & Htake).
  set (op := Scope.discovery_operation (scope st)) in *.
  destruct res as [[|x xs]|].
  - destruct (Scope.fallback (scope st)) as [f|]; [done|]. intros [= <-].
    exists (t ++ [EffOutcome op []]), (S k). simpl.
    rewrite trace_outcomes_app, trace_publications_app, trace_partials_app, Ht, <-app_assoc.
    rewrite Hp, Htake, fmap_app, Ho, foldl_app, <-Ho, <-Hout. simpl.
    split_and!; try done; [by rewrite app_nil_r|]. by left.
  - intros [= <-].
    exists (t ++ [EffOutcome op (x :: xs); EffPublish g (x :: xs)]), k. simpl.
    rewrite pause_trace. simpl.
    rewrite trace_outcomes_app, trace_publications_app, trace_partials_app, Ht, <-!app_assoc.
    rewrite Hp, Ho, foldl_app, <-Ho, <-Hout. simpl.
    split_and!; try done; [by rewrite app_nil_r|]. right.
    eexists op, (x :: xs), _. by split_and!.
  - destruct (Scope.is_cluster _); [|by destruct (_ && _)]. intros [= <-].
    exists t, k. split_and!; try done. by left.
Qed.

(** ** What the view keeps *)

(** A property of the view that other tasks and non-empty publications keep is
    kept by the refresh. *)
Section view_invariant.
Context (P : NodeView → Prop).
Hypothesis P_event : ∀ e v, View.publishes_nodes e → P v → P (View.apply_event e v).
Hypothesis meanwhile_publishes : others_do View.publishes_nodes.

Lemma run_events_keeps es v : Forall View.publishes_nodes es → P v → P (View.run_events es v).
Proof.
  intros Hes. revert v. induction Hes as [|e es He Hes IH]; intros v Hv; simpl; [done|].
  by apply IH, P_event.
Qed.

Lemma pause_keeps r : P (view r) → P (view (pause r)).
Proof.
  intros Hr. unfold pause. pose proof (proj2 meanwhile_publishes (world r)) as Hm.
  destruct (interfere _) as [es w]. by apply run_events_keeps.
Qed.

Lemma fetch_keeps inputs s n r : P (view r) → P (view (snd (fetch_live_nodes_for_scope inputs s n r))).
Proof.
  unfold fetch_live_nodes_for_scope. intros Hr.
  pose proof (proj1 meanwhile_publishes (Scope.build_localnodes_url s n)
    (default DISCOVERY_HTTP_OPERATION_TIMEOUT (discovery_timeout inputs)) (world r)) as Hm.
  destruct (probe _ _ _) as [[a m] w]. by apply run_events_keeps.
Qed.

Lemma cluster_loop_keeps inputs g cands new got r :
  P (view r) → P (view (snd (cluster_loop inputs g cands new got r))).
Proof.
  revert new got r. induction cands as [|c cands IH]; intros new got r Hr; simpl; [done|].
  case_match; [by apply IH|].
  pose proof (fetch_keeps inputs Scope.from_cluster c r Hr) as Hf.
  destruct (fetch_live_nodes_for_scope _ _ _ _) as [[nodes|] r1]; apply IH; [|done].
  case_decide as Hn; [done|]. simpl.
  apply (P_event (EvPartial g (View.sort_dedup (new ++ nodes)))); [|done].
  simpl. intros Hs. apply (proj1 (sort_dedup_nil _)), app_eq_nil in Hs as [_ ->]. done.
Qed.

Lemma query_keeps inputs g add reuse s n o r :
  P (view r) → P (view (snd (query inputs g add reuse s n o r))).
Proof.
  intros Hr. unfold query. destruct (if reuse then _ else _); [done|].
  destruct (Scope.is_cluster s); [|by apply fetch_keeps].
  unfold cluster_discovery_candidates, discover_cluster_live_nodes_from.
  destruct (shuffle _ _) as [cc w].
  pose proof (cluster_loop_keeps inputs g cc [] false (set_world w (pause r)) (pause_keeps r Hr)) as Hl.
  destruct (cluster_loop _ _ _ _ _ _) as [[new got] r1]. by destruct got.
Qed.

Lemma iteration_keeps inputs g add reuse st :
  P (view (run st)) →
  match iteration inputs g add reuse st with Continue st' | Break st' => P (view (run st')) end.
Proof.
  intros Hst. unfold iteration. destruct (candidates st) as [|n rest]; [done|].
  pose proof (query_keeps inputs g add reuse (scope st) n (outcomes st) (run st) Hst) as Hq.
  destruct (query _ _ _ _ _ _ _ _) as [[[|x xs]|] r'].
  - by destruct (Scope.fallback _).
  - apply (P_event (EvPublish g (x :: xs))); [done|]. by apply pause_keeps.
  - destruct (Scope.is_cluster _); [done|]. by destruct (_ && _).
Qed.

Lemma refresh_keeps inputs o add reuse r o' r' :
  P (view r) → update_live_nodes_from inputs o add reuse r = Finished o' r' → P (view r').
Proof.
  intros Hr. unfold update_live_nodes_from.
  destruct (View.begin_refresh (view r)) as [[g v]|] eqn:Hb; [|done].
  assert (Hv : P v).
  { pose proof (P_event EvBegin (view r) I Hr) as Hv. simpl in Hv. by rewrite Hb in Hv. }
  destruct (refresh_loop _ _ _ _ _ _) as [st|] eqn:Hl; [|done]. intros [= _ <-].
  eapply (refresh_loop_inv (λ st, P (view (run st))) (λ st, P (view (run st)))); [| | |exact Hl].
  - intros a b Ha Hi. pose proof (iteration_keeps inputs g add reuse a Ha). by rewrite Hi in *.
  - intros a b Ha Hi. pose proof (iteration_keeps inputs g add reuse a Ha). by rewrite Hi in *.
  - unfold start. pose proof (pause_keeps (on_view (λ _, v) r) Hv). by destruct (shuffle _ _).
Qed.

End view_invariant.

(** ** Reused outcomes *)

Definition no_repeat (o0 : DiscoveryOutcomes) (t0 : list Effect) (st : LoopState) : Prop :=
  (∀ op, is_Some (o0 !! op) → is_Some (outcomes st !! op)) ∧
  ∃ t, trace (run st) = t0 ++ t ∧ Forall (λ p, o0 !! p.1 = None) (trace_requests t).

Lemma query_no_repeat inputs g add o0 t0 st n res r' :
  no_repeat o0 t0 st →
  query inputs g add true (scope st) n (outcomes st) (run st) = (res, r') →
  ∃ t, trace r' = t0 ++ t ∧ Forall (λ p, o0 !! p.1 = None) (trace_requests t).
Proof.
  intros (Ho & t & Ht & Hr) (t' & Ht' & Hq & Hnil)%query_trace.
  exists (t ++ t'). rewrite Ht', Ht, <-app_assoc. split; [done|].
  rewrite trace_requests_app. apply Forall_app. split; [done|].
  destruct (o0 !! Scope.discovery_operation (scope st)) as [ns|] eqn:Hop.
  - rewrite Hnil; [constructor|done|]. apply Ho. by eexists.
  - apply query_effects_proj in Hq as (_ & _ & _ & Hq). eapply Forall_impl; [exact Hq|].
    by intros p ->.
Qed.

Lemma iteration_no_repeat inputs g add o0 t0 st :
  no_repeat o0 t0 st →
  match iteration inputs g add true st with
  | Continue st' | Break st' => no_repeat o0 t0 st'
  end.
Proof.
  intros Hst. unfold iteration. destruct (candidates st) as [|n rest]; [done|].
  destruct (query _ _ _ _ _ _ _ _) as [res r'] eqn:Hq.
  destruct (query_no_repeat _ _ _ _ _ _ _ _ _ Hst Hq) as (t & Ht & Hr).
  destruct Hst as [Ho _].
  assert (Hins : ∀ ns op, is_Some (o0 !! op) →
    is_Some (<[Scope.discovery_operation (scope st) := ns]> (outcomes st) !! op)).
  { intros ns op Hop%Ho. destruct (decide (Scope.discovery_operation (scope st) = op)) as [->|].
    - rewrite lookup_insert_eq. by eexists.
    - by rewrite lookup_insert_ne. }
  assert (Hlog : ∀ e es, trace_requests (e :: es) = [] →
    ∃ t1, (trace r' ++ e :: es) = t0 ++ t1 ∧ Forall (λ p, o0 !! p.1 = None) (trace_requests t1)).
  { intros e es Hnil. exists (t ++ e :: es). rewrite Ht, <-app_assoc. split; [done|].
    by rewrite trace_requests_app, Hnil, app_nil_r. }
  destruct res as [[|x xs]|].
  - destruct (Scope.fallback _); (split; [apply Hins|]); by apply Hlog.
  - split; [apply Hins|]. simpl. rewrite pause_trace. simpl. rewrite <-app_assoc. by apply Hlog.
  - destruct (Scope.is_cluster _); [by split; [|exists t]|].
    destruct (_ && _); (split; [done|by exists t]).
Qed.

(** ** A cluster pass *)

Lemma concat_snoc {A} (ls : list (list A)) l : concat (ls ++ [l]) = concat ls ++ l.
Proof. rewrite concat_app. simpl. by rewrite app_nil_r. Qed.

Lemma node_is_in_list_mono n (l1 l2 : list Url) :
  (∀ x, x ∈ l1 → x ∈ l2) →
  NodeUrl.node_is_in_list n l1 = true → NodeUrl.node_is_in_list n l2 = true.
Proof.
  unfold NodeUrl.node_is_in_list. rewrite !existsb_exists.
  intros Hl (x & Hx & Hp). exists x. split; [|done].
  by apply list_elem_of_In, Hl, list_elem_of_In.
Qed.

(** What the loop over the candidates leaves behind, when the answers [ans] had
    been collected before. *)
Lemma cluster_loop_union inputs g cands ans r new' got' r' :
  cluster_loop inputs g cands (View.sort_dedup (concat ans)) (negb (bool_decide (ans = []))) r
    = (new', got', r') →
  ∃ t, trace r' = trace r ++ t ∧
    new' = View.sort_dedup (concat (ans ++ trace_answers t)) ∧
    got' = negb (bool_decide (ans ++ trace_answers t = [])) ∧
    snd <$> trace_requests t `sublist_of` cands ∧
    Forall (λ c, c ∈ snd <$> trace_requests t ∨
                 NodeUrl.node_is_in_list c (concat (ans ++ trace_answers t)) = true) cands ∧
    Forall (λ p, p.1 = g ∧ ∃ k, p.2 = View.sort_dedup (concat (ans ++ take k (trace_answers t))))
      (trace_partials t).
Proof.
  revert ans r. induction cands as [|c cands IH]; intros ans r; cbn [cluster_loop].
  { intros [= <- <- <-]. exists []. rewrite !app_nil_r. by split_and!. }
  destruct (NodeUrl.node_is_in_list c (View.sort_dedup (concat ans))) eqn:Hin.
  { intros (t & Ht & Hnew & Hgot & Hsub & Hcov & Hpa)%IH. exists t. split_and!; try done.
    - by constructor.
    - constructor; [right|done]. eapply node_is_in_list_mono; [|exact Hin].
      intros x. rewrite ViewFacts.elem_of_sort_dedup_nodes, concat_app, elem_of_app. by left. }
  destruct (fetch_live_nodes_for_scope _ _ _ _) as [[nodes|] r1] eqn:Hf; apply fetch_trace in Hf.
  - rewrite sort_dedup_app_l, <-concat_snoc.
    set (r2 := if decide (nodes = []) then r1 else _).
    replace true with (negb (bool_decide (ans ++ [nodes] = []))) at 1
      by (rewrite bool_decide_eq_false_2; [done|by destruct ans]).
    intros (t & Ht & Hnew & Hgot & Hsub & Hcov & Hpa)%IH.
    assert (Hr2 : ∃ m, trace r2 = trace r ++ EffRequest Cluster c (Some nodes) :: m ∧
      trace_answers m = [] ∧ trace_requests m = [] ∧
      Forall (λ p, p.1 = g ∧ p.2 = View.sort_dedup (concat (ans ++ [nodes]))) (trace_partials m)).
    { subst r2. case_decide; [exists []; by split_and!|]. eexists [_]. simpl. rewrite Hf, <-app_assoc.
      split_and!; [done..|]. by constructor. }
    destruct Hr2 as (m & Hr2 & Hma & Hmr & Hmp).
    rewrite <-app_assoc in Hnew, Hgot.
    exists (EffRequest Cluster c (Some nodes) :: m ++ t).
    rewrite Ht, Hr2, <-app_assoc. cbn [trace_answers trace_requests trace_partials omap list_omap].
    fold (trace_answers (m ++ t)) (trace_requests (m ++ t)) (trace_partials (m ++ t)).
    rewrite trace_answers_app, trace_requests_app, trace_partials_app, Hma, Hmr. simpl.
    split_and!; [done|done|done|by constructor| |].
    + constructor; [left; by left|]. eapply Forall_impl; [exact Hcov|].
      rewrite <-app_assoc. intros x [Hx|Hx]; [left; by right|by right].
    + apply Forall_app. split.
      * eapply Forall_impl; [exact Hmp|]. intros p [Hp1 Hp2]. split; [done|by exists 1].
      * eapply Forall_impl; [exact Hpa|]. intros p [Hp1 [k Hp2]]. split; [done|].
        exists (S k). by rewrite Hp2, <-app_assoc.
  - intros (t & Ht & Hnew & Hgot & Hsub & Hcov & Hpa)%IH.
    exists (EffRequest Cluster c None :: t). rewrite Ht, Hf, <-app_assoc.
    cbn [trace_answers trace_requests trace_partials omap list_omap].
    fold (trace_answers t) (trace_requests t) (trace_partials t).
    split_and!; [done..|by constructor| |done].
    constructor; [left; by left|]. eapply Forall_impl; [exact Hcov|].
    intros x [Hx|Hx]; [left; by right|by right].
Qed.

(** ** Nothing answers *)

Section silent_network.
Hypothesis silent : ∀ u ms w, mjoin (fst (fst (probe u ms w))) = None.

Lemma fetch_silent inputs s n r :
  ∃ r', fetch_live_nodes_for_scope inputs s n r = (None, r') ∧
    trace r' = trace r ++ [EffRequest (Scope.discovery_operation s) n None].
Proof.
  unfold fetch_live_nodes_for_scope.
  pose proof (silent (Scope.build_localnodes_url s n)
    (default DISCOVERY_HTTP_OPERATION_TIMEOUT (discovery_timeout inputs)) (world r)) as Hs.
  destruct (probe _ _ _) as [[a m] w]. simpl in Hs. rewrite Hs. by eexists.
Qed.

Lemma cluster_loop_silent inputs g cands r :
  ∃ r', cluster_loop inputs g cands [] false r = ([], false, r') ∧
    trace r' = trace r ++ ((λ n, EffRequest Cluster n None) <$> cands).
Proof.
  revert r. induction cands as [|c cands IH]; intros r; simpl.
  { eexists. split; [done|]. by rewrite app_nil_r. }
  destruct (fetch_silent inputs Scope.from_cluster c r) as (r1 & -> & Ht1).
  destruct (IH r1) as (r' & Hl & Ht). exists r'. split; [done|].
  rewrite Ht, Ht1, <-app_assoc. done.
Qed.

(** The candidates that are still to be asked when nobody answers. *)
Definition to_ask (inputs : DiscoveryInputs) (st : LoopState) : list Url :=
  candidates st ++ (if using_seeds st then [] else seed_urls inputs).

Lemma refresh_loop_silent inputs g add fuel st st' :
  Scope.is_cluster (scope st) = false →
  (using_seeds st = false → candidates st ≠ []) →
  refresh_loop fuel inputs g add false st = Some st' →
  outcomes st' = outcomes st ∧
  trace (run st') = trace (run st) ++
    ((λ n, EffRequest (Scope.discovery_operation (scope st)) n None) <$> to_ask inputs st).
Proof.
  intros Hcl. revert st Hcl. induction fuel as [|fuel IH]; intros st Hcl Hc; [done|].
  cbn [refresh_loop]. unfold iteration, to_ask, query.
  destruct (candidates st) as [|n rest].
  { intros [= <-]. destruct (using_seeds st); [|by specialize (Hc eq_refl)].
    split; [done|]. by rewrite app_nil_r. }
  rewrite Hcl. destruct (fetch_silent inputs (scope st) n (run st)) as (r' & -> & Ht).
  destruct (bool_decide (rest = []) && negb (using_seeds st)) eqn:Hb.
  - apply andb_true_iff in Hb as [Hr Hu]. apply bool_decide_eq_true in Hr as ->.
    apply negb_true_iff in Hu. rewrite Hu.
    intros [Ho Htr]%IH; [|done|done]. split; [done|].
    rewrite Htr. unfold to_ask. simpl. by rewrite Ht, <-app_assoc, app_nil_r.
  - intros [Ho Htr]%IH; [|done|].
    + split; [done|]. rewrite Htr. simpl. rewrite Ht, <-app_assoc. done.
    + simpl. intros Hu. rewrite Hu in Hb. destruct rest; [done|done].
Qed.

End silent_network.

End facts.

(** ** How many requests a refresh sends *)

(** What an iteration asks: one node, or the nodes of a cluster pass. *)
Inductive Asked `{UrlApi} : Type :=
| AskedNode (op : DiscoveryOperation) (n : Url)
| AskedPass (nodes : list Url).
Definition asked_requests `{UrlApi} (a : Asked) : list (DiscoveryOperation * Url) :=
  match a with
  | AskedNode op n => [(op, n)]
  | AskedPass nodes => (λ n, (Cluster, n)) <$> nodes
  end.
Definition is_pass `{UrlApi} (a : Asked) : bool :=
  match a with AskedPass _ => true | AskedNode _ _ => false end.
Definition passes `{UrlApi} (asked : list Asked) : nat := length (filter (λ a, is_pass a = true) asked).

(** A node is asked by itself for a scope that is not the cluster; a pass asks no
    node twice. *)
Definition asked_for `{UrlApi} (scopes : list RoutingScope) (a : Asked) : Prop :=
  match a with
  | AskedNode op _ => ∃ s, s ∈ scopes ∧ Scope.is_cluster s = false ∧ Scope.discovery_operation s = op
  | AskedPass nodes => NoDup nodes
  end.

(** The scopes of a chain that ask for the whole cluster. *)
Definition clusters (s : RoutingScope) : nat :=
  length (filter (λ s, Scope.is_cluster s = true) (Scope.chain s)).

Section counting.
Context `{NetworkLaws} {eq_laws : UrlEqLaws}.
Implicit Types (r : Run) (st : LoopState) (inputs : DiscoveryInputs) (g : Z) (asked : list Asked).

Lemma clusters_fallback s :
  clusters s = (if Scope.is_cluster s then 1 else 0) + from_option clusters 0 (Scope.fallback s).
Proof.
  unfold clusters. rewrite ScopeFacts.chain_cons, filter_cons.
  destruct (Scope.is_cluster s), (Scope.fallback s); done.
Qed.

(** The membership as the refresh loads it. *)
Definition loaded r : list Url := live_nodes (view (pause (on_view (View.apply_event EvBegin) r))).

(** The nodes of a pass are candidates, in their order. *)
Lemma cluster_loop_requests inputs g cands new got r :
  ∃ nodes, nodes `sublist_of` cands ∧
    trace_requests (trace (snd (cluster_loop inputs g cands new got r))) =
    trace_requests (trace r) ++ asked_requests (AskedPass nodes).
Proof.
  revert new got r. induction cands as [|c cands IH]; intros new got r; cbn [cluster_loop].
  { exists []. by rewrite app_nil_r. }
  destruct (NodeUrl.node_is_in_list c new).
  { destruct (IH new got r) as (nodes & Hs & ->). exists nodes. by split; [constructor|]. }
  destruct (fetch_live_nodes_for_scope _ _ _ _) as [res r1] eqn:Hf. apply fetch_trace in Hf.
  assert (Hreq : trace_requests (trace r1) = trace_requests (trace r) ++ [(Cluster, c)])
    by by rewrite Hf, trace_requests_app.
  destruct res as [nodes|].
  - set (r2 := if decide (nodes = []) then r1 else _).
    assert (Hr2 : trace_requests (trace r2) = trace_requests (trace r1)).
    { subst r2. case_decide; [done|]. simpl. by rewrite trace_requests_app, app_nil_r. }
    destruct (IH (View.sort_dedup (new ++ nodes)) true r2) as (ns & Hs & ->).
    exists (c :: ns). split; [by constructor|]. by rewrite Hr2, Hreq, <-app_assoc.
  - destruct (IH new got r1) as (ns & Hs & ->). exists (c :: ns). split; [by constructor|].
    by rewrite Hreq, <-app_assoc.
Qed.

(** A query asks nothing, one node, or distinct nodes in one pass. *)
Lemma query_requests inputs g add reuse s n (o : DiscoveryOutcomes) r :
  ∃ asked, trace_requests (trace (snd (query inputs g add reuse s n o r))) =
      trace_requests (trace r) ++ (asked ≫= asked_requests) ∧
    length asked ≤ 1 ∧ passes asked ≤ (if Scope.is_cluster s then 1 else 0) ∧
    Forall (asked_for [s]) asked.
Proof.
  unfold query. destruct (if reuse then _ else _).
  { exists []. rewrite app_nil_r. split_and!; [done|simpl; lia|unfold passes; simpl; lia|constructor]. }
  destruct (Scope.is_cluster s) eqn:Hcl; cycle 1.
  { destruct (fetch_live_nodes_for_scope _ _ _ _) as [res r1] eqn:Hf. apply fetch_trace in Hf.
    exists [AskedNode (Scope.discovery_operation s) n]. simpl. rewrite Hf, trace_requests_app.
    split_and!; [done|simpl; lia|done|]. repeat constructor. exists s.
    split; [by apply list_elem_of_singleton|done]. }
  unfold cluster_discovery_candidates, discover_cluster_live_nodes_from.
  set (l := View.sort_dedup _). pose proof (shuffle_perm l (world (pause r))) as Hp.
  destruct (shuffle l _) as [cands w]. simpl in Hp.
  destruct (cluster_loop_requests inputs g cands [] false (set_world w (pause r))) as (nodes & Hs & Hreq).
  destruct (cluster_loop _ _ _ _ _ _) as [[new got] r1]. simpl in Hreq. rewrite pause_trace in Hreq.
  exists [AskedPass nodes]. split_and!; [|simpl; lia|done|].
  - simpl. rewrite app_nil_r. by destruct got.
  - simpl. repeat constructor. eapply sublist_NoDup; [|exact Hs]. rewrite Hp.
    apply ViewFacts.NoDup_sort_dedup_nodes.
Qed.

(** What is asked so far, and what may still be: [n] iterations with [c] passes. *)
Definition asked_within (s0 : RoutingScope) (t0 : list Effect) (n c : nat) r
    (iterations remaining : nat) : Prop :=
  ∃ asked, trace_requests (trace r) = trace_requests t0 ++ (asked ≫= asked_requests) ∧
    length asked + iterations ≤ n ∧ passes asked + remaining ≤ c ∧
    Forall (asked_for (Scope.chain s0)) asked.

Lemma asked_within_less s0 t0 n c r i j i' j' :
  i' ≤ i → j' ≤ j → asked_within s0 t0 n c r i j → asked_within s0 t0 n c r i' j'.
Proof. intros ?? (asked & Hreq & Hn & Hc & Hd). exists asked. split_and!; [done|lia..|done]. Qed.
Lemma asked_within_frame s0 t0 n c r r' i j :
  trace_requests (trace r') = trace_requests (trace r) →
  asked_within s0 t0 n c r i j → asked_within s0 t0 n c r' i j.
Proof. intros Hr (asked & Hreq & Hasked). exists asked. by rewrite Hr. Qed.

Lemma query_within s0 t0 n c inputs g add reuse s x (o : DiscoveryOutcomes) r i j :
  s ∈ Scope.chain s0 →
  asked_within s0 t0 n c r (S i) ((if Scope.is_cluster s then 1 else 0) + j) →
  asked_within s0 t0 n c (snd (query inputs g add reuse s x o r)) i j.
Proof.
  intros Hin (asked & Hreq & Hn & Hc & Hd).
  destruct (query_requests inputs g add reuse s x o r) as (more & Hm & Hl & Hp & Hd').
  exists (asked ++ more). unfold passes in *. rewrite Hm, Hreq, bind_app, length_app, filter_app, length_app.
  split_and!; [by rewrite app_assoc|lia..|]. apply Forall_app. split; [done|].
  eapply Forall_impl; [exact Hd'|]. intros [op y|nodes]; [|done].
  intros (s' & ->%list_elem_of_singleton & Hs). by exists s.
Qed.

Lemma emit_requests e r : trace_requests [e] = [] → trace_requests (trace (emit e r)) = trace_requests (trace r).
Proof. intros He. simpl. by rewrite trace_requests_app, He, app_nil_r. Qed.

(** The loop between two iterations: its scope is one of the chain. *)
Definition loop_within inputs (s0 : RoutingScope) (t0 : list Effect) (n c : nat) st : Prop :=
  (∀ s, s ∈ Scope.chain (scope st) → s ∈ Scope.chain s0) ∧
  asked_within s0 t0 n c (run st) (measure inputs st) (clusters (scope st)).

Lemma iteration_within s0 t0 n c inputs g add reuse st :
  loop_within inputs s0 t0 n c st →
  match iteration inputs g add reuse st with
  | Continue st' => loop_within inputs s0 t0 n c st'
  | Break st' => asked_within s0 t0 n c (run st') 0 0
  end.
Proof.
  intros [Hsc Hst]. unfold loop_within in *. pose proof (iteration_measure inputs g add reuse st) as Hm. unfold iteration in *.
  destruct (candidates st) as [|x rest] eqn:Hcand; [by eapply asked_within_less, Hst; lia|].
  assert (Hpos : 0 < measure inputs st) by (unfold measure; rewrite Hcand; simpl; lia).
  rewrite clusters_fallback in Hst. set (f := from_option clusters 0 _) in Hst.
  apply (asked_within_less _ _ _ _ _ _ _ (S (measure inputs st - 1))
    ((if Scope.is_cluster (scope st) then 1 else 0) + f)) in Hst; [|lia..].
  apply (query_within _ _ _ _ inputs g add reuse (scope st) x (outcomes st)) in Hst;
    [|apply Hsc; rewrite ScopeFacts.chain_cons; by left].
  destruct (query _ _ _ _ _ _ _ _) as [[[|y ys]|] r'] eqn:Hq; simpl in Hst.
  - destruct (Scope.fallback (scope st)) as [fb|] eqn:Hfb; cbn [run scope].
    + specialize (Hm _ eq_refl). split.
      { intros s Hs. apply Hsc. rewrite ScopeFacts.chain_cons, Hfb. by right. }
      eapply asked_within_frame; [by apply emit_requests|].
      eapply asked_within_less, Hst; [lia|done].
    + eapply asked_within_frame; [by apply emit_requests|]. eapply asked_within_less, Hst; lia.
  - cbn [run]. eapply (asked_within_frame _ _ _ _ r'); [|eapply asked_within_less, Hst; lia].
    rewrite emit_requests by done. cbn [trace on_view]. by rewrite pause_trace, emit_requests.
  - destruct (Scope.is_cluster (scope st)) eqn:Hcl; [cbn [run]; eapply asked_within_less, Hst; lia|].
    assert (clusters (scope st) = f) as Hf by by rewrite clusters_fallback, Hcl.
    destruct (_ && _); specialize (Hm _ eq_refl); cbn [run scope]; rewrite Hf; (split; [done|]);
      (eapply asked_within_less, Hst; [lia|done]).
Qed.

Lemma length_push_missing (l add : list Url) : length (push_missing l add) ≤ length l + length add.
Proof.
  revert l. induction add as [|c cs IH]; intros l; simpl; [lia|].
  etrans; [apply IH|]. case_decide; [lia|]. rewrite length_app. simpl. lia.
Qed.

End counting.
End RefreshFacts.

(** ** Properties *)

Section properties.
Context `{NetworkLaws}.
Import Refresh RefreshFacts.
Implicit Types (inputs : DiscoveryInputs) (r : Run) (o : DiscoveryOutcomes).

(** C19: a refresh terminates: unless the generation counter overflows (then it
    panics, and only then) it finishes, within as many iterations of its loop
    as there are candidates, seeds and links in the fallback chain, whatever the
    network answers and whatever other tasks do to the view meanwhile. *)
Theorem refresh_terminates inputs o (add : list Url) (reuse : bool) r :
  if decide (next_generation (view r) + 1 < 2 ^ 64)%Z
  then ∃ o' r', update_live_nodes_from inputs o add reuse r = Finished o' r'
  else update_live_nodes_from inputs o add reuse r = Panicked.
Proof. apply update_live_nodes_total. Qed.

(** C32: a refresh sends boundedly many requests, whatever the network answers and
    the others do.  It asks step by step: a step asks one node for a scope of its
    fallback chain that is not the cluster, or is a pass over the cluster, which
    asks no node twice.  There are at most as many steps as nodes in the
    membership it loaded, additional candidates, seeds and scopes in the chain,
    and at most as many passes among them as the chain has cluster scopes: one
    for the default scope, none for a chain without. *)
Theorem refresh_requests_bounded `{!UrlEqLaws} inputs o (add : list Url) (reuse : bool) r o' r' :
  update_live_nodes_from inputs o add reuse r = Finished o' r' →
  let s := routing_scope (view r) in
  ∃ asked : list Asked,
    trace_requests (trace r') = trace_requests (trace r) ++ (asked ≫= asked_requests) ∧
    Forall (asked_for (Scope.chain s)) asked ∧
    length asked ≤ length (loaded r) + length add + length (seed_urls inputs) + length (Scope.chain s) ∧
    passes asked ≤ clusters s.
Proof.
  intros Hr s. unfold update_live_nodes_from in Hr.
  destruct (View.begin_refresh (view r)) as [[g v]|] eqn:Hb; [|done].
  destruct (refresh_loop _ _ _ _ _ _) as [st|] eqn:Hl; [|done]. injection Hr as _ <-.
  set (n := length (loaded r) + _ + _ + _).
  enough (asked_within s (trace r) n (clusters s) (run st) 0 0) as (asked & Hreq & Hn & Hc & Hd).
  { exists asked. split_and!; [done|done|lia..]. }
  eapply (refresh_loop_inv (loop_within inputs s (trace r) n (clusters s))
    (λ st, asked_within s (trace r) n (clusters s) (run st) 0 0)); [| | |exact Hl].
  1, 2: intros a b Ha Hi; pose proof (iteration_within _ _ _ _ inputs g add reuse a Ha) as Hit; by rewrite Hi in Hit.
  assert (loaded r = live_nodes (view (pause (on_view (λ _, v) r)))) as Hload.
  { unfold loaded. replace (on_view (View.apply_event EvBegin) r) with (on_view (λ _, v) r); [done|].
    unfold on_view. f_equal. simpl. by rewrite Hb. }
  assert (routing_scope v = s) as Hsc.
  { pose proof (ViewFacts.apply_event_scope EvBegin (view r)) as Hsc. simpl in Hsc. by rewrite Hb in Hsc. }
  unfold start. rewrite pause_scope. cbn [view on_view]. rewrite Hsc. subst n. rewrite Hload.
  pose proof (pause_trace (on_view (λ _, v) r)) as Htr. set (r0 := pause _) in *.
  pose proof (shuffle_perm (live_nodes (view r0)) (world r0)) as Hs. apply Permutation_length in Hs.
  destruct (shuffle _ _) as [nodes w]. simpl in Hs. pose proof (length_push_missing nodes add) as Hp.
  split; [done|]. exists []. cbn [run scope]. unfold measure. cbn [candidates using_seeds scope trace set_world].
  rewrite Htr, app_nil_r. split_and!; [done|simpl; lia|unfold passes; simpl; lia|constructor].
Qed.

(** C6: a refresh publishes the first available scope: it walks the fallback
    chain in order, every scope it leaves behind was answered with an empty
    list, and it publishes at most one completed result, the non-empty answer
    of the scope at which it stopped, under its own generation; partial
    publications carry that generation too and are never empty.  The outcomes
    handed on are exactly the completed operations. *)
Theorem refresh_publishes_first_available `{!UrlEqLaws} inputs o (add : list Url)
    (reuse : bool) r o' r' :
  update_live_nodes_from inputs o add reuse r = Finished o' r' →
  let ops := Scope.operations (routing_scope (view r)) in
  let g := (next_generation (view r) + 1)%Z in
  ∃ t k, trace r' = trace r ++ t ∧
    Forall (λ p, p.1 = g ∧ p.2 ≠ []) (trace_partials t) ∧
    o' = foldl (λ m p, <[p.1 := p.2]> m) o (trace_outcomes t) ∧
    (trace_outcomes t = (λ op, (op, [])) <$> take k ops ∧ trace_publications t = [] ∨
     ∃ op ns v, ops !! k = Some op ∧ ns ≠ [] ∧
       trace_outcomes t = ((λ op, (op, [])) <$> take k ops) ++ [(op, ns)] ∧
       trace_publications t = [(g, ns)] ∧
       view r' = View.publish_live_nodes g ns v).
Proof.
  unfold update_live_nodes_from, View.begin_refresh. case_decide; [|done].
  set (g := (next_generation (view r) + 1)%Z).
  destruct (refresh_loop _ _ _ _ _ _) as [st|] eqn:Hl; [|done]. intros [= <- <-].
  eapply (refresh_loop_inv (walking (routing_scope (view r)) o g (trace r))
    (walked (routing_scope (view r)) o g (trace r))); [| | |exact Hl].
  - intros a b. apply iteration_walking.
  - intros a b. apply iteration_walked.
  - unfold start. destruct (shuffle _ _) as [nodes w]. exists [], 0. simpl.
    rewrite pause_trace, pause_scope. split_and!; try done. by rewrite app_nil_r.
Qed.

(** No refresh, ordinary or affinity, ever empties the membership of a view
    that has nodes, whatever the network answers, as long as the tasks running
    meanwhile publish no empty list either. *)
Theorem refresh_keeps_nodes `{!UrlEqLaws} inputs o (add : list Url) (reuse : bool) r o' r' :
  others_do View.publishes_nodes →
  live_nodes (view r) ≠ [] →
  update_live_nodes_from inputs o add reuse r = Finished o' r' →
  live_nodes (view r') ≠ [].
Proof.
  intros Hm Hr. apply (refresh_keeps (λ v, live_nodes v ≠ [])); [|done|done].
  apply ViewFacts.apply_event_nonempty.
Qed.

(** The affinity refresh repeats no query: it sends no request for an
    operation the ordinary refresh completed, neither directly nor after
    falling back. *)
Theorem affinity_reuses_outcomes `{!UrlEqLaws} inputs o (add : list Url) r o' r' :
  affinity_refresh inputs o add r = Finished o' r' →
  ∃ t, trace r' = trace r ++ t ∧ Forall (λ p, o !! p.1 = None) (trace_requests t).
Proof.
  unfold affinity_refresh, update_live_nodes_from, View.begin_refresh. case_decide; [|done].
  destruct (refresh_loop _ _ _ _ _ _) as [st|] eqn:Hl; [|done]. intros [= <- <-].
  cut (no_repeat o (trace r) st); [by intros [_ ?]|].
  eapply (refresh_loop_inv (no_repeat o (trace r)) (no_repeat o (trace r))); [| | |exact Hl].
  - intros a b Ha Hi. pose proof (iteration_no_repeat inputs
      (next_generation (view r) + 1) add _ _ _ Ha) as Hn. by rewrite Hi in Hn.
  - intros a b Ha Hi. pose proof (iteration_no_repeat inputs
      (next_generation (view r) + 1) add _ _ _ Ha) as Hn. by rewrite Hi in Hn.
  - unfold start. destruct (shuffle _ _) as [nodes w]. split; [done|]. exists [].
    simpl. by rewrite pause_trace, app_nil_r.
Qed.

(** C37: a cluster pass answers with the sorted union of all responses, and with
    nothing when no candidate responded; it asks candidates only, each at most
    once, and skips one only when a response already named its host and port;
    every partial publication is the union of the responses so far. *)
Theorem cluster_pass_unions `{!UrlEqLaws} inputs (g : Z) (cands : list Url) r res r' :
  discover_cluster_live_nodes_from inputs g cands r = (res, r') →
  ∃ t, trace r' = trace r ++ t ∧
    res = (if decide (trace_answers t = []) then None
           else Some (View.sort_dedup (concat (trace_answers t)))) ∧
    snd <$> trace_requests t `sublist_of` cands ∧
    Forall (λ c, c ∈ snd <$> trace_requests t ∨
                 NodeUrl.node_is_in_list c (concat (trace_answers t)) = true) cands ∧
    Forall (λ p, p.1 = g ∧ ∃ k, p.2 = View.sort_dedup (concat (take k (trace_answers t))))
      (trace_partials t).
Proof.
  unfold discover_cluster_live_nodes_from.
  destruct (cluster_loop _ _ _ _ _ _) as [[new got] r1] eqn:Hl. intros Hres.
  apply (cluster_loop_union inputs g cands []) in Hl as (t & Ht & -> & -> & Hs & Hc & Hp).
  simpl in *. exists t. destruct (decide (trace_answers t = [])) as [Ha|Ha].
  - rewrite bool_decide_eq_true_2 in Hres by done. by injection Hres as <- <-.
  - rewrite bool_decide_eq_false_2 in Hres by done. simpl in Hres.
    injection Hres as <- <-. split_and!; try done. by rewrite sort_dedup_idemp.
Qed.

(** When nothing answers and nobody else touches the view (and the preferred
    scope is not the whole cluster), an ordinary refresh asks every live node once, in a random order,
    then every seed once, all for the preferred scope, remembers no outcome and
    publishes nothing: a dead network costs no membership. *)
Theorem silent_network_changes_nothing inputs r o' r' :
  (∀ u ms w, mjoin (fst (fst (probe u ms w))) = None) →
  (∀ w, fst (interfere w) = []) →
  Scope.is_cluster (routing_scope (view r)) = false →
  live_nodes (view r) ≠ [] →
  update_live_nodes inputs r = Finished o' r' →
  o' = ∅ ∧
  ∃ order, order ≡ₚ live_nodes (view r) ∧
    trace r' = trace r ++
      ((λ n, EffRequest (Scope.discovery_operation (routing_scope (view r))) n None)
        <$> order ++ seed_urls inputs).
Proof.
  intros Hs Hint Hcl Hne. unfold update_live_nodes, update_live_nodes_from, View.begin_refresh.
  case_decide; [|done]. destruct (refresh_loop _ _ _ _ _ _) as [st|] eqn:Hl; [|done].
  intros [= <- <-]. set (fuel := S _) in Hl. clearbody fuel. unfold start, pause in Hl.
  cbn [world on_view] in Hl. specialize (Hint (world r)).
  destruct (interfere (world r)) as [es w0]. cbn [fst] in Hint. subst es. simpl in Hl.
  pose proof (shuffle_perm (live_nodes (view r)) w0) as Hp.
  destruct (shuffle _ _) as [nodes w]. simpl in Hp.
  apply (refresh_loop_silent Hs) in Hl as [Ho Ht]; [|done|].
  - split; [done|]. exists nodes. by split.
  - simpl. intros _ ->. by apply Permutation_nil in Hp.
Qed.

End properties.

(** ** A scripted network, for witnesses and examples

    The world is the script of the answers to come; shuffling reverses. *)

Module Scripted.
Import StrUrl.

#[export] Instance net : @Network api := {|
  World := list (option (option (list string)));
  probe _ _ w :=
    match w with
    | a :: w' => (a, [EvDraw ∅], w')
    | [] => (None, [], [])
    end;
  interfere w := ([EvDraw ∅], w);
  shuffle l w := (reverse l, w);
|}.

#[export] Instance net_laws : @NetworkLaws api net.
Proof. split. intros l w. simpl. apply reverse_Permutation. Qed.

(** A network on which every request fails. *)
Definition silent_net : @Network api := {|
  World := unit;
  probe _ _ w := (Some None, [], w);
  interfere w := ([], w);
  shuffle l w := (l, w);
|}.
Definition silent_net_laws : @NetworkLaws api silent_net.
Proof. split. reflexivity. Qed.

Definition inputs : @DiscoveryInputs api :=
  @mkInputs api None ["http://seed:8000/"] "http" (Some 8000%Z).
Definition rack_scope : RoutingScope :=
  Scope.with_fallback (Scope.from_rack "A" "r1") (Scope.from_datacenter "A").
Definition run0 (s : RoutingScope) (script : list (option (option (list string)))) : @Run api net :=
  @mkRun api net script (@View.new api s ["http://n1:8000/"; "http://n2:8000/"]) [].

(** The rack has no node, the second node is down, the datacenter has two. *)
Definition script : list (option (option (list string))) :=
  [Some (Some []); Some None; Some (Some ["n4"; "n3"])].

(** What a refresh ended with. *)
Definition ended (x : @Refreshed api net) : DiscoveryOutcomes * @Run api net :=
  match x with
  | Finished o r => (o, r)
  | _ => (∅, run0 rack_scope [])
  end.
Definition ordinary := ended (Refresh.update_live_nodes inputs (run0 rack_scope script)).
Definition affinity := ended (Refresh.affinity_refresh inputs (fst ordinary)
  ["http://n9:8000/"] (run0 (Scope.from_datacenter "A") [])).

Definition silent_run : @Run api silent_net :=
  @mkRun api silent_net tt (view (run0 rack_scope [])) [].
Definition silent_end : DiscoveryOutcomes * @Run api silent_net :=
  match @Refresh.update_live_nodes api silent_net inputs silent_run with
  | Finished o r => (o, r)
  | _ => (∅, silent_run)
  end.

End Scripted.

Section witnesses.
Import Refresh RefreshFacts StrUrl Scripted.

Example ordinary_trace :
  trace (snd ordinary) =
  [EffRequest (Rack "A" "r1") "http://n2:8000/" (Some []);
   EffOutcome (Rack "A" "r1") [];
   EffRequest (Datacenter "A") "http://n1:8000/" None;
   EffRequest (Datacenter "A") "http://n2:8000/" (Some ["http://n3:8000/"; "http://n4:8000/"]);
   EffOutcome (Datacenter "A") ["http://n3:8000/"; "http://n4:8000/"];
   EffPublish 1 ["http://n3:8000/"; "http://n4:8000/"]].
Proof. vm_refl. Qed.

Lemma refresh_publishes_first_available_witness :
  let ops := [Rack "A" "r1"; Datacenter "A"] in
  ∃ t k, trace (snd ordinary) = [] ++ t ∧
    Forall (λ p, p.1 = 1%Z ∧ p.2 ≠ []) (trace_partials t) ∧
    fst ordinary = foldl (λ m p, <[p.1 := p.2]> m) ∅ (trace_outcomes t) ∧
    (trace_outcomes t = (λ op, (op, [])) <$> take k ops ∧ trace_publications t = [] ∨
     ∃ op ns v, ops !! k = Some op ∧ ns ≠ [] ∧
       trace_outcomes t = ((λ op, (op, [])) <$> take k ops) ++ [(op, ns)] ∧
       trace_publications t = [(1%Z, ns)] ∧
       view (snd ordinary) = View.publish_live_nodes 1 ns v).
Proof.
  apply (@refresh_publishes_first_available api net eq_laws inputs ∅ [] false
    (run0 rack_scope script)).
  vm_refl.
Defined.

(** A cluster pass after a datacenter without nodes: the seed answers with the
    other two nodes, which are then not asked. *)
Definition wide_scope : RoutingScope :=
  Scope.with_fallback (Scope.from_datacenter "A") Scope.from_cluster.
Definition wide := ended (Refresh.update_live_nodes inputs
  (run0 wide_scope [Some (Some []); Some (Some ["n1"; "n2"]); Some None])).

Example wide_requests :
  trace_requests (trace (snd wide)) =
  [(Datacenter "A", "http://n2:8000/"); (Cluster, "http://seed:8000/")].
Proof. vm_refl. Qed.

Lemma refresh_requests_bounded_witness :
  ∃ asked : list (@Asked api),
    trace_requests (trace (snd wide)) = [] ++ (asked ≫= asked_requests) ∧
    Forall (asked_for (Scope.chain wide_scope)) asked ∧
    length asked ≤ 5 ∧ passes asked ≤ 1.
Proof.
  apply (@refresh_requests_bounded api net net_laws eq_laws inputs ∅ [] false
    (run0 wide_scope [Some (Some []); Some (Some ["n1"; "n2"]); Some None]) (fst wide)).
  vm_refl.
Defined.

Lemma refresh_keeps_nodes_witness : live_nodes (view (snd ordinary)) ≠ [].
Proof.
  apply (@refresh_keeps_nodes api net eq_laws inputs ∅ [] false
    (run0 rack_scope script) (fst ordinary)).
  - split; [intros u ms w; destruct w as [|a w]|intros w]; simpl; repeat constructor.
  - discriminate.
  - vm_refl.
Defined.

Lemma affinity_reuses_outcomes_witness :
  ∃ t, trace (snd affinity) = [] ++ t ∧
    Forall (λ p, fst ordinary !! p.1 = None) (trace_requests t).
Proof.
  apply (@affinity_reuses_outcomes api net eq_laws inputs (fst ordinary)
    ["http://n9:8000/"] (run0 (Scope.from_datacenter "A") []) (fst affinity)).
  vm_refl.
Defined.

Definition cluster_cands : list (@Url api) := ["http://n1:8000/"; "http://n3:8000/"].
Definition cluster_pass :=
  discover_cluster_live_nodes_from inputs 1 cluster_cands
    (run0 Scope.from_cluster [Some (Some ["n3"; "n2"]); Some (Some ["n5"])]).

Lemma cluster_pass_unions_witness :
  ∃ t, trace (snd cluster_pass) = [] ++ t ∧
    fst cluster_pass = (if decide (trace_answers t = []) then None
           else Some (View.sort_dedup (concat (trace_answers t)))) ∧
    snd <$> trace_requests t `sublist_of` cluster_cands ∧
    Forall (λ c, c ∈ snd <$> trace_requests t ∨
                 NodeUrl.node_is_in_list c (concat (trace_answers t)) = true) cluster_cands ∧
    Forall (λ p, p.1 = 1%Z ∧ ∃ k, p.2 = View.sort_dedup (concat (take k (trace_answers t))))
      (trace_partials t).
Proof.
  apply (@cluster_pass_unions api net eq_laws inputs 1 cluster_cands
    (run0 Scope.from_cluster [Some (Some ["n3"; "n2"]); Some (Some ["n5"])])).
  vm_refl.
Defined.

Lemma silent_network_changes_nothing_witness :
  fst silent_end = ∅ ∧
  ∃ order, order ≡ₚ ["http://n1:8000/"; "http://n2:8000/"] ∧
    trace (snd silent_end) = [] ++ ((λ n, EffRequest (Rack "A" "r1") n None)
          <$> order ++ ["http://seed:8000/"]).
Proof.
  apply (@silent_network_changes_nothing api silent_net silent_net_laws inputs silent_run).
  - intros u ms w. reflexivity.
  - intros w. reflexivity.
  - reflexivity.
  - discriminate.
  - vm_refl.
Defined.

End witnesses.
