(* ===== verification/Membership.v ===== *)
(** * Which nodes a client may come to know

    Every node a client routes to is the URL of a seed host or of an address some
    node answered with, and both are built by [build_node_url] with the
    configured scheme and port.  This file follows that property through one
    refresh: as long as the other tasks that touch the view meanwhile keep it
    ([event_ok], the rely), the requests of the refresh go to such nodes only and
    everything it publishes or remembers consists of such nodes and is, where it
    is published, not empty ([run_ok], the guarantee). *)

From S2P Require Import Prelude UrlApi NodeUrl RoutingScope LiveNodes Refresh.

(** What building a URL from a scheme, an authority and a port guarantees. *)
Class UrlBuildLaws `{UrlApi} : Prop := {
  (** [Url::parse] keeps the scheme, in lower case. *)
  parse_scheme : ∀ sch authority u, NodeUrl.is_valid_uri_scheme sch = true →
    Url_parse (String.app sch (String.app "://" authority)) = Ok u →
    scheme u = to_ascii_lowercase sch;
  (** [Url::set_port] does not touch the scheme, and sets the port. *)
  set_port_scheme : ∀ u p u', set_port u p = Some u' → scheme u' = scheme u;
  set_port_some : ∀ u p u', set_port u (Some p) = Some u' → port_or_known_default u' = Some p;
  set_port_none : ∀ u u', set_port u None = Some u' → port u' = None;
  (** The default port depends on the scheme only. *)
  known_default_congr : ∀ u1 u2, scheme u1 = scheme u2 → port u1 = port u2 →
    port_or_known_default u1 = port_or_known_default u2;
}.

Module Membership.
Section membership.
Context `{UrlApi}.

(** The nodes a client of that scheme and port may route to. *)
Definition served (sch : string) (p : option Z) (u : Url) : Prop :=
  ∃ addr, NodeUrl.build_node_url sch addr p = Ok u.

(** A membership: some nodes, all of them [known]. *)
Definition members_ok (known : Url → Prop) (l : list Url) : Prop := l ≠ [] ∧ Forall known l.
Definition view_ok (known : Url → Prop) (v : NodeView) : Prop := members_ok known (live_nodes v).

(** What other tasks do to a view. *)
Definition event_ok (known : Url → Prop) (e : ViewEvent) : Prop :=
  match e with
  | EvPublish _ l | EvPartial _ l => members_ok known l
  | EvBegin | EvDraw _ => True
  end.

(** What a refresh does to the outside. *)
Definition effect_ok (known : Url → Prop) (e : Effect) : Prop :=
  match e with
  | EffRequest _ node answer => known node ∧ Forall known (default [] answer)
  | EffOutcome _ l => Forall known l
  | EffPartial _ l | EffPublish _ l => members_ok known l
  end.

Definition outcomes_ok (known : Url → Prop) (o : DiscoveryOutcomes) : Prop :=
  map_Forall (λ _, Forall known) o.

(** The seeds and the addresses of these inputs are known. *)
Definition inputs_ok (known : Url → Prop) (inputs : DiscoveryInputs) : Prop :=
  Forall known (seed_urls inputs) ∧
  ∀ addr u, Refresh.host_to_uri inputs addr = Ok u → known u.

End membership.

Section running.
Context `{Network}.

Definition run_ok (known : Url → Prop) (r : Run) : Prop :=
  view_ok known (view r) ∧ Forall (effect_ok known) (trace r).
Definition state_ok (known : Url → Prop) (st : LoopState) : Prop :=
  Forall known (candidates st) ∧ outcomes_ok known (outcomes st) ∧ run_ok known (run st).

(** The rely: what others do to the view during a refresh. *)
Definition rely (known : Url → Prop) : Prop := others_do (event_ok known).

End running.
End Membership.

Module MembershipFacts.
Import Membership Refresh.
Section urls.
Context `{UrlApi}.

(** A seed is served like any other node. *)
Lemma seed_served sch addr p u : NodeUrl.build_seed_url sch addr p = Ok u → served sch p u.
Proof.
  unfold NodeUrl.build_seed_url, served. destruct (Ipv6.is_ok _); [eauto|].
  destruct (Host_parse addr); simpl; [eauto|done].
Qed.

(** Where a served node listens. *)
Lemma served_endpoint `{!UrlBuildLaws} sch p u :
  served sch p u →
  scheme u = to_ascii_lowercase sch ∧
  match p with
  | Some p => port_or_known_default u = Some p
  | None => port u = None
  end.
Proof.
  intros [addr Hu]. unfold NodeUrl.build_node_url in Hu.
  destruct (NodeUrl.is_valid_uri_scheme sch) eqn:Hs; [|done]. simpl in Hu.
  destruct (Url_parse _) as [u0|e] eqn:Hp; [|done]. simpl in Hu.
  destruct (set_port u0 p) as [u1|] eqn:Hset; [|done]. simpl in Hu. injection Hu as ->.
  apply parse_scheme in Hp; [|done]. split; [by rewrite (set_port_scheme _ _ _ Hset)|].
  destruct p; [by apply set_port_some in Hset|by apply set_port_none in Hset].
Qed.

Context `{!UrlEqLaws} (known : Url → Prop).
Implicit Types (v : NodeView) (l : list Url).

Lemma sort_dedup_ok l : Forall known l → Forall known (View.sort_dedup l).
Proof.
  rewrite !Forall_forall. intros Hl x Hx. apply Hl. by apply ViewFacts.elem_of_sort_dedup_nodes.
Qed.

(** Other tasks keep the view well-formed. *)
Lemma event_keeps e v : event_ok known e → view_ok known v → view_ok known (View.apply_event e v).
Proof.
  intros He [Hne Hv]. split.
  { apply ViewFacts.apply_event_nonempty; [|done]. destruct e; simpl in *; by try apply He. }
  destruct e; simpl.
  - destruct (ViewFacts.begin_live_nodes v) as [Hb _]. simpl in Hb. by rewrite Hb.
  - rewrite ViewFacts.publish_eq. case_decide; [done|]. apply He.
  - rewrite ViewFacts.publish_partial_eq. case_decide; [done|]. simpl.
    apply sort_dedup_ok, Forall_app. split; [done|apply He].
  - by destruct (ViewFacts.draw_live_nodes used_nodes v) as [-> _].
Qed.

Lemma events_keep es v :
  Forall (event_ok known) es → view_ok known v → view_ok known (View.run_events es v).
Proof.
  intros Hes. revert v. induction Hes as [|e es He Hes IH]; intros v Hv; simpl; [done|].
  by apply IH, event_keeps.
Qed.

End urls.

(** ** One refresh *)

Section refresh.
Context `{NetworkLaws, !UrlEqLaws} (known : Url → Prop).
Context (meanwhile : rely known) (inputs : DiscoveryInputs) (inputs_known : inputs_ok known inputs).
Implicit Types (r : Run) (st : LoopState) (g : Z).

Lemma answer_ok nodes : Forall known (answer_nodes inputs nodes).
Proof.
  apply Forall_forall. intros u Hu. unfold answer_nodes in Hu.
  apply list_elem_of_omap in Hu as (addr & _ & Hu).
  destruct (host_to_uri inputs addr) as [u'|] eqn:Hhu; [|done]. simpl in Hu. injection Hu as ->.
  by apply (proj2 inputs_known addr).
Qed.

Lemma emit_ok e r : effect_ok known e → run_ok known r → run_ok known (emit e r).
Proof. intros He [Hv Ht]. split; [done|]. apply Forall_app. by repeat constructor. Qed.

Lemma publish_ok e r : event_ok known e → run_ok known r → run_ok known (on_view (View.apply_event e) r).
Proof. intros He [Hv Ht]. split; [by apply event_keeps|done]. Qed.

Lemma pause_ok r : run_ok known r → run_ok known (pause r).
Proof.
  intros [Hv Ht]. unfold pause. pose proof (proj2 meanwhile (world r)) as Hm.
  destruct (interfere _) as [es w]. split; [by apply events_keep|done].
Qed.

Lemma fetch_ok s n r :
  known n → run_ok known r →
  let '(res, r') := fetch_live_nodes_for_scope inputs s n r in
  run_ok known r' ∧ Forall known (default [] res).
Proof.
  intros Hn [Hv Ht]. unfold fetch_live_nodes_for_scope.
  pose proof (proj1 meanwhile (Scope.build_localnodes_url s n)
    (default DISCOVERY_HTTP_OPERATION_TIMEOUT (discovery_timeout inputs)) (world r)) as Hm.
  destruct (probe _ _ _) as [[a m] w]. simpl in Hm.
  assert (Ha : Forall known (default [] (answer_nodes inputs <$> mjoin a))).
  { destruct (mjoin a); [apply answer_ok|constructor]. }
  split; [|done]. apply emit_ok; [done|]. split; [by apply events_keep|done].
Qed.

Lemma cluster_loop_ok g cands new got r :
  Forall known cands → Forall known new → run_ok known r →
  let '(new', _, r') := cluster_loop inputs g cands new got r in
  Forall known new' ∧ run_ok known r'.
Proof.
  revert new got r. induction cands as [|c cands IH]; intros new got r Hc Hnew Hr; [done|].
  apply Forall_cons in Hc as [Hc Hcs]. cbn [cluster_loop]. destruct (NodeUrl.node_is_in_list c new); [by apply IH|].
  pose proof (fetch_ok Scope.from_cluster c r Hc Hr) as Hf.
  destruct (fetch_live_nodes_for_scope _ _ _ _) as [[nodes|] r1]; destruct Hf as [Hr1 Hn];
    [|by apply IH].
  assert (Hs : Forall known (View.sort_dedup (new ++ nodes))).
  { apply sort_dedup_ok, Forall_app. by split. }
  apply IH; [done|done|]. case_decide as Hnil; [done|].
  assert (Hok : members_ok known (View.sort_dedup (new ++ nodes))).
  { split; [|done]. intros Hd.
    by apply (proj1 (RefreshFacts.sort_dedup_nil _)), app_eq_nil in Hd as [_ ->]. }
  apply emit_ok; [done|]. by apply (publish_ok (EvPartial g _)).
Qed.

Lemma shuffle_ok l w : Forall known l → Forall known (fst (shuffle l w)).
Proof. intros Hl. by rewrite shuffle_perm. Qed.

Lemma query_ok g add reuse s n (o : DiscoveryOutcomes) r :
  known n → Forall known add → outcomes_ok known o → run_ok known r →
  let '(res, r') := query inputs g add reuse s n o r in
  run_ok known r' ∧ Forall known (default [] res).
Proof.
  intros Hn Hadd Ho Hr. unfold query.
  destruct (if reuse then _ else _) as [cached|] eqn:Hc.
  { split; [done|]. destruct reuse; [|done]. by apply (Ho (Scope.discovery_operation s)). }
  destruct (Scope.is_cluster s); [|by apply fetch_ok].
  unfold cluster_discovery_candidates, discover_cluster_live_nodes_from.
  apply pause_ok in Hr. set (r0 := pause r) in *.
  pose proof (shuffle_ok (View.sort_dedup (live_nodes (view r0) ++ seed_urls inputs ++ add)) (world r0)) as Hs.
  destruct (shuffle _ _) as [cc w]. simpl in Hs.
  pose proof (cluster_loop_ok g cc [] false (set_world w r0)) as Hl.
  destruct (cluster_loop _ _ _ _ _ _) as [[new got] r1]. destruct Hl as [Hnew Hr1].
  - apply Hs, sort_dedup_ok. rewrite !Forall_app. split_and!; [apply Hr|apply inputs_known|done].
  - constructor.
  - destruct Hr as [Hv Ht]. by split.
  - destruct got; simpl; (split; [done|]); [by apply sort_dedup_ok|constructor].
Qed.

Lemma iteration_ok g add reuse st :
  Forall known add → state_ok known st →
  match iteration inputs g add reuse st with
  | Continue st' | Break st' => state_ok known st'
  end.
Proof.
  intros Hadd (Hc & Ho & Hr). unfold iteration.
  destruct (candidates st) as [|n rest] eqn:Hcand; [split; [by rewrite Hcand|by split]|].
  apply Forall_cons in Hc as [Hn Hrest].
  pose proof (query_ok g add reuse (scope st) n (outcomes st) (run st) Hn Hadd Ho Hr) as Hq.
  destruct (query _ _ _ _ _ _ _ _) as [[new|] r']; destruct Hq as [Hr' Hnew].
  - assert (Ho' : outcomes_ok known (<[Scope.discovery_operation (scope st) := new]> (outcomes st)))
      by by apply map_Forall_insert_2.
    assert (He : run_ok known (emit (EffOutcome (Scope.discovery_operation (scope st)) new) r'))
      by by apply emit_ok.
    destruct new as [|x xs].
    + destruct (Scope.fallback _); [|by split_and!]. split_and!; try done.
      apply Forall_app. by repeat constructor.
    + split_and!; try done. assert (Hm : members_ok known (x :: xs)) by done.
      apply emit_ok; [done|]. by apply (publish_ok (EvPublish g (x :: xs))), pause_ok.
  - destruct (Scope.is_cluster _); [by split_and!|].
    destruct (_ && _); split_and!; try done. apply inputs_known.
Qed.

Lemma push_missing_ok l add : Forall known l → Forall known add → Forall known (push_missing l add).
Proof.
  intros Hl Hadd. revert l Hl. induction Hadd as [|c cs Hc Hcs IH]; intros l Hl; simpl; [done|].
  apply IH. case_decide; [done|]. apply Forall_app. by repeat constructor.
Qed.

(** The guarantee of a refresh. *)
Lemma refresh_ok (o : DiscoveryOutcomes) add reuse r o' r' :
  outcomes_ok known o → Forall known add → run_ok known r →
  update_live_nodes_from inputs o add reuse r = Finished o' r' →
  outcomes_ok known o' ∧ run_ok known r'.
Proof.
  intros Ho Hadd [Hv Ht]. unfold update_live_nodes_from.
  destruct (View.begin_refresh (view r)) as [[g v]|] eqn:Hb; [|done].
  assert (Hv' : view_ok known v).
  { pose proof (event_keeps known EvBegin (view r) I Hv) as Hv'. simpl in Hv'. by rewrite Hb in Hv'. }
  destruct (refresh_loop _ _ _ _ _ _) as [st|] eqn:Hl; [|done]. intros [= <- <-].
  enough (state_ok known st) as (_ & ? & ?) by done.
  eapply (RefreshFacts.refresh_loop_inv (state_ok known) (state_ok known)); [| | |exact Hl].
  - intros a b Ha Hi. pose proof (iteration_ok g add reuse a Hadd Ha). by rewrite Hi in *.
  - intros a b Ha Hi. pose proof (iteration_ok g add reuse a Hadd Ha). by rewrite Hi in *.
  - assert (Hr : run_ok known (pause (on_view (λ _, v) r))) by by apply pause_ok.
    unfold start. set (r0 := pause _) in *. pose proof (shuffle_ok (live_nodes (view r0)) (world r0)) as Hs.
    destruct (shuffle _ _) as [nodes w]. split_and!; [|done|apply Hr..].
    apply push_missing_ok; [|done]. by apply Hs, Hr.
Qed.

End refresh.
End MembershipFacts.
