(* ===== verification/RefreshInterleaving.v ===== *)
(** * Concurrent refreshes of one view ([update_live_nodes_from] in
      [src/src/live_nodes.rs])

    [Refresh] runs a refresh in one go and leaves what others do to the view
    meanwhile to its [Network] interface.  Here a refresh is an activity that
    advances by one access to the view, one answer or one local step at a time,
    and any number of refreshes and of requests that draw nodes interleave on one
    view in any order: an old loop that a take-over aborts late, the loop that
    replaced it, and the callers.

    The theorems: whatever the interleaving, a refresh that has ended did exactly
    what [Refresh.update_live_nodes_from] does over the answers it got and the
    actions of the others, so all that is proved about one refresh holds of each
    of them; the memberships and all effects consist of known nodes, which is
    what a refresh relies on, so that the argument is not circular; no two
    refreshes share a generation and the membership is that of the newest one
    that published, unless a newer publication came in; and no refresh takes
    infinitely many steps or is stuck before its end. *)

From Stdlib Require Import Relation_Operators Wellfounded.
From S2P Require Import Prelude UrlApi NodeUrl RoutingScope LiveNodes Refresh Membership.

(** The arguments of [update_live_nodes_from]. *)
Record RefreshCall `{UrlApi} := mkCallOf {
  call_inputs : DiscoveryInputs;
  call_outcomes : DiscoveryOutcomes;
  call_additional : list Url;
  call_reuse : bool;
}.

(** The local variables of its loop. *)
Record Locals `{UrlApi} := mkLocals {
  l_scope : RoutingScope;
  l_candidates : list Url;
  l_using_seeds : bool;
  l_outcomes : DiscoveryOutcomes;
}.

(** Where a refresh is; [generation] is its own, [node] the candidate of the
    iteration, and a cluster pass has the candidates that are left, the nodes
    found so far and whether anyone responded. *)
Inductive RefreshPc `{UrlApi} : Type :=
| Idle
| LoadNodes (generation : Z)
| Head (generation : Z) (l : Locals)
| AwaitAnswer (generation : Z) (l : Locals) (node : Url)
| LoadCandidates (generation : Z) (l : Locals) (node : Url)
| NextCandidate (generation : Z) (l : Locals) (node : Url) (cands new : list Url) (got : bool)
| AwaitCandidate (generation : Z) (l : Locals) (node c : Url) (cands new : list Url) (got : bool)
| PublishPartial (generation : Z) (l : Locals) (node : Url) (cands new : list Url)
| PublishFull (generation : Z) (l : Locals) (new : list Url)
| Ended (o : DiscoveryOutcomes)
| Overflowed.

(** What a step is given from outside: nothing, the order of a shuffle, or the
    answer of a node. *)
Inductive RefreshInput `{UrlApi} : Type :=
| Act
| Order (nodes : list Url)
| Answer (a : option (option (list string))).

Module RefreshSteps.
Import Refresh.
Section steps.
Context `{UrlApi}.
Implicit Types (v : NodeView) (g : Z) (l : Locals).

(** What follows the result of a query: the rest of the loop's body. *)
Definition judge (inputs : DiscoveryInputs) g l (node : Url) (result : option (list Url))
    : RefreshPc * list Effect :=
  let key := Scope.discovery_operation (l_scope l) in
  match result with
  | None =>
      if Scope.is_cluster (l_scope l) then (Ended (l_outcomes l), [])
      else if bool_decide (l_candidates l = []) && negb (l_using_seeds l) then
        (Head g (mkLocals _ (l_scope l) (seed_urls inputs) true (l_outcomes l)), [])
      else (Head g l, [])
  | Some new_nodes =>
      let o := <[key := new_nodes]> (l_outcomes l) in
      (match new_nodes with
       | [] =>
           match Scope.fallback (l_scope l) with
           | None => Ended o
           | Some fallback =>
               Head g (mkLocals _ fallback (l_candidates l ++ [node]) (l_using_seeds l) o)
           end
       | _ :: _ =>
           PublishFull g (mkLocals _ (l_scope l) (l_candidates l) (l_using_seeds l) o) new_nodes
       end, [EffOutcome key new_nodes])
  end.

(** One step: where it leads, what is recorded of it, and what it does to the
    view.  [None]: the input is not what the refresh waits for. *)
Definition refresh_step (call : RefreshCall) (pc : RefreshPc) (input : RefreshInput) v
    : option (RefreshPc * list Effect * option ViewEvent) :=
  let inputs := call_inputs call in
  match pc, input with
  | Idle, Act =>
      Some (match View.begin_refresh v with
            | Some (g, _) => (LoadNodes g, [], Some EvBegin)
            | None => (Overflowed, [], None)
            end)
  | LoadNodes g, Order nodes =>
      if decide (nodes ≡ₚ live_nodes v) then
        Some (Head g (mkLocals _ (routing_scope v) (push_missing nodes (call_additional call)) false
          (call_outcomes call)), [], None)
      else None
  | Head g l, Act =>
      Some (match l_candidates l with
            | [] => (Ended (l_outcomes l), [], None)
            | node :: rest =>
                let l := mkLocals _ (l_scope l) rest (l_using_seeds l) (l_outcomes l) in
                match (if call_reuse call
                       then l_outcomes l !! Scope.discovery_operation (l_scope l) else None) with
                | Some cached => (judge inputs g l node (Some cached), None)
                | None =>
                    (if Scope.is_cluster (l_scope l) then LoadCandidates g l node
                     else AwaitAnswer g l node, [], None)
                end
            end)
  | AwaitAnswer g l node, Answer a =>
      let result := answer_nodes inputs <$> mjoin a in
      let '(pc, es) := judge inputs g l node result in
      Some (pc, EffRequest (Scope.discovery_operation (l_scope l)) node result :: es, None)
  | LoadCandidates g l node, Order nodes =>
      if decide (nodes ≡ₚ View.sort_dedup
                   (live_nodes v ++ seed_urls inputs ++ call_additional call)) then
        Some (NextCandidate g l node nodes [] false, [], None)
      else None
  | NextCandidate g l node cands new got, Act =>
      Some (match cands with
            | [] => (judge inputs g l node (if got then Some (View.sort_dedup new) else None), None)
            | c :: cands =>
                (if NodeUrl.node_is_in_list c new then NextCandidate g l node cands new got
                 else AwaitCandidate g l node c cands new got, [], None)
            end)
  | AwaitCandidate g l node c cands new got, Answer a =>
      let result := answer_nodes inputs <$> mjoin a in
      Some (match result with
            | None => NextCandidate g l node cands new got
            | Some nodes =>
                let new := View.sort_dedup (new ++ nodes) in
                if decide (nodes = []) then NextCandidate g l node cands new true
                else PublishPartial g l node cands new
            end, [EffRequest (Scope.discovery_operation Scope.from_cluster) c result], None)
  | PublishPartial g l node cands new, Act =>
      Some (NextCandidate g l node cands new true, [EffPartial g new], Some (EvPartial g new))
  | PublishFull g l new, Act =>
      Some (Ended (l_outcomes l), [EffPublish g new], Some (EvPublish g new))
  | _, _ => None
  end.

(** ** Any number of refreshes of one view *)

(** A refresh under way, with the trace of what it did. *)
Record Activity := mkActivity {
  act_call : RefreshCall;
  act_pc : RefreshPc;
  act_trace : list Effect;
}.

Record Shared := mkShared {
  shared_view : NodeView;
  activities : list Activity;
}.

(** A refresh starts, a refresh advances, a request draws a node. *)
Inductive SharedEvent : Type :=
| Start (call : RefreshCall)
| Advance (i : nat) (input : RefreshInput)
| Draw (used_nodes : gset Url).

Definition shared_event (e : SharedEvent) (s : Shared) : option Shared :=
  match e with
  | Start call => Some (mkShared (shared_view s) (activities s ++ [mkActivity call Idle []]))
  | Advance i input =>
      a ← activities s !! i;
      '(pc, es, ev) ← refresh_step (act_call a) (act_pc a) input (shared_view s);
      Some (mkShared (View.run_events (option_list ev) (shared_view s))
             (<[i := mkActivity (act_call a) pc (act_trace a ++ es)]> (activities s)))
  | Draw used => Some (mkShared (View.apply_event (EvDraw used) (shared_view s)) (activities s))
  end.
Definition run_shared (es : list SharedEvent) (s : Shared) : option Shared :=
  foldl (λ o e, s ← o; shared_event e s) (Some s) es.

(** ** The history of one refresh *)

(** What one refresh sees of an interleaving: the actions of the others on the
    view, the orders and answers it is given, and where its publications are. *)
Inductive Item : Type :=
| Theirs (e : ViewEvent)
| Loaded (nodes : list Url)
| Answered (a : option (option (list string))) (partial_follows : bool)
| PartialDone
| FullDone.

(** Does the answer lead to a partial publication? *)
Definition partial_pc (pc : RefreshPc) : bool :=
  match pc with PublishPartial _ _ _ _ _ => true | _ => false end.

(** What a refresh sees of its own step to [pc]. *)
Definition own_items (input : RefreshInput) (pc : RefreshPc) (ev : option ViewEvent) : list Item :=
  match input, ev with
  | Order nodes, _ => [Loaded nodes]
  | Answer a, _ => [Answered a (partial_pc pc)]
  | Act, Some (EvPartial _ _) => [PartialDone]
  | Act, Some (EvPublish _ _) => [FullDone]
  | Act, _ => []
  end.

(** What the refresh [i] sees of one event. *)
Definition seen_by (i : nat) (e : SharedEvent) (s : Shared) : list Item :=
  match e with
  | Start _ => []
  | Draw used => [Theirs (EvDraw used)]
  | Advance j input =>
      match activities s !! j with
      | None => []
      | Some a =>
          match refresh_step (act_call a) (act_pc a) input (shared_view s) with
          | None => []
          | Some (pc, _, ev) =>
              if decide (j ≠ i) then Theirs <$> option_list ev
              else own_items input pc ev
          end
      end
  end.
Fixpoint history (i : nat) (es : list SharedEvent) (s : Shared) : list Item :=
  match es with
  | [] => []
  | e :: es =>
      seen_by i e s ++ from_option (history i es) [] (shared_event e s)
  end.

(** The actions of others up to the next item of one's own, and from there. *)
Fixpoint span_theirs (h : list Item) : list ViewEvent * list Item :=
  match h with
  | Theirs e :: h => let '(es, h) := span_theirs h in (e :: es, h)
  | _ => ([], h)
  end.
Definition theirs (h : list Item) : list ViewEvent :=
  omap (λ x, match x with Theirs e => Some e | _ => None end) h.

(** After an answer that leads to a partial publication, the refresh publishes
    without awaiting anything: what others do until then counts as done while
    the answer was awaited. *)
Definition until_partial (h : list Item) : list ViewEvent * list Item :=
  let '(es, h) := span_theirs h in
  (es, match h with PartialDone :: h => h | _ => h end).

(** The outside world of a refresh is its history. *)
Definition history_network : Network := {|
  World := list Item;
  probe _ _ w :=
    let '(before, w) := span_theirs w in
    match w with
    | Answered a true :: w => let '(after, w) := until_partial w in (a, before ++ after, w)
    | Answered a false :: w => (a, before, w)
    | _ => (None, before, w)
    end;
  interfere := span_theirs;
  shuffle listed w :=
    match w with
    | Loaded nodes :: w => (if decide (nodes ≡ₚ listed) then nodes else listed, w)
    | _ => (listed, w)
    end;
|}.

(** What others did to the view after a refresh last looked at it. *)
Definition settle (r : @Run _ history_network) : NodeView :=
  View.run_events (theirs (world r)) (view r).

End steps.
End RefreshSteps.

(** ** What is known of a refresh under way *)

Module RefreshInvariants.
Import Membership RefreshSteps.
Section invariants.
Context `{UrlApi}.
Implicit Types (v : NodeView) (g : Z) (l : Locals) (s : Shared).

(** Only [known] nodes are given to a refresh. *)
Definition call_ok (known : Url → Prop) (call : RefreshCall) : Prop :=
  inputs_ok known (call_inputs call) ∧ outcomes_ok known (call_outcomes call) ∧
  Forall known (call_additional call).
Definition locals_ok (known : Url → Prop) l : Prop :=
  Forall known (l_candidates l) ∧ outcomes_ok known (l_outcomes l).
Definition pc_ok (known : Url → Prop) (pc : RefreshPc) : Prop :=
  match pc with
  | Idle | LoadNodes _ | Overflowed => True
  | Head _ l => locals_ok known l
  | AwaitAnswer _ l node | LoadCandidates _ l node => locals_ok known l ∧ known node
  | NextCandidate _ l node cands new _ =>
      locals_ok known l ∧ known node ∧ Forall known cands ∧ Forall known new
  | AwaitCandidate _ l node c cands new _ =>
      locals_ok known l ∧ known node ∧ known c ∧ Forall known cands ∧ Forall known new
  | PublishPartial _ l node cands new =>
      locals_ok known l ∧ known node ∧ Forall known cands ∧ members_ok known new
  | PublishFull _ l new => locals_ok known l ∧ members_ok known new
  | Ended o => outcomes_ok known o
  end.
Definition activity_ok (known : Url → Prop) (a : Activity) : Prop :=
  call_ok known (act_call a) ∧ pc_ok known (act_pc a) ∧ Forall (effect_ok known) (act_trace a).
Definition shared_ok (known : Url → Prop) s : Prop :=
  view_ok known (shared_view s) ∧ Forall (activity_ok known) (activities s).

(** The refreshes that start are given known nodes only. *)
Definition starts_ok (known : Url → Prop) (e : SharedEvent) : Prop :=
  match e with Start call => call_ok known call | _ => True end.

(** The generation of a refresh, from where it is and from what it published. *)
Definition pc_generation (pc : RefreshPc) : option Z :=
  match pc with
  | LoadNodes g | Head g _ | AwaitAnswer g _ _ | LoadCandidates g _ _
  | NextCandidate g _ _ _ _ _ | AwaitCandidate g _ _ _ _ _ _ | PublishPartial g _ _ _ _
  | PublishFull g _ _ => Some g
  | Idle | Ended _ | Overflowed => None
  end.
Definition effect_generation (e : Effect) : option Z :=
  match e with EffPartial g _ | EffPublish g _ => Some g | _ => None end.
Definition has_generation (a : Activity) g : Prop :=
  pc_generation (act_pc a) = Some g ∨ Some g ∈ effect_generation <$> act_trace a.

(** Generations are handed out once, and the view stands at the newest
    publication. *)
Definition newest_stands s : Prop :=
  (latest_published_generation (shared_view s) ≤ next_generation (shared_view s))%Z ∧
  ∀ i a, activities s !! i = Some a →
    (∀ g, has_generation a g → (g ≤ next_generation (shared_view s))%Z) ∧
    (∀ j b g, activities s !! j = Some b → j ≠ i → has_generation a g → ¬ has_generation b g) ∧
    ∀ g nodes, EffPublish g nodes ∈ act_trace a →
      (∃ o, act_pc a = Ended o) ∧ (g ≤ latest_published_generation (shared_view s))%Z ∧
      (g = latest_published_generation (shared_view s) → live_nodes (shared_view s) = nodes).

(** ** Termination *)

(** One step further, whatever the input and the view are. *)
Definition turn (call : RefreshCall) (pc' pc : RefreshPc) : Prop :=
  ∃ input v es ev, refresh_step call pc input v = Some (pc', es, ev).

(** What decreases: the stage; in the loop what its measure counts, and whether a
    query is under way; in a cluster pass the candidates that are left. *)
Definition left_in_loop (call : RefreshCall) l : nat :=
  length (l_candidates l)
    + (if l_using_seeds l then 0 else length (seed_urls (call_inputs call)))
    + length (Scope.chain (l_scope l)).
Definition rank (call : RefreshCall) (pc : RefreshPc) : nat * (nat * nat) :=
  match pc with
  | Idle => (4, (0, 0))
  | LoadNodes _ => (3, (0, 0))
  | Head _ l => (2, (3 * left_in_loop call l, 0))
  | LoadCandidates _ l _ => (2, (3 * left_in_loop call l + 2, 0))
  | AwaitAnswer _ l _ => (2, (3 * left_in_loop call l + 1, 0))
  | NextCandidate _ l _ cands _ _ => (2, (3 * left_in_loop call l + 1, 3 * length cands))
  | PublishPartial _ l _ cands _ => (2, (3 * left_in_loop call l + 1, 3 * length cands + 1))
  | AwaitCandidate _ l _ _ cands _ _ => (2, (3 * left_in_loop call l + 1, 3 * length cands + 2))
  | PublishFull _ _ _ => (1, (0, 0))
  | Ended _ | Overflowed => (0, (0, 0))
  end.

End invariants.
End RefreshInvariants.

(** The steps of a refresh, case by case; [judge] is left. *)
Ltac refresh_cases Hst :=
  match type of Hst with
  | RefreshSteps.refresh_step _ ?pc ?input _ = _ =>
      destruct pc, input; try discriminate Hst; cbn [RefreshSteps.refresh_step] in Hst;
      repeat (case_match; try discriminate Hst);
      try match type of Hst with
      | context [RefreshSteps.judge ?inputs ?g ?l ?node ?result] =>
          destruct (RefreshSteps.judge inputs g l node result) as [? ?] eqn:?
      end;
      injection Hst; clear Hst; intros; subst
  end.

(** ** Lemmas: one refresh *)

Module Sequential.
Import Refresh RefreshSteps.
Section sequential.
Context `{UrlApi}.
#[local] Existing Instance history_network.
Implicit Types (v : NodeView) (g : Z) (l : Locals) (h : list Item) (r : Run) (st : LoopState).

(** The network permutes. *)
#[export] Instance history_network_laws : NetworkLaws.
Proof. split. intros l w. simpl. destruct w as [|[] w]; try done. by case_decide. Qed.

(** *** Agreement *)

(** Two runs that differ in how many actions of the others were counted in. *)
Definition agrees (x y : Refreshed) : Prop :=
  match x, y with
  | Finished o1 r1, Finished o2 r2 => o1 = o2 ∧ trace r1 = trace r2 ∧ settle r1 = settle r2
  | Panicked, Panicked | OutOfFuel, OutOfFuel => True
  | _, _ => False
  end.

#[export] Instance agrees_equivalence : Equivalence agrees.
Proof.
  split.
  - by intros [].
  - intros [] [] Hxy; naive_solver.
  - intros [] [] [] Hxy Hyz; simpl in *; naive_solver congruence.
Qed.

(** One run is ahead of another by actions of the others. *)
Definition ahead r r' : Prop :=
  ∃ es, world r = (Theirs <$> es) ++ world r' ∧ view r' = View.run_events es (view r) ∧
    trace r' = trace r.

#[export] Instance ahead_reflexive : Reflexive ahead.
Proof. intros r. by exists []. Qed.

Lemma span_theirs_app es h :
  span_theirs ((Theirs <$> es) ++ h) = (es ++ fst (span_theirs h), snd (span_theirs h)).
Proof.
  induction es as [|e es IH]; [simpl; by destruct (span_theirs h)|].
  rewrite fmap_cons. cbn [app span_theirs]. by rewrite IH.
Qed.

Lemma theirs_app h1 h2 : theirs (h1 ++ h2) = theirs h1 ++ theirs h2.
Proof. apply omap_app. Qed.

Lemma theirs_fmap es : theirs (Theirs <$> es) = es.
Proof.
  induction es as [|e es IH]; [done|]. rewrite fmap_cons.
  change (theirs (Theirs e :: ?h)) with (e :: theirs h). by rewrite IH.
Qed.

Lemma span_theirs_spec h : h = (Theirs <$> fst (span_theirs h)) ++ snd (span_theirs h).
Proof.
  induction h as [|[] h IH]; simpl; try done. destruct (span_theirs h) as [es h']. simpl in *. by rewrite IH at 1.
Qed.

Lemma ahead_settle r r' : ahead r r' → settle r = settle r'.
Proof.
  intros (es & Hw & Hv & _). unfold settle. rewrite Hw, Hv, theirs_app, theirs_fmap.
  by rewrite ViewFacts.run_events_app.
Qed.

(** Before an access the difference is gone. *)
Lemma ahead_pause r r' : ahead r r' → pause r = pause r'.
Proof.
  intros (es & Hw & Hv & Ht). unfold pause. cbn [interfere history_network].
  rewrite Hw, span_theirs_app. destruct (span_theirs (world r')) as [es' h] eqn:Hs. simpl.
  unfold on_view, set_world. simpl. by rewrite ViewFacts.run_events_app, Hv, Ht.
Qed.

Lemma ahead_fetch inputs s n r r' :
  ahead r r' → fetch_live_nodes_for_scope inputs s n r = fetch_live_nodes_for_scope inputs s n r'.
Proof.
  intros (es & Hw & Hv & Ht). unfold fetch_live_nodes_for_scope. cbn [probe history_network].
  rewrite Hw, span_theirs_app. destruct (span_theirs (world r')) as [es' h] eqn:Hs. simpl.
  assert (∀ a es2 h2, (a, emit (EffRequest (Scope.discovery_operation s) n a)
      (on_view (View.run_events (es ++ es2)) (set_world h2 r))) =
    (a, emit (EffRequest (Scope.discovery_operation s) n a)
      (on_view (View.run_events es2) (set_world h2 r')))) as Heq.
  { intros a es2 h2. unfold emit, on_view, set_world. simpl.
    by rewrite ViewFacts.run_events_app, Hv, Ht. }
  destruct h as [|[] h]; try apply Heq. destruct partial_follows; [|apply Heq].
  destruct (until_partial h) as [after w]. rewrite <-app_assoc. apply Heq.
Qed.

(** Both continue alike. *)
Definition ahead_results {A} (x y : A * Run) : Prop := fst x = fst y ∧ ahead (snd x) (snd y).

Lemma ahead_cluster inputs g cands new got r r' :
  ahead r r' →
  ahead_results (cluster_loop inputs g cands new got r) (cluster_loop inputs g cands new got r').
Proof.
  revert new got r r'. induction cands as [|c cands IH]; intros new got r r' Hr; cbn [cluster_loop]; [done|].
  destruct (NodeUrl.node_is_in_list c new); [by apply IH|].
  rewrite (ahead_fetch inputs _ c r r' Hr).
  by destruct (fetch_live_nodes_for_scope _ _ _ _) as [[nodes|] r1]; apply IH.
Qed.

Lemma ahead_query inputs g add reuse s n o r r' :
  ahead r r' → ahead_results (query inputs g add reuse s n o r) (query inputs g add reuse s n o r').
Proof.
  intros Hr. unfold query. destruct (if reuse then _ else _); [done|].
  destruct (Scope.is_cluster s); [|by rewrite (ahead_fetch inputs _ n r r' Hr)].
  unfold cluster_discovery_candidates. rewrite (ahead_pause r r' Hr).
  destruct (shuffle _ _) as [cc w]. done.
Qed.

Definition ahead_states st st' : Prop :=
  scope st = scope st' ∧ candidates st = candidates st' ∧ using_seeds st = using_seeds st' ∧
  outcomes st = outcomes st' ∧ ahead (run st) (run st').

Lemma ahead_iteration inputs g add reuse st st' :
  ahead_states st st' →
  match iteration inputs g add reuse st, iteration inputs g add reuse st' with
  | Continue a, Continue b | Break a, Break b => ahead_states a b
  | _, _ => False
  end.
Proof.
  intros (Hs & Hc & Hu & Ho & Hr). unfold iteration. rewrite Hs, Hc, Hu, Ho.
  destruct (candidates st') as [|n rest] eqn:Hcand; [unfold ahead_states; rewrite Hcand; by split_and!|].
  destruct (ahead_query inputs g add reuse (scope st') n (outcomes st') _ _ Hr) as [Hq Hq'].
  destruct (query _ _ _ _ _ _ _ (run st)) as [res r1], (query _ _ _ _ _ _ _ (run st')) as [res' r2].
  simpl in Hq, Hq'. subst res'.
  assert (Hemit : ∀ e, ahead (emit e r1) (emit e r2)).
  { intros e. destruct Hq' as (es & Hw & Hv & Ht). exists es. split_and!; [done..|]. simpl. by rewrite Ht. }
  destruct res as [[|x xs]|].
  - destruct (Scope.fallback _); split_and!; try done; apply Hemit.
  - split_and!; try done. simpl. by rewrite (ahead_pause _ _ (Hemit _)).
  - destruct (Scope.is_cluster _); [done|]. by destruct (_ && _).
Qed.

Definition conclude (x : option LoopState) : Refreshed :=
  match x with Some st => Finished (outcomes st) (run st) | None => OutOfFuel end.

Lemma ahead_loop inputs g add reuse fuel st st' :
  ahead_states st st' →
  agrees (conclude (refresh_loop fuel inputs g add reuse st))
         (conclude (refresh_loop fuel inputs g add reuse st')).
Proof.
  revert st st'. induction fuel as [|fuel IH]; intros st st' Hst; simpl; [done|].
  pose proof (ahead_iteration inputs g add reuse st st' Hst) as Hi.
  destruct (iteration _ _ _ _ st) as [a|a], (iteration _ _ _ _ st') as [b|b]; try done; [by apply IH|].
  destruct Hi as (_ & _ & _ & Ho & Hr). split_and!; [done| |by apply ahead_settle].
  by destruct Hr as (_ & _ & _ & ->).
Qed.

(** Any fuel above the measure will do. *)
Lemma refresh_loop_enough inputs g add reuse fuel fuel' st :
  measure inputs st < fuel → measure inputs st < fuel' →
  refresh_loop fuel inputs g add reuse st = refresh_loop fuel' inputs g add reuse st.
Proof.
  revert fuel' st. induction fuel as [|fuel IH]; intros [|fuel'] st Hm Hm'; [lia..|]. simpl.
  destruct (iteration _ _ _ _ st) as [st'|st'] eqn:Hi; [|done].
  apply RefreshFacts.iteration_measure in Hi. apply IH; lia.
Qed.

(** *** What is left to do *)

Context (call : RefreshCall).
#[local] Abbreviation inputs := (call_inputs call).
#[local] Abbreviation add := (call_additional call).
#[local] Abbreviation reuse := (call_reuse call).

Definition state_of l r : LoopState :=
  mkLoop _ _ (l_scope l) (l_candidates l) (l_using_seeds l) (l_outcomes l) r.
Definition emits (es : list Effect) r : Run := mkRun _ _ (world r) (view r) (trace r ++ es).

(** The loop from [st] on. *)
Definition loop_from g st : Refreshed :=
  conclude (refresh_loop (S (measure inputs st)) inputs g add reuse st).

Lemma loop_from_eq g st :
  loop_from g st =
  match iteration inputs g add reuse st with
  | Continue st' => loop_from g st'
  | Break st' => Finished (outcomes st') (run st')
  end.
Proof.
  unfold loop_from. cbn [refresh_loop].
  destruct (iteration _ _ _ _ st) as [st'|st'] eqn:Hi; [|done].
  apply RefreshFacts.iteration_measure in Hi. f_equal.
  apply (refresh_loop_enough _ _ _ _ _ (S (measure inputs st'))); lia.
Qed.

(** The rest of [update_live_nodes_from] from where a refresh is.  The first
    three are what [judge] leads to. *)
Definition resume_judged (pc : RefreshPc) r : Refreshed :=
  match pc with
  | Ended o => Finished o r
  | Head g l => loop_from g (state_of l r)
  | PublishFull g l new =>
      Finished (l_outcomes l)
        (emit (EffPublish g new) (on_view (View.publish_live_nodes g new) (pause r)))
  | _ => OutOfFuel
  end.
Definition after_query g l (node : Url) (x : option (list Url) * Run) : Refreshed :=
  let '(pc, es) := judge inputs g l node (fst x) in resume_judged pc (emits es (snd x)).
Definition after_cluster g l (node : Url) (x : list Url * bool * Run) : Refreshed :=
  let '(new, got, r) := x in
  after_query g l node (if got : bool then Some (View.sort_dedup new) else None, r).
Definition skip_partial r : Run :=
  let '(es, w) := until_partial (world r) in on_view (View.run_events es) (set_world w r).
Definition after_partial g l (node : Url) (cands new : list Url) r : Refreshed :=
  after_cluster g l node (cluster_loop inputs g cands new true
    (emit (EffPartial g new) (on_view (View.publish_partial_cluster_live_nodes g new) r))).
Definition resume (pc : RefreshPc) r : Refreshed :=
  match pc with
  | Idle => update_live_nodes_from inputs (call_outcomes call) add reuse r
  | LoadNodes g => loop_from g (start add (call_outcomes call) (pause r))
  | AwaitAnswer g l node =>
      after_query g l node (fetch_live_nodes_for_scope inputs (l_scope l) node r)
  | LoadCandidates g l node =>
      let '(cands, r) := cluster_discovery_candidates inputs add r in
      after_cluster g l node (cluster_loop inputs g cands [] false r)
  | NextCandidate g l node cands new got =>
      after_cluster g l node (cluster_loop inputs g cands new got r)
  | AwaitCandidate g l node c cands new got =>
      match fetch_live_nodes_for_scope inputs Scope.from_cluster c r with
      | (Some nodes, r) =>
          let new := View.sort_dedup (new ++ nodes) in
          if decide (nodes = []) then after_cluster g l node (cluster_loop inputs g cands new true r)
          else after_partial g l node cands new r
      | (None, r) => after_cluster g l node (cluster_loop inputs g cands new got r)
      end
  | PublishPartial g l node cands new => after_partial g l node cands new (skip_partial r)
  | Overflowed => Panicked
  | pc => resume_judged pc r
  end.

(** Counting in the actions of others changes nothing. *)
Lemma ahead_emits es r r' : ahead r r' → ahead (emits es r) (emits es r').
Proof. intros (es' & Hw & Hv & Ht). exists es'. split_and!; [done..|]. simpl. by rewrite Ht. Qed.

Lemma ahead_loop_from g l r r' :
  ahead r r' → agrees (loop_from g (state_of l r)) (loop_from g (state_of l r')).
Proof. intros Hr. unfold loop_from. by apply ahead_loop. Qed.

Lemma ahead_resume_judged pc r r' :
  ahead r r' → agrees (resume_judged pc r) (resume_judged pc r').
Proof.
  intros Hr. destruct pc; simpl; try done.
  - by apply ahead_loop_from.
  - by rewrite (ahead_pause r r' Hr).
  - split_and!; [done| |by apply ahead_settle]. by destruct Hr as (_ & _ & _ & ->).
Qed.

Lemma ahead_after_query g l node x y :
  ahead_results x y → agrees (after_query g l node x) (after_query g l node y).
Proof.
  intros [Hx Hr]. unfold after_query. rewrite Hx. destruct (judge _ _ _ _ _) as [pc es].
  by apply ahead_resume_judged, ahead_emits.
Qed.

Lemma ahead_after_cluster g l node x y :
  ahead_results x y → agrees (after_cluster g l node x) (after_cluster g l node y).
Proof.
  destruct x as [[new got] r], y as [[new' got'] r']. intros [[= -> ->] Hr].
  by apply ahead_after_query.
Qed.

Lemma ahead_skip r r' : ahead r r' → skip_partial r = skip_partial r'.
Proof.
  intros (es & Hw & Hv & Ht). unfold skip_partial, until_partial.
  rewrite Hw, span_theirs_app. destruct (span_theirs (world r')) as [es' h] eqn:Hs. simpl.
  unfold on_view, set_world. simpl. by rewrite ViewFacts.run_events_app, Hv, Ht.
Qed.

Lemma ahead_resume pc r r' : pc ≠ Idle → ahead r r' → agrees (resume pc r) (resume pc r').
Proof.
  intros Hpc Hr. destruct pc; try done; cbn [resume].
  - by rewrite (ahead_pause r r' Hr).
  - by apply ahead_resume_judged.
  - by rewrite (ahead_fetch _ _ _ r r' Hr).
  - unfold cluster_discovery_candidates. by rewrite (ahead_pause r r' Hr).
  - by apply ahead_after_cluster, ahead_cluster.
  - by rewrite (ahead_fetch _ _ _ r r' Hr).
  - by rewrite (ahead_skip r r' Hr).
  - by apply ahead_resume_judged.
  - by apply ahead_resume_judged.
Qed.

(** *** A step of the refresh *)

Lemma judge_resume g l node result pc es r :
  judge inputs g l node result = (pc, es) → resume pc r = resume_judged pc r.
Proof.
  unfold judge. intros Hj. destruct result as [[|x xs]|]; [destruct (Scope.fallback _)| |];
    [..|destruct (Scope.is_cluster _); [|destruct (_ && _)]]; by injection Hj as <- <-.
Qed.

(** The body of the loop is a query and what [judge] makes of it. *)
Lemma loop_from_query g l node rest r :
  l_candidates l = node :: rest →
  let l' := mkLocals _ (l_scope l) rest (l_using_seeds l) (l_outcomes l) in
  loop_from g (state_of l r) =
    after_query g l' node (query inputs g add reuse (l_scope l) node (l_outcomes l) r).
Proof.
  intros Hc l'. rewrite loop_from_eq. unfold iteration, after_query, state_of.
  cbn [candidates scope outcomes using_seeds run]. rewrite Hc.
  destruct (query _ _ _ _ _ _ _ _) as [[[|x xs]|] r']; unfold judge; cbn [fst snd l_scope l_candidates l_using_seeds l_outcomes l'].
  - by destruct (Scope.fallback _).
  - unfold emits, emit, on_view. simpl. done.
  - assert (emits [] r' = r') as He by (destruct r'; unfold emits; simpl; by rewrite app_nil_r).
    destruct (Scope.is_cluster _); [|destruct (_ && _)]; cbv iota beta; by rewrite He.
Qed.

Lemma discover_after_cluster g l node cands r :
  after_query g l node (discover_cluster_live_nodes_from inputs g cands r) =
    after_cluster g l node (cluster_loop inputs g cands [] false r).
Proof.
  unfold discover_cluster_live_nodes_from, after_cluster.
  by destruct (cluster_loop _ _ _ _ _ _) as [[new []] r'].
Qed.

Lemma head_step g l v pc' es ev h t :
  refresh_step call (Head g l) Act v = Some (pc', es, ev) →
  resume (Head g l) (mkRun _ _ h v t) = resume pc' (mkRun _ _ h v (t ++ es)) ∧ ev = None.
Proof.
  cbn [refresh_step resume]. intros Hst. destruct (l_candidates l) as [|node rest] eqn:Hc.
  { injection Hst as <- <- <-. split; [|done]. simpl. rewrite loop_from_eq. unfold iteration. simpl.
    by rewrite Hc, app_nil_r. }
  cbn [resume_judged]. rewrite (loop_from_query g l node rest) by done. cbn [l_scope] in Hst. unfold query.
  set (l' := mkLocals _ _ rest _ _) in *. cbn [l_outcomes l'] in Hst.
  destruct (if reuse then l_outcomes l !! _ else None) as [cached|] eqn:Hca.
  - destruct (judge _ _ _ _ _) as [pc es0] eqn:Hj. injection Hst as <- <- <-. split; [|done].
    rewrite (judge_resume _ _ _ _ _ _ _ Hj). unfold after_query. cbn [fst snd]. by rewrite Hj.
  - injection Hst as <- <- <-. split; [|done]. rewrite app_nil_r.
    destruct (Scope.is_cluster _); [|done]. cbn [resume].
    destruct (cluster_discovery_candidates _ _ _) as [cands r']. apply discover_after_cluster.
Qed.
Lemma judge_not_partial g l node result : partial_pc (fst (judge inputs g l node result)) = false.
Proof.
  unfold judge. destruct result as [[|x xs]|]; [by destruct (Scope.fallback _)|done|].
  destruct (Scope.is_cluster _); [done|by destruct (_ && _)].
Qed.

(** An answer as the interface of [Refresh] gives it. *)
Lemma fetch_answered s n a (p : bool) h v t :
  fetch_live_nodes_for_scope inputs s n (mkRun _ _ (Answered a p :: h) v t) =
    (answer_nodes inputs <$> mjoin a,
     let r := mkRun _ _ h v (t ++ [EffRequest (Scope.discovery_operation s) n (answer_nodes inputs <$> mjoin a)])
     in if p then skip_partial r else r).
Proof.
  unfold fetch_live_nodes_for_scope, skip_partial. simpl. destruct p; [|done].
  by destruct (until_partial h) as [es w].
Qed.

Lemma judged_step g l node result pc es r :
  judge inputs g l node result = (pc, es) →
  after_query g l node (result, r) = resume pc (emits es r).
Proof.
  intros Hj. rewrite (judge_resume _ _ _ _ _ _ _ Hj). unfold after_query. cbn [fst snd]. by rewrite Hj.
Qed.

Lemma answer_step g l node a v pc' es ev h t :
  refresh_step call (AwaitAnswer g l node) (Answer a) v = Some (pc', es, ev) →
  resume (AwaitAnswer g l node) (mkRun _ _ (own_items (Answer a) pc' ev ++ h) v t) =
    resume pc' (mkRun _ _ h v (t ++ es)) ∧ ev = None.
Proof.
  cbn [refresh_step resume own_items app]. intros Hst. rewrite fetch_answered.
  pose proof (judge_not_partial g l node (answer_nodes inputs <$> mjoin a)) as Hp.
  destruct (judge _ _ _ _ _) as [pc es0] eqn:Hj. injection Hst as <- <- <-. split; [|done].
  simpl in Hp. rewrite Hp. rewrite (judged_step _ _ _ _ _ _ _ Hj). unfold emits. simpl.
  by rewrite <-app_assoc.
Qed.

Lemma next_step g l node cands new got v pc' es ev h t :
  refresh_step call (NextCandidate g l node cands new got) Act v = Some (pc', es, ev) →
  resume (NextCandidate g l node cands new got) (mkRun _ _ h v t) =
    resume pc' (mkRun _ _ h v (t ++ es)) ∧ ev = None.
Proof.
  cbn [refresh_step resume]. intros Hst. destruct cands as [|c cands]; cbn [cluster_loop after_cluster].
  - destruct (judge _ _ _ _ _) as [pc es0] eqn:Hj. injection Hst as <- <- <-. split; [|done].
    by rewrite (judged_step _ _ _ _ _ _ _ Hj).
  - injection Hst as <- <- <-. split; [|done]. rewrite app_nil_r.
    destruct (NodeUrl.node_is_in_list c new); [done|]. cbn [resume].
    destruct (fetch_live_nodes_for_scope _ _ _ _) as [[nodes|] r']; [|done].
    by case_decide.
Qed.

Lemma candidate_step g l node c cands new got a v pc' es ev h t :
  refresh_step call (AwaitCandidate g l node c cands new got) (Answer a) v = Some (pc', es, ev) →
  resume (AwaitCandidate g l node c cands new got) (mkRun _ _ (own_items (Answer a) pc' ev ++ h) v t) =
    resume pc' (mkRun _ _ h v (t ++ es)) ∧ ev = None.
Proof.
  cbn [refresh_step resume own_items app]. intros Hst. rewrite fetch_answered.
  destruct (answer_nodes inputs <$> mjoin a) as [nodes|]; [case_decide as Hn|];
    by injection Hst as <- <- <-.
Qed.

Lemma resume_step pc input v pc' es ev h t :
  refresh_step call pc input v = Some (pc', es, ev) → pc ≠ Idle →
  agrees (resume pc (mkRun _ _ (own_items input pc' ev ++ h) v t))
         (resume pc' (mkRun _ _ h (View.run_events (option_list ev) v) (t ++ es))).
Proof.
  intros Hst Hpc. destruct pc, input; try done.
  - cbn [refresh_step] in Hst. case_decide as Hp; [|done]. injection Hst as <- <- <-.
    cbn [resume own_items app]. unfold start, pause. simpl. rewrite decide_True by done.
    by rewrite app_nil_r.
  - destruct (head_step _ _ _ _ _ _ h t Hst) as [He ->].
    change (View.run_events (option_list None) v) with v. by rewrite <-He.
  - destruct (answer_step _ _ _ _ _ _ _ _ h t Hst) as [He ->].
    change (View.run_events (option_list None) v) with v. by rewrite <-He.
  - cbn [refresh_step] in Hst. case_decide as Hp; [|done]. injection Hst as <- <- <-.
    cbn [resume own_items app]. unfold cluster_discovery_candidates, pause. simpl.
    rewrite decide_True by done. by rewrite app_nil_r.
  - destruct (next_step _ _ _ _ _ _ _ _ _ _ h t Hst) as [He ->].
    change (View.run_events (option_list None) v) with v. by rewrite <-He.
  - destruct (candidate_step _ _ _ _ _ _ _ _ _ _ _ _ h t Hst) as [He ->].
    change (View.run_events (option_list None) v) with v. by rewrite <-He.
  - injection Hst as <- <- <-. done.
  - injection Hst as <- <- <-. done.
Qed.

End sequential.
End Sequential.

(** ** Lemmas: one refresh among others *)

Module SharedFacts.
Import Refresh RefreshSteps Sequential.
Section shared.
Context `{UrlApi}.
#[local] Existing Instance history_network.
Implicit Types (v : NodeView) (g : Z) (s : Shared) (a : Activity) (pc : RefreshPc).

Lemma run_shared_cons e es s : run_shared (e :: es) s = (s1 ← shared_event e s; run_shared es s1).
Proof.
  unfold run_shared. simpl. destruct (shared_event e s) as [s1|]; simpl; [done|].
  induction es as [|e' es IH]; simpl; [done|exact IH].
Qed.

Lemma judge_not_idle inputs g l n res pc es : judge inputs g l n res = (pc, es) → pc ≠ Idle.
Proof. unfold judge. intros Hj. repeat case_match; by injection Hj as <- <-. Qed.

Lemma step_not_idle call pc input v pc' es ev :
  refresh_step call pc input v = Some (pc', es, ev) → pc' ≠ Idle.
Proof. intros Hst. refresh_cases Hst; by eauto using judge_not_idle. Qed.

(** One event, as the refresh [i] sees it. *)
Lemma event_seen i e s s' a :
  activities s !! i = Some a → act_pc a ≠ Idle → shared_event e s = Some s' →
  ∃ a', activities s' !! i = Some a' ∧ act_call a' = act_call a ∧ act_pc a' ≠ Idle ∧
    ∀ h, agrees (resume (act_call a) (act_pc a) (mkRun _ _ (seen_by i e s ++ h) (shared_view s) (act_trace a)))
                (resume (act_call a) (act_pc a') (mkRun _ _ h (shared_view s') (act_trace a'))).
Proof.
  intros Ha Hpc He. destruct e as [call|j input|used]; simpl in He.
  - injection He as <-. exists a. split_and!; [|done..]. simpl. by apply lookup_app_l_Some.
  - simpl. destruct (activities s !! j) as [aj|] eqn:Hj; [|done]. simpl in He.
    destruct (refresh_step _ _ _ _) as [[[pc es] ev]|] eqn:Hst; [|done]. simpl in He.
    injection He as <-. simpl. destruct (decide (j ≠ i)) as [Hne|Heq].
    + exists a. rewrite list_lookup_insert_ne by done. split_and!; [done..|]. intros h.
      apply ahead_resume; [done|]. by exists (option_list ev).
    + apply dec_stable in Heq. subst j. rewrite Ha in Hj. injection Hj as <-.
      eexists. rewrite list_lookup_insert_eq by by eapply lookup_lt_Some.
      split_and!; [done..|by eapply step_not_idle|]. intros h. by apply resume_step.
  - injection He as <-. exists a. split_and!; [done..|]. intros h. simpl.
    apply ahead_resume; [done|]. by exists [EvDraw used].
Qed.

Lemma history_cons i e es s s1 :
  shared_event e s = Some s1 → history i (e :: es) s = seen_by i e s ++ history i es s1.
Proof. intros He. simpl. by rewrite He. Qed.

Lemma resume_history i es s s' a :
  activities s !! i = Some a → act_pc a ≠ Idle → run_shared es s = Some s' →
  ∃ a', activities s' !! i = Some a' ∧
    agrees (resume (act_call a) (act_pc a) (mkRun _ _ (history i es s) (shared_view s) (act_trace a)))
           (resume (act_call a) (act_pc a') (mkRun _ _ [] (shared_view s') (act_trace a'))).
Proof.
  revert s a. induction es as [|e es IH]; intros s a Ha Hpc Hrun.
  { injection Hrun as <-. by exists a. }
  rewrite run_shared_cons in Hrun. destruct (shared_event e s) as [s1|] eqn:He; [|done]. simpl in Hrun.
  destruct (event_seen i e s s1 a Ha Hpc He) as (a1 & Ha1 & Hc1 & Hpc1 & Hag).
  destruct (IH s1 a1 Ha1 Hpc1 Hrun) as (a' & Ha' & Hag'). exists a'. split; [done|].
  rewrite (history_cons i e es s s1 He), <-Hc1. etrans; [rewrite Hc1; apply Hag|]. by rewrite <-Hc1.
Qed.

(** A refresh from its first step on. *)
Lemma started_history i es s s' a call :
  activities s !! i = Some (mkActivity call Idle []) →
  run_shared (Advance i Act :: es) s = Some s' → activities s' !! i = Some a →
  agrees (resume call Idle (mkRun _ _ (history i (Advance i Act :: es) s) (shared_view s) []))
         (resume call (act_pc a) (mkRun _ _ [] (shared_view s') (act_trace a))).
Proof.
  intros Hi Hrun Ha. rewrite run_shared_cons in Hrun.
  destruct (shared_event (Advance i Act) s) as [s1|] eqn:He; [|done]. simpl in Hrun.
  rewrite (history_cons i _ es s s1 He). cbn [shared_event seen_by] in He |- *.
  rewrite Hi in He |- *. cbn [act_call act_pc act_trace refresh_step mbind option_bind] in He |- *.
  cbn [resume]. unfold update_live_nodes_from. cbn [view].
  assert (Hlk : ∀ x, <[i:=x]> (activities s) !! i = Some x)
    by (intros x; apply list_lookup_insert_eq; by eapply lookup_lt_Some).
  destruct (View.begin_refresh (shared_view s)) as [[g v]|] eqn:Hb; cbn [mbind option_bind] in He |- *;
    injection He as He.
  - rewrite decide_False by tauto. cbn [own_items app].
    assert (Hi1 : activities s1 !! i = Some (mkActivity call (LoadNodes g) [])) by (rewrite <-He; apply Hlk).
    assert (Hv1 : shared_view s1 = v) by (rewrite <-He; simpl; by rewrite Hb).
    destruct (resume_history i es s1 s' _ Hi1 ltac:(done) Hrun) as (a' & Ha' & Hag).
    rewrite Ha in Ha'. injection Ha' as <-. rewrite Hv1 in Hag. exact Hag.
  - assert (Hi1 : activities s1 !! i = Some (mkActivity call Overflowed [])) by (rewrite <-He; apply Hlk).
    destruct (resume_history i es s1 s' _ Hi1 ltac:(done) Hrun) as (a' & Ha' & Hag).
    rewrite Ha in Ha'. injection Ha' as <-. exact Hag.
Qed.

End shared.
End SharedFacts.

(** ** Lemmas: known nodes *)

Module KnownFacts.
Import Refresh RefreshSteps Membership MembershipFacts RefreshInvariants SharedFacts.
Section known.
Context `{UrlApi, !UrlEqLaws} (known : Url → Prop).
Implicit Types (v : NodeView) (g : Z) (s : Shared) (a : Activity) (pc : RefreshPc) (l : Locals).

Lemma judge_ok inputs g l node result pc es :
  inputs_ok known inputs → locals_ok known l → known node → Forall known (default [] result) →
  judge inputs g l node result = (pc, es) → pc_ok known pc ∧ Forall (effect_ok known) es.
Proof.
  intros Hin [Hc Ho] Hn Hres Hj. unfold judge in Hj.
  assert (Hins : ∀ new, Forall known new →
      outcomes_ok known (<[Scope.discovery_operation (l_scope l) := new]> (l_outcomes l)))
    by (intros new Hnew; by apply map_Forall_insert_2).
  repeat case_match; injection Hj as <- <-; simpl in *; unfold locals_ok; simpl;
    rewrite ?Forall_app; repeat split; eauto; try done. apply Hin.
Qed.

Lemma refresh_step_ok call pc input v pc' es ev :
  call_ok known call → view_ok known v → pc_ok known pc →
  refresh_step call pc input v = Some (pc', es, ev) →
  pc_ok known pc' ∧ Forall (effect_ok known) es ∧ Forall (event_ok known) (option_list ev).
Proof.
  intros (Hin & Ho & Hadd) [Hne Hv] Hpc Hst.
  assert (Hrest : ∀ l u us, l_candidates l = u :: us → locals_ok known l →
    locals_ok known (mkLocals _ (l_scope l) us (l_using_seeds l) (l_outcomes l)) ∧ known u).
  { intros l u us Hl [Hc Hlo]. rewrite Hl in Hc. apply Forall_cons in Hc as [??]. by repeat split. }
  assert (Ha : ∀ a : option (option (list string)),
      Forall known (default [] (answer_nodes (call_inputs call) <$> mjoin a)))
    by (intros a; destruct (mjoin a); [by apply answer_ok|constructor]).
  destruct pc, input; try discriminate Hst; cbn [refresh_step pc_ok] in Hst, Hpc.
  - destruct (View.begin_refresh v) as [[g v']|]; injection Hst as <- <- <-; by split_and!; repeat constructor.
  - case_decide as Hp; [|done]. injection Hst as <- <- <-. split_and!; [|done..]. split; [|done].
    apply push_missing_ok; [by rewrite Hp|done].
  - destruct (l_candidates l) as [|u us] eqn:Hl; [injection Hst as <- <- <-; by split_and!; try apply Hpc|].
    destruct (Hrest l u us Hl Hpc) as [Hl' Hu]. cbn [l_scope l_outcomes] in Hst.
    destruct (if call_reuse call then _ else _) as [cached|] eqn:Hca.
    + destruct (judge _ _ _ _ _) as [pc es0] eqn:Hj. injection Hst as <- <- <-.
      assert (Hres : Forall known cached).
      { destruct (call_reuse call); [|done]. by apply (proj2 Hpc (Scope.discovery_operation (l_scope l))). }
      by destruct (judge_ok _ _ _ _ (Some cached) _ _ Hin Hl' Hu Hres Hj).
    + destruct (Scope.is_cluster _); injection Hst as <- <- <-; by split_and!.
  - destruct Hpc as [Hl Hu]. destruct (judge _ _ _ _ _) as [pc es0] eqn:Hj. injection Hst as <- <- <-.
    destruct (judge_ok _ _ _ _ _ _ _ Hin Hl Hu (Ha a) Hj) as [??]. split_and!; [done| |done].
    constructor; [split; [done|apply Ha]|done].
  - case_decide as Hp; [|done]. injection Hst as <- <- <-. destruct Hpc. split_and!; try done.
    cbn [pc_ok]. split_and!; [done..| |done]. rewrite Hp. apply sort_dedup_ok. rewrite !Forall_app. split_and!; [done|apply Hin|done].
  - destruct Hpc as (Hl & Hu & Hcs & Hnew). destruct cands as [|c cands].
    + destruct (judge _ _ _ _ _) as [pc es0] eqn:Hj. injection Hst as <- <- <-.
      assert (Hres : Forall known (default [] (if got then Some (View.sort_dedup new) else None)))
        by (destruct got; [by apply sort_dedup_ok|constructor]).
      by destruct (judge_ok _ _ _ _ _ _ _ Hin Hl Hu Hres Hj).
    + apply Forall_cons in Hcs as [Hc Hcs]. case_match; injection Hst as <- <- <-; by split_and!.
  - destruct Hpc as (Hl & Hu & Hc & Hcs & Hnew). specialize (Ha a).
    injection Hst as <- <- <-. split_and!; [|by repeat constructor|done].
    destruct (answer_nodes _ <$> mjoin a) as [nodes|]; [|by split_and!].
    assert (Hs : Forall known (View.sort_dedup (new ++ nodes))) by by apply sort_dedup_ok, Forall_app.
    case_decide as Hn; split_and!; try done. split; [|done]. intros Hnil.
    by apply (proj1 (RefreshFacts.sort_dedup_nil _)), app_eq_nil in Hnil as [_ ->].
  - injection Hst as <- <- <-. destruct Hpc as (Hl & Hu & Hcs & Hne' & Hnew).
    assert (Hm : members_ok known new) by done. split_and!; [by split_and!|by apply Forall_singleton..].
  - injection Hst as <- <- <-. destruct Hpc as ([Hl Hlo] & Hm). split_and!; [done|by apply Forall_singleton..].
Qed.

Lemma shared_event_ok e s s' :
  starts_ok known e → shared_ok known s → shared_event e s = Some s' → shared_ok known s'.
Proof.
  intros Hst [Hv Has] He. destruct e as [call|i input|used]; simpl in He.
  - injection He as <-. split; [done|]. apply Forall_app. repeat constructor; by try apply Hst.
  - destruct (activities s !! i) as [a|] eqn:Hi; [|done]. simpl in He.
    pose proof (proj1 (Forall_lookup _ _) Has i a Hi) as (Hc & Hpc & Ht).
    destruct (refresh_step _ _ _ _) as [[[pc es] ev]|] eqn:Hs; [|done]. simpl in He. injection He as <-.
    destruct (refresh_step_ok _ _ _ _ _ _ _ Hc Hv Hpc Hs) as (Hpc' & Hes & Hev). split.
    + by apply events_keep.
    + apply Forall_insert; [done|]. split_and!; [done..|]. by apply Forall_app.
  - injection He as <-. split; [|done]. by apply (event_keeps known (EvDraw used)).
Qed.

Lemma run_shared_ok es s s' :
  Forall (starts_ok known) es → shared_ok known s → run_shared es s = Some s' → shared_ok known s'.
Proof.
  intros Hes. revert s. induction Hes as [|e es He Hes IH]; intros s Hs Hrun; [by injection Hrun as <-|].
  rewrite run_shared_cons in Hrun. destruct (shared_event e s) as [s1|] eqn:H1; [|done].
  apply (IH s1); [|done]. by apply (shared_event_ok e s).
Qed.

End known.
End KnownFacts.

(** ** Lemmas: generations *)

Module GenerationFacts.
Import Refresh RefreshSteps RefreshInvariants SharedFacts.
Section generations.
Context `{UrlApi}.
Implicit Types (v : NodeView) (g : Z) (s : Shared) (a b : Activity) (pc : RefreshPc) (l : Locals).

(** [judge] publishes nothing and stays with the generation. *)
Lemma judge_generation inputs g l n res pc es :
  judge inputs g l n res = (pc, es) →
  (∀ g', pc_generation pc = Some g' → g' = g) ∧ effect_generation <$> es = replicate (length es) None.
Proof. unfold judge. intros Hj. repeat case_match; injection Hj as <- <-; simpl; naive_solver. Qed.

(** The generation of a step's effects and of where it leads is the refresh's. *)
Lemma step_generation call pc input v pc' es ev g :
  refresh_step call pc input v = Some (pc', es, ev) → pc ≠ Idle →
  pc_generation pc' = Some g ∨ Some g ∈ effect_generation <$> es → pc_generation pc = Some g.
Proof.
  intros Hst Hpc Hg.
  refresh_cases Hst; try done;
    try (match goal with Hj : judge _ _ _ _ _ = _ |- _ => apply judge_generation in Hj as [Hj1 Hj2] end);
    rewrite ?fmap_cons, ?elem_of_cons, ?Hj2 in Hg; simpl in *;
    rewrite ?elem_of_cons, ?elem_of_nil, ?elem_of_replicate in Hg; try naive_solver;
    repeat case_match; naive_solver.
Qed.

(** What a step does to the view is what its effects record. *)
Definition recorded pc pc' v (es : list Effect) (ev : option ViewEvent) : Prop :=
  match ev with
  | None => (pc = Idle → pc' = Overflowed ∧ es = []) ∧ ∀ g nodes, EffPublish g nodes ∉ es
  | Some EvBegin =>
      pc = Idle ∧ es = [] ∧ pc' = LoadNodes (next_generation v + 1) ∧
      (next_generation v + 1 < 2 ^ 64)%Z
  | Some (EvPartial g _) => pc_generation pc = Some g ∧ ∀ g nodes, EffPublish g nodes ∉ es
  | Some (EvPublish g nodes) =>
      pc_generation pc = Some g ∧ es = [EffPublish g nodes] ∧ ∃ o, pc' = Ended o
  | Some (EvDraw _) => False
  end.

Lemma no_publication es g nodes :
  effect_generation <$> es = replicate (length es) None → EffPublish g nodes ∉ es.
Proof.
  intros He Hin. apply (list_elem_of_fmap_2 effect_generation) in Hin. rewrite He in Hin.
  by apply elem_of_replicate in Hin as [??].
Qed.

Lemma step_recorded call pc input v pc' es ev :
  refresh_step call pc input v = Some (pc', es, ev) → recorded pc pc' v es ev.
Proof.
  intros Hst.
  assert (Hb : ∀ g v', View.begin_refresh v = Some (g, v') →
      g = (next_generation v + 1)%Z ∧ (next_generation v + 1 < 2 ^ 64)%Z).
  { unfold View.begin_refresh. intros g v' Hb. case_decide; [|done]. by injection Hb as <- <-. }
  refresh_cases Hst; simpl;
    try (match goal with Hj : judge _ _ _ _ _ = _ |- _ =>
           apply judge_generation in Hj as [_ Hj];
           pose proof (λ g nodes, no_publication _ g nodes Hj) end);
    try (by destruct (Hb _ _ ltac:(done)) as [-> ?]);
    repeat case_match; split_and!; try done; try (by eexists);
    intros ??; rewrite ?elem_of_cons, ?elem_of_nil; naive_solver.
Qed.

Lemma has_generation_app call pc t es g :
  has_generation (mkActivity call pc (t ++ es)) g ↔
  pc_generation pc = Some g ∨ Some g ∈ effect_generation <$> t ∨ Some g ∈ effect_generation <$> es.
Proof. unfold has_generation. simpl. by rewrite fmap_app, elem_of_app. Qed.

Lemma published_generation a g nodes : EffPublish g nodes ∈ act_trace a → has_generation a g.
Proof. intros Hin. right. by apply (list_elem_of_fmap_2 effect_generation) in Hin. Qed.

(** One refresh advances. *)
Lemma newest_stands_insert v as' v' i a a' :
  newest_stands (mkShared v as') → as' !! i = Some a →
  (next_generation v ≤ next_generation v')%Z →
  (latest_published_generation v ≤ latest_published_generation v' ≤ next_generation v')%Z →
  (∀ g, has_generation a' g → has_generation a g ∨ (next_generation v < g ≤ next_generation v')%Z) →
  (∀ j b g nodes, as' !! j = Some b → j ≠ i → EffPublish g nodes ∈ act_trace b →
     g = latest_published_generation v' →
     latest_published_generation v' = latest_published_generation v ∧ live_nodes v' = live_nodes v) →
  (∀ g nodes, EffPublish g nodes ∈ act_trace a' →
     (∃ o, act_pc a' = Ended o) ∧ (g ≤ latest_published_generation v')%Z ∧
     (g = latest_published_generation v' → live_nodes v' = nodes)) →
  newest_stands (mkShared v' (<[i := a']> as')).
Proof.
  intros [_ Has] Hi Hnext Hlatest Hgen Hothers Hpub. cbn [shared_view activities] in *.
  split; [apply Hlatest|]. intros j b Hj. cbn [shared_view activities] in *.
  assert (Hold : ∀ k c, as' !! k = Some c → ∀ g, has_generation c g → (g ≤ next_generation v)%Z)
    by (intros k c Hk; apply (Has k c Hk)).
  destruct (decide (j = i)) as [->|Hne].
  - rewrite list_lookup_insert_eq in Hj by by eapply lookup_lt_Some. injection Hj as <-.
    destruct (Has i a Hi) as (Hle & Hdis & _). split_and!; [|intros k b g Hk Hki|done].
    + intros g [Hg|Hg]%Hgen; [apply Hle in Hg|]; lia.
    + rewrite list_lookup_insert_ne in Hk by done.
      intros [Hg|Hg]%Hgen Hb; [by apply (Hdis k b g)|]. apply (Hold k b) in Hb; [lia|done].
  - rewrite list_lookup_insert_ne in Hj by done. destruct (Has j b Hj) as (Hle & Hdis & Hp).
    split_and!.
    + intros g Hg%Hle. lia.
    + intros k c g Hk Hkj Hb. destruct (decide (k = i)) as [->|Hki].
      * rewrite list_lookup_insert_eq in Hk by by eapply lookup_lt_Some. injection Hk as <-.
        intros [Hg|Hg]%Hgen; [by apply (Hdis i a g)|]. apply Hle in Hb. lia.
      * rewrite list_lookup_insert_ne in Hk by done. by apply (Hdis k c g).
    + intros g nodes Hin. destruct (Hp g nodes Hin) as (He & Hg & Hl). split_and!; [done|lia|].
      intros Heq. destruct (Hothers j b g nodes Hj Hne Hin Heq) as [H1 ->]. apply Hl. congruence.
Qed.

(** What the steps do to a view's generations. *)
Lemma view_step pc pc' v es ev (v' := View.run_events (option_list ev) v) :
  recorded pc pc' v es ev → (latest_published_generation v ≤ next_generation v)%Z →
  (∀ g, pc_generation pc = Some g → g ≤ next_generation v)%Z →
  next_generation v' =
    (match ev with Some EvBegin => next_generation v + 1 | _ => next_generation v end)%Z ∧
  (latest_published_generation v ≤ latest_published_generation v' ≤ next_generation v')%Z ∧
  match ev with
  | Some (EvPublish g nodes) => (g ≤ latest_published_generation v')%Z ∧
      (g = latest_published_generation v' → live_nodes v' = nodes) ∧ (v' = v ∨ latest_published_generation v' = g)
  | Some (EvPartial g _) => v' = v ∨ latest_published_generation v' = g
  | _ => latest_published_generation v' = latest_published_generation v ∧ live_nodes v' = live_nodes v
  end.
Proof.
  intros Hrec Hle Hg. subst v'. destruct ev as [[|g nodes|g nodes|used]|]; simpl in *; [| | |done|by split_and!].
  - destruct Hrec as (_ & _ & _ & Hlt). unfold View.begin_refresh. rewrite decide_True by done. simpl. split_and!; try done; lia.
  - destruct Hrec as [Hpc _]. specialize (Hg g Hpc). rewrite ViewFacts.publish_eq.
    case_decide; simpl; split_and!; try lia; first [done|by left|by right].
  - destruct Hrec as [Hpc _]. specialize (Hg g Hpc). rewrite ViewFacts.publish_partial_eq.
    case_decide; simpl; split_and!; try lia; first [done|by left|by right].
Qed.

Lemma newest_stands_advance i input s s' :
  newest_stands s → shared_event (Advance i input) s = Some s' → newest_stands s'.
Proof.
  intros Hs He. simpl in He. destruct (activities s !! i) as [a|] eqn:Hi; [|done]. simpl in He.
  destruct (refresh_step _ _ _ _) as [[[pc es] ev]|] eqn:Hst; [|done]. simpl in He. injection He as <-.
  pose proof (step_recorded _ _ _ _ _ _ _ Hst) as Hrec.
  pose proof Hs as [Hle Has]. pose proof (Has i a Hi) as (Hnext & Hdis & Hp).
  assert (Hpcg : ∀ g, pc_generation (act_pc a) = Some g → (g ≤ next_generation (shared_view s))%Z)
    by (intros g Hg; apply Hnext; by left).
  destruct (view_step _ _ _ _ _ Hrec Hle Hpcg) as (Hn & Hl & Hev).
  assert (Hfresh : ∀ g nodes, EffPublish g nodes ∉ act_trace a).
  { intros g nodes Hin. destruct (Hp g nodes Hin) as ((o & Hend) & _). rewrite Hend in Hst.
    by destruct input. }
  destruct s as [v acts]. cbn [shared_view activities] in *.
  apply (newest_stands_insert v acts _ i a); try done; [by rewrite Hn; destruct ev as [[]|]; lia| | |].
  - intros g Hg. apply has_generation_app in Hg.
    assert (Hcase : (act_pc a = Idle ∧ ev = Some EvBegin) ∨ act_pc a = Idle ∧ ev = None ∨ act_pc a ≠ Idle).
    { assert (act_pc a = Idle ∨ act_pc a ≠ Idle) as [Hpc|?] by (destruct (act_pc a); auto); [|by auto].
      rewrite Hpc in Hrec. destruct ev as [[]|]; simpl in Hrec; try (by destruct Hrec); auto. }
    destruct Hcase as [[Hpc ->]|[[Hpc ->]|Hpc]].
    + destruct Hrec as (_ & -> & -> & _). simpl in Hg. rewrite elem_of_nil in Hg.
      destruct Hg as [[= <-]|[Hg|[]]]; [right; lia|]. left. by right.
    + destruct Hrec as [Hrec _]. destruct (Hrec Hpc) as [-> ->]. simpl in Hg. rewrite elem_of_nil in Hg.
      destruct Hg as [?|[Hg|[]]]; [done|]. left. by right.
    + left. destruct Hg as [Hg|[Hg|Hg]]; [|by right|];
        left; apply (step_generation _ _ _ _ _ _ _ g Hst Hpc); tauto.
  - intros j b g nodes Hj Hne Hin Hg.
    assert (Hnot : ∀ g', pc_generation (act_pc a) = Some g' → g ≠ g').
    { intros g' Hg' ->. apply (Hdis j b g' Hj Hne); [by left|by eapply published_generation]. }
    destruct ev as [[|g' ns|g' ns|used]|]; try done; simpl in Hrec.
    + destruct Hev as (_ & _ & [->|Hg']); [done|]. destruct Hrec as [Hpc _]. by destruct (Hnot g' Hpc); lia.
    + destruct Hev as [->|Hg']; [done|]. destruct Hrec as [Hpc _]. by destruct (Hnot g' Hpc); lia.
  - intros g nodes Hin. cbn [act_trace act_pc] in *. apply elem_of_app in Hin as [Hin|Hin]; [by destruct (Hfresh g nodes)|].
    destruct ev as [[|g' ns|g' ns|used]|]; simpl in Hrec.
    + destruct Hrec as (_ & -> & _). by apply elem_of_nil in Hin.
    + destruct Hrec as (_ & -> & Ho). apply list_elem_of_singleton in Hin. injection Hin as -> ->.
      by destruct Hev as (? & ? & _).
    + by destruct (proj2 Hrec g nodes).
    + done.
    + by destruct (proj2 Hrec g nodes).
Qed.

Lemma newest_stands_event e s s' :
  newest_stands s → shared_event e s = Some s' → newest_stands s'.
Proof.
  intros Hs He. destruct e as [call|i input|used]; [|by eapply newest_stands_advance|].
  - simpl in He. injection He as <-. destruct Hs as [Hle Has]. split; [done|].
    assert (Hnew : ∀ g, ¬ has_generation (mkActivity call Idle []) g)
      by (intros g [?|Hg]; [done|]; by apply elem_of_nil in Hg).
    intros j b Hj. cbn [shared_view activities] in *.
    apply lookup_snoc_Some in Hj as [[_ Hj]|[-> <-]].
    + destruct (Has j b Hj) as (? & Hdis & ?). split_and!; [done| |done]. intros k c g Hk Hkj Hb.
      apply lookup_snoc_Some in Hk as [[_ Hk]|[-> <-]]; [by apply (Hdis k c g)|apply Hnew].
    + split_and!; [by intros g Hg%Hnew| |by intros g nodes Hin%elem_of_nil].
      intros k c g _ _ Hg. by apply Hnew in Hg.
  - simpl in He. injection He as <-. destruct Hs as [Hle Has].
    destruct (ViewFacts.draw_live_nodes used (shared_view s)) as [Hl Hg].
    assert (Hn : next_generation (snd (View.get_next_node_round_robin used (shared_view s)))
                 = next_generation (shared_view s))
      by (unfold View.get_next_node_round_robin; by case_match).
    split; cbn [shared_view activities View.apply_event]; rewrite ?Hl, ?Hg, ?Hn; done.
Qed.

Lemma newest_stands_run es s s' :
  newest_stands s → run_shared es s = Some s' → newest_stands s'.
Proof.
  revert s. induction es as [|e es IH]; intros s Hs Hrun; [by injection Hrun as <-|].
  rewrite run_shared_cons in Hrun. destruct (shared_event e s) as [s1|] eqn:H1; [|done].
  apply (IH s1); [|done]. by apply (newest_stands_event e s).
Qed.

End generations.
End GenerationFacts.

(** ** Lemmas: termination *)

Module TurnFacts.
Import Refresh RefreshSteps RefreshInvariants.
Section turns.
Context `{UrlApi} (call : RefreshCall).
Implicit Types (v : NodeView) (g : Z) (pc : RefreshPc) (l : Locals).

Definition lower : nat * (nat * nat) → nat * (nat * nat) → Prop :=
  slexprod nat (nat * nat) lt (slexprod nat nat lt lt).

Lemma lower_wf : well_founded lower.
Proof. repeat apply wf_slexprod; apply lt_wf. Qed.

Lemma lower_spec a b c a' b' c' :
  lower (a, (b, c)) (a', (b', c')) ↔ a < a' ∨ a = a' ∧ (b < b' ∨ b = b' ∧ c < c').
Proof.
  split.
  - intros Hl. inversion Hl as [|? ? ? Hr]; subst; [by left|]. right. split; [done|].
    inversion Hr; subst; auto.
  - intros [?|[-> [?|[-> ?]]]]; [by constructor|by constructor; constructor|].
    apply right_slex. by apply right_slex.
Qed.

(** After a query the loop goes on with no more than it had left, or it is over. *)
Lemma judge_rank g l n res pc es b c :
  judge (call_inputs call) g l n res = (pc, es) → 3 * left_in_loop call l < b →
  lower (rank call pc) (2, (b, c)).
Proof.
  unfold judge. intros Hj Hb.
  destruct res as [[|x xs]|]; [destruct (Scope.fallback _) as [f|] eqn:Hf| |
    destruct (Scope.is_cluster _); [|destruct (_ && _) eqn:Hs]]; injection Hj as <- <-;
    cbn [rank]; apply lower_spec; try (left; lia); right; (split; [done|]); left;
    eapply Nat.le_lt_trans; [|exact Hb| |exact Hb| |exact Hb]; apply Nat.mul_le_mono_l;
    unfold left_in_loop; simpl.
  - rewrite (ScopeFacts.chain_cons (l_scope l)), Hf, length_app. simpl. lia.
  - apply andb_true_iff in Hs as [Hc Hu]. apply bool_decide_eq_true in Hc as ->.
    apply negb_true_iff in Hu as ->. simpl. lia.
  - done.
Qed.

Lemma turn_lower pc' pc : turn call pc' pc → lower (rank call pc') (rank call pc).
Proof.
  intros (input & v & es & ev & Hst).
  assert (Hrest : ∀ l u us, l_candidates l = u :: us →
      left_in_loop call (mkLocals _ (l_scope l) us (l_using_seeds l) (l_outcomes l)) < left_in_loop call l)
    by (intros l u us Hl; unfold left_in_loop; rewrite Hl; simpl; lia).
  refresh_cases Hst;
    try match goal with Hl : l_candidates _ = _ :: _ |- _ => pose proof (Hrest _ _ _ Hl) end;
    try (eapply judge_rank; [done|]; lia);
    apply lower_spec; simpl; lia.
Qed.

Lemma turn_wf : well_founded (turn call).
Proof.
  eapply wf_incl; [exact turn_lower|]. apply wf_inverse_image, lower_wf.
Qed.

(** A refresh that is not over waits for some input. *)
Lemma next_input pc v :
  (∃ input st, refresh_step call pc input v = Some st) ↔
  match pc with Ended _ | Overflowed => False | _ => True end.
Proof.
  split; [intros (input & st & Hst); by destruct pc, input|].
  set (nodes := View.sort_dedup
    (live_nodes v ++ seed_urls (call_inputs call) ++ call_additional call)).
  assert (Hdec : ∀ (l : list Url) A (x y : A), (if decide (l ≡ₚ l) then x else y) = x)
    by (intros; by rewrite decide_True).
  destruct pc; intros Hpc; try done; first
    [ exists Act; by eexists
    | exists (Answer None); cbn [refresh_step]; try destruct (judge _ _ _ _ _); by eexists
    | exists (Order (live_nodes v)); eexists; apply Hdec
    | exists (Order nodes); eexists; apply Hdec ].
Qed.
End turns.
End TurnFacts.

(** ** Properties *)

Section properties.
Context `{UrlApi}.
Import Refresh RefreshSteps RefreshInvariants Membership.
Implicit Types (s : Shared) (a b : Activity).

(** C16: interleaved refreshes are refreshes: whatever else goes on with the view,
    a refresh that has ended did exactly what [update_live_nodes_from] in one go
    does when it is given the same shuffles and answers and when what the others
    did to the view is what happens between its accesses: the same requests,
    outcomes and publications in the same order, the same outcomes returned, the
    same view left behind, and the panic of the generation counter in the same
    case. *)
Theorem refreshes_sequentialize i es s s' a call :
  activities s !! i = Some (mkActivity call Idle []) →
  run_shared (Advance i Act :: es) s = Some s' →
  activities s' !! i = Some a →
  let alone := @update_live_nodes_from _ history_network
    (call_inputs call) (call_outcomes call) (call_additional call) (call_reuse call)
    (mkRun _ history_network (history i (Advance i Act :: es) s) (shared_view s) []) in
  match act_pc a with
  | Ended o => ∃ r, alone = Finished o r ∧ trace r = act_trace a ∧ settle r = shared_view s'
  | Overflowed => alone = Panicked
  | _ => True
  end.
Proof.
  intros Hi Hrun Ha. pose proof (SharedFacts.started_history i es s s' a call Hi Hrun Ha) as Hag.
  cbn [Sequential.resume] in Hag. cbv zeta. revert Hag.
  destruct (update_live_nodes_from _ _ _ _ _) as [o r| |]; destruct (act_pc a); simpl; try done.
  intros (-> & Ht & Hs). by exists r.
Qed.

(** A refresh takes finitely many steps, whatever answers and shuffles it is
    given and whatever the view looks like at each of its accesses; and as long as
    it has not ended there is a step it waits for. *)
Theorem refresh_steps_terminate (call : RefreshCall) :
  well_founded (turn call) ∧
  ∀ pc v, (∃ input st, refresh_step call pc input v = Some st) ↔
          match pc with Ended _ | Overflowed => False | _ => True end.
Proof. split; [apply TurnFacts.turn_wf|apply TurnFacts.next_input]. Qed.

(** C17: the refreshes of a view and the requests that draw from it keep its
    membership, their requests, outcomes and publications and everything they
    have in hand among the known nodes, and the membership non-empty, in every
    interleaving: what each refresh relies on is what the others guarantee. *)
Theorem interleaved_refreshes_ok `{!UrlEqLaws} (known : Url → Prop) es s s' :
  Forall (starts_ok known) es → shared_ok known s → run_shared es s = Some s' →
  shared_ok known s'.
Proof. apply KnownFacts.run_shared_ok. Qed.

(** C15: the newest refresh stands, in every interleaving: no two refreshes have
    the same generation, a refresh that published is over, and if no publication
    of a newer one came in, the membership is exactly what it published. *)
Theorem newest_refresh_stands es v s i a g nodes :
  (latest_published_generation v ≤ next_generation v)%Z →
  run_shared es (mkShared v []) = Some s →
  activities s !! i = Some a → EffPublish g nodes ∈ act_trace a →
  (∀ j b, activities s !! j = Some b → j ≠ i → ¬ has_generation b g) ∧
  (∃ o, act_pc a = Ended o) ∧
  (g ≤ latest_published_generation (shared_view s))%Z ∧
  (g = latest_published_generation (shared_view s) → live_nodes (shared_view s) = nodes).
Proof.
  intros Hv Hrun Ha Hin.
  assert (Hs0 : newest_stands (mkShared v [])) by (split; [done|]; by intros j b Hj).
  destruct (GenerationFacts.newest_stands_run _ _ _ Hs0 Hrun) as [_ Has].
  destruct (Has i a Ha) as (_ & Hdis & Hp). split; [|by apply (Hp g nodes)].
  intros j b Hj Hne. apply (Hdis j b g Hj Hne). by eapply GenerationFacts.published_generation.
Qed.

End properties.

(** ** Witnesses: an old refresh overtaken by a new one *)

Section witnesses.
Import Refresh RefreshSteps RefreshInvariants Membership StrUrl Scripted.
#[local] Existing Instances StrUrl.api StrUrl.eq_laws.

Definition old_and_new : RefreshCall := mkCallOf _ Scripted.inputs ∅ [] false.
Definition idle2 : Shared :=
  mkShared (view (run0 rack_scope [])) (replicate 2 (mkActivity old_and_new Idle [])).
Definition starts : list SharedEvent := [Start old_and_new; Start old_and_new].
(** Both begin; the second gets its answer and publishes while the first awaits. *)
Definition overtaking : list SharedEvent :=
  [Advance 1 Act; Advance 1 (Order ["http://n2:8000/"; "http://n1:8000/"]);
   Advance 0 (Order ["http://n1:8000/"; "http://n2:8000/"]); Advance 1 Act;
   Advance 1 (Answer (Some (Some ["n3"]))); Advance 0 Act; Draw ∅; Advance 1 Act;
   Advance 0 (Answer (Some (Some ["n4"]))); Advance 0 Act].
Definition overtaken : Shared := default idle2 (run_shared (Advance 0 Act :: overtaking) idle2).
Definition activity_of (i : nat) : Activity :=
  default (mkActivity old_and_new Idle []) (activities overtaken !! i).

Lemma ended_some (pc : RefreshPc) :
  match pc with Ended _ => true | _ => false end = true → ∃ o, pc = Ended o.
Proof. destruct pc; try done. by eexists. Qed.

Lemma overtaken_run : run_shared (Advance 0 Act :: overtaking) idle2 = Some overtaken.
Proof. apply some_default. vm_compute. reflexivity. Qed.

Example overtaken_view : live_nodes (shared_view overtaken) = ["http://n3:8000/"].
Proof. vm_compute. reflexivity. Qed.

Lemma refreshes_sequentialize_witness :
  ∃ o, act_pc (activity_of 0) = Ended o ∧
  ∃ r, @update_live_nodes_from _ history_network (call_inputs old_and_new) ∅ [] false
    (mkRun _ history_network (history 0 (Advance 0 Act :: overtaking) idle2) (shared_view idle2) [])
      = Finished o r ∧
    trace r = act_trace (activity_of 0) ∧ settle r = shared_view overtaken.
Proof.
  destruct (ended_some (act_pc (activity_of 0))) as [o Ho]; [vm_compute; reflexivity|].
  exists o. split; [exact Ho|].
  pose proof (refreshes_sequentialize 0 overtaking idle2 overtaken (activity_of 0) old_and_new
    eq_refl overtaken_run ltac:(apply some_default; vm_compute; reflexivity)) as Hseq.
  rewrite Ho in Hseq. exact Hseq.
Defined.

Lemma interleaved_refreshes_ok_witness :
  shared_ok (served "http" (Some 8000%Z)) overtaken.
Proof.
  assert (Hn : ∀ addr u, NodeUrl.build_node_url "http" addr (Some 8000%Z) = Ok u →
      served "http" (Some 8000%Z) u) by (intros addr u Hu; by exists addr).
  assert (Hc : call_ok (served "http" (Some 8000%Z)) old_and_new).
  { split_and!; [split; [|exact Hn]|by intros ???|constructor].
    apply Forall_singleton, (Hn "seed"). vm_compute. reflexivity. }
  refine (interleaved_refreshes_ok (served "http" (Some 8000%Z)) (starts ++ Advance 0 Act :: overtaking)
    (mkShared (shared_view idle2) []) overtaken _ _ _).
  - apply Forall_cons; split; [exact Hc|]. apply Forall_cons; split; [exact Hc|]. repeat constructor.
  - split; [split; [discriminate|]|constructor].
    apply Forall_cons; split; [apply (Hn "n1")|apply Forall_singleton, (Hn "n2")]; vm_compute; reflexivity.
  - apply (some_default idle2). vm_compute. reflexivity.
Defined.

Lemma newest_refresh_stands_witness :
  EffPublish 2 ["http://n3:8000/"] ∈ act_trace (activity_of 1) ∧
  live_nodes (shared_view overtaken) = ["http://n3:8000/"].
Proof.
  assert (Hin : EffPublish 2 ["http://n3:8000/"] ∈ act_trace (activity_of 1))
    by (do 2 right; left).
  split; [exact Hin|].
  refine (proj2 (proj2 (proj2 (newest_refresh_stands (starts ++ Advance 0 Act :: overtaking)
    (shared_view idle2) overtaken 1 (activity_of 1) 2 ["http://n3:8000/"] _ _ _ Hin))) _).
  - simpl. lia.
  - apply (some_default idle2). vm_compute. reflexivity.
  - apply some_default. vm_compute. reflexivity.
  - vm_compute. reflexivity.
Defined.

End witnesses.
