(* ===== verification/Hasher.v ===== *)
(** * Partition-key hashing ([src/src/keyrouting/hasher.rs])

    The affinity hash of a partition-key value is the low half of
    MurmurHash3 x64_128 over a type prefix and the value's bytes.  The hash
    function is the [murmur3] crate's, a class here; what the driver adds is
    the byte encoding, and the theorem is that this encoding is injective over
    the supported key types, so two different keys can only meet in the hash
    function itself. *)

From S2P Require Import Prelude.
From Stdlib Require Import Strings.Byte.

(** [AttributeValue] of the SDK; [Blob]s are byte lists.  Strings are their
    UTF-8 bytes throughout the development. *)
Inductive AttributeValue : Type :=
| AvB (b : list byte)
| AvBool (b : bool)
| AvBs (bs : list (list byte))
| AvL (l : list AttributeValue)
| AvM (m : list (string * AttributeValue))
| AvN (n : string)
| AvNs (ns : list string)
| AvNull (b : bool)
| AvS (s : string)
| AvSs (ss : list string)
| AvUnknown.

(** The [murmur3] crate: [murmur3_x64_128(reader, seed)] over an in-memory
    reader; the result is a [u128]. *)
Class Murmur3 := murmur3_x64_128 : list byte → Z → Z.

Module Hasher.

Definition TYPE_STRING : byte := x01.
Definition TYPE_NUMBER : byte := x02.
Definition TYPE_BINARY : byte := x03.

(** [str::as_bytes]. *)
Definition as_bytes (s : string) : list byte := String.list_byte_of_string s.

(** The prefix and the bytes that [hash_attribute_value] selects, in one
    buffer; [None] for the types it does not support. *)
Definition hash_input (value : AttributeValue) : option (list byte) :=
  match value with
  | AvS s => Some (TYPE_STRING :: as_bytes s)
  | AvN n => Some (TYPE_NUMBER :: as_bytes n)
  | AvB b => Some (TYPE_BINARY :: b)
  | _ => None
  end.

(** [hash_attribute_value]: [hash as u64] keeps the low 64 bits. *)
Definition hash_attribute_value `{Murmur3} (value : AttributeValue) : option Z :=
  data ← hash_input value; Some (wrap64 (murmur3_x64_128 data 0)).

(** The partition-key types Alternator allows. *)
Definition key_type_supported (value : AttributeValue) : bool :=
  match value with
  | AvS _ | AvN _ | AvB _ => true
  | _ => false
  end.

Lemma as_bytes_inj s1 s2 : as_bytes s1 = as_bytes s2 → s1 = s2.
Proof.
  intros Heq. rewrite <-(String.string_of_list_byte_of_string s1),
    <-(String.string_of_list_byte_of_string s2).
  unfold as_bytes in Heq. by rewrite Heq.
Qed.

Lemma hash_attribute_value_u64 `{Murmur3} v h : hash_attribute_value v = Some h → is_u64 h.
Proof.
  unfold hash_attribute_value. destruct (hash_input v); simpl; [|done].
  intros [= <-]. apply wrap64_is_u64.
Qed.

End Hasher.

(** The bytes that are hashed determine the key: two values with the same
    encoding are the same value (so [S "1"], [N "1"] and [B 0x31] never share an
    encoding), exactly the supported key types have one, and the resulting hash
    is a [u64]. *)
Theorem hash_input_injective `{Murmur3} (v1 v2 : AttributeValue) (data : list byte) :
  Hasher.hash_input v1 = Some data → Hasher.hash_input v2 = Some data →
  v1 = v2 ∧ Hasher.key_type_supported v1 = true ∧
  ∃ h, Hasher.hash_attribute_value v1 = Some h ∧ is_u64 h.
Proof.
  intros H1 H2. split; [|split].
  - destruct v1, v2; simplify_eq/=; try done; f_equal; by apply Hasher.as_bytes_inj.
  - by destruct v1; simplify_eq/=.
  - unfold Hasher.hash_attribute_value. rewrite H1. simpl.
    eexists. split; [done|]. apply wrap64_is_u64.
Qed.

(** A stand-in for the hash function, to run the definitions on. *)
Definition sum_hash : Murmur3 :=
  λ data seed, foldr (λ b acc, Z.of_N (Byte.to_N b) + 31 * acc)%Z seed data.

Lemma hash_input_injective_witness :
  AvS "user" = AvS "user" ∧ Hasher.key_type_supported (AvS "user") = true ∧
  ∃ h, @Hasher.hash_attribute_value sum_hash (AvS "user") = Some h ∧ is_u64 h.
Proof.
  apply (@hash_input_injective sum_hash (AvS "user") (AvS "user")
           (x01 :: Hasher.as_bytes "user")); reflexivity.
Defined.
