(* ===== verification/Classifier.v ===== *)
(** * Affinity configuration and request classification
    ([src/src/keyrouting/affinity_config.rs], [src/src/keyrouting/classifier.rs])

    Which requests are routed by partition key, and which table/attribute maps
    may hold the key.  The SDK's inputs are records with the fields the
    classifier reads; hash maps that are only looked up in are [gmap]s, those
    that are iterated are association lists in iteration order. *)

From S2P Require Import Prelude Hasher.

(** ** Affinity configuration *)

(** [KeyRouteAffinityType]; [KraNone] is its [None]. *)
Inductive KeyRouteAffinityType : Type :=
| KraNone
| Rmw
| AnyWrite.

#[export] Instance KeyRouteAffinityType_eq_dec : EqDecision KeyRouteAffinityType.
Proof. solve_decision. Defined.

(** [KeyRouteAffinityConfig]. *)
Record KeyRouteAffinityConfig := mkAffinityConfig {
  affinity_type : KeyRouteAffinityType;
  pk_info_per_table : gmap string string;
}.

(** [KeyRouteAffinityConfigBuilder]. *)
Record KeyRouteAffinityConfigBuilder := mkAffinityBuilder {
  builder_affinity_type : KeyRouteAffinityType;
  builder_pk_info : gmap string string;
}.

Module Affinity.

(** [From<KeyRouteAffinityType>]. *)
Definition from_type (t : KeyRouteAffinityType) : KeyRouteAffinityConfig :=
  mkAffinityConfig t ∅.

Definition is_enabled (cfg : KeyRouteAffinityConfig) : bool :=
  bool_decide (affinity_type cfg ≠ KraNone).

Definition new : KeyRouteAffinityConfigBuilder := mkAffinityBuilder KraNone ∅.

Definition with_type (t : KeyRouteAffinityType) (b : KeyRouteAffinityConfigBuilder)
    : KeyRouteAffinityConfigBuilder :=
  mkAffinityBuilder t (builder_pk_info b).

Definition with_pk_info (table pk_info : string) (b : KeyRouteAffinityConfigBuilder)
    : KeyRouteAffinityConfigBuilder :=
  mkAffinityBuilder (builder_affinity_type b) (<[table := pk_info]> (builder_pk_info b)).

Definition build (b : KeyRouteAffinityConfigBuilder) : KeyRouteAffinityConfig :=
  mkAffinityConfig (builder_affinity_type b) (builder_pk_info b).

End Affinity.

(** ** The SDK inputs the classifier looks at *)

(** [ReturnValue]; [RvNone] is its [None], [RvUnknown] its catch-all. *)
Inductive ReturnValue : Type :=
| AllNew | AllOld | RvNone | UpdatedNew | UpdatedOld | RvUnknown (s : string).
#[export] Instance ReturnValue_eq_dec : EqDecision ReturnValue.
Proof. solve_decision. Defined.

(** [AttributeAction]. *)
Inductive AttributeAction : Type :=
| ActAdd | ActDelete | ActPut | ActUnknown (s : string).
#[export] Instance AttributeAction_eq_dec : EqDecision AttributeAction.
Proof. solve_decision. Defined.

Abbreviation attr_map := (gmap string AttributeValue).

(** [ExpectedAttributeValue] and [AttributeValueUpdate], without the fields
    nothing reads. *)
Record ExpectedAttributeValue := mkExpected { expected_value : option AttributeValue }.
Record AttributeValueUpdate := mkUpdate {
  action : option AttributeAction;
  value : option AttributeValue;
}.

Record PutItemInput := mkPut {
  put_table_name : option string;
  put_item : option attr_map;
  put_expected : option (list (string * ExpectedAttributeValue));
  put_return_values : option ReturnValue;
  put_condition_expression : option string;
}.

Record DeleteItemInput := mkDelete {
  delete_table_name : option string;
  delete_key : option attr_map;
  delete_expected : option (list (string * ExpectedAttributeValue));
  delete_return_values : option ReturnValue;
  delete_condition_expression : option string;
}.

Record UpdateItemInput := mkUpdateItem {
  update_table_name : option string;
  update_key : option attr_map;
  update_attribute_updates : option (list (string * AttributeValueUpdate));
  update_expected : option (list (string * ExpectedAttributeValue));
  update_return_values : option ReturnValue;
  update_update_expression : option string;
  update_condition_expression : option string;
}.

(** [WriteRequest]: [delete_request().key()] and [put_request().item()]. *)
Record WriteRequest := mkWrite {
  delete_request : option attr_map;
  put_request : option attr_map;
}.

Record BatchWriteItemInput := mkBatch {
  request_items : option (list (string * list WriteRequest));
}.

(** The SDK's type-erased [Input]; [InOther] is every other operation. *)
Inductive Input : Type :=
| InPut (r : PutItemInput)
| InUpdate (r : UpdateItemInput)
| InDelete (r : DeleteItemInput)
| InBatchWrite (r : BatchWriteItemInput)
| InOther.

(** [DynamoOp]. *)
Inductive DynamoOp : Type :=
| Put (r : PutItemInput)
| Update (r : UpdateItemInput)
| Delete (r : DeleteItemInput)
| BatchWrite (r : BatchWriteItemInput).

(** [PartitionKeyCandidate]. *)
Record PartitionKeyCandidate := mkCandidate {
  table_name : string;
  attributes : attr_map;
}.

Module Classifier.

(** [DynamoOp::from_input]: the downcasts, in order. *)
Definition from_input (input : Input) : option DynamoOp :=
  match input with
  | InPut r => Some (Put r)
  | InUpdate r => Some (Update r)
  | InDelete r => Some (Delete r)
  | InBatchWrite r => Some (BatchWrite r)
  | InOther => None
  end.

(** [.is_some_and(|s| !s.is_empty())] on strings and on maps. *)
Definition non_empty_str (o : option string) : bool :=
  match o with Some s => negb (bool_decide (s = EmptyString)) | None => false end.
Definition non_empty_map {V} (o : option (list (string * V))) : bool :=
  match o with Some [] => false | Some (_ :: _) => true | None => false end.
(** [.is_some_and(|rv| *rv != ReturnValue::None)]. *)
Definition returns_values (o : option ReturnValue) : bool :=
  match o with Some rv => negb (bool_decide (rv = RvNone)) | None => false end.

Definition should_apply_put (mode : KeyRouteAffinityType) (r : PutItemInput) : bool :=
  if decide (mode = AnyWrite) then true
  else non_empty_str (put_condition_expression r)
       || non_empty_map (put_expected r)
       || returns_values (put_return_values r).

Definition should_apply_delete (mode : KeyRouteAffinityType) (r : DeleteItemInput) : bool :=
  if decide (mode = AnyWrite) then true
  else non_empty_str (delete_condition_expression r)
       || non_empty_map (delete_expected r)
       || returns_values (delete_return_values r).

(** The loop over the legacy attribute updates, with its [continue] and early
    returns. *)
Fixpoint rmw_attribute_updates (updates : list (string * AttributeValueUpdate)) : bool :=
  match updates with
  | [] => false
  | (_, u) :: rest =>
      match action u with
      | None => rmw_attribute_updates rest
      | Some a =>
          if decide (a = ActAdd) then true
          else if decide (a = ActDelete ∧ is_Some (value u)) then true
          else rmw_attribute_updates rest
      end
  end.

Definition should_apply_update (mode : KeyRouteAffinityType) (r : UpdateItemInput) : bool :=
  if decide (mode = AnyWrite) then true
  else if non_empty_str (update_update_expression r) then true
  else if non_empty_str (update_condition_expression r) then true
  else if non_empty_map (update_expected r) then true
  else if match update_return_values r with
          | Some AllOld | Some UpdatedOld | Some AllNew => true
          | _ => false
          end then true
  else match update_attribute_updates r with
       | Some updates => rmw_attribute_updates updates
       | None => false
       end.

Definition should_apply (op : DynamoOp) (mode : KeyRouteAffinityType) : bool :=
  if decide (mode = KraNone) then false
  else match op with
       | Put r => should_apply_put mode r
       | Delete r => should_apply_delete mode r
       | Update r => should_apply_update mode r
       | BatchWrite _ => bool_decide (mode = AnyWrite)
       end.

(** [batch_write_request_attributes]: a delete request wins over a put. *)
Definition batch_write_request_attributes (write : WriteRequest) : option attr_map :=
  match delete_request write with
  | Some key => Some key
  | None => put_request write
  end.

(** [table_name().zip(attributes).map(|..| vec![..]).unwrap_or_default()]. *)
Definition single_candidate (t : option string) (a : option attr_map)
    : list PartitionKeyCandidate :=
  match t, a with
  | Some t, Some a => [mkCandidate t a]
  | _, _ => []
  end.

Definition batch_candidates (items : list (string * list WriteRequest))
    : list PartitionKeyCandidate :=
  '(t, writes) ← items;
  omap (λ w, mkCandidate t <$> batch_write_request_attributes w) writes.

Definition partition_key_candidates (op : DynamoOp) : list PartitionKeyCandidate :=
  match op with
  | Put r => single_candidate (put_table_name r) (put_item r)
  | Update r => single_candidate (update_table_name r) (update_key r)
  | Delete r => single_candidate (delete_table_name r) (delete_key r)
  | BatchWrite r => batch_candidates (default [] (request_items r))
  end.

End Classifier.

(** ** Specification: which writes read the item first

    One rule per trigger.  [BatchWriteItem] has none: it is never a
    read-modify-write request. *)
Inductive reads_before_write : DynamoOp → Prop :=
| rbw_put_condition r c :
    put_condition_expression r = Some c → c ≠ EmptyString → reads_before_write (Put r)
| rbw_put_expected r e es :
    put_expected r = Some (e :: es) → reads_before_write (Put r)
| rbw_put_returns r rv :
    put_return_values r = Some rv → rv ≠ RvNone → reads_before_write (Put r)
| rbw_delete_condition r c :
    delete_condition_expression r = Some c → c ≠ EmptyString → reads_before_write (Delete r)
| rbw_delete_expected r e es :
    delete_expected r = Some (e :: es) → reads_before_write (Delete r)
| rbw_delete_returns r rv :
    delete_return_values r = Some rv → rv ≠ RvNone → reads_before_write (Delete r)
| rbw_update_expression r c :
    update_update_expression r = Some c → c ≠ EmptyString → reads_before_write (Update r)
| rbw_update_condition r c :
    update_condition_expression r = Some c → c ≠ EmptyString → reads_before_write (Update r)
| rbw_update_expected r e es :
    update_expected r = Some (e :: es) → reads_before_write (Update r)
| rbw_update_returns r rv :
    update_return_values r = Some rv → rv ∈ [AllOld; UpdatedOld; AllNew] →
    reads_before_write (Update r)
| rbw_update_add r updates name u :
    update_attribute_updates r = Some updates → (name, u) ∈ updates →
    action u = Some ActAdd → reads_before_write (Update r)
| rbw_update_delete_value r updates name u v :
    update_attribute_updates r = Some updates → (name, u) ∈ updates →
    action u = Some ActDelete → value u = Some v → reads_before_write (Update r).

Module ClassifierFacts.
Import Classifier.

Lemma non_empty_str_spec o : non_empty_str o = true ↔ ∃ s, o = Some s ∧ s ≠ EmptyString.
Proof.
  destruct o as [s|]; simpl; [|naive_solver].
  rewrite negb_true_iff, bool_decide_eq_false. naive_solver.
Qed.

Lemma non_empty_map_spec {V} (o : option (list (string * V))) :
  non_empty_map o = true ↔ ∃ e es, o = Some (e :: es).
Proof. destruct o as [[|e es]|]; simpl; naive_solver. Qed.

Lemma returns_values_spec o : returns_values o = true ↔ ∃ rv, o = Some rv ∧ rv ≠ RvNone.
Proof.
  destruct o as [rv|]; simpl; [|naive_solver].
  rewrite negb_true_iff, bool_decide_eq_false. naive_solver.
Qed.

Lemma rmw_attribute_updates_spec updates :
  rmw_attribute_updates updates = true ↔
  ∃ name u, (name, u) ∈ updates ∧
    (action u = Some ActAdd ∨ action u = Some ActDelete ∧ is_Some (value u)).
Proof.
  induction updates as [|[name u] rest IH]; simpl.
  - split; [done|]. intros (? & ? & H%elem_of_nil & _). done.
  - assert (Hrec : rmw_attribute_updates rest = true →
      ∃ n u', (n, u') ∈ (name, u) :: rest ∧
        (action u' = Some ActAdd ∨ action u' = Some ActDelete ∧ is_Some (value u'))).
    { intros (n & u' & Hin & H)%IH. exists n, u'. split; [by right|done]. }
    assert (Hcase : ∀ (P : Prop) n u',
      (n, u') ∈ (name, u) :: rest → (u' = u → P) → ((n, u') ∈ rest → P) → P).
    { intros P n u' [[= -> ->]|Hin]%elem_of_cons; auto. }
    split.
    + destruct (action u) as [a|] eqn:Ha; [|done].
      case_decide; [subst a; intros _; exists name, u; split; [by left|by left]|].
      case_decide as Hd; [|done]. destruct Hd as [-> ?]. intros _.
      exists name, u. split; [by left|by right].
    + intros (n & u' & Hin & Hu'). apply (Hcase _ _ _ Hin); clear Hin.
      * intros ->. destruct Hu' as [->|[-> Hv]]; [done|].
        rewrite decide_False by done. by rewrite decide_True.
      * intros Hin. destruct (action u) as [a|]; [|apply IH; eauto].
        repeat case_decide; [done..|]. apply IH; eauto.
Qed.

Lemma should_apply_put_rmw r :
  should_apply_put Rmw r = true ↔ reads_before_write (Put r).
Proof.
  unfold should_apply_put. rewrite decide_False by done.
  rewrite !orb_true_iff, non_empty_str_spec, non_empty_map_spec, returns_values_spec.
  split; [|inversion 1; subst; naive_solver].
  intros [[(c & ? & ?)|(e & es & ?)]|(rv & ? & ?)];
    eauto using rbw_put_condition, rbw_put_expected, rbw_put_returns.
Qed.

Lemma should_apply_delete_rmw r :
  should_apply_delete Rmw r = true ↔ reads_before_write (Delete r).
Proof.
  unfold should_apply_delete. rewrite decide_False by done.
  rewrite !orb_true_iff, non_empty_str_spec, non_empty_map_spec, returns_values_spec.
  split; [|inversion 1; subst; naive_solver].
  intros [[(c & ? & ?)|(e & es & ?)]|(rv & ? & ?)];
    eauto using rbw_delete_condition, rbw_delete_expected, rbw_delete_returns.
Qed.

(** The early returns of [should_apply_update] as one disjunction. *)
Lemma should_apply_update_rmw_or r :
  should_apply_update Rmw r = true ↔
  non_empty_str (update_update_expression r) = true ∨
  non_empty_str (update_condition_expression r) = true ∨
  non_empty_map (update_expected r) = true ∨
  (∃ rv, update_return_values r = Some rv ∧ rv ∈ [AllOld; UpdatedOld; AllNew]) ∨
  (∃ us, update_attribute_updates r = Some us ∧ rmw_attribute_updates us = true).
Proof.
  unfold should_apply_update. rewrite decide_False by done.
  destruct (non_empty_str (update_update_expression r)); [naive_solver|].
  destruct (non_empty_str (update_condition_expression r)); [naive_solver|].
  destruct (non_empty_map (update_expected r)); [naive_solver|].
  setoid_rewrite elem_of_cons. setoid_rewrite elem_of_cons. setoid_rewrite elem_of_cons.
  setoid_rewrite elem_of_nil.
  destruct (update_return_values r) as [[]|], (update_attribute_updates r) as [us|];
    naive_solver.
Qed.

Lemma should_apply_update_rmw r :
  should_apply_update Rmw r = true ↔ reads_before_write (Update r).
Proof.
  rewrite should_apply_update_rmw_or, !non_empty_str_spec, non_empty_map_spec. split.
  - intros [(c & ? & ?)|[(c & ? & ?)|[(e & es & ?)|[(rv & ? & ?)|(us & Hus & Hr)]]]].
    + by eapply rbw_update_expression.
    + by eapply rbw_update_condition.
    + by eapply rbw_update_expected.
    + by eapply rbw_update_returns.
    + apply rmw_attribute_updates_spec in Hr as (n & u & Hin & [Ha|[Ha [v Hv]]]);
        [by eapply rbw_update_add|by eapply rbw_update_delete_value].
  - inversion 1; subst; [naive_solver..| |].
    + do 4 right. eexists. split; [done|]. apply rmw_attribute_updates_spec. eauto.
    + do 4 right. eexists. split; [done|]. apply rmw_attribute_updates_spec. eauto 10.
Qed.

Lemma elem_of_batch_candidates items c :
  c ∈ batch_candidates items ↔
  ∃ t writes w a, (t, writes) ∈ items ∧ w ∈ writes ∧
    batch_write_request_attributes w = Some a ∧ c = mkCandidate t a.
Proof.
  unfold batch_candidates. rewrite list_elem_of_bind. split.
  - intros ([t writes] & Hc & Hin). apply list_elem_of_omap in Hc as (w & Hw & Ha).
    destruct (batch_write_request_attributes w) as [a|] eqn:E; simplify_eq/=. eauto 10.
  - intros (t & writes & w & a & Hin & Hw & Ha & ->). exists (t, writes).
    split; [|done]. apply list_elem_of_omap. exists w. by rewrite Ha.
Qed.

Lemma batch_candidates_Permutation items1 items2 :
  items1 ≡ₚ items2 → batch_candidates items1 ≡ₚ batch_candidates items2.
Proof. intros Hp. unfold batch_candidates. by rewrite Hp. Qed.

End ClassifierFacts.

(** Classification is exact in every mode: nothing qualifies when affinity
    is off, every write qualifies under [AnyWrite], and under [Rmw] exactly the
    requests that read the item before writing it do (never a batch). *)
Theorem should_apply_exact (op : DynamoOp) (mode : KeyRouteAffinityType) :
  Classifier.should_apply op mode = true ↔
  match mode with
  | KraNone => False
  | Rmw => reads_before_write op
  | AnyWrite => True
  end.
Proof.
  unfold Classifier.should_apply. destruct mode.
  - rewrite decide_True by done. naive_solver.
  - rewrite decide_False by done. destruct op.
    + apply ClassifierFacts.should_apply_put_rmw.
    + apply ClassifierFacts.should_apply_update_rmw.
    + apply ClassifierFacts.should_apply_delete_rmw.
    + rewrite bool_decide_eq_false_2 by done. split; [done|inversion 1].
  - rewrite decide_False by done. destruct op; split; done.
Qed.

(** A single-item request offers at most one candidate, the table and map
    of the request itself; a batch offers exactly one candidate per write that
    carries a put or a delete (the delete's key when both are present), and the
    iteration order of the request's hash map only permutes them. *)
Theorem candidates_of_request (op : DynamoOp) :
  match op with
  | Put r =>
      Classifier.partition_key_candidates op =
        match put_table_name r, put_item r with
        | Some t, Some a => [mkCandidate t a] | _, _ => [] end
  | Update r =>
      Classifier.partition_key_candidates op =
        match update_table_name r, update_key r with
        | Some t, Some a => [mkCandidate t a] | _, _ => [] end
  | Delete r =>
      Classifier.partition_key_candidates op =
        match delete_table_name r, delete_key r with
        | Some t, Some a => [mkCandidate t a] | _, _ => [] end
  | BatchWrite r =>
      (∀ c, c ∈ Classifier.partition_key_candidates op ↔
        ∃ t writes w, (t, writes) ∈ default [] (request_items r) ∧ w ∈ writes ∧
          table_name c = t ∧
          (delete_request w = Some (attributes c) ∨
           delete_request w = None ∧ put_request w = Some (attributes c))) ∧
      (∀ r', default [] (request_items r) ≡ₚ default [] (request_items r') →
        Classifier.partition_key_candidates op
          ≡ₚ Classifier.partition_key_candidates (BatchWrite r'))
  end.
Proof.
  destruct op as [r|r|r|r]; [done..|]. split.
  - intros c. simpl. rewrite ClassifierFacts.elem_of_batch_candidates. split.
    + intros (t & ws & w & a & Hin & Hw & Ha & ->). exists t, ws, w. simpl.
      unfold Classifier.batch_write_request_attributes in Ha.
      destruct (delete_request w); naive_solver.
    + intros (t & ws & w & Hin & Hw & Ht & Ha).
      exists t, ws, w, (attributes c). unfold Classifier.batch_write_request_attributes.
      destruct c as [t' a]; simpl in *; subst.
      destruct Ha as [->|[-> ->]]; done.
  - intros r' Hp. by apply ClassifierFacts.batch_candidates_Permutation.
Qed.

(** [UPDATED_NEW] can be computed without a read, so it alone does not make an
    update qualify, unlike any other return value on a put or a delete. *)
Example updated_new_does_not_qualify :
  Classifier.should_apply
    (Update (mkUpdateItem (Some "t") None None None (Some UpdatedNew) None None)) Rmw = false.
Proof. reflexivity. Qed.
