(* ===== verification/QueryPlan.v ===== *)
(** * Query plans ([src/src/query_plan.rs])

    The order in which the attempts of one request try the nodes.  A round-robin
    plan remembers the nodes it has used and draws from its live view; an
    ordered plan walks a list captured at its creation, which is either the
    seeded shuffle of the sorted membership or the voted coordinators followed
    by the rest.  The theorems: a seeded plan is a permutation of the membership
    that depends on nothing but the seed and the set of nodes; its head is the
    node that batch voting prefers; attempts cycle through an ordered plan; a
    round-robin plan covers every live node once; and a restarting plan gives
    up only when there is no node at all. *)

From S2P Require Import Prelude UrlApi RoutingScope LiveNodes DeterministicRng.

(** [QueryPlanState]. *)
Inductive QueryPlanState `{UrlApi} : Type :=
| RoundRobin (used_nodes : gset Url)
| Ordered (nodes : list Url) (next : nat).

(** [SortedAffinityNodes]. *)
Record SortedAffinityNodes `{UrlApi} := mkSorted { nodes : list Url }.

Module Plan.
Section plan.
Context `{UrlApi}.

(** [sort_node_urls]. *)
Definition sort_node_urls (l : list Url) : list Url := sort_by_key as_str l.

(** [SortedAffinityNodes::from_live_nodes]. *)
Definition from_live_nodes (v : NodeView) : SortedAffinityNodes :=
  mkSorted _ (sort_node_urls (live_nodes v)).

(** [QueryPlan::sorted_affinity_nodes]. *)
Definition sorted_affinity_nodes (v : NodeView) : SortedAffinityNodes := from_live_nodes v.

(** [QueryPlan::new_basic]. *)
Definition new_basic : QueryPlanState := RoundRobin ∅.

(** The [while !remaining.is_empty()] loop; the fuel is the number of nodes
    that remain, [None] is a panic of [index] or [swap_remove]. *)
Fixpoint seeded_loop (fuel : nat) (rng : DeterministicRng) (remaining : list Url)
    : option (list Url) :=
  match remaining, fuel with
  | [], _ => Some []
  | _ :: _, O => None
  | _ :: _, S fuel' =>
      '(index, rng) ← Rng.index rng (Z.of_nat (length remaining));
      '(node, remaining) ← swap_remove (Z.to_nat index) remaining;
      rest ← seeded_loop fuel' rng remaining;
      Some (node :: rest)
  end.

(** [QueryPlan::new_with_hash]. *)
Definition new_with_hash (v : NodeView) (seed : Z) : option QueryPlanState :=
  let remaining := nodes (sorted_affinity_nodes v) in
  let rng := Rng.new (u64_as_i64 seed) in
  order ← seeded_loop (length remaining) rng remaining;
  Some (Ordered order 0).

(** [Vec::remove] at the position of the first equal node, if there is one. *)
Definition take_node (preferred_node : Url) (l : list Url) : option (Url * list Url) :=
  index ← position (λ node, bool_decide (node = preferred_node)) l;
  node ← l !! index;
  Some (node, delete index l).

(** The [for preferred_node in preferred_nodes] loop. *)
Fixpoint preferred_loop (preferred_nodes l ordered : list Url) : list Url * list Url :=
  match preferred_nodes with
  | [] => (ordered, l)
  | p :: ps =>
      match take_node p l with
      | Some (node, l') => preferred_loop ps l' (ordered ++ [node])
      | None => preferred_loop ps l ordered
      end
  end.

(** [QueryPlan::new_with_preferred_nodes]. *)
Definition new_with_preferred_nodes (preferred_nodes : list Url)
    (snapshot : SortedAffinityNodes) : QueryPlanState :=
  let '(ordered, rest) := preferred_loop preferred_nodes (nodes snapshot) [] in
  Ordered (ordered ++ rest) 0.

(** [SortedAffinityNodes::preferred_node_for_hash]; the outer [None] is the
    panic of [index] or of indexing. *)
Definition preferred_node_for_hash (s : SortedAffinityNodes) (seed : Z) : option (option Url) :=
  match nodes s with
  | [] => Some None
  | _ :: _ =>
      '(idx, _) ← Rng.index (Rng.new (u64_as_i64 seed)) (Z.of_nat (length (nodes s)));
      node ← nodes s !! Z.to_nat idx;
      Some (Some node)
  end.

(** [next_node]: the node, the plan and the live view after it. *)
Definition next_node (p : QueryPlanState) (v : NodeView)
    : option Url * QueryPlanState * NodeView :=
  match p with
  | RoundRobin used_nodes =>
      match View.get_next_node_round_robin used_nodes v with
      | (Some node, v) => (Some node, RoundRobin ({[node]} ∪ used_nodes), v)
      | (None, v) => (None, p, v)
      end
  | Ordered l next =>
      match l !! next with
      | Some node => (Some node, Ordered l (S next), v)
      | None => (None, p, v)
      end
  end.

(** [restart]. *)
Definition restart (p : QueryPlanState) : QueryPlanState :=
  match p with
  | RoundRobin _ => RoundRobin ∅
  | Ordered l _ => Ordered l 0
  end.

(** [next_node_or_restart]. *)
Definition next_node_or_restart (p : QueryPlanState) (v : NodeView)
    : option Url * QueryPlanState * NodeView :=
  match next_node p v with
  | (Some node, p, v) => (Some node, p, v)
  | (None, p, v) => next_node (restart p) v
  end.

(** The attempts of a request: what [k] calls of [step] return. *)
Fixpoint attempts
    (step : QueryPlanState → NodeView → option Url * QueryPlanState * NodeView)
    (k : nat) (p : QueryPlanState) (v : NodeView) : list (option Url) * NodeView :=
  match k with
  | O => ([], v)
  | S k' =>
      let '(o, p, v) := step p v in
      let '(os, v) := attempts step k' p v in
      (o :: os, v)
  end.

End plan.
End Plan.

Module PlanFacts.
Import Plan.
Section facts.
Context `{UrlApi}.
Implicit Types (v : NodeView) (l : list Url).

Lemma index_total r n :
  Rng.valid r → 0 < n → (Z.of_nat n < 2 ^ 64)%Z →
  ∃ i r', Rng.index r (Z.of_nat n) = Some (i, r') ∧ Rng.valid r' ∧ Z.to_nat i < n.
Proof.
  intros Hr Hn Hlt.
  destruct (Rng.index_eq r (Z.of_nat n)) as [Hi Hb]; [lia|].
  do 2 eexists. split; [exact Hi|]. split; [by apply Rng.next_u64_valid|]. lia.
Qed.

Lemma seeded_loop_total fuel r l :
  length l ≤ fuel → Rng.valid r → (Z.of_nat (length l) < 2 ^ 64)%Z →
  ∃ order, seeded_loop fuel r l = Some order ∧ order ≡ₚ l.
Proof.
  revert r l. induction fuel as [|fuel IH]; intros r l Hf Hr Hl.
  { destruct l; [by exists []|simpl in Hf; lia]. }
  destruct l as [|x l]; [by exists []|]. cbn [seeded_loop].
  destruct (index_total r (length (x :: l)) Hr) as (i & r' & Hi & Hr' & Hlt); [simpl; lia|done|].
  rewrite Hi. cbn [mbind option_bind].
  destruct (swap_remove_is_Some (Z.to_nat i) (x :: l) Hlt) as [[node rest] Hs].
  rewrite Hs. cbn [mbind option_bind].
  apply swap_remove_Permutation in Hs. pose proof (Permutation_length Hs) as Hlen.
  simpl in Hlen, Hf, Hl.
  destruct (IH r' rest) as (order & -> & Hp); [lia|done|lia|]. cbn [mbind option_bind].
  exists (node :: order). split; [done|]. by rewrite Hp.
Qed.

(** What a seeded plan holds, when it is made. *)
Lemma seeded_loop_Permutation fuel r l l' : seeded_loop fuel r l = Some l' → l' ≡ₚ l.
Proof.
  revert r l l'. induction fuel as [|fuel IH]; intros r l l'; destruct l as [|x l]; cbn [seeded_loop];
    [by intros [= <-]|discriminate|by intros [= <-]|].
  destruct (Rng.index _ _) as [[i r1]|]; [|done]. cbn [mbind option_bind].
  destruct (swap_remove _ _) as [[node rest]|] eqn:Hs; [|done]. cbn [mbind option_bind].
  destruct (seeded_loop fuel r1 rest) as [order|] eqn:Ho; [|done]. intros [= <-].
  rewrite (IH _ _ _ Ho). by apply swap_remove_Permutation in Hs.
Qed.

Lemma sort_node_urls_Permutation l : sort_node_urls l ≡ₚ l.
Proof. apply sort_by_key_Permutation. Qed.

Lemma new_with_hash_order v seed p :
  new_with_hash v seed = Some p → ∃ order, p = Ordered order 0 ∧ order ≡ₚ live_nodes v.
Proof.
  unfold new_with_hash. destruct (seeded_loop _ _ _) as [order|] eqn:Ho; [|done].
  intros [= <-]. exists order. split; [done|]. rewrite (seeded_loop_Permutation _ _ _ _ Ho).
  apply sort_node_urls_Permutation.
Qed.

Lemma new_with_hash_total v seed :
  (Z.of_nat (length (live_nodes v)) < 2 ^ 64)%Z →
  ∃ order, new_with_hash v seed = Some (Ordered order 0) ∧ order ≡ₚ live_nodes v.
Proof.
  intros Hlen. unfold new_with_hash.
  destruct (seeded_loop_total (length (nodes (sorted_affinity_nodes v)))
    (Rng.new (u64_as_i64 seed)) (nodes (sorted_affinity_nodes v))) as (order & -> & Hp).
  - done.
  - apply Rng.new_valid.
  - simpl. by rewrite sort_node_urls_Permutation.
  - exists order. split; [done|]. rewrite Hp. apply sort_node_urls_Permutation.
Qed.

(** ** Ordered plans *)

Lemma position_Some {A} (f : A → bool) (l : list A) i :
  position f l = Some i → ∃ x, l !! i = Some x ∧ f x = true.
Proof.
  revert i. induction l as [|x l IH]; intros i; simpl; [done|].
  destruct (f x) eqn:Hf; [intros [= <-]; by exists x|].
  destruct (position f l) as [j|]; [|done]. intros [= <-]. by apply IH.
Qed.

Lemma position_is_Some {A} (f : A → bool) (l : list A) x :
  x ∈ l → f x = true → is_Some (position f l).
Proof.
  induction 1 as [x l|x y l Hx IH]; intros Hf; simpl; [rewrite Hf; by eexists|].
  destruct (f y); [by eexists|]. destruct (IH Hf) as [i ->]. by eexists.
Qed.

Lemma take_node_Some p l q k :
  take_node p l = Some (q, k) → q = p ∧ p :: k ≡ₚ l ∧ k `sublist_of` l.
Proof.
  unfold take_node. destruct (position _ l) as [i|] eqn:Hpos; simpl; [|done].
  apply position_Some in Hpos as (x & Hx & Hf). apply bool_decide_eq_true in Hf as ->.
  rewrite Hx. simpl. intros [= <- <-]. split; [done|].
  split; [by rewrite <-(delete_Permutation l i p)|apply sublist_delete].
Qed.

Lemma take_node_is_Some p l : p ∈ l → is_Some (take_node p l).
Proof.
  intros Hp. unfold take_node.
  destruct (position_is_Some (λ node, bool_decide (node = p)) l p Hp) as [i Hi];
    [by apply bool_decide_eq_true|].
  rewrite Hi. simpl. apply position_Some in Hi as (x & -> & _). by eexists.
Qed.

Lemma preferred_loop_Permutation ps l ord :
  fst (preferred_loop ps l ord) ++ snd (preferred_loop ps l ord) ≡ₚ ord ++ l.
Proof.
  revert l ord. induction ps as [|p ps IH]; intros l ord; simpl; [done|].
  destruct (take_node p l) as [[q k]|] eqn:Hk; [|by apply IH].
  apply take_node_Some in Hk as (-> & Hk & _). rewrite IH, <-Hk, <-app_assoc. done.
Qed.

Lemma preferred_loop_all ps l ord :
  NoDup ps → Forall (λ p, p ∈ l) ps →
  ∃ rest, preferred_loop ps l ord = (ord ++ ps, rest) ∧ rest `sublist_of` l.
Proof.
  intros Hnd. revert l ord. induction Hnd as [|p ps Hp Hnd IH]; intros l ord Hin; simpl.
  { exists l. by rewrite app_nil_r. }
  apply Forall_cons in Hin as [Hpl Hin].
  destruct (take_node_is_Some p l Hpl) as [[q k] Hk]. rewrite Hk.
  apply take_node_Some in Hk as (-> & Hk & Hkl).
  destruct (IH k (ord ++ [p])) as (rest & -> & Hsub).
  - rewrite Forall_forall in Hin |- *. intros q Hq. specialize (Hin q Hq).
    rewrite <-Hk in Hin. apply elem_of_cons in Hin as [->|Hin]; done.
  - exists rest. rewrite <-app_assoc. split; [done|].
    by etrans.
Qed.

(** One attempt with an ordered plan. *)
Lemma ordered_step l i v :
  l ≠ [] → i ≤ length l →
  next_node_or_restart (Ordered l i) v =
    (l !! (i `mod` length l), Ordered l (S (if decide (i = length l) then 0 else i)), v).
Proof.
  intros Hl Hi. assert (Hlen : 0 < length l) by (destruct l; [done|simpl; lia]).
  unfold next_node_or_restart. cbn [next_node restart]. case_decide as Hd.
  - subst i. rewrite (lookup_ge_None_2 l (length l)), Nat.Div0.mod_same by done.
    cbn [restart next_node]. by destruct (lookup_lt_is_Some_2 l 0 Hlen) as [x ->].
  - rewrite Nat.mod_small by lia. by destruct (lookup_lt_is_Some_2 l i ltac:(lia)) as [x ->].
Qed.

(** One attempt of a restarting plan, when there are nodes to route to. *)
Lemma restart_step (known : Url → Prop) p v :
  live_nodes v ≠ [] → Forall known (live_nodes v) →
  match p with RoundRobin _ => True | Ordered l i => l ≠ [] ∧ Forall known l ∧ i ≤ length l end →
  ∃ n p' v', next_node_or_restart p v = (Some n, p', v') ∧ known n ∧
    live_nodes v' = live_nodes v ∧
    match p' with RoundRobin _ => True | Ordered l i => l ≠ [] ∧ Forall known l ∧ i ≤ length l end.
Proof.
  intros Hne Hv Hp. rewrite Forall_forall in Hv. destruct p as [used|l i].
  - pose proof (ViewFacts.draw_live_nodes used v) as [Hlive _].
    pose proof (ViewFacts.get_next_node_Some used v) as Hin.
    unfold next_node_or_restart. cbn [next_node].
    destruct (View.get_next_node_round_robin used v) as [[n|] v1]; cbn [fst snd] in *.
    { destruct (Hin n eq_refl) as [Hn _]. do 3 eexists. split; [done|]. split_and!; auto. }
    cbn [restart next_node].
    pose proof (ViewFacts.draw_live_nodes ∅ v1) as [Hlive' _].
    pose proof (ViewFacts.get_next_node_Some ∅ v1) as Hin'.
    pose proof (ViewFacts.get_next_node_None ∅ v1) as Hnone.
    destruct (View.get_next_node_round_robin ∅ v1) as [[n|] v2]; cbn [fst snd] in *.
    + destruct (Hin' n eq_refl) as [Hn _]. rewrite Hlive in Hn, Hlive'.
      do 3 eexists. split; [done|]. split_and!; auto.
    + exfalso. rewrite Hlive in Hnone. destruct (live_nodes v) as [|x xs]; [done|].
      apply (not_elem_of_empty (C := gset Url) x), (proj1 Hnone eq_refl). by left.
  - destruct Hp as (Hl & Hk & Hi). rewrite ordered_step by done.
    assert (Hlen : 0 < length l) by (destruct l; [done|simpl; lia]).
    destruct (lookup_lt_is_Some_2 l (i `mod` length l)) as [n Hn];
      [apply Nat.mod_upper_bound; lia|]. rewrite Hn.
    do 3 eexists. split; [done|]. rewrite Forall_forall in Hk.
    split; [by apply Hk, (list_elem_of_lookup_2 _ _ _ Hn)|]. split; [done|].
    split_and!; [done|by apply Forall_forall|]. case_decide; lia.
Qed.

(** Attempts cycle through the captured order. *)
Lemma ordered_attempts k i l v :
  l ≠ [] → i ≤ length l →
  attempts next_node_or_restart k (Ordered l i) v =
    ((λ j, l !! ((i + j) `mod` length l)) <$> seq 0 k, v).
Proof.
  intros Hl. revert i. induction k as [|k IH]; intros i Hi; [done|].
  cbn [attempts]. rewrite ordered_step by done. cbn [seq]. rewrite <-(fmap_S_seq 0 k).
  rewrite fmap_cons, Nat.add_0_r, <-list_fmap_compose.
  assert (Hlen : 0 < length l) by (destruct l; [done|simpl; lia]).
  rewrite IH by (case_decide; lia). f_equal. f_equal. apply list_fmap_ext.
  intros _ j _. cbn [compose]. f_equal. case_decide as Hd.
  - subst i. replace (length l + S j) with (1 + j + 1 * length l) by lia.
    by rewrite Nat.Div0.mod_add.
  - f_equal. lia.
Qed.

(** ** Round-robin plans *)

(** The live nodes the plan has not used yet, each once. *)
Definition unused (used : gset Url) v : gset Url := list_to_set (live_nodes v) ∖ used.

Lemma rr_covers k used v :
  size (unused used v) = k →
  ∃ l v', attempts next_node k (RoundRobin used) v = (Some <$> l, v') ∧
    NoDup l ∧ (∀ n, n ∈ l ↔ n ∈ live_nodes v ∧ n ∉ used) ∧
    live_nodes v' = live_nodes v.
Proof.
  revert used v. induction k as [|k IH]; intros used v Hk.
  { exists [], v. split; [done|]. split; [constructor|]. split; [|done].
    apply size_empty_inv in Hk. unfold unused in Hk. set_solver. }
  cbn [attempts next_node].
  pose proof (ViewFacts.draw_live_nodes used v) as [Hv _].
  pose proof (ViewFacts.get_next_node_None used v) as HN.
  pose proof (ViewFacts.get_next_node_Some used v) as HS.
  destruct (View.get_next_node_round_robin used v) as [[n|] v1]; simpl in *.
  - destruct (HS n eq_refl) as [Hn Hu].
    destruct (IH ({[n]} ∪ used) v1) as (l & v' & -> & Hnd & Hl & Hv').
    { assert (unused used v = {[n]} ∪ unused ({[n]} ∪ used) v1) as Heq.
      { unfold unused. rewrite Hv. apply set_eq. intros x.
        destruct (decide (x = n)); set_solver. }
      rewrite Heq, size_union, size_singleton in Hk by (unfold unused; set_solver). lia. }
    exists (n :: l), v'. split; [done|]. rewrite Hv in Hl. split; [|split].
    + constructor; [|done]. rewrite Hl. set_solver.
    + intros x. rewrite elem_of_cons, Hl. destruct (decide (x = n)); set_solver.
    + congruence.
  - exfalso. assert (unused used v = ∅) as Heq.
    { unfold unused. apply set_eq. intros x. specialize (proj1 HN eq_refl x). set_solver. }
    rewrite Heq, size_empty in Hk. lia.
Qed.

Lemma rr_None used v :
  fst (fst (next_node (RoundRobin used) v)) = None ↔ ∀ n, n ∈ live_nodes v → n ∈ used.
Proof.
  rewrite <-ViewFacts.get_next_node_None. simpl.
  by destruct (View.get_next_node_round_robin used v) as [[n|] v'].
Qed.

End facts.
End PlanFacts.

(** ** Properties *)

Section properties.
Context `{UrlApi}.
Import Plan PlanFacts.
Implicit Types (v : NodeView) (l : list Url).

(** C5: a seeded plan exists for every [u64] seed and membership (nothing
    panics), tries every live node exactly as often as the membership lists it,
    and depends on the seed and the membership's contents only: clients that
    know the same nodes in any order agree on the whole order of attempts. *)
Theorem seeded_plan_canonical `{!UrlEqLaws} v1 v2 (seed : Z) :
  (Z.of_nat (length (live_nodes v1)) < 2 ^ 64)%Z →
  live_nodes v1 ≡ₚ live_nodes v2 →
  ∃ order, new_with_hash v1 seed = Some (Ordered order 0) ∧
    order ≡ₚ live_nodes v1 ∧
    new_with_hash v2 seed = new_with_hash v1 seed.
Proof.
  intros Hlen Hp. destruct (new_with_hash_total v1 seed Hlen) as (order & Ho & Hop).
  exists order. split; [done|]. split; [done|].
  unfold new_with_hash, sorted_affinity_nodes, from_live_nodes, sort_node_urls.
  by rewrite (sort_by_key_canonical as_str _ _ Hp).
Qed.

(** Batch voting and seeded plans agree: the node a hash votes for is the
    first node of the seeded plan of that hash, and there is none exactly when
    the membership is empty. *)
Theorem preferred_node_is_plan_head v (seed : Z) :
  (Z.of_nat (length (live_nodes v)) < 2 ^ 64)%Z →
  ∃ order, new_with_hash v seed = Some (Ordered order 0) ∧
    preferred_node_for_hash (sorted_affinity_nodes v) seed = Some (head order) ∧
    (head order = None ↔ live_nodes v = []).
Proof.
  intros Hlen. destruct (new_with_hash_total v seed Hlen) as (order & Ho & Hp).
  exists order. split; [done|]. split; cycle 1.
  { split; intros Hn.
    - destruct order; [by apply Permutation_nil_l in Hp|done].
    - rewrite Hn in Hp. by apply Permutation_nil_r in Hp as ->. }
  unfold new_with_hash, preferred_node_for_hash in *.
  generalize dependent (Rng.new (u64_as_i64 seed)). intros rng Ho.
  destruct (seeded_loop _ rng _) as [order'|] eqn:Hl; [|done]. injection Ho as ->.
  destruct (nodes (sorted_affinity_nodes v)) as [|x l].
  { cbn in Hl. by injection Hl as <-. }
  cbn [seeded_loop length] in Hl.
  destruct (Rng.index rng _) as [[i r']|]; cbn [mbind option_bind length] in Hl |- *; [|done].
  unfold swap_remove in Hl. destruct ((x :: l) !! Z.to_nat i) as [n|]; [|done].
  destruct (last _); cbn [mbind option_bind] in Hl |- *; [|done].
  destruct (seeded_loop _ _ _); cbn [mbind option_bind] in Hl; [|done]. by injection Hl as <-.
Qed.

(** A plan with preferred nodes tries a permutation of its snapshot; when
    the preferred nodes are distinct members of the snapshot (as voted
    coordinators are) they come first, in order, and the others follow in the
    snapshot's order. *)
Theorem preferred_plan_order (preferred : list Url) (s : SortedAffinityNodes) :
  ∃ order, new_with_preferred_nodes preferred s = Ordered order 0 ∧
    order ≡ₚ nodes s ∧
    (NoDup preferred → Forall (λ p, p ∈ nodes s) preferred →
     ∃ rest, order = preferred ++ rest ∧ rest `sublist_of` nodes s).
Proof.
  unfold new_with_preferred_nodes.
  pose proof (preferred_loop_Permutation preferred (nodes s) []) as Hp.
  pose proof (λ Hnd Hin, preferred_loop_all preferred (nodes s) [] Hnd Hin) as Hall.
  destruct (preferred_loop preferred (nodes s) []) as [ordered rest]. simpl in *.
  exists (ordered ++ rest). split; [done|]. split; [done|]. intros Hnd Hin.
  destruct (Hall Hnd Hin) as (rest' & [= -> ->] & Hsub). by exists rest'.
Qed.

(** The attempts of a request with an ordered plan cycle through the order
    captured when the plan was made, whatever happens to the live view: the
    [j]-th attempt goes to the node at position [j] modulo the number of nodes,
    so the first pass tries every node before any is repeated. *)
Theorem ordered_plan_attempts l v (k : nat) :
  l ≠ [] →
  attempts next_node_or_restart k (Ordered l 0) v =
    ((λ j, l !! (j `mod` length l)) <$> seq 0 k, v).
Proof. intros Hl. apply (ordered_attempts k 0 l v Hl). lia. Qed.

(** A round-robin plan over an unchanged membership tries every live node
    exactly once, whatever the counter, and is then exhausted. *)
Theorem round_robin_plan_covers v :
  ∃ l v', attempts next_node (size (list_to_set (C := gset Url) (live_nodes v))) new_basic v
      = (Some <$> l, v') ∧
    NoDup l ∧ (∀ n, n ∈ l ↔ n ∈ live_nodes v) ∧
    fst (fst (next_node (RoundRobin (list_to_set l)) v')) = None.
Proof.
  destruct (rr_covers (size (list_to_set (C := gset Url) (live_nodes v))) ∅ v)
    as (l & v' & Ha & Hnd & Hl & Hv).
  { unfold unused. f_equal. set_solver. }
  exists l, v'. split; [exact Ha|]. split; [done|].
  assert (Hl' : ∀ n, n ∈ l ↔ n ∈ live_nodes v) by (intros n; rewrite Hl; set_solver).
  split; [done|]. apply rr_None. intros n Hn. rewrite Hv in Hn. set_solver.
Qed.

(** A restarting plan returns no node exactly when there is none to route
    to: no live node for a round-robin plan, an empty captured order for an
    ordered one. *)
Theorem restarting_plan_None (p : QueryPlanState) v :
  fst (fst (next_node_or_restart p v)) = None ↔
  match p with
  | RoundRobin _ => live_nodes v = []
  | Ordered l _ => l = []
  end.
Proof.
  unfold next_node_or_restart. destruct p as [used|l i].
  - pose proof (rr_None used v) as HN.
    assert (Hv : live_nodes (snd (next_node (RoundRobin used) v)) = live_nodes v).
    { simpl. pose proof (ViewFacts.draw_live_nodes used v) as [Hv _].
      by destruct (View.get_next_node_round_robin used v) as [[n|] v1]. }
    assert (Hp : fst (fst (next_node (RoundRobin used) v)) = None →
      snd (fst (next_node (RoundRobin used) v)) = RoundRobin used).
    { simpl. by destruct (View.get_next_node_round_robin used v) as [[n|] v1]. }
    destruct (next_node (RoundRobin used) v) as [[[n|] p1] v1]; cbn [fst snd] in *.
    + split; [done|]. intros Hnil. rewrite Hnil in HN.
      assert (Some n = None) as [=]. apply HN. intros m Hm. by apply elem_of_nil in Hm.
    + rewrite (Hp eq_refl). cbn [restart]. rewrite rr_None, Hv.
      destruct (live_nodes v) as [|m ms]; [set_solver|]. split; [|done].
      intros Hall. specialize (Hall m ltac:(by left)). set_solver.
  - simpl. destruct (l !! i) eqn:Hi; simpl.
    + destruct l; [done|]. done.
    + by destruct l.
Qed.

End properties.

Section witnesses.
Import Plan StrUrl.

Definition node (n : string) : @Url api :=
  String.app "http://node" (String.app n ".example.com:8000/").
Definition live (l : list string) : NodeView := @View.new api Scope.from_cluster (node <$> l).
Definition ten : list string := ["1"; "2"; "3"; "4"; "5"; "6"; "7"; "8"; "9"; "10"].
Definition first_six (seed : Z) (l : list string) : option (list (@Url api)) :=
  p ← new_with_hash (live l) seed;
  match p with Ordered o _ => Some (take 6 o) | RoundRobin _ => None end.

(** The stable routing vectors of the source. *)
Example stable_vectors :
  ((λ s, first_six s ten) <$> [42; 123; 999; 0; 2 ^ 64 - 1; 12345; 2 ^ 63 - 1]%Z) =
  (λ l, Some (node <$> l)) <$>
    [["3"; "7"; "6"; "8"; "4"; "5"]; ["3"; "10"; "9"; "4"; "1"; "2"];
     ["2"; "7"; "1"; "4"; "3"; "9"]; ["1"; "2"; "5"; "3"; "6"; "7"];
     ["9"; "5"; "10"; "8"; "2"; "4"]; ["5"; "6"; "1"; "9"; "7"; "10"];
     ["9"; "10"; "4"; "6"; "7"; "3"]].
Proof. vm_refl. Qed.

Lemma seeded_plan_canonical_witness :
  ∃ order, new_with_hash (live ["1"; "2"; "3"]) 42 = Some (Ordered order 0) ∧
    order ≡ₚ node <$> ["1"; "2"; "3"] ∧
    new_with_hash (live ["3"; "1"; "2"]) 42 = new_with_hash (live ["1"; "2"; "3"]) 42.
Proof.
  apply (@seeded_plan_canonical api eq_laws (live ["1"; "2"; "3"]) (live ["3"; "1"; "2"]) 42).
  - simpl. lia.
  - symmetry. apply (Permutation_cons_append [node "1"; node "2"] (node "3")).
Defined.

Lemma preferred_node_is_plan_head_witness :
  ∃ order, new_with_hash (live ten) 42 = Some (Ordered order 0) ∧
    preferred_node_for_hash (sorted_affinity_nodes (live ten)) 42 = Some (head order) ∧
    (head order = None ↔ live_nodes (live ten) = []).
Proof. apply (@preferred_node_is_plan_head api (live ten) 42). simpl. lia. Defined.

Lemma ordered_plan_attempts_witness :
  fst (attempts next_node_or_restart 3 (Ordered [node "2"; node "1"] 0) (live ten)) =
  [Some (node "2"); Some (node "1"); Some (node "2")].
Proof.
  rewrite (@ordered_plan_attempts api [node "2"; node "1"] (live ten) 3); [reflexivity|].
  discriminate.
Defined.

End witnesses.
