(* ===== verification/DiscoveryTasks.v ===== *)
(** * Owned background tasks ([src/src/discovery.rs])

    [DiscoveryTasks] admits tasks until it is stopped.  The tracker and the
    cancellation token are [tokio-util]'s and a class here; the theorem is that
    admission and closure, serialized by the registration lock, leave no task
    behind: whatever the order of racing spawns and stops, every task admitted
    is tracked when the stop takes effect, and every later spawn is rejected. *)

From S2P Require Import Prelude.

(** [TaskTracker] and [CancellationToken]. *)
Class TaskApi := {
  TaskTracker : Type;
  CancellationToken : Type;
  AbortHandle : Type;
  (** Handles are told apart by their task id. *)
  AbortHandle_eq_dec :: EqDecision AbortHandle;
  tracker_default : TaskTracker;
  token_default : CancellationToken;
  is_closed : TaskTracker → bool;
  close : TaskTracker → TaskTracker;
  (** [spawn_on] and the abort handle of the new task. *)
  spawn_on : TaskTracker → AbortHandle * TaskTracker;
  (** The tracked tasks whose futures are not destroyed yet. *)
  tracked : TaskTracker → list AbortHandle;
  (** A future is destroyed: it returned, or it was aborted. *)
  destroyed : AbortHandle → TaskTracker → TaskTracker;
  is_cancelled : CancellationToken → bool;
  cancel : CancellationToken → CancellationToken;
}.

(** What the documentation promises of them. *)
Class TaskLaws `{TaskApi} : Prop := {
  default_open : is_closed tracker_default = false ∧ tracked tracker_default = [];
  close_closed : ∀ t, is_closed (close t) = true;
  close_tracked : ∀ t, tracked (close t) = tracked t;
  spawn_closed : ∀ t, is_closed (snd (spawn_on t)) = is_closed t;
  spawn_tracked : ∀ t, tracked (snd (spawn_on t)) ≡ₚ fst (spawn_on t) :: tracked t;
  (** Task ids are unique relative to the tasks that are still running. *)
  spawn_fresh : ∀ t, fst (spawn_on t) ∉ tracked t;
  destroyed_closed : ∀ h t, is_closed (destroyed h t) = is_closed t;
  destroyed_tracked : ∀ h h' t, h' ∈ tracked (destroyed h t) ↔ h' ∈ tracked t ∧ h' ≠ h;
  cancel_cancelled : ∀ k, is_cancelled (cancel k) = true;
}.

(** [DiscoveryTasks]; the registration mutex makes each operation below one
    atomic step. *)
Record DiscoveryTasks `{TaskApi} := mkTasks {
  stopped : CancellationToken;
  tasks : TaskTracker;
}.

(** What happens to it: callers spawn and stop, in the order in which they take
    the lock, and the runtime destroys futures. *)
Inductive TaskEvent `{TaskApi} : Type := Spawn | Stop | Destroyed (h : AbortHandle).

Module Tasks.
Section tasks.
Context `{TaskApi}.

Definition default_tasks : DiscoveryTasks := mkTasks _ token_default tracker_default.

(** [is_stopped]. *)
Definition is_stopped (d : DiscoveryTasks) : bool := is_closed (tasks d).

(** [spawn]: rejected once closed. *)
Definition spawn (d : DiscoveryTasks) : option AbortHandle * DiscoveryTasks :=
  if is_stopped d then (None, d)
  else
    let '(task, t) := spawn_on (tasks d) in
    (Some task, mkTasks _ (stopped d) t).

(** The spawned wrapper: [biased] polls the token first, so a task that is
    polled after the stop never polls its future again. *)
Definition poll_future (d : DiscoveryTasks) : bool := negb (is_cancelled (stopped d)).

(** [stop], also what dropping the owner does. *)
Definition stop (d : DiscoveryTasks) : DiscoveryTasks :=
  mkTasks _ (cancel (stopped d)) (close (tasks d)).

(** [shutdown] returns once its [wait] does: closed and nothing tracked. *)
Definition shutdown_returns (d : DiscoveryTasks) : bool :=
  is_closed (tasks d) && bool_decide (tracked (tasks d) = []).

(** A history and the tasks it admitted. *)
Fixpoint run_tasks (es : list TaskEvent) (d : DiscoveryTasks) : list AbortHandle * DiscoveryTasks :=
  match es with
  | [] => ([], d)
  | Spawn :: es =>
      let '(h, d) := spawn d in
      let '(hs, d) := run_tasks es d in
      (option_list h ++ hs, d)
  | Stop :: es => run_tasks es (stop d)
  | Destroyed h :: es => run_tasks es (mkTasks _ (stopped d) (destroyed h (tasks d)))
  end.

End tasks.
End Tasks.

Section properties.
Context `{TaskLaws}.
Import Tasks.
Implicit Types (es : list TaskEvent) (d : DiscoveryTasks) (h : AbortHandle).

Lemma run_tasks_stopped es d : is_stopped d = true →
  fst (run_tasks es d) = [] ∧ is_stopped (snd (run_tasks es d)) = true.
Proof.
  revert d. induction es as [|[| |h] es IH]; intros d Hd; simpl; [done| | |].
  - unfold spawn. rewrite Hd. destruct (IH d Hd) as (H1 & H2).
    by destruct (run_tasks es d) as [hs d'].
  - apply IH, close_closed.
  - apply IH. unfold is_stopped. simpl. by rewrite destroyed_closed.
Qed.

(** A task is tracked until its future is destroyed. *)
Lemma run_tasks_kept es d h :
  h ∈ tracked (tasks d) →
  h ∈ tracked (tasks (snd (run_tasks es d))) ∨ Destroyed h ∈ es.
Proof.
  revert d. induction es as [|[| |h'] es IH]; intros d Hd; simpl; [by left| | |].
  - unfold spawn. destruct (is_stopped d).
    + destruct (IH d Hd) as [Hin|Hin]; [left|right; by right].
      by destruct (run_tasks es d) as [hs d'].
    + pose proof (spawn_tracked (tasks d)) as Ht. destruct (spawn_on (tasks d)) as [h1 t].
      destruct (IH (mkTasks _ (stopped d) t)) as [Hin|Hin].
      * simpl in *. rewrite Ht. by right.
      * left. by destruct (run_tasks es _) as [hs d'].
      * right. by right.
  - destruct (IH (stop d)) as [Hin|Hin]; [simpl; by rewrite close_tracked|by left|right; by right].
  - destruct (decide (h = h')) as [->|Hne]; [right; by left|].
    destruct (IH (mkTasks _ (stopped d) (destroyed h' (tasks d)))) as [Hin|Hin];
      [|by left|right; by right].
    simpl. by apply destroyed_tracked.
Qed.

Lemma run_tasks_admitted es d h :
  h ∈ fst (run_tasks es d) →
  h ∈ tracked (tasks (snd (run_tasks es d))) ∨ Destroyed h ∈ es.
Proof.
  revert d. induction es as [|[| |h'] es IH]; intros d; simpl; [set_solver| | |].
  - unfold spawn. destruct (is_stopped d).
    + specialize (IH d). destruct (run_tasks es d) as [hs d']. simpl in *.
      intros [Hin|Hin]%IH; [by left|right; by right].
    + pose proof (spawn_tracked (tasks d)) as Ht. destruct (spawn_on (tasks d)) as [h1 t].
      specialize (IH (mkTasks _ (stopped d) t)).
      pose proof (run_tasks_kept es (mkTasks _ (stopped d) t) h1) as Hk.
      destruct (run_tasks es _) as [hs d']. simpl in *.
      intros [->|[Hin|Hin]%IH]%elem_of_cons; [|by left|right; by right].
      destruct Hk as [Hin|Hin]; [rewrite Ht; by left|by left|right; by right].
  - intros [Hin|Hin]%IH; [by left|right; by right].
  - intros [Hin|Hin]%IH; [by left|right; by right].
Qed.

(** C35: a stop leaves no task behind: whatever the order of racing spawns and
    of futures that end, after a stop every spawn is rejected and no admitted
    future is polled again, and when [shutdown] returns every task that was
    ever admitted has had its future destroyed. *)
Theorem stop_is_final (before after : list TaskEvent) :
  let '(admitted, d) := run_tasks before default_tasks in
  let '(late, d') := run_tasks after (stop d) in
  late = [] ∧ fst (spawn d') = None ∧ poll_future (stop d) = false ∧
  (shutdown_returns d' = true → ∀ h, h ∈ admitted → Destroyed h ∈ before ++ after).
Proof.
  pose proof (λ h, run_tasks_admitted before default_tasks h) as Ha.
  destruct (run_tasks before default_tasks) as [admitted d]. simpl in Ha.
  assert (Hst : is_stopped (stop d) = true) by apply close_closed.
  destruct (run_tasks_stopped after (stop d) Hst) as (H1 & H2).
  pose proof (λ h, run_tasks_kept after (stop d) h) as Hk.
  destruct (run_tasks after (stop d)) as [late d']. simpl in *.
  split; [done|]. split; [unfold spawn; by rewrite H2|].
  split; [unfold poll_future; simpl; by rewrite cancel_cancelled|].
  intros [_ Hnil%bool_decide_eq_true]%andb_true_iff h Hh. rewrite elem_of_app.
  destruct (Ha h Hh) as [Hin|]; [|by left].
  rewrite <-close_tracked in Hin.
  destruct (Hk h Hin) as [Hin'|]; [|by right].
  rewrite Hnil in Hin'. by apply elem_of_nil in Hin'.
Qed.

End properties.

(** ** A tracker as a list of numbered tasks, for the witness *)

Module ListTasks.

(** The number of the next task: the counter, or more if that is in use. *)
Definition next (t : bool * nat * list nat) : nat := foldr (λ h n, S h `max` n) t.1.2 t.2.
Lemma next_above (t : bool * nat * list nat) h : h ∈ t.2 → h < next t.
Proof.
  destruct t as [[c k] l]. unfold next. simpl.
  induction l as [|x l IH]; intros Hh; [by apply elem_of_nil in Hh|].
  apply elem_of_cons in Hh as [->|Hh%IH]; simpl in *; lia.
Qed.

#[export] Instance api : TaskApi := {|
  TaskTracker := bool * nat * list nat;
  CancellationToken := bool;
  AbortHandle := nat;
  tracker_default := (false, 0, []);
  token_default := false;
  is_closed t := t.1.1;
  close t := (true, t.1.2, t.2);
  spawn_on t := (next t, (t.1.1, S (next t), next t :: t.2));
  tracked t := t.2;
  destroyed h t := (t.1, filter (λ x, x ≠ h) t.2);
  is_cancelled k := k;
  cancel _ := true;
|}.

#[export] Instance laws : TaskLaws.
Proof.
  split; try done.
  - intros t Ht%next_above. simpl in Ht. lia.
  - intros h h' [t l]. simpl. rewrite list_elem_of_filter. tauto.
Qed.

End ListTasks.

Lemma stop_is_final_witness :
  let '(admitted, d) := Tasks.run_tasks (H := ListTasks.api)
    [Spawn; Spawn; Destroyed (H := ListTasks.api) 0] Tasks.default_tasks in
  let '(late, d') := Tasks.run_tasks [Destroyed (H := ListTasks.api) 1; Spawn] (Tasks.stop d) in
  late = [] ∧ fst (Tasks.spawn d') = None ∧ Tasks.poll_future (Tasks.stop d) = false ∧
  (Tasks.shutdown_returns d' = true → ∀ h, h ∈ admitted → 
    Destroyed h ∈ [Spawn; Spawn; Destroyed (H := ListTasks.api) 0] ++
                  [Destroyed (H := ListTasks.api) 1; Spawn]).
Proof.
  apply (@stop_is_final ListTasks.api ListTasks.laws
    [Spawn; Spawn; Destroyed (H := ListTasks.api) 0]
    [Destroyed (H := ListTasks.api) 1; Spawn]).
Defined.
