(* ===== verification/Resolver.v ===== *)
(** * The partition-key resolver ([src/src/keyrouting/resolver.rs])

    The resolver caches the partition-key name of each table and discovers
    missing ones in the background.  Its maps are shared between all callers
    and tasks and every operation on them is atomic, so a call of
    [trigger_discovery] and the task it may spawn are one [Activity]: a program
    counter whose steps interleave freely with those of other activities and
    with a stop of the task registry.  [DescribeTable], the clock and the
    random jitter are inputs of the steps.

    The theorems: at most one activity works on a table at any time and its
    in-progress mark never leaks, in every interleaving; a call on its own spawns
    exactly when nothing speaks against it; and a discovery sends at most four
    requests, sleeping within 20 % of 100, 200 and 400 ms in between, and
    records what the last response says. *)

From S2P Require Import Prelude DiscoveryTasks.
From Stdlib Require Import Floats.SpecFloat.

(** ** What the SDK returns *)

(** [ServiceError] as the accessors show it: [is_resource_not_found_exception]
    and [code]. *)
Record ServiceError := mkServiceError {
  is_resource_not_found_exception : bool;
  code : option string;
}.
(** [SdkError<DescribeTableError>]: [as_service_error] and the status of
    [raw_response]. *)
Record SdkError := mkSdkError {
  as_service_error : option ServiceError;
  raw_status : option Z;
}.
(** [SdkError::timeout_error]. *)
Definition timeout_error : SdkError := mkSdkError None None.

Inductive KeyType : Type := Hash | Range | UnknownKeyType.
#[export] Instance KeyType_eq_dec : EqDecision KeyType.
Proof. solve_decision. Defined.
Record KeySchemaElement := mkKey { attribute_name : string; key_type : KeyType }.
(** [DescribeTableOutput]: the table, if any, with its key schema, if any. *)
Record DescribeTableOutput := mkOutput { table : option (option (list KeySchemaElement)) }.
Abbreviation Response := (Result DescribeTableOutput SdkError).

(** ** State *)

(** [FailureRecord]; instants are nanoseconds. *)
Record FailureRecord := mkFailure { timestamp : Z; permanent : bool }.

(** [PartitionKeyResolver], less the SDK client. *)
Record PartitionKeyResolver `{TaskApi} := mkResolver {
  owned : DiscoveryTasks;
  cache : gmap string string;
  in_progress : gset string;
  failed_tables : gmap string FailureRecord;
}.

(** A call of [trigger_discovery] and the task it spawns, by what it does
    next. *)
Inductive Activity : Type :=
| TStopped (name : string)
| TCached (name : string)
| TFailure (name : string)
| TClaim (name : string)
| TRecheck (name : string)
| TUnclaim (name : string)
| TClear (name : string)
| TSpawn (name : string)
| DRequest (name : string) (attempt delay : Z)
| DSleep (name : string) (attempt delay : Z)
| DCleanup (name : string)
| Ended.

(** What a step takes from the outside. *)
Record StepInput := mkInput {
  now : Z;
  runtime_available : bool;
  (** What came back, or [None] when the deadline elapsed first. *)
  response : option Response;
  (** The random draw from [-range..=range]. *)
  draw : Z → Z;
  (** The task is dropped at this await: its owner was stopped. *)
  dropped : bool;
}.

(** What a response leads to. *)
Inductive Verdict : Type :=
| Found (pk_name : string)
| Failed (is_permanent : bool)
| Retry (attempt jittered_delay delay : Z).

Definition MAX_RETRIES : Z := 3.
Definition INITIAL_RETRY_DELAY_MS : Z := 100.
Definition MAX_RETRY_DELAY_MS : Z := 2000.
Definition PERMANENT_FAILURE_COOLDOWN_MS : Z := 5 * 60 * 1000.
(** [0.2] as a binary64: mantissa and exponent. *)
Definition MAX_JITTER_PERCENT : spec_float := S754_finite false 7205759403792794 (-55).

Module Resolver.

(** [can_retry]: [Instant::elapsed] is zero before the timestamp. *)
Definition can_retry (now : Z) (rec : FailureRecord) : bool :=
  if negb (permanent rec) then true
  else
    let elapsed := Z.max 0 (now - timestamp rec) in
    bool_decide (PERMANENT_FAILURE_COOLDOWN_MS < wrap64 (elapsed `div` 1000000))%Z.

(** [is_permanent_failure]. *)
Definition is_permanent_failure (err : SdkError) : bool :=
  let by_service :=
    match as_service_error err with
    | Some svc =>
        is_resource_not_found_exception svc
        || bool_decide (code svc = Some "AccessDeniedException")
        || bool_decide (code svc = Some "ValidationException")
    | None => false
    end in
  if by_service then true
  else from_option (λ status, bool_decide (status = 403)%Z) false (raw_status err).

(** [x as f64] and [x as i64] on binary64: the conversion rounds to nearest,
    the cast truncates toward zero, saturates, and takes NaN to zero. *)
Definition u64_as_f64 (z : Z) : spec_float := binary_normalize 53 1024 z 0 false.
Definition f64_as_i64 (f : spec_float) : Z :=
  match f with
  | S754_finite s m e =>
      let a := Z.shiftl (Zpos m) e in
      Z.max (- 2 ^ 63) (Z.min (2 ^ 63 - 1) (if s then - a else a))
  | S754_infinity s => if s then - 2 ^ 63 else 2 ^ 63 - 1
  | S754_zero _ | S754_nan => 0
  end%Z.

(** [calculate_jittered_delay]. *)
Definition calculate_jittered_delay (draw : Z → Z) (base_delay : Z) : Z :=
  let jitter_range := f64_as_i64 (SFmul 53 1024 (u64_as_f64 base_delay) MAX_JITTER_PERCENT) in
  if decide (jitter_range = 0)%Z then base_delay
  else
    let jitter := draw jitter_range in
    i64_as_u64 (Z.max (u64_as_i64 base_delay + jitter) 1).

(** The response under the optional deadline. *)
Definition with_deadline (r : option Response) : Response := default (Err timeout_error) r.

(** The [match response] of [discover_with_retry]. *)
Definition judge (draw : Z → Z) (attempt delay : Z) (r : Response) : Verdict :=
  match r with
  | Ok out =>
      match table out with
      | Some (Some schema) =>
          match list_find (λ k, key_type k = Hash) schema with
          | Some (_, pk_element) => Found (attribute_name pk_element)
          | None => Failed true
          end
      | _ => Failed true
      end
  | Err err =>
      if is_permanent_failure err then Failed true
      else
        let attempt := (attempt + 1)%Z in
        if decide (MAX_RETRIES < attempt)%Z then Failed false
        else Retry attempt (calculate_jittered_delay draw delay)
               (Z.min (saturating_mul64 delay 2) MAX_RETRY_DELAY_MS)
  end.

Section resolver.
Context `{TaskApi}.

Definition set_in_progress (s : gset string) (r : PartitionKeyResolver) : PartitionKeyResolver :=
  mkResolver _ (owned r) (cache r) s (failed_tables r).
Definition set_cache (c : gmap string string) (r : PartitionKeyResolver) : PartitionKeyResolver :=
  mkResolver _ (owned r) c (in_progress r) (failed_tables r).
Definition set_failed (f : gmap string FailureRecord) (r : PartitionKeyResolver)
    : PartitionKeyResolver :=
  mkResolver _ (owned r) (cache r) (in_progress r) f.
Definition set_owned (d : DiscoveryTasks) (r : PartitionKeyResolver) : PartitionKeyResolver :=
  mkResolver _ d (cache r) (in_progress r) (failed_tables r).

(** [new_with_timeout]: the configured names fill the cache. *)
Definition new_with_timeout (pk_info : gmap string string) : PartitionKeyResolver :=
  mkResolver _ Tasks.default_tasks pk_info ∅ ∅.

(** [get_partition_key]. *)
Definition get_partition_key (r : PartitionKeyResolver) (name : string) : option string :=
  cache r !! name.

(** Writes down what a response led to. *)
Definition record_verdict (now : Z) (name : string) (v : Verdict) (r : PartitionKeyResolver)
    : PartitionKeyResolver :=
  match v with
  | Found pk_name => set_cache (<[name := pk_name]> (cache r)) r
  | Failed p => set_failed (<[name := mkFailure now p]> (failed_tables r)) r
  | Retry _ _ _ => r
  end.

(** One atomic step of an activity. *)
Definition step (i : StepInput) (a : Activity) (r : PartitionKeyResolver)
    : Activity * PartitionKeyResolver :=
  match a with
  | TStopped name => (if Tasks.is_stopped (owned r) then Ended else TCached name, r)
  | TCached name => (if decide (is_Some (cache r !! name)) then Ended else TFailure name, r)
  | TFailure name =>
      (match failed_tables r !! name with
       | Some rec => if can_retry (now i) rec then TClaim name else Ended
       | None => TClaim name
       end, r)
  | TClaim name =>
      if negb (runtime_available i) then (Ended, r)
      else if decide (name ∈ in_progress r) then (Ended, r)
      else (TRecheck name, set_in_progress ({[name]} ∪ in_progress r) r)
  | TRecheck name => (if decide (is_Some (cache r !! name)) then TUnclaim name else TClear name, r)
  | TUnclaim name => (Ended, set_in_progress (in_progress r ∖ {[name]}) r)
  | TClear name => (TSpawn name, set_failed (delete name (failed_tables r)) r)
  | TSpawn name =>
      match Tasks.spawn (owned r) with
      | (Some _, d) => (DRequest name 0 INITIAL_RETRY_DELAY_MS, set_owned d r)
      | (None, d) => (DCleanup name, set_owned d r)
      end
  | DRequest name attempt delay =>
      if dropped i then (DCleanup name, r)
      else
        let v := judge (draw i) attempt delay (with_deadline (response i)) in
        (match v with
         | Retry attempt _ delay => DSleep name attempt delay
         | _ => DCleanup name
         end, record_verdict (now i) name v r)
  | DSleep name attempt delay =>
      if dropped i then (DCleanup name, r) else (DRequest name attempt delay, r)
  | DCleanup name => (Ended, set_in_progress (in_progress r ∖ {[name]}) r)
  | Ended => (Ended, r)
  end.

(** A call of [trigger_discovery] with nothing else going on: did it spawn? *)
Definition trigger_discovery (now : Z) (runtime : bool) (name : string)
    (r : PartitionKeyResolver) : bool * PartitionKeyResolver :=
  if Tasks.is_stopped (owned r) || bool_decide (is_Some (cache r !! name)) then (false, r)
  else if from_option (λ rec, negb (can_retry now rec)) false (failed_tables r !! name)
  then (false, r)
  else if negb runtime then (false, r)
  else if bool_decide (name ∈ in_progress r) then (false, r)
  else
    let r := set_in_progress ({[name]} ∪ in_progress r) r in
    if bool_decide (is_Some (cache r !! name)) then
      (false, set_in_progress (in_progress r ∖ {[name]}) r)
    else
      let r := set_failed (delete name (failed_tables r)) r in
      match Tasks.spawn (owned r) with
      | (Some _, d) => (true, set_owned d r)
      | (None, d) => (false, set_in_progress (in_progress r ∖ {[name]}) (set_owned d r))
      end.

(** [discover_with_retry] on its own, with the responses, draws and clock by
    request number; the sleeps it took are returned too.  [None]: out of fuel. *)
Fixpoint discover_loop (fuel : nat) (inputs : nat → StepInput) (k : nat) (attempt delay : Z)
    (name : string) (r : PartitionKeyResolver) : option (list Z * PartitionKeyResolver) :=
  match fuel with
  | O => None
  | S fuel' =>
      let i := inputs k in
      let v := judge (draw i) attempt delay (with_deadline (response i)) in
      let r := record_verdict (now i) name v r in
      match v with
      | Retry attempt jittered_delay delay =>
          '(sleeps, r) ← discover_loop fuel' inputs (S k) attempt delay name r;
          Some (jittered_delay :: sleeps, r)
      | _ => Some ([], r)
      end
  end.
Definition discover_with_retry (inputs : nat → StepInput) (name : string)
    (r : PartitionKeyResolver) : option (list Z * PartitionKeyResolver) :=
  discover_loop 4 inputs 0 0 INITIAL_RETRY_DELAY_MS name r.

(** [k] steps of one activity, nothing else running. *)
Fixpoint run_steps (k : nat) (i : StepInput) (a : Activity) (r : PartitionKeyResolver)
    : Activity * PartitionKeyResolver :=
  match k with
  | O => (a, r)
  | S k' => match step i a r with (a', r') => run_steps k' i a' r' end
  end.

(** ** The system: all activities on one resolver *)

Record System := mkSystem {
  shared : PartitionKeyResolver;
  activities : gmap nat Activity;
}.

Inductive system_step : System → System → Prop :=
| system_call s id name :
    activities s !! id = None →
    system_step s (mkSystem (shared s) (<[id := TStopped name]> (activities s)))
| system_act s id a i :
    activities s !! id = Some a →
    system_step s (mkSystem (snd (step i a (shared s)))
                            (<[id := fst (step i a (shared s))]> (activities s)))
| system_stop s :
    system_step s (mkSystem (set_owned (Tasks.stop (owned (shared s))) (shared s))
                            (activities s)).

(** The table an activity holds the in-progress mark of. *)
Definition holds (a : Activity) : option string :=
  match a with
  | TRecheck n | TUnclaim n | TClear n | TSpawn n | DRequest n _ _ | DSleep n _ _ | DCleanup n =>
      Some n
  | _ => None
  end.

End resolver.
End Resolver.

Module ResolverFacts.
Import Resolver.
Section facts.
Context `{TaskApi}.
Implicit Types (r : PartitionKeyResolver) (s : System).

(** A step takes the mark of a free table, gives its mark back, or leaves the
    marks alone. *)
Lemma step_holds i a r :
  let a' := fst (step i a r) in let r' := snd (step i a r) in
  (holds a' = holds a ∧ in_progress r' = in_progress r) ∨
  (∃ n, holds a = None ∧ holds a' = Some n ∧ n ∉ in_progress r ∧
        in_progress r' = {[n]} ∪ in_progress r) ∨
  (∃ n, holds a = Some n ∧ holds a' = None ∧ in_progress r' = in_progress r ∖ {[n]}).
Proof.
  destruct a; simpl.
  - left. by case_match.
  - left. by case_decide.
  - left. repeat case_match; done.
  - destruct (runtime_available i); simpl; [|by left]. case_decide; [by left|].
    right. left. by exists name.
  - left. by case_decide.
  - right. right. by exists name.
  - by left.
  - left. by destruct (Tasks.spawn _) as [[h|] d].
  - left. destruct (dropped i); [done|]. by destruct (judge _ _ _ _).
  - left. by destruct (dropped i).
  - right. right. by exists name.
  - by left.
Qed.

(** Who holds the mark of a table. *)
Definition holder s (id : nat) (n : string) : Prop :=
  ∃ a, activities s !! id = Some a ∧ holds a = Some n.

Definition marks_ok s : Prop :=
  (∀ id1 id2 n, holder s id1 n → holder s id2 n → id1 = id2) ∧
  (∀ n, n ∈ in_progress (shared s) ↔ ∃ id, holder s id n).

Lemma holder_insert s id a r id' n :
  holder (mkSystem r (<[id := a]> (activities s))) id' n ↔
  (id' = id ∧ holds a = Some n) ∨ (id' ≠ id ∧ holder s id' n).
Proof.
  unfold holder. simpl. destruct (decide (id' = id)) as [->|Hne].
  - rewrite lookup_insert_eq. naive_solver.
  - rewrite lookup_insert_ne by done. naive_solver.
Qed.

Lemma marks_ok_step s s' : system_step s s' → marks_ok s → marks_ok s'.
Proof.
  intros Hstep [Huniq Hmark]. destruct Hstep as [s id name Hfresh|s id a i Ha|s].
  - assert (Hno : ∀ n, ¬ holder s id n) by (intros n (a & Ha & _); congruence).
    split; [|intros n; simpl; rewrite Hmark];
      setoid_rewrite holder_insert; simpl; [naive_solver|].
    split; [|naive_solver]. intros [id' Hid]. exists id'. right. split; [|done].
    intros ->. by eapply Hno.
  - assert (Hid : ∀ n, holder s id n ↔ holds a = Some n).
    { intros n. unfold holder. naive_solver. }
    pose proof (step_holds i a (shared s)) as Hs. simpl in Hs.
    destruct Hs as [[Hh Hp]|[(n0 & Hh & Hh' & Hn & Hp)|(n0 & Hh & Hh' & Hp)]].
    + assert (Heq : ∀ id' n, holder (mkSystem (snd (step i a (shared s)))
        (<[id := fst (step i a (shared s))]> (activities s))) id' n ↔ holder s id' n).
      { intros id' n. rewrite holder_insert, Hh, <-Hid.
        destruct (decide (id' = id)) as [->|]; naive_solver. }
      split; [|intros n; simpl; rewrite Hp, Hmark]; setoid_rewrite Heq; done.
    + assert (Hnone : ∀ id', ¬ holder s id' n0).
      { intros id' Hid'. apply Hn, Hmark. by exists id'. }
      split; [|intros n; simpl; rewrite Hp, elem_of_union, elem_of_singleton, Hmark];
        setoid_rewrite holder_insert; rewrite Hh'.
      * intros id1 id2 n [[-> Hn1]|[Hne1 H1]] [[-> Hn2]|[Hne2 H2]]; try done;
          [..|by eapply Huniq]; exfalso; simplify_eq; by eapply Hnone.
      * split.
        -- intros [->|[id' Hid']]; [exists id; by left|]. exists id'. right. split; [|done].
           intros ->. apply Hid in Hid'. congruence.
        -- intros [id' [[-> [= ->]]|[_ Hid']]]; [by left|right; by exists id'].
    + assert (Hown : holder s id n0) by (by apply Hid).
      split; [|intros n; simpl; rewrite Hp, elem_of_difference, elem_of_singleton, Hmark];
        setoid_rewrite holder_insert; rewrite Hh'.
      * intros id1 id2 n [[_ [=]]|[_ H1]] [[_ [=]]|[_ H2]]. by eapply Huniq.
      * split.
        -- intros [[id' Hid'] Hne]. exists id'. right. split; [|done]. intros ->.
           apply Hid in Hid'. congruence.
        -- intros [id' [[_ [=]]|[Hne Hid']]]. split; [by exists id'|]. intros ->.
           by apply Hne, (Huniq id' id n0).
  - by split.
Qed.

Lemma marks_ok_reachable s s' : rtc system_step s s' → marks_ok s → marks_ok s'.
Proof. induction 1; [done|]. eauto using marks_ok_step. Qed.

(** ** A call on its own *)

Lemma spawn_open r :
  Tasks.is_stopped (owned r) = false → ∃ h d, Tasks.spawn (owned r) = (Some h, d).
Proof.
  unfold Tasks.spawn. intros ->. destruct (spawn_on _) as [h t]. by do 2 eexists.
Qed.

Lemma trigger_discovery_steps i name r :
  let spawned := fst (trigger_discovery (now i) (runtime_available i) name r) in
  let r' := snd (trigger_discovery (now i) (runtime_available i) name r) in
  (∃ a, run_steps 7 i (TStopped name) r = (a, r') ∧
        (a = DRequest name 0 INITIAL_RETRY_DELAY_MS ↔ spawned = true)) ∧
  (spawned = true ↔
     Tasks.is_stopped (owned r) = false ∧ cache r !! name = None ∧
     from_option (can_retry (now i)) true (failed_tables r !! name) = true ∧
     runtime_available i = true ∧ name ∉ in_progress r) ∧
  (spawned = true → in_progress r' = {[name]} ∪ in_progress r ∧
     failed_tables r' = delete name (failed_tables r) ∧ cache r' = cache r) ∧
  (spawned = false → r' = r).
Proof.
  unfold trigger_discovery.
  assert (Hended : ∀ (P : Prop), ¬ P →
    (∃ a, (Ended, r) = (a, r) ∧ (a = DRequest name 0 INITIAL_RETRY_DELAY_MS ↔ false = true)) ∧
    (false = true ↔ P) ∧
    (false = true → in_progress r = {[name]} ∪ in_progress r ∧
       failed_tables r = delete name (failed_tables r) ∧ cache r = cache r) ∧
    (false = false → r = r)).
  { intros P HP. split; [exists Ended; split; [done|by split]|]. split; [by split|done]. }
  cbn [run_steps step].
  destruct (Tasks.is_stopped (owned r)) eqn:Hst; [apply Hended; by intros []|].
  cbn [run_steps step orb].
  destruct (decide (is_Some (cache r !! name))) as [Hc|Hc].
  { rewrite bool_decide_eq_true_2 by done. apply Hended. intros (_ & Hn & _).
    rewrite Hn in Hc. by destruct Hc. }
  rewrite (bool_decide_eq_false_2 _ Hc). cbn [run_steps step].
  assert (Hf : match failed_tables r !! name with
      | Some rec => if can_retry (now i) rec then TClaim name else Ended
      | None => TClaim name end =
    if from_option (λ rec, negb (can_retry (now i) rec)) false (failed_tables r !! name)
    then Ended else TClaim name).
  { destruct (failed_tables r !! name) as [rec|]; [|done]. simpl. by destruct (can_retry _ _). }
  assert (Hf' : from_option (can_retry (now i)) true (failed_tables r !! name) =
    negb (from_option (λ rec, negb (can_retry (now i) rec)) false (failed_tables r !! name))).
  { destruct (failed_tables r !! name) as [rec|]; [|done]. simpl. by rewrite negb_involutive. }
  rewrite Hf, Hf'. destruct (from_option _ false _).
  { apply Hended. by intros (_ & _ & [=] & _). }
  cbn [run_steps step negb].
  destruct (runtime_available i); cbn [run_steps step negb]; cycle 1.
  { apply Hended. by intros (_ & _ & _ & [=] & _). }
  destruct (decide (name ∈ in_progress r)) as [Hin|Hin].
  { rewrite bool_decide_eq_true_2 by done. apply Hended. by intros (_ & _ & _ & _ & Hn). }
  rewrite (bool_decide_eq_false_2 _ Hin). cbn [run_steps step cache set_in_progress].
  rewrite (decide_False (P := is_Some (cache r !! name))) by done. rewrite (bool_decide_eq_false_2 _ Hc).
  cbn [run_steps step owned set_failed set_in_progress].
  destruct (spawn_open r Hst) as (h & d & ->). cbn [fst snd run_steps].
  split; [by eexists|]. split; [|done].
  split; [|done]. intros _. split_and!; try done. by apply eq_None_not_Some.
Qed.

(** Triggering a discovery leaves the cache alone. *)
Lemma trigger_discovery_cache now rt name r :
  cache (snd (trigger_discovery now rt name r)) = cache r.
Proof.
  destruct (trigger_discovery_steps (mkInput now rt None id false) name r)
    as (_ & _ & Ht & Hf).
  cbn [Resolver.now runtime_available] in *.
  destruct (fst (trigger_discovery _ _ _ _)); [by apply Ht|by rewrite Hf].
Qed.

(** ** Retries *)

Definition transient (x : Response) : Prop :=
  ∃ err, x = Err err ∧ is_permanent_failure err = false.

Lemma judge_retry draw attempt delay x :
  transient x →
  judge draw attempt delay x =
    if decide (MAX_RETRIES < attempt + 1)%Z then Failed false
    else Retry (attempt + 1) (calculate_jittered_delay draw delay)
           (Z.min (saturating_mul64 delay 2) MAX_RETRY_DELAY_MS).
Proof. intros (err & -> & He). simpl. by rewrite He. Qed.

Lemma judge_not_transient draw attempt delay x :
  ¬ transient x → judge draw attempt delay x = judge draw 0 0 x ∧
  ∀ a j d, judge draw attempt delay x ≠ Retry a j d.
Proof.
  intros Hx. destruct x as [out|err]; simpl.
  - destruct (table out) as [[schema|]|]; [|done..]. by destruct (list_find _ schema) as [[]|].
  - destruct (is_permanent_failure err) eqn:He; [done|]. exfalso. apply Hx. by exists err.
Qed.

#[export] Instance transient_dec x : Decision (transient x).
Proof.
  destruct x as [out|err]; [right; by intros (? & ? & _)|].
  destruct (is_permanent_failure err) eqn:He.
  - right. intros (? & [= <-] & ?). congruence.
  - left. by exists err.
Defined.

(** The jitter of the three delays that occur. *)
Lemma jitter_range base range draw :
  f64_as_i64 (SFmul 53 1024 (u64_as_f64 base) MAX_JITTER_PERCENT) = range →
  (0 < range < base)%Z → (base < 2 ^ 62)%Z → (- range ≤ draw range ≤ range)%Z →
  (base - range ≤ calculate_jittered_delay draw base ≤ base + range)%Z.
Proof.
  intros Hr H0 H1 Hd. unfold calculate_jittered_delay. rewrite Hr, decide_False by lia.
  unfold u64_as_i64. rewrite decide_True by lia.
  unfold i64_as_u64. rewrite wrap64_small by (unfold is_u64; lia). lia.
Qed.

(** The response the [k]-th request gets. *)
Definition reply (inputs : nat → StepInput) (k : nat) : Response :=
  with_deadline (response (inputs k)).

(** What the last response leaves behind. *)
Definition settled (inputs : nat → StepInput) (n : nat) (name : string) r : PartitionKeyResolver :=
  record_verdict (now (inputs n)) name
    (if decide (transient (reply inputs n)) then Failed false
     else judge (draw (inputs n)) 0 0 (reply inputs n)) r.

Lemma discover_loop_settled fuel inputs k attempt delay name r :
  ¬ transient (reply inputs k) ∨ (MAX_RETRIES < attempt + 1)%Z →
  discover_loop (S fuel) inputs k attempt delay name r = Some ([], settled inputs k name r).
Proof.
  intros Hk. cbn [discover_loop]. fold (reply inputs k). unfold settled.
  destruct (decide (transient (reply inputs k))) as [Ht|Ht].
  - rewrite judge_retry by done. rewrite decide_True by (by destruct Hk). done.
  - destruct (judge_not_transient (draw (inputs k)) attempt delay _ Ht) as [Hj Hn].
    destruct (judge_not_transient (draw (inputs k)) 0 0 _ Ht) as [Hj0 _].
    assert (Hjj : judge (draw (inputs k)) 0 0 (reply inputs k) =
                  judge (draw (inputs k)) attempt delay (reply inputs k)) by (by rewrite Hj).
    rewrite Hjj.
    destruct (judge (draw (inputs k)) attempt delay (reply inputs k)) eqn:He; try done.
    by exfalso; eapply Hn.
Qed.

Lemma discover_loop_retry fuel inputs k attempt delay name r :
  transient (reply inputs k) → (attempt + 1 ≤ MAX_RETRIES)%Z →
  discover_loop (S fuel) inputs k attempt delay name r =
    '(sleeps, r') ← discover_loop fuel inputs (S k) (attempt + 1)
       (Z.min (saturating_mul64 delay 2) MAX_RETRY_DELAY_MS) name r;
    Some (calculate_jittered_delay (draw (inputs k)) delay :: sleeps, r').
Proof.
  intros Hk Ha. cbn [discover_loop]. fold (reply inputs k).
  rewrite judge_retry by done. rewrite decide_False by lia. done.
Qed.

End facts.
End ResolverFacts.

(** ** Properties *)

Section properties.
Context `{TaskApi}.
Import Resolver ResolverFacts.
Implicit Types (r : PartitionKeyResolver) (s : System).

(** C7: single flight: in every interleaving of any number of calls, discovery
    tasks, cancellations and stops, at most one activity works on a table, and
    the in-progress set is exactly the set of tables being worked on: no mark is
    lost, so no table stays blocked, and none is held twice. *)
Theorem single_flight (pk_info : gmap string string) s :
  rtc system_step (mkSystem (new_with_timeout pk_info) ∅) s →
  (∀ id1 id2 n, holder s id1 n → holder s id2 n → id1 = id2) ∧
  (∀ n, n ∈ in_progress (shared s) ↔ ∃ id, holder s id n).
Proof.
  intros Hr. apply (marks_ok_reachable _ _ Hr). split; simpl.
  - intros id1 id2 n (a & Ha & _). simpl in Ha. by rewrite lookup_empty in Ha.
  - intros n. split; [set_solver|]. intros (id & a & Ha & _). simpl in Ha.
    by rewrite lookup_empty in Ha.
Qed.

(** A call of [trigger_discovery] that nothing interrupts is its sequence of
    atomic steps; it spawns exactly when the registry is open, the table is
    neither cached, in progress nor cooling down after a permanent failure, and
    a runtime is there; then it marks the table and forgets its old failure, and
    otherwise it changes nothing. *)
Theorem trigger_discovery_effect (i : StepInput) (name : string) r :
  let '(spawned, r') := trigger_discovery (now i) (runtime_available i) name r in
  (∃ a, run_steps 7 i (TStopped name) r = (a, r') ∧
        (a = DRequest name 0 INITIAL_RETRY_DELAY_MS ↔ spawned = true)) ∧
  (spawned = true ↔
     Tasks.is_stopped (owned r) = false ∧ cache r !! name = None ∧
     from_option (can_retry (now i)) true (failed_tables r !! name) = true ∧
     runtime_available i = true ∧ name ∉ in_progress r) ∧
  (spawned = true → in_progress r' = {[name]} ∪ in_progress r ∧
     failed_tables r' = delete name (failed_tables r) ∧ cache r' = cache r) ∧
  (spawned = false → r' = r).
Proof.
  destruct (trigger_discovery_steps i name r) as (Hsteps & Hiff & Htrue & Hfalse).
  by destruct (trigger_discovery (now i) (runtime_available i) name r) as [spawned r'].
Qed.

(** C36: discovery is bounded: it sends at most four requests, each after the
    first only because all before it failed transiently; between them it sleeps
    within 20 % of 100, 200 and 400 milliseconds; it then records what the last
    response says, and gives up on a transient failure only after the fourth
    request. *)
Theorem discovery_bounded (inputs : nat → StepInput) (name : string) r :
  (∀ k range, 0 < range → - range ≤ draw (inputs k) range ≤ range)%Z →
  ∃ sleeps r', discover_with_retry inputs name r = Some (sleeps, r') ∧
    length sleeps ≤ 3 ∧
    (∀ k, k < length sleeps → transient (reply inputs k)) ∧
    (transient (reply inputs (length sleeps)) → length sleeps = 3) ∧
    (∀ k ms, sleeps !! k = Some ms → 80 * 2 ^ Z.of_nat k ≤ ms ≤ 120 * 2 ^ Z.of_nat k)%Z ∧
    r' = settled inputs (length sleeps) name r.
Proof.
  intros Hdraw. unfold discover_with_retry, INITIAL_RETRY_DELAY_MS.
  assert (H100 := jitter_range 100 20 (draw (inputs 0)) eq_refl).
  assert (H200 := jitter_range 200 40 (draw (inputs 1)) eq_refl).
  assert (H400 := jitter_range 400 80 (draw (inputs 2)) eq_refl).
  pose proof (Hdraw 0 20%Z ltac:(lia)). pose proof (Hdraw 1 40%Z ltac:(lia)).
  pose proof (Hdraw 2 80%Z ltac:(lia)).
  destruct (decide (transient (reply inputs 0))) as [T0|T0]; cycle 1.
  { rewrite discover_loop_settled by (by left). do 2 eexists. split; [done|]. simpl.
    split_and!; [lia|lia|done|by intros []|done]. }
  rewrite discover_loop_retry by (done || unfold MAX_RETRIES; lia).
  destruct (decide (transient (reply inputs 1))) as [T1|T1]; cycle 1.
  { rewrite discover_loop_settled by (by left). do 2 eexists. split; [done|]. simpl.
    split_and!; [lia|intros [|]; [done|lia]|done| |done].
    intros [|[|]] s; [intros [= <-]; simpl; lia|done..]. }
  rewrite discover_loop_retry by (done || unfold MAX_RETRIES; lia).
  destruct (decide (transient (reply inputs 2))) as [T2|T2]; cycle 1.
  { rewrite discover_loop_settled by (by left). do 2 eexists. split; [done|]. simpl.
    split_and!; [lia|intros [|[|]]; [done|done|lia]|done| |done].
    intros [|[|[|]]] s; [intros [= <-]; simpl; lia|intros [= <-]|done..]. simpl.
    change (Z.min _ MAX_RETRY_DELAY_MS) with 200%Z. lia. }
  rewrite discover_loop_retry by (done || unfold MAX_RETRIES; lia).
  rewrite discover_loop_settled by (right; done). do 2 eexists. split; [done|].
  cbn [length]. split_and!; [lia|intros [|[|[|]]]; done || lia|done| |done].
  intros [|[|[|[|]]]] s; [intros [= <-]|intros [= <-]|intros [= <-]|done..].
  - simpl. lia.
  - change (Z.min _ MAX_RETRY_DELAY_MS) with 200%Z. simpl. lia.
  - change (Z.min _ MAX_RETRY_DELAY_MS) with 400%Z. simpl. lia.
Qed.

End properties.

Section witnesses.
Import Resolver ResolverFacts.

(** The first request times out, the second finds the key. *)
Definition two_requests (k : nat) : StepInput :=
  mkInput 0 true
    (match k with
     | O => None
     | S _ => Some (Ok (mkOutput (Some (Some [mkKey "sk" Range; mkKey "pk" Hash]))))
     end) (λ _, 0%Z) false.
Definition resolver0 : @PartitionKeyResolver ListTasks.api := new_with_timeout ∅.

Lemma single_flight_witness :
  let s := mkSystem resolver0 (<[7 := TStopped "orders"]> ∅) in
  (∀ id1 id2 n, holder s id1 n → holder s id2 n → id1 = id2) ∧
  (∀ n, n ∈ in_progress (shared s) ↔ ∃ id, holder s id n).
Proof.
  apply (@single_flight ListTasks.api ∅). apply rtc_once.
  apply (system_call (mkSystem resolver0 ∅) 7 "orders"). reflexivity.
Defined.

Lemma discovery_bounded_witness :
  ∃ sleeps r', discover_with_retry two_requests "orders" resolver0 = Some (sleeps, r') ∧
    length sleeps ≤ 3 ∧
    (∀ k, k < length sleeps → transient (reply two_requests k)) ∧
    (transient (reply two_requests (length sleeps)) → length sleeps = 3) ∧
    (∀ k ms, sleeps !! k = Some ms → 80 * 2 ^ Z.of_nat k ≤ ms ≤ 120 * 2 ^ Z.of_nat k)%Z ∧
    r' = settled two_requests (length sleeps) "orders" resolver0.
Proof. apply (discovery_bounded two_requests "orders" resolver0). simpl. lia. Defined.

Example two_requests_found :
  (λ x, (fst x, get_partition_key (snd x) "orders")) <$>
    discover_with_retry two_requests "orders" resolver0 = Some ([100%Z], Some "pk").
Proof. vm_refl. Qed.

End witnesses.
