(* ===== verification/ResolverSpec.v ===== *)
(** * What the partition-key resolver promises ([src/src/keyrouting/resolver.rs])

    [PartitionKeyResolver] is three maps behind three locks, and any number of
    calls, background tasks and stops interleave on them.  This file says what
    that comes to for its clients: one little machine per table, which is
    unknown, known, being looked up by one activity, or has a failure on record.
    A lookup begins for tables that are not known only, ends in a name, a failure
    or nothing, and a known name is final.

    The theorems: every interleaving of the concrete steps ([system_step]) is a
    sequence of steps of that machine, so the three maps are always three
    projections of one map of table states; and a partition-key name that was
    configured or learned is never changed or lost, not even by a lookup that was
    under way.  What the machine leaves open is when a failed table is tried
    again: [can_retry] is read before the mark is taken, so a racing call may try
    a table again at once. *)

From S2P Require Import Prelude DiscoveryTasks Resolver.

(** What is known of one table. *)
Inductive TableState : Type :=
| Known (pk_name : string)
| Looking (activity : nat)
| Failing (rec : FailureRecord).

Module TableSpec.

(** The three maps of the resolver, as projections of a table's state. *)
Definition known (t : TableState) : option string :=
  match t with Known pk_name => Some pk_name | _ => None end.
Definition failing (t : TableState) : option FailureRecord :=
  match t with Failing rec => Some rec | _ => None end.

(** The specification: all tables; an absent table is unknown. *)
Abbreviation Tables := (gmap string TableState).

Definition configured (pk_info : gmap string string) : Tables := Known <$> pk_info.

Inductive table_step : Tables → Tables → Prop :=
| table_start t name id :
    (t !! name) ≫= known = None → (∀ id', t !! name ≠ Some (Looking id')) →
    table_step t (<[name := Looking id]> t)
| table_learn t name id pk_name :
    t !! name = Some (Looking id) → table_step t (<[name := Known pk_name]> t)
| table_fail t name id rec :
    t !! name = Some (Looking id) → table_step t (<[name := Failing rec]> t)
| table_abandon t name id :
    t !! name = Some (Looking id) → table_step t (delete name t).

(** A lookup ends in any state but another lookup. *)
Lemma table_finish t name id o :
  t !! name = Some (Looking id) → (∀ id', o ≠ Some (Looking id')) →
  table_step t (partial_alter (λ _, o) name t).
Proof.
  intros Ht Ho. destruct o as [[pk|id'|rec]|].
  - by eapply table_learn.
  - by destruct (Ho id').
  - by eapply table_fail.
  - by eapply table_abandon.
Qed.

(** A known name is final. *)
Lemma table_step_known t t' name pk_name :
  table_step t t' → t !! name = Some (Known pk_name) → t' !! name = Some (Known pk_name).
Proof.
  intros Hstep Hk.
  destruct Hstep as [t n id Hn _|t n id pk Hn|t n id rec Hn|t n id Hn];
    (destruct (decide (n = name)) as [->|Hne]; [rewrite Hk in Hn; done|]).
  - by rewrite lookup_insert_ne.
  - by rewrite lookup_insert_ne.
  - by rewrite lookup_insert_ne.
  - by rewrite lookup_delete_ne.
Qed.

Lemma table_steps_known t t' name pk_name :
  rtc table_step t t' → t !! name = Some (Known pk_name) → t' !! name = Some (Known pk_name).
Proof. induction 1; eauto using table_step_known. Qed.

End TableSpec.

(** ** The simulation *)

Module ResolverRefinement.
Import Resolver ResolverFacts TableSpec.
Section refinement.
Context `{TaskApi}.
Implicit Types (r : PartitionKeyResolver) (s : System) (t : Tables) (a : Activity).

(** The table an activity is looking up: it holds the mark and has cleared the
    failure on record. *)
Definition looking a : option string :=
  match a with
  | TSpawn n | DRequest n _ _ | DSleep n _ _ => Some n
  | _ => None
  end.

(** The table an activity found uncached while it held the mark. *)
Definition clearing a : option string := match a with TClear n => Some n | _ => None end.

(** What a step does to one table, seen from the three maps. *)
Inductive step_effect : Activity → Activity → PartitionKeyResolver → PartitionKeyResolver → Prop :=
| effect_none a a' r r' :
    cache r' = cache r → failed_tables r' = failed_tables r → looking a' = looking a →
    (∀ n, clearing a' = Some n → cache r !! n = None) →
    step_effect a a' r r'
| effect_start n r r' :
    cache r' = cache r → failed_tables r' = delete n (failed_tables r) →
    step_effect (TClear n) (TSpawn n) r r'
| effect_finish a n (o : option TableState) r r' :
    looking a = Some n → (∀ id, o ≠ Some (Looking id)) →
    cache r' = match o with Some (Known pk) => <[n := pk]> (cache r) | _ => cache r end →
    failed_tables r' =
      match o with Some (Failing rec) => <[n := rec]> (failed_tables r) | _ => failed_tables r end →
    step_effect a (DCleanup n) r r'.

Lemma step_has_effect i a r : step_effect a (fst (step i a r)) r (snd (step i a r)).
Proof.
  destruct a as [n|n|n|n|n|n|n|n|n at' d|n at' d|n|]; simpl.
  - destruct (Tasks.is_stopped _); by apply effect_none.
  - case_decide; by apply effect_none.
  - destruct (failed_tables r !! n) as [rec|]; [destruct (can_retry _ _)|]; by apply effect_none.
  - destruct (runtime_available i); simpl; [case_decide|]; by apply effect_none.
  - case_decide as Hc; apply effect_none; try done. intros n' [= <-]. by apply eq_None_not_Some.
  - by apply effect_none.
  - by apply effect_start.
  - destruct (Tasks.spawn _) as [[h|] d]; simpl; [by apply effect_none|].
    by apply effect_finish with None.
  - destruct (dropped i); [by apply effect_finish with None|]. simpl.
    destruct (judge _ _ _ _) as [pk|p|at'' j d']; simpl.
    + by apply effect_finish with (Some (Known pk)).
    + by apply effect_finish with (Some (Failing (mkFailure (now i) p))).
    + by apply effect_none.
  - destruct (dropped i); simpl; [by apply effect_finish with None|by apply effect_none].
  - by apply effect_none.
  - by apply effect_none.
Qed.

Lemma looking_holds a n : looking a = Some n → holds a = Some n.
Proof. by destruct a. Qed.
Lemma clearing_holds a n : clearing a = Some n → holds a = Some n.
Proof. by destruct a. Qed.

(** Who looks up a table. *)
Definition looker s (id : nat) (n : string) : Prop :=
  ∃ a, activities s !! id = Some a ∧ looking a = Some n.

Lemma looker_insert s id a r id' n :
  looker (mkSystem r (<[id := a]> (activities s))) id' n ↔
  (id' = id ∧ looking a = Some n) ∨ (id' ≠ id ∧ looker s id' n).
Proof.
  unfold looker. simpl. destruct (decide (id' = id)) as [->|Hne].
  - rewrite lookup_insert_eq. naive_solver.
  - rewrite lookup_insert_ne by done. naive_solver.
Qed.

Lemma looker_holder s id n : looker s id n → holder s id n.
Proof. intros (a & Ha & Hl). exists a. split; [done|by apply looking_holds]. Qed.

(** A resolver with its activities represents a map of table states. *)
Record represents s t : Prop := {
  rep_marks : marks_ok s;
  rep_clearing : ∀ id a n, activities s !! id = Some a → clearing a = Some n →
    cache (shared s) !! n = None;
  rep_cache : ∀ n, cache (shared s) !! n = (t !! n) ≫= known;
  rep_failed : ∀ n, failed_tables (shared s) !! n = (t !! n) ≫= failing;
  rep_looking : ∀ id n, looker s id n ↔ t !! n = Some (Looking id);
}.

Lemma represents_init pk_info :
  represents (mkSystem (new_with_timeout pk_info) ∅) (configured pk_info).
Proof.
  split; simpl.
  - split; simpl.
    + intros id1 id2 n (a & Ha & _). simpl in Ha. by rewrite lookup_empty in Ha.
    + intros n. split; [set_solver|]. intros (id & a & Ha & _). simpl in Ha.
      by rewrite lookup_empty in Ha.
  - intros id a n Ha. by rewrite lookup_empty in Ha.
  - intros n. unfold configured. rewrite lookup_fmap. by destruct (pk_info !! n).
  - intros n. unfold configured. rewrite lookup_empty, lookup_fmap. by destruct (pk_info !! n).
  - intros id n. split.
    + intros (a & Ha & _). simpl in Ha. by rewrite lookup_empty in Ha.
    + unfold configured. rewrite lookup_fmap. by destruct (pk_info !! n).
Qed.

(** Marks exclude each other: whoever clears or looks up a table is alone. *)
Lemma represents_alone s t id a n id' a' :
  represents s t → activities s !! id = Some a → activities s !! id' = Some a' →
  holds a = Some n → holds a' = Some n → id = id'.
Proof.
  intros [[Huniq _] _ _ _ _] Ha Ha' Hh Hh'. apply (Huniq id id' n); [by exists a|by exists a'].
Qed.

(** One table changes: it is the one the acting activity looks up, before or
    after the step. *)
Lemma represents_act s t t' id a a' r' n :
  represents s t → activities s !! id = Some a → holds a = Some n →
  clearing a' = None →
  marks_ok (mkSystem r' (<[id := a']> (activities s))) →
  (∀ n', n' ≠ n → t' !! n' = t !! n') →
  (∀ n', n' ≠ n → cache r' !! n' = cache (shared s) !! n') →
  (∀ n', n' ≠ n → failed_tables r' !! n' = failed_tables (shared s) !! n') →
  cache r' !! n = (t' !! n) ≫= known →
  failed_tables r' !! n = (t' !! n) ≫= failing →
  (∀ n', looking a' = Some n' → n' = n) →
  (∀ id', t' !! n = Some (Looking id') ↔ id' = id ∧ looking a' = Some n) →
  represents (mkSystem r' (<[id := a']> (activities s))) t'.
Proof.
  intros Hrep Ha Hh Hcl Hm Ht Hc Hf Hcn Hfn Hl' Hln. pose proof Hrep as [Hmarks Hrc Hrcache Hrf Hrl].
  split; [done|..]; simpl.
  - intros id' b n' Hb Hbc. destruct (decide (id' = id)) as [->|Hne].
    { rewrite lookup_insert_eq in Hb. injection Hb as <-. congruence. }
    rewrite lookup_insert_ne in Hb by done.
    assert (n' ≠ n) as Hn.
    { intros ->. apply Hne. apply clearing_holds in Hbc as Hbh. symmetry.
      exact (represents_alone s t id a n id' b Hrep Ha Hb Hh Hbh). }
    rewrite Hc by done. by eapply Hrc.
  - intros n'. destruct (decide (n' = n)) as [->|Hn]; [done|]. by rewrite Hc, Ht, Hrcache.
  - intros n'. destruct (decide (n' = n)) as [->|Hn]; [done|]. by rewrite Hf, Ht, Hrf.
  - intros id' n'. rewrite looker_insert. destruct (decide (n' = n)) as [->|Hn].
    + rewrite Hln. split; [|by left]. intros [?|[Hne Hlk]]; [done|exfalso]. apply Hne.
      destruct Hlk as (b & Hb & Hbl). apply looking_holds in Hbl. symmetry.
      exact (represents_alone s t id a n id' b Hrep Ha Hb Hh Hbl).
    + rewrite Ht, <-Hrl by done. split; [intros [[-> Hx]|[_ Hx]]|].
      * apply Hl' in Hx. done.
      * done.
      * intros Hlk. destruct (decide (id' = id)) as [->|Hne]; [exfalso|by right].
        destruct Hlk as (b & Hb & Hbl%looking_holds). rewrite Ha in Hb. injection Hb as <-. congruence.
Qed.

(** The acting activity looks up the same table as before, or none. *)
Lemma represents_quiet s t id a a' r' :
  represents s t → activities s !! id = Some a →
  marks_ok (mkSystem r' (<[id := a']> (activities s))) →
  cache r' = cache (shared s) → failed_tables r' = failed_tables (shared s) →
  looking a' = looking a → (∀ n, clearing a' = Some n → cache (shared s) !! n = None) →
  represents (mkSystem r' (<[id := a']> (activities s))) t.
Proof.
  intros [_ Hrc Hrcache Hrf Hrl] Ha Hm Hc Hf Hl Hcl. split; simpl; rewrite ?Hc, ?Hf; try done.
  - intros id' b n Hb Hbc. destruct (decide (id' = id)) as [->|Hne].
    + rewrite lookup_insert_eq in Hb. injection Hb as <-. by apply Hcl.
    + rewrite lookup_insert_ne in Hb by done. by eapply Hrc.
  - intros id' n. rewrite looker_insert, <-Hrl, Hl. unfold looker.
    destruct (decide (id' = id)) as [->|]; naive_solver.
Qed.

Lemma represents_call s t id name :
  represents s t → activities s !! id = None →
  marks_ok (mkSystem (shared s) (<[id := TStopped name]> (activities s))) →
  represents (mkSystem (shared s) (<[id := TStopped name]> (activities s))) t.
Proof.
  intros [_ Hrc Hrcache Hrf Hrl] Hfresh Hm. split; simpl; try done.
  - intros id' b n Hb Hbc. destruct (decide (id' = id)) as [->|Hne].
    + rewrite lookup_insert_eq in Hb. by injection Hb as <-.
    + rewrite lookup_insert_ne in Hb by done. by eapply Hrc.
  - intros id' n. rewrite looker_insert, <-Hrl. unfold looker.
    destruct (decide (id' = id)) as [->|]; naive_solver.
Qed.

(** A lookup begins: the table is not known and nobody looks it up. *)
Lemma represents_start s t id n r' :
  represents s t → activities s !! id = Some (TClear n) →
  cache r' = cache (shared s) → failed_tables r' = delete n (failed_tables (shared s)) →
  marks_ok (mkSystem r' (<[id := TSpawn n]> (activities s))) →
  table_step t (<[n := Looking id]> t) ∧
  represents (mkSystem r' (<[id := TSpawn n]> (activities s))) (<[n := Looking id]> t).
Proof.
  intros Hrep Ha Hc Hf Hm.
  assert (Hn : cache (shared s) !! n = None) by (by eapply (rep_clearing _ _ Hrep)).
  split.
  - apply table_start; [by rewrite <-(rep_cache _ _ Hrep)|].
    intros id' (b & Hb & Hbl)%(rep_looking _ _ Hrep). apply looking_holds in Hbl as Hbh.
    assert (id = id') as <- by by eapply represents_alone. rewrite Ha in Hb. by injection Hb as <-.
  - apply (represents_act s t _ id (TClear n) (TSpawn n) r' n); try done; rewrite ?Hc, ?Hf.
    + intros. by rewrite lookup_insert_ne.
    + done.
    + intros. by rewrite lookup_delete_ne.
    + by rewrite lookup_insert_eq.
    + by rewrite lookup_insert_eq, lookup_delete_eq.
    + by intros n' [= <-].
    + intros id'. rewrite lookup_insert_eq. simpl. naive_solver.
Qed.

(** A lookup ends, with the table in the state [o]. *)
Lemma represents_finish s t id a n o r' :
  represents s t → activities s !! id = Some a → looking a = Some n →
  (∀ id', o ≠ Some (Looking id')) →
  cache r' = match o with Some (Known pk) => <[n := pk]> (cache (shared s)) | _ => cache (shared s) end →
  failed_tables r' = match o with
                     | Some (Failing rec) => <[n := rec]> (failed_tables (shared s))
                     | _ => failed_tables (shared s)
                     end →
  marks_ok (mkSystem r' (<[id := DCleanup n]> (activities s))) →
  table_step t (partial_alter (λ _, o) n t) ∧
  represents (mkSystem r' (<[id := DCleanup n]> (activities s))) (partial_alter (λ _, o) n t).
Proof.
  intros Hrep Ha Hl Ho Hc Hf Hm.
  assert (Ht : t !! n = Some (Looking id)) by (apply (rep_looking _ _ Hrep); by exists a).
  pose proof (rep_cache _ _ Hrep n) as Hcn. pose proof (rep_failed _ _ Hrep n) as Hfn.
  rewrite Ht in Hcn, Hfn. simpl in Hcn, Hfn.
  split; [by eapply table_finish|].
  apply (represents_act s t _ id a (DCleanup n) r' n); try done.
  - by apply looking_holds.
  - intros. by rewrite lookup_partial_alter_ne.
  - intros n' Hne. rewrite Hc. destruct o as [[]|]; by rewrite ?lookup_insert_ne.
  - intros n' Hne. rewrite Hf. destruct o as [[]|]; by rewrite ?lookup_insert_ne.
  - rewrite Hc, lookup_partial_alter_eq. destruct o as [[]|]; by rewrite ?lookup_insert_eq, ?Hcn.
  - rewrite Hf, lookup_partial_alter_eq. destruct o as [[]|]; by rewrite ?lookup_insert_eq, ?Hfn.
  - intros id'. rewrite lookup_partial_alter_eq. simpl. naive_solver.
Qed.

Lemma represents_step : forward_simulation system_step table_step represents.
Proof.
  intros s s' t Hstep Hrep. pose proof (rep_marks _ _ Hrep) as Hmarks.
  apply (marks_ok_step _ _ Hstep) in Hmarks. destruct Hstep as [s id name Hfresh|s id a i Ha|s].
  - exists t. split; [done|]. by apply represents_call.
  - pose proof (step_has_effect i a (shared s)) as Heff.
    destruct (step i a (shared s)) as [a' r']. cbn [fst snd] in *.
    remember (shared s) as r0 eqn:Hr0.
    destruct Heff as [a a' r r' Hc Hf Hl Hcl|n r r' Hc Hf|a n o r r' Hl Ho Hc Hf]; subst r.
    + exists t. split; [done|]. by eapply represents_quiet.
    + destruct (represents_start s t id n r') as [Hs Hr]; try done.
      eauto using rtc_once.
    + destruct (represents_finish s t id a n o r') as [Hs Hr]; try done.
      eauto using rtc_once.
  - exists t. split; [done|]. by destruct Hrep.
Qed.

End refinement.
End ResolverRefinement.

(** ** Properties *)

Section properties.
Context `{TaskApi}.
Import Resolver ResolverFacts TableSpec ResolverRefinement.
Implicit Types (s : System).

(** C8: the resolver is one map of table states: whatever interleaving of calls,
    background lookups, cancellations and stops led to a state, the tables went
    through steps of the specification only, starting from the configured names,
    and the cache, the failure records and the lookups under way are the three
    projections of those tables. *)
Theorem resolver_refines_tables (pk_info : gmap string string) s :
  rtc system_step (mkSystem (new_with_timeout pk_info) ∅) s →
  ∃ t, rtc table_step (configured pk_info) t ∧
    (∀ n, cache (shared s) !! n = (t !! n) ≫= known) ∧
    (∀ n, failed_tables (shared s) !! n = (t !! n) ≫= failing) ∧
    (∀ id n, looker s id n ↔ t !! n = Some (Looking id)).
Proof.
  intros Hr.
  destruct (simulation_rtc _ _ _ _ _ _ represents_step Hr (represents_init pk_info))
    as (t & Ht & [_ _ Hc Hf Hl]). eauto 10.
Qed.

(** Partition keys are final: a name that was configured or learned is never
    changed or removed, whatever calls, lookups that were already under way,
    cancellations and stops follow, so all requests of a client hash the same
    attribute. *)
Theorem partition_key_final (pk_info : gmap string string) s s' name pk_name :
  rtc system_step (mkSystem (new_with_timeout pk_info) ∅) s →
  rtc system_step s s' →
  get_partition_key (shared s) name = Some pk_name →
  get_partition_key (shared s') name = Some pk_name.
Proof.
  intros Hr Hr' Hk.
  destruct (simulation_rtc _ _ _ _ _ _ represents_step Hr (represents_init pk_info)) as (t & _ & Hrep).
  destruct (simulation_rtc _ _ _ _ _ _ represents_step Hr' Hrep) as (t' & Ht' & Hrep').
  unfold get_partition_key in *. rewrite (rep_cache _ _ Hrep) in Hk. rewrite (rep_cache _ _ Hrep').
  apply bind_Some in Hk as ([pk| |] & Hn & Hk); try done. injection Hk as <-.
  by rewrite (table_steps_known _ _ _ _ Ht' Hn).
Qed.

End properties.

(** ** Witnesses *)

Section witnesses.
Import Resolver ResolverFacts TableSpec ResolverRefinement.
#[local] Existing Instance ListTasks.api.

(** One table is configured; a call asks for another. *)
Definition info0 : gmap string string := {[ "users" := "id" ]}.
Definition calm : StepInput := mkInput 0 true None (λ _, 0%Z) false.
Definition found : StepInput :=
  mkInput 0 true (Some (Ok (mkOutput (Some (Some [mkKey "pk" Hash]))))) (λ _, 0%Z) false.

Definition idle_system : System := mkSystem (new_with_timeout info0) ∅.
Definition asked : System := mkSystem (new_with_timeout info0) (<[7 := TStopped "orders"]> ∅).

Lemma asked_reachable : rtc system_step idle_system asked.
Proof. apply rtc_once, (system_call idle_system 7 "orders"). reflexivity. Qed.

(** One activity takes steps; its lookup is answered and remembered, while a
    second call asks for the same table. *)
Definition act (id : nat) (s : System) (i : StepInput) : System :=
  match activities s !! id with
  | Some a => mkSystem (snd (step i a (shared s))) (<[id := fst (step i a (shared s))]> (activities s))
  | None => s
  end.
Definition both : System :=
  let s := foldl (act 7) asked (replicate 7 calm) in
  mkSystem (shared s) (<[8 := TStopped "orders"]> (activities s)).
Definition learned : System := foldl (act 7) (foldl (act 8) both (replicate 3 calm)) [found].

Lemma act_reachable s0 s id inputs : rtc system_step s0 s → rtc system_step s0 (foldl (act id) s inputs).
Proof.
  revert s. induction inputs as [|i inputs IH]; intros s Hs; simpl; [done|]. apply IH.
  unfold act. destruct (activities s !! id) as [a|] eqn:Ha; [|done].
  etrans; [exact Hs|]. by apply rtc_once, system_act.
Qed.
Lemma learned_reachable : rtc system_step idle_system learned.
Proof.
  do 2 apply act_reachable. etrans; [apply act_reachable, asked_reachable|].
  apply rtc_once, (system_call (foldl (act 7) asked (replicate 7 calm)) 8 "orders"). by vm_compute.
Qed.

Lemma resolver_refines_tables_witness :
  ∃ t, rtc table_step (configured info0) t ∧ (t !! "orders") ≫= known = Some "pk" ∧
    (t !! "users") ≫= known = Some "id" ∧ ∀ id, ¬ looker learned id "orders".
Proof.
  destruct (resolver_refines_tables info0 learned learned_reachable) as (t & Ht & Hc & _ & Hl).
  assert (Ho : (t !! "orders") ≫= known = Some "pk") by (rewrite <-Hc; vm_compute; reflexivity).
  exists t. split; [exact Ht|]. split; [exact Ho|]. split; [rewrite <-Hc; vm_compute; reflexivity|].
  intros id Hlook. apply Hl in Hlook. rewrite Hlook in Ho. discriminate Ho.
Defined.

Lemma partition_key_final_witness :
  get_partition_key (shared asked) "users" = Some "id".
Proof.
  apply (partition_key_final info0 idle_system asked "users" "id");
    [apply rtc_refl|exact asked_reachable|reflexivity].
Defined.

(** The call runs on its own: its lookup ends with the name of the key. *)
Example call_learns :
  let '(a, r) := run_steps 7 calm (TStopped "orders") (new_with_timeout info0) in
  let '(a, r) := step found a r in
  (a, get_partition_key r "orders") = (DCleanup "orders", Some "pk").
Proof. reflexivity. Qed.

End witnesses.
