(* ===== verification/AffinityPlan.v ===== *)
(** * Affinity plans ([AffinityQueryPlanInterceptor] and
      [vote_preference_order] of [src/src/interceptors.rs])

    How a request's query plan is chosen: a qualifying single-item write gets
    the seeded plan of its partition key, a qualifying batch the plan of its
    voted coordinators, everything else round robin.  A key whose table is not
    cached triggers a background discovery and does not take part.

    The theorems: equal keys get equal plans whatever the kind of write; a batch
    plan is its membership sorted by votes and then by URL, so neither the
    iteration order of the request's hash map nor that of the vote table
    matters; and a plan is always produced, over a full membership. *)

From S2P Require Import Prelude UrlApi RoutingScope LiveNodes Hasher Classifier.
From S2P Require Import DeterministicRng QueryPlan DiscoveryTasks Resolver.

(** The iteration order of a [HashMap<Arc<Url>, usize>]. *)
Class HashOrder `{UrlApi} := into_iter : gmap Url nat → list (Url * nat).
Class HashOrderLaws `{HashOrder} : Prop := {
  into_iter_perm : ∀ m, into_iter m ≡ₚ map_to_list m;
}.

(** The order of the votes: more votes first, then by URL. *)
Definition vote_le `{UrlApi} (x y : Url * nat) : Prop :=
  y.2 < x.2 ∨ y.2 = x.2 ∧ String.le (as_str x.1) (as_str y.1).
#[export] Instance vote_le_dec `{UrlApi} : RelDecision vote_le.
Proof. unfold vote_le. intros x y. apply _. Defined.

(** What a plan takes from its surroundings: the clock and the ambient
    runtime, for the discoveries it triggers. *)
Record PlanEnv := mkEnv { env_now : Z; env_runtime : bool }.

Module AffinityPlan.
Section affinity.
Context `{UrlApi, !HashOrder, Murmur3, TaskApi}.

(** [vote_preference_order]. *)
Definition vote_preference_order (votes : gmap Url nat) : option (list Url) :=
  match into_iter votes with
  | [] => None
  | (_ :: _) as voted_nodes => Some (fst <$> merge_sort vote_le voted_nodes)
  end.

(** [candidate_partition_key_hash]. *)
Definition candidate_partition_key_hash (e : PlanEnv) (candidate : PartitionKeyCandidate)
    (r : PartitionKeyResolver) : option Z * PartitionKeyResolver :=
  match Resolver.get_partition_key r (table_name candidate) with
  | Some pk_name =>
      (pk_value ← attributes candidate !! pk_name; Hasher.hash_attribute_value pk_value, r)
  | None =>
      (None, snd (Resolver.trigger_discovery (env_now e) (env_runtime e) (table_name candidate) r))
  end.

(** The single-item loop: the hash of the first candidate that has one. *)
Fixpoint first_hash (e : PlanEnv) (candidates : list PartitionKeyCandidate)
    (r : PartitionKeyResolver) : option Z * PartitionKeyResolver :=
  match candidates with
  | [] => (None, r)
  | candidate :: rest =>
      match candidate_partition_key_hash e candidate r with
      | (Some hash, r) => (Some hash, r)
      | (None, r) => first_hash e rest r
      end
  end.

(** [*votes.entry(preferred_node).or_insert(0) += 1]. *)
Definition add_vote (preferred_node : Url) (votes : gmap Url nat) : gmap Url nat :=
  <[preferred_node := default 0 (votes !! preferred_node) + 1]> votes.

(** How the batch loop ends. *)
Inductive Tally : Type :=
| Votes (votes : gmap Url nat)
| NoNode
| Panicked.

(** The batch loop. *)
Fixpoint vote_loop (e : PlanEnv) (affinity_nodes : SortedAffinityNodes)
    (candidates : list PartitionKeyCandidate) (votes : gmap Url nat)
    (r : PartitionKeyResolver) : Tally * PartitionKeyResolver :=
  match candidates with
  | [] => (Votes votes, r)
  | candidate :: rest =>
      match candidate_partition_key_hash e candidate r with
      | (None, r) => vote_loop e affinity_nodes rest votes r
      | (Some hash, r) =>
          match Plan.preferred_node_for_hash affinity_nodes hash with
          | None => (Panicked, r)
          | Some None => (NoNode, r)
          | Some (Some preferred_node) =>
              vote_loop e affinity_nodes rest (add_vote preferred_node votes) r
          end
      end
  end.

(** [try_affinity_plan]; the outer [None] is a panic. *)
Definition try_affinity_plan (cfg : KeyRouteAffinityConfig) (e : PlanEnv)
    (affinity_view : NodeView) (input : Input) (r : PartitionKeyResolver)
    : option (option QueryPlanState) * PartitionKeyResolver :=
  if negb (Affinity.is_enabled cfg) then (Some None, r)
  else
    match Classifier.from_input input with
    | None => (Some None, r)
    | Some op =>
        if negb (Classifier.should_apply op (affinity_type cfg)) then (Some None, r)
        else
          let candidates := Classifier.partition_key_candidates op in
          match op with
          | BatchWrite _ =>
              let affinity_nodes := Plan.sorted_affinity_nodes affinity_view in
              match vote_loop e affinity_nodes candidates ∅ r with
              | (Panicked, r) => (None, r)
              | (NoNode, r) => (Some None, r)
              | (Votes votes, r) =>
                  (Some (preferred_nodes ← vote_preference_order votes;
                         Some (Plan.new_with_preferred_nodes preferred_nodes affinity_nodes)), r)
              end
          | _ =>
              match first_hash e candidates r with
              | (None, r) => (Some None, r)
              | (Some hash, r) => (Some <$> Plan.new_with_hash affinity_view hash, r)
              end
          end
    end.

(** [get_query_plan]; [None] is a panic. *)
Definition get_query_plan (cfg : KeyRouteAffinityConfig) (e : PlanEnv)
    (affinity_view : NodeView) (input : Input) (r : PartitionKeyResolver)
    : option QueryPlanState * PartitionKeyResolver :=
  let '(plan, r) := try_affinity_plan cfg e affinity_view input r in
  (default Plan.new_basic <$> plan, r).

(** ** Specification *)

(** The hash of a candidate, given the cached key names. *)
Definition key_hash (names : gmap string string) (c : PartitionKeyCandidate) : option Z :=
  pk_name ← names !! table_name c;
  pk_value ← attributes c !! pk_name;
  Hasher.hash_attribute_value pk_value.

(** The node a hash votes for. *)
Definition vote_of (s : SortedAffinityNodes) (hash : Z) : option Url :=
  mjoin (Plan.preferred_node_for_hash s hash).

(** The number of votes of a node. *)
Definition votes_for (s : SortedAffinityNodes) (hashes : list Z) (n : Url) : nat :=
  length (filter (λ h, vote_of s h = Some n) hashes).

(** More votes first, then by URL. *)
Definition preferred_over (votes : Url → nat) (x y : Url) : Prop :=
  vote_le (x, votes x) (y, votes y).

End affinity.
End AffinityPlan.

Module AffinityPlanFacts.
Import AffinityPlan.

Lemma StronglySorted_fmap_2 {A B} (g : A → B) (R : B → B → Prop) (l : list A) :
  StronglySorted R (g <$> l) → StronglySorted (λ x y, R (g x) (g y)) l.
Proof.
  induction l as [|x l IH]; simpl; [constructor|].
  intros [Hl Hx]%StronglySorted_inv. constructor; [by apply IH|].
  rewrite Forall_fmap in Hx. exact Hx.
Qed.

(** ** The vote order *)

Section vote_order.
Context `{UrlApi}.

#[export] Instance vote_le_total : Total vote_le.
Proof.
  intros x y. unfold vote_le. destruct (Nat.lt_total (x.2) (y.2)) as [Hlt|[Heq|Hlt]].
  - right. by left.
  - destruct (total String.le (as_str x.1) (as_str y.1)); [left|right]; right; by split.
  - left. by left.
Qed.
#[export] Instance vote_le_trans : Transitive vote_le.
Proof.
  intros x y z. unfold vote_le. intros [|[? ?]] [|[? ?]]; [left; lia|left; lia|left; lia|].
  right. split; [lia|by etrans].
Qed.
#[export] Instance preferred_over_antisymm `{!UrlEqLaws} votes : AntiSymm (=) (preferred_over votes).
Proof.
  intros x y. unfold preferred_over, vote_le. simpl. intros [|[? Hxy]] [|[? Hyx]]; try lia.
  apply (inj as_str). by apply (anti_symm String.le).
Qed.

End vote_order.

Lemma StronglySorted_app_2 {A} (R : A → A → Prop) (l1 l2 : list A) :
  StronglySorted R l1 → StronglySorted R l2 →
  (∀ x y, x ∈ l1 → y ∈ l2 → R x y) → StronglySorted R (l1 ++ l2).
Proof.
  intros H1 H2 Hc. induction H1 as [|x l1 H1 IH Hx]; [done|]. simpl. constructor.
  - apply IH. intros a b Ha Hb. apply Hc; [by right|done].
  - apply Forall_app. split; [done|]. apply Forall_forall. intros y Hy. apply Hc; [by left|done].
Qed.

Lemma StronglySorted_sublist {A} (R : A → A → Prop) (l1 l2 : list A) :
  l1 `sublist_of` l2 → StronglySorted R l2 → StronglySorted R l1.
Proof.
  induction 1 as [|x l1 l2 Hs IH|x l1 l2 Hs IH]; [done| |].
  - intros [Hs2 Hx]%StronglySorted_inv. constructor; [by apply IH|].
    rewrite Forall_forall in Hx |- *. intros y Hy. by apply Hx, (sublist_subseteq _ _ Hs).
  - intros [Hs2 _]%StronglySorted_inv. by apply IH.
Qed.

Lemma StronglySorted_impl_in {A} (R S : A → A → Prop) (l : list A) :
  (∀ x y, x ∈ l → y ∈ l → R x y → S x y) → StronglySorted R l → StronglySorted S l.
Proof.
  intros HRS Hl. induction Hl as [|x l Hl IH Hx]; constructor.
  - apply IH. intros a b Ha Hb. apply HRS; by right.
  - rewrite Forall_forall in Hx |- *. intros y Hy. apply HRS; [by left|by right|auto].
Qed.

Section facts.
Context `{UrlApi, !HashOrder, Murmur3, TaskApi}.
Implicit Types (r : PartitionKeyResolver) (s : SortedAffinityNodes) (v : NodeView).

(** ** Hashes of candidates *)

Lemma candidate_hash_eq e c r :
  fst (candidate_partition_key_hash e c r) = key_hash (cache r) c ∧
  cache (snd (candidate_partition_key_hash e c r)) = cache r.
Proof.
  unfold candidate_partition_key_hash, key_hash, Resolver.get_partition_key.
  destruct (cache r !! table_name c) as [pk|]; simpl; [done|].
  split; [done|]. apply ResolverFacts.trigger_discovery_cache.
Qed.

Lemma first_hash_eq e cs r :
  fst (first_hash e cs r) = head (omap (key_hash (cache r)) cs) ∧
  cache (snd (first_hash e cs r)) = cache r.
Proof.
  revert r. induction cs as [|c cs IH]; intros r; simpl; [done|].
  destruct (candidate_hash_eq e c r) as [Hh Hc].
  destruct (candidate_partition_key_hash e c r) as [[h|] r1]; simpl in *; rewrite <-Hh; [done|].
  rewrite <-Hc. apply IH.
Qed.

(** ** Votes *)

Definition counts (m : gmap Url nat) (f : Url → nat) : Prop :=
  ∀ n, m !! n = match f n with O => None | S _ => Some (f n) end.

Lemma add_vote_counts n m f :
  counts m f → counts (add_vote n m) (λ x, f x + if decide (x = n) then 1 else 0).
Proof.
  intros Hm x. unfold add_vote. destruct (decide (x = n)) as [->|Hx].
  - rewrite lookup_insert_eq, (Hm n). destruct (f n) as [|k] eqn:Hf; simpl; [done|].
    by rewrite Nat.add_comm.
  - rewrite lookup_insert_ne, Nat.add_0_r by done. apply Hm.
Qed.

Lemma counts_ext m f g : (∀ n, f n = g n) → counts m f → counts m g.
Proof. intros Hfg Hm n. rewrite <-Hfg. apply Hm. Qed.

Lemma counts_unique m1 m2 f : counts m1 f → counts m2 f → m1 = m2.
Proof. intros Hm1 Hm2. apply map_eq. intros n. by rewrite Hm1, Hm2. Qed.

Lemma vote_of_in s h n : vote_of s h = Some n → n ∈ nodes s.
Proof.
  unfold vote_of, Plan.preferred_node_for_hash. destruct (nodes s) as [|x l]; [done|].
  destruct (Rng.index _ _) as [[i r]|]; [|done]. cbn [mbind option_bind].
  destruct ((x :: l) !! Z.to_nat i) as [y|] eqn:Hy; [|done]. intros [= <-].
  by apply list_elem_of_lookup_2 in Hy.
Qed.

Lemma preferred_node_total s h :
  (Z.of_nat (length (nodes s)) < 2 ^ 64)%Z → nodes s ≠ [] →
  ∃ n, Plan.preferred_node_for_hash s h = Some (Some n).
Proof.
  intros Hlen Hne. unfold Plan.preferred_node_for_hash.
  destruct (nodes s) as [|x l]; [done|].
  destruct (PlanFacts.index_total (Rng.new (u64_as_i64 h)) (length (x :: l))) as (i & r & Hi & _ & Hlt);
    [apply Rng.new_valid|simpl; lia|done|].
  rewrite Hi. cbn [mbind option_bind].
  destruct (lookup_lt_is_Some_2 (x :: l) _ Hlt) as [y ->]. by exists y.
Qed.

Lemma vote_loop_counts e s cs m f r :
  (Z.of_nat (length (nodes s)) < 2 ^ 64)%Z → nodes s ≠ [] → counts m f →
  ∃ m' r', vote_loop e s cs m r = (Votes m', r') ∧
    counts m' (λ n, f n + votes_for s (omap (key_hash (cache r)) cs) n).
Proof.
  intros Hlen Hne. revert m f r. induction cs as [|c cs IH]; intros m f r Hm; simpl.
  { do 2 eexists. split; [done|]. eapply counts_ext, Hm. intros n. unfold votes_for. simpl. lia. }
  destruct (candidate_hash_eq e c r) as [Hh Hc].
  destruct (candidate_partition_key_hash e c r) as [[h|] r1]; simpl in *; rewrite <-Hh, <-Hc.
  - destruct (preferred_node_total s h Hlen Hne) as [n Hn]. rewrite Hn.
    destruct (IH (add_vote n m) _ r1 (add_vote_counts n m f Hm)) as (m' & r' & -> & Hm').
    do 2 eexists. split; [done|]. eapply counts_ext, Hm'. intros x. unfold votes_for. simpl.
    rewrite filter_cons. assert (Hv : vote_of s h = Some n) by (unfold vote_of; by rewrite Hn).
    rewrite Hv. destruct (decide (x = n)) as [->|Hx].
    + repeat (rewrite decide_True by done). cbn [length]. rewrite <-Nat.add_assoc. f_equal; reflexivity.
    + repeat (rewrite decide_False by congruence). rewrite Nat.add_0_r. reflexivity.
  - apply IH, Hm.
Qed.

Lemma vote_loop_empty e s cs m r :
  nodes s = [] →
  fst (vote_loop e s cs m r) =
    match omap (key_hash (cache r)) cs with [] => Votes m | _ :: _ => NoNode end.
Proof.
  intros Hs. revert r. induction cs as [|c cs IH]; intros r; simpl; [done|].
  destruct (candidate_hash_eq e c r) as [Hh Hc].
  destruct (candidate_partition_key_hash e c r) as [[h|] r1]; simpl in *; rewrite <-Hh.
  - unfold Plan.preferred_node_for_hash. by rewrite Hs.
  - rewrite <-Hc. apply IH.
Qed.

Lemma vote_loop_cache e s cs m r : cache (snd (vote_loop e s cs m r)) = cache r.
Proof.
  revert m r. induction cs as [|c cs IH]; intros m r; simpl; [done|].
  destruct (candidate_hash_eq e c r) as [Hh Hc].
  destruct (candidate_partition_key_hash e c r) as [[h|] r1]; simpl in *; rewrite <-Hc.
  - by destruct (Plan.preferred_node_for_hash s h) as [[n|]|].
  - apply IH.
Qed.

Lemma votes_for_perm s hs1 hs2 n : hs1 ≡ₚ hs2 → votes_for s hs1 n = votes_for s hs2 n.
Proof. intros Hp. unfold votes_for. by rewrite Hp. Qed.

Lemma votes_for_pos s hs n : 0 < votes_for s hs n ↔ ∃ h, h ∈ hs ∧ vote_of s h = Some n.
Proof.
  unfold votes_for. rewrite <-Nat.neq_0_lt_0. split.
  - destruct (filter _ hs) as [|h l] eqn:Hf; [done|]. intros _. exists h.
    assert (Hin : h ∈ filter (λ h, vote_of s h = Some n) hs) by (rewrite Hf; by left).
    by apply list_elem_of_filter in Hin as [? ?].
  - intros (h & Hh & Hv) Hnil%length_zero_iff_nil.
    assert (Hin : h ∈ filter (λ h, vote_of s h = Some n) hs) by (by apply list_elem_of_filter).
    rewrite Hnil in Hin. by apply elem_of_nil in Hin.
Qed.

(** ** All inputs *)

Lemma try_affinity_plan_cache cfg e v i r :
  cache (snd (try_affinity_plan cfg e v i r)) = cache r.
Proof.
  unfold try_affinity_plan. destruct (negb (Affinity.is_enabled cfg)); [done|].
  destruct (Classifier.from_input i) as [op|]; [|done].
  destruct (negb (Classifier.should_apply op (affinity_type cfg))); [done|].
  pose proof (vote_loop_cache e (Plan.sorted_affinity_nodes v)
    (Classifier.partition_key_candidates op) ∅ r) as Hv.
  pose proof (proj2 (first_hash_eq e (Classifier.partition_key_candidates op) r)) as Hf.
  destruct (vote_loop _ _ _ _ _) as [[m| |] rv], (first_hash _ _ _) as [[h|] rf]; by destruct op.
Qed.

Lemma try_affinity_plan_inert cfg e v i r :
  (∀ op, Classifier.from_input i = Some op →
     Classifier.should_apply op (affinity_type cfg) = false) →
  fst (try_affinity_plan cfg e v i r) = Some None ∧ snd (try_affinity_plan cfg e v i r) = r.
Proof.
  intros Hno. unfold try_affinity_plan. destruct (negb (Affinity.is_enabled cfg)); [done|].
  destruct (Classifier.from_input i) as [op|]; [|done]. by rewrite Hno.
Qed.

Lemma vote_loop_no_panic e s cs m r :
  (Z.of_nat (length (nodes s)) < 2 ^ 64)%Z → fst (vote_loop e s cs m r) ≠ Panicked.
Proof.
  intros Hlen. destruct (decide (nodes s = [])) as [Hs|Hs].
  - rewrite vote_loop_empty by done. by destruct (omap _ _).
  - revert m r. induction cs as [|c cs IH]; intros m r; simpl; [done|].
    destruct (candidate_partition_key_hash e c r) as [[h|] r1]; [|by apply IH].
    destruct (preferred_node_total s h Hlen Hs) as [n ->]. apply IH.
Qed.

(** An affinity plan, when one is made, holds the membership. *)
Lemma try_affinity_plan_order cfg e v i r p :
  fst (try_affinity_plan cfg e v i r) = Some (Some p) →
  ∃ order, p = Ordered order 0 ∧ order ≡ₚ live_nodes v.
Proof.
  unfold try_affinity_plan. destruct (negb (Affinity.is_enabled cfg)); [done|].
  destruct (Classifier.from_input i) as [op|]; [|done].
  destruct (negb (Classifier.should_apply op (affinity_type cfg))); [done|].
  set (s := Plan.sorted_affinity_nodes v).
  assert (Hsort : nodes s ≡ₚ live_nodes v) by apply PlanFacts.sort_node_urls_Permutation.
  assert (Hsingle : ∀ h, Some <$> Plan.new_with_hash v h = Some (Some p) →
    ∃ order, p = Ordered order 0 ∧ order ≡ₚ live_nodes v).
  { intros h Hh. destruct (Plan.new_with_hash v h) as [q|] eqn:Hq; [|done]. injection Hh as ->.
    by apply (PlanFacts.new_with_hash_order v h). }
  destruct (vote_loop _ _ _ _ _) as [[m| |] rv], (first_hash _ _ _) as [[h|] rf];
    destruct op; try done; try (apply Hsingle); simpl;
    (destruct (vote_preference_order m) as [l|]; [|done]); cbn [mbind option_bind];
    pose proof (PlanFacts.preferred_loop_Permutation l (nodes s) []) as Hp;
    unfold Plan.new_with_preferred_nodes;
    destruct (Plan.preferred_loop l (nodes s) []) as [ordered rest]; simpl in Hp;
    intros [= <-]; (eexists; split; [done|by rewrite Hp]).
Qed.

Lemma try_affinity_plan_total cfg e v i r :
  (Z.of_nat (length (live_nodes v)) < 2 ^ 64)%Z →
  ∃ o, fst (try_affinity_plan cfg e v i r) = Some o ∧
    match o with
    | None => True
    | Some p => ∃ order, p = Ordered order 0 ∧ order ≡ₚ live_nodes v
    end.
Proof.
  intros Hlen. unfold try_affinity_plan.
  destruct (negb (Affinity.is_enabled cfg)); [by exists None|].
  destruct (Classifier.from_input i) as [op|]; [|by exists None].
  destruct (negb (Classifier.should_apply op (affinity_type cfg))); [by exists None|].
  set (s := Plan.sorted_affinity_nodes v).
  assert (Hsort : nodes s ≡ₚ live_nodes v) by apply PlanFacts.sort_node_urls_Permutation.
  assert (Hsingle : ∀ h, ∃ o, Some <$> Plan.new_with_hash v h = Some o ∧
    match o with None => True | Some p => ∃ order, p = Ordered order 0 ∧ order ≡ₚ live_nodes v end).
  { intros h. destruct (PlanFacts.new_with_hash_total v h Hlen) as (order & -> & Hp).
    eexists. split; [done|]. by exists order. }
  pose proof (vote_loop_no_panic e s (Classifier.partition_key_candidates op) ∅ r) as Hv.
  rewrite Hsort in Hv. specialize (Hv Hlen).
  destruct (vote_loop _ _ _ _ _) as [[m| |] rv], (first_hash _ _ _) as [[h|] rf]; try done;
    destruct op; try (apply Hsingle); try (by exists None); simpl;
    (destruct (vote_preference_order m) as [l|]; [|by exists None]); simpl;
    (eexists; split; [done|]);
    pose proof (PlanFacts.preferred_loop_Permutation l (nodes s) []) as Hp;
    unfold Plan.new_with_preferred_nodes;
    destruct (Plan.preferred_loop l (nodes s) []) as [ordered rest]; simpl in Hp;
    (eexists; split; [done|by rewrite Hp]).
Qed.

Context `{!UrlEqLaws, !HashOrderLaws}.

Lemma vote_preference_order_eq m :
  vote_preference_order m =
    if decide (into_iter m = []) then None else Some (fst <$> merge_sort vote_le (into_iter m)).
Proof.
  unfold vote_preference_order. destruct (into_iter m); [by rewrite decide_True|].
  by rewrite decide_False.
Qed.

(** The voted nodes: each once, sorted by votes and URL. *)
Lemma vote_preference_order_spec m f :
  counts m f →
  match vote_preference_order m with
  | None => ∀ n, f n = 0
  | Some l => l ≠ [] ∧ NoDup l ∧ (∀ n, n ∈ l ↔ 0 < f n) ∧ StronglySorted (preferred_over f) l
  end.
Proof.
  intros Hm. pose proof (into_iter_perm m) as Hp.
  assert (Hf : ∀ n, 0 < f n ↔ (n, f n) ∈ map_to_list m).
  { intros n. rewrite elem_of_map_to_list, Hm. destruct (f n); split; (done || lia). }
  rewrite vote_preference_order_eq. generalize dependent (into_iter m). intros l0 Hp.
  destruct (decide (l0 = [])) as [->|Hne].
  { apply Permutation_nil_l in Hp. intros n. destruct (f n) eqn:Hn; [done|exfalso].
    assert (Hin : 0 < f n) by lia. apply Hf in Hin. rewrite <-Hp in Hin.
    by apply elem_of_nil in Hin. }
  assert (Hs : merge_sort vote_le l0 ≡ₚ map_to_list m).
  { by rewrite merge_sort_Permutation. }
  assert (Hss : StronglySorted vote_le (merge_sort vote_le l0))
    by apply (StronglySorted_merge_sort _).
  assert (Hps0 : merge_sort vote_le l0 ≠ []).
  { intros Hnil. apply Hne, Permutation_nil_r. by rewrite <-Hnil, merge_sort_Permutation. }
  clear Hp. generalize dependent (merge_sort vote_le l0). intros ps Hs Hss Hps0.
  assert (Hps : ps = (λ n, (n, f n)) <$> (fst <$> ps)).
  { rewrite <-list_fmap_compose. symmetry. rewrite <-(list_fmap_id ps) at 2.
    apply list_fmap_ext. intros i [n k] Hi. apply list_elem_of_lookup_2 in Hi.
    rewrite Hs in Hi. apply elem_of_map_to_list in Hi. rewrite Hm in Hi.
    simpl. by destruct (f n); simplify_eq/=. }
  assert (Hnd : NoDup (fst <$> ps)).
  { rewrite Hs. apply NoDup_fst_map_to_list. }
  assert (Hin : ∀ n, n ∈ fst <$> ps ↔ 0 < f n).
  { intros n. rewrite Hf, <-Hs. split.
    - rewrite Hps at 2. intros Hn. apply list_elem_of_fmap. by exists n.
    - intros Hn. apply list_elem_of_fmap. by exists (n, f n). }
  rewrite Hps in Hss. apply StronglySorted_fmap_2 in Hss.
  split_and!; try done. intros Hnil%fmap_nil_inv. done.
Qed.

(** A plan that puts the voted nodes first is sorted by votes. *)
Lemma voted_plan_sorted v (f : Url → nat) (l : list Url) :
  NoDup (live_nodes v) →
  NoDup l → (∀ n, n ∈ l ↔ 0 < f n) → StronglySorted (preferred_over f) l →
  (∀ n, 0 < f n → n ∈ live_nodes v) →
  ∃ order, Plan.new_with_preferred_nodes l (Plan.sorted_affinity_nodes v) = Ordered order 0 ∧
    order ≡ₚ live_nodes v ∧ StronglySorted (preferred_over f) order.
Proof.
  intros Hnd Hl Hin Hss Hlive. unfold Plan.new_with_preferred_nodes. simpl.
  assert (Hsort : Plan.sort_node_urls (live_nodes v) ≡ₚ live_nodes v)
    by apply PlanFacts.sort_node_urls_Permutation.
  destruct (PlanFacts.preferred_loop_all l (Plan.sort_node_urls (live_nodes v)) [])
    as (rest & Heq & Hsub); [done| |].
  { apply Forall_forall. intros n Hn. rewrite Hsort. by apply Hlive, Hin. }
  pose proof (PlanFacts.preferred_loop_Permutation l (Plan.sort_node_urls (live_nodes v)) []) as Hp.
  rewrite Heq in Hp |- *. simpl in Hp |- *. rewrite Hsort in Hp.
  exists (l ++ rest). split; [done|]. split; [done|].
  rewrite <-Hp, NoDup_app in Hnd. destruct Hnd as (_ & Hdisj & _).
  assert (Hzero : ∀ n, n ∈ rest → f n = 0).
  { intros n Hn. destruct (f n) eqn:Hf; [done|exfalso].
    apply (Hdisj n); [apply Hin; lia|done]. }
  apply StronglySorted_app_2; [done| |].
  - apply (StronglySorted_impl_in (key_le as_str)).
    + intros x y Hx Hy Hxy. unfold preferred_over, vote_le. simpl.
      right. rewrite (Hzero x), (Hzero y) by done. by split.
    + eapply StronglySorted_sublist; [exact Hsub|]. apply Sorted_sort_by_key.
  - intros x y Hx Hy. left. simpl. rewrite (Hzero y) by done. by apply Hin.
Qed.

(** What [try_affinity_plan] does with a qualifying batch. *)
Lemma batch_plan_spec cfg e v b r :
  Classifier.should_apply (BatchWrite b) (affinity_type cfg) = true →
  NoDup (live_nodes v) → (Z.of_nat (length (live_nodes v)) < 2 ^ 64)%Z →
  let s := Plan.sorted_affinity_nodes v in
  let hashes := omap (key_hash (cache r))
                  (Classifier.partition_key_candidates (BatchWrite b)) in
  if decide (hashes = [] ∨ live_nodes v = [])
  then fst (try_affinity_plan cfg e v (InBatchWrite b) r) = Some None
  else ∃ order, fst (try_affinity_plan cfg e v (InBatchWrite b) r) = Some (Some (Ordered order 0)) ∧
    order ≡ₚ live_nodes v ∧ StronglySorted (preferred_over (votes_for s hashes)) order.
Proof.
  intros Happ Hnd Hlen s hashes. unfold try_affinity_plan.
  assert (Hen : Affinity.is_enabled cfg = true).
  { unfold Affinity.is_enabled. apply bool_decide_eq_true. intros Hk. by rewrite Hk in Happ. }
  rewrite Hen. cbn [negb Classifier.from_input]. rewrite Happ. cbn [negb].
  assert (Hsort : nodes s ≡ₚ live_nodes v) by apply PlanFacts.sort_node_urls_Permutation.
  fold s. set (cs := Classifier.partition_key_candidates (BatchWrite b)) in *.
  destruct (decide (live_nodes v = [])) as [Hnil|Hne].
  { rewrite decide_True by (by right).
    assert (Hs : nodes s = []) by (apply Permutation_nil_r; by rewrite Hsort, Hnil).
    pose proof (vote_loop_empty e s cs ∅ r Hs) as Hv.
    destruct (vote_loop e s cs ∅ r) as [[m| |] r']; simpl in Hv; fold hashes in Hv;
      destruct hashes; try done. injection Hv as ->. simpl.
    assert (H0' : counts ∅ (λ _, 0)) by (intros n; apply lookup_empty).
    pose proof (vote_preference_order_spec ∅ (λ _, 0) H0') as Hvp.
    destruct (vote_preference_order ∅) as [l|]; [|done]. destruct Hvp as (Hl & _ & Hin & _).
    exfalso. destruct l as [|n l]; [done|]. assert (Hn : n ∈ n :: l) by (by left).
    apply Hin in Hn. lia. }
  assert (Hs : nodes s ≠ []).
  { intros Hs. rewrite Hs in Hsort. by apply Permutation_nil_l in Hsort. }
  destruct (vote_loop_counts e s cs ∅ (λ _, 0) r) as (m & r' & -> & Hm);
    [by rewrite Hsort|done|intros n; apply lookup_empty|].
  fold hashes in Hm. simpl in Hm |- *.
  pose proof (vote_preference_order_spec m _ Hm) as Hvp.
  destruct (decide (hashes = [])) as [Hnil|Hhash].
  { rewrite decide_True by (by left). rewrite Hnil in Hvp.
    destruct (vote_preference_order m) as [l|]; [|done].
    destruct Hvp as (Hl & _ & Hin & _). exfalso. destruct l as [|n l]; [done|].
    assert (Hn : n ∈ n :: l) by (by left). apply Hin in Hn. unfold votes_for in Hn. simpl in Hn. lia. }
  rewrite decide_False by naive_solver.
  destruct (vote_preference_order m) as [l|].
  - destruct Hvp as (_ & Hl & Hin & Hss). simpl.
    destruct (voted_plan_sorted v (votes_for s hashes) l Hnd Hl Hin Hss) as (order & Ho & Hp & Hs').
    + intros n (h & _ & Hv)%votes_for_pos. rewrite <-Hsort. by eapply vote_of_in.
    + exists order. fold s in Ho. by rewrite Ho.
  - exfalso. destruct hashes as [|h hs]; [done|].
    destruct (preferred_node_total s h) as [n Hn]; [by rewrite Hsort|done|].
    specialize (Hvp n). assert (Hpos : 0 < votes_for s (h :: hs) n); [|lia].
    apply votes_for_pos. exists h. split; [by left|]. unfold vote_of. by rewrite Hn.
Qed.

End facts.
End AffinityPlanFacts.

(** ** Properties *)

Section properties.
Context `{UrlApi, !UrlEqLaws, !HashOrder, Murmur3, TaskApi}.
Import AffinityPlan AffinityPlanFacts.
Implicit Types (r : PartitionKeyResolver) (v : NodeView).

(** C18: a batch plan is its affinity membership sorted by votes: every key of
    the batch whose hash is known votes for the first node of its own seeded
    plan, nodes with more votes come first, and ties, the nodes without votes
    among them, are in URL order.  Without a known key the batch is not
    affinity-routed. *)
Theorem batch_plan_sorted_by_votes `{!HashOrderLaws} cfg e v (b : BatchWriteItemInput) r :
  Classifier.should_apply (BatchWrite b) (affinity_type cfg) = true →
  NoDup (live_nodes v) → (Z.of_nat (length (live_nodes v)) < 2 ^ 64)%Z →
  let s := Plan.sorted_affinity_nodes v in
  let hashes := omap (key_hash (cache r))
                  (Classifier.partition_key_candidates (BatchWrite b)) in
  if decide (hashes = [] ∨ live_nodes v = [])
  then fst (try_affinity_plan cfg e v (InBatchWrite b) r) = Some None
  else ∃ order, fst (try_affinity_plan cfg e v (InBatchWrite b) r) = Some (Some (Ordered order 0)) ∧
    order ≡ₚ live_nodes v ∧ StronglySorted (preferred_over (votes_for s hashes)) order.
Proof. apply batch_plan_spec. Qed.

(** C29: equal keys meet: two qualifying single-item writes (puts, updates or
    deletes, under any qualifying mode, on any client) whose keys hash alike get
    the same plan from equal memberships, a seeded permutation of all nodes, so
    contending writers of an item start at the same coordinator. *)
Theorem same_key_same_plan cfg1 cfg2 e1 e2 v1 v2 (i1 i2 : Input) op1 op2 c1 c2 h r1 r2 :
  Classifier.from_input i1 = Some op1 → Classifier.from_input i2 = Some op2 →
  Classifier.partition_key_candidates op1 = [c1] →
  Classifier.partition_key_candidates op2 = [c2] →
  (∀ b, op1 ≠ BatchWrite b) → (∀ b, op2 ≠ BatchWrite b) →
  Classifier.should_apply op1 (affinity_type cfg1) = true →
  Classifier.should_apply op2 (affinity_type cfg2) = true →
  key_hash (cache r1) c1 = Some h → key_hash (cache r2) c2 = Some h →
  live_nodes v1 ≡ₚ live_nodes v2 → (Z.of_nat (length (live_nodes v1)) < 2 ^ 64)%Z →
  ∃ order, order ≡ₚ live_nodes v1 ∧
    try_affinity_plan cfg1 e1 v1 i1 r1 = (Some (Some (Ordered order 0)), r1) ∧
    try_affinity_plan cfg2 e2 v2 i2 r2 = (Some (Some (Ordered order 0)), r2).
Proof.
  assert (Hone : ∀ cfg e v i op c r order,
    Classifier.from_input i = Some op → Classifier.partition_key_candidates op = [c] →
    (∀ b, op ≠ BatchWrite b) → Classifier.should_apply op (affinity_type cfg) = true →
    key_hash (cache r) c = Some h → Plan.new_with_hash v h = Some (Ordered order 0) →
    try_affinity_plan cfg e v i r = (Some (Some (Ordered order 0)), r)).
  { intros cfg e v i op c r order Hi Hc Hb Happ Hh Ho. unfold try_affinity_plan.
    assert (Hen : Affinity.is_enabled cfg = true).
    { unfold Affinity.is_enabled. apply bool_decide_eq_true. intros Hk. by rewrite Hk in Happ. }
    rewrite Hen, Hi, Happ, Hc. cbn [negb].
    assert (Hf : first_hash e [c] r = (Some h, r)).
    { simpl. unfold candidate_partition_key_hash, Resolver.get_partition_key.
      unfold key_hash in Hh. destruct (cache r !! table_name c); [|done].
      cbn [mbind option_bind] in Hh. by rewrite Hh. }
    rewrite Hf. destruct op; [..|by exfalso; eapply Hb]; by rewrite Ho. }
  intros Hi1 Hi2 Hc1 Hc2 Hb1 Hb2 Ha1 Ha2 Hh1 Hh2 Hv Hlen.
  destruct (PlanFacts.new_with_hash_total v1 h Hlen) as (order & Ho & Hp).
  exists order. split; [done|]. split; [by eapply Hone|]. eapply Hone; try done.
  rewrite <-Ho. unfold Plan.new_with_hash, Plan.sorted_affinity_nodes, Plan.from_live_nodes.
  unfold Plan.sort_node_urls. by rewrite (sort_by_key_canonical as_str _ _ Hv).
Qed.

(** Every request gets a plan and nothing panics: a fresh round-robin plan,
    or an order of the whole affinity membership.  With affinity switched off,
    and for every operation that does not qualify, it is round robin and the
    resolver is not consulted; planning never changes a cached key name. *)
Theorem query_plan_total cfg e v (i : Input) r :
  (Z.of_nat (length (live_nodes v)) < 2 ^ 64)%Z →
  let '(plan, r') := get_query_plan cfg e v i r in
  (∃ p, plan = Some p ∧
     (p = Plan.new_basic ∨ ∃ order, p = Ordered order 0 ∧ order ≡ₚ live_nodes v)) ∧
  cache r' = cache r ∧
  ((∀ op, Classifier.from_input i = Some op →
     Classifier.should_apply op (affinity_type cfg) = false) →
   plan = Some Plan.new_basic ∧ r' = r).
Proof.
  intros Hlen. unfold get_query_plan.
  destruct (try_affinity_plan_total cfg e v i r Hlen) as (o & Ho & Hplan).
  pose proof (try_affinity_plan_cache cfg e v i r) as Hcache.
  pose proof (try_affinity_plan_inert cfg e v i r) as Hinert.
  destruct (try_affinity_plan cfg e v i r) as [plan r']. simpl in *. subst plan.
  split; [|split; [done|]].
  - destruct o as [p|]; eexists; (split; [done|]); [right|by left]. exact Hplan.
  - intros Hno. destruct (Hinert Hno) as [[= ->] ->]. done.
Qed.

End properties.

Section order_independence.
Context `{UrlApi, !UrlEqLaws, Murmur3, TaskApi}.
Import AffinityPlan AffinityPlanFacts.

(** Hash-map iteration orders do not show: a batch gets the same plan on
    every client that knows the same nodes and key names, whatever the order
    in which it iterates over the request's tables, over its vote table or over
    its membership. *)
Theorem batch_plan_order_independent (ho1 ho2 : HashOrder)
    (hl1 : @HashOrderLaws _ ho1) (hl2 : @HashOrderLaws _ ho2)
    cfg e1 e2 (v1 v2 : NodeView) b1 b2 (r1 r2 : PartitionKeyResolver) :
  Classifier.should_apply (BatchWrite b1) (affinity_type cfg) = true →
  NoDup (live_nodes v1) → (Z.of_nat (length (live_nodes v1)) < 2 ^ 64)%Z →
  live_nodes v1 ≡ₚ live_nodes v2 →
  default [] (request_items b1) ≡ₚ default [] (request_items b2) →
  cache r1 = cache r2 →
  fst (@try_affinity_plan _ ho1 _ _ cfg e1 v1 (InBatchWrite b1) r1) =
  fst (@try_affinity_plan _ ho2 _ _ cfg e2 v2 (InBatchWrite b2) r2).
Proof.
  intros Happ Hnd Hlen Hv Hb Hc.
  assert (Hnd2 : NoDup (live_nodes v2)) by (by rewrite <-Hv).
  assert (Hlen2 : (Z.of_nat (length (live_nodes v2)) < 2 ^ 64)%Z) by (by rewrite <-Hv).
  pose proof (@batch_plan_spec _ ho1 _ _ hl1 cfg e1 v1 b1 r1 Happ Hnd Hlen) as Hspec1.
  pose proof (@batch_plan_spec _ ho2 _ _ hl2 cfg e2 v2 b2 r2 Happ Hnd2 Hlen2) as Hspec2.
  cbv zeta in Hspec1, Hspec2.
  assert (Hs : Plan.sorted_affinity_nodes v1 = Plan.sorted_affinity_nodes v2).
  { unfold Plan.sorted_affinity_nodes, Plan.from_live_nodes, Plan.sort_node_urls.
    by rewrite (sort_by_key_canonical as_str _ _ Hv). }
  assert (Hh : omap (key_hash (cache r1)) (Classifier.partition_key_candidates (BatchWrite b1))
    ≡ₚ omap (key_hash (cache r2)) (Classifier.partition_key_candidates (BatchWrite b2))).
  { rewrite Hc. simpl. by rewrite (ClassifierFacts.batch_candidates_Permutation _ _ Hb). }
  rewrite Hs in Hspec1. revert Hspec1 Hspec2.
  generalize dependent (omap (key_hash (cache r1))
    (Classifier.partition_key_candidates (BatchWrite b1))).
  generalize (omap (key_hash (cache r2))
    (Classifier.partition_key_candidates (BatchWrite b2))). intros hs2 hs1 Hh Hspec1 Hspec2.
  destruct (decide (hs1 = [] ∨ live_nodes v1 = [])) as [Hn|Hn].
  - rewrite decide_True in Hspec2; [congruence|]. destruct Hn as [->|Hn].
    + left. by apply Permutation_nil_l in Hh.
    + right. rewrite Hn in Hv. by apply Permutation_nil_l in Hv.
  - rewrite decide_False in Hspec2; cycle 1.
    { intros [->|Hn2]; apply Hn; [left; by apply Permutation_nil_r in Hh|right].
      rewrite Hn2 in Hv. by apply Permutation_nil_r in Hv. }
    destruct Hspec1 as (o1 & -> & Hp1 & Hs1), Hspec2 as (o2 & -> & Hp2 & Hs2).
    do 2 f_equal. f_equal. apply (StronglySorted_unique
      (preferred_over (votes_for (Plan.sorted_affinity_nodes v2) hs2))).
    + eapply StronglySorted_impl_in; [|exact Hs1]. intros x y _ _. unfold preferred_over.
      by rewrite !(votes_for_perm _ _ _ _ Hh).
    + done.
    + by rewrite Hp1, Hp2.
Qed.

End order_independence.

Section witnesses.
Import AffinityPlan AffinityPlanFacts StrUrl.

Definition list_order : @HashOrder api := λ m, map_to_list m.
Definition list_order_laws : @HashOrderLaws api list_order.
Proof. split. reflexivity. Qed.
Definition reverse_order : @HashOrder api := λ m, reverse (map_to_list m).
Definition reverse_order_laws : @HashOrderLaws api reverse_order.
Proof. split. intros m. apply reverse_Permutation. Qed.

Definition any_write : KeyRouteAffinityConfig := Affinity.from_type AnyWrite.
Definition env0 : PlanEnv := mkEnv 0 true.
Definition orders_key : gmap string string := <["orders" := "pk"]> ∅.
Definition known : @PartitionKeyResolver ListTasks.api := Resolver.new_with_timeout orders_key.
Definition item (k : string) : attr_map := <["pk" := AvS k]> ∅.
Definition three : @NodeView api :=
  @View.new api Scope.from_cluster ["http://a/"; "http://b/"; "http://c/"].
Definition three' : @NodeView api :=
  @View.new api Scope.from_cluster ["http://c/"; "http://a/"; "http://b/"].
Definition batch : BatchWriteItemInput :=
  mkBatch (Some [("orders", [mkWrite None (Some (item "k1")); mkWrite (Some (item "k2")) None;
                             mkWrite None (Some (item "k1"))]); ("items", [])]).
Definition batch' : BatchWriteItemInput :=
  mkBatch (Some [("items", []); ("orders", [mkWrite None (Some (item "k1"));
                  mkWrite (Some (item "k2")) None; mkWrite None (Some (item "k1"))])]).
Definition put : PutItemInput := mkPut (Some "orders") (Some (item "k1")) None None None.
Definition del : DeleteItemInput := mkDelete (Some "orders") (Some (item "k1")) None None None.

Lemma three_nodup : NoDup (live_nodes three).
Proof. by apply (bool_decide_unpack _). Qed.
Lemma three_perm : live_nodes three ≡ₚ live_nodes three'.
Proof. symmetry. apply (Permutation_cons_append ["http://a/"; "http://b/"] "http://c/"). Qed.

Lemma batch_plan_sorted_by_votes_witness :
  let s := Plan.sorted_affinity_nodes three in
  let hashes := omap (@key_hash sum_hash orders_key)
                  (Classifier.partition_key_candidates (BatchWrite batch)) in
  if decide (hashes = [] ∨ live_nodes three = [])
  then fst (@try_affinity_plan api list_order sum_hash ListTasks.api any_write env0 three
              (InBatchWrite batch) known) = Some None
  else ∃ order, fst (@try_affinity_plan api list_order sum_hash ListTasks.api any_write env0 three
              (InBatchWrite batch) known) = Some (Some (Ordered order 0)) ∧
    order ≡ₚ live_nodes three ∧ StronglySorted (preferred_over (votes_for s hashes)) order.
Proof.
  apply (@batch_plan_sorted_by_votes api list_order sum_hash ListTasks.api
    list_order_laws any_write env0 three batch known).
  - reflexivity.
  - apply three_nodup.
  - simpl. lia.
Defined.

Lemma batch_plan_order_independent_witness :
  fst (@try_affinity_plan api list_order sum_hash ListTasks.api any_write env0 three
         (InBatchWrite batch) known) =
  fst (@try_affinity_plan api reverse_order sum_hash ListTasks.api any_write env0 three'
         (InBatchWrite batch') known).
Proof.
  apply (@batch_plan_order_independent api eq_laws sum_hash ListTasks.api
    list_order reverse_order list_order_laws reverse_order_laws).
  - reflexivity.
  - apply three_nodup.
  - simpl. lia.
  - apply three_perm.
  - apply perm_swap.
  - reflexivity.
Defined.

Lemma same_key_same_plan_witness :
  ∃ order, order ≡ₚ live_nodes three ∧
    @try_affinity_plan api list_order sum_hash ListTasks.api any_write env0 three (InPut put) known
      = (Some (Some (Ordered order 0)), known) ∧
    @try_affinity_plan api list_order sum_hash ListTasks.api any_write env0 three' (InDelete del)
      known = (Some (Some (Ordered order 0)), known).
Proof.
  apply (@same_key_same_plan api eq_laws list_order sum_hash ListTasks.api any_write any_write
    env0 env0 three three' (InPut put) (InDelete del) (Put put) (Delete del)
    (mkCandidate "orders" (item "k1")) (mkCandidate "orders" (item "k1"))
    (default 0%Z (@key_hash sum_hash orders_key (mkCandidate "orders" (item "k1"))))
    known known); try reflexivity; try discriminate.
  - apply three_perm.
Defined.

Lemma query_plan_total_witness :
  let '(plan, r') := @get_query_plan api list_order sum_hash ListTasks.api any_write env0 three
    (InPut put) known in
  (∃ p, plan = Some p ∧
     (p = Plan.new_basic ∨ ∃ order, p = Ordered order 0 ∧ order ≡ₚ live_nodes three)) ∧
  cache r' = cache known ∧
  ((∀ op, Classifier.from_input (InPut put) = Some op →
     Classifier.should_apply op (affinity_type any_write) = false) →
   plan = Some Plan.new_basic ∧ r' = known).
Proof.
  apply (@query_plan_total api list_order sum_hash ListTasks.api any_write env0 three (InPut put)
    known). simpl. lia.
Defined.

(** Two votes against one, and the node without a vote last. *)
Example batch_example :
  fst (@try_affinity_plan api list_order sum_hash ListTasks.api any_write env0 three
         (InBatchWrite batch) known) =
  Some (Some (Ordered ["http://c/"; "http://a/"; "http://b/"] 0)).
Proof. vm_refl. Qed.

End witnesses.
