(* ===== verification/Http.v ===== *)
(** * Requests, headers and header text

    The interface to the SDK's header map and the [str] operations the header
    code uses.  Header names are lower case, as the map stores them; values are
    UTF-8.  [ListHeaders] is a concrete map, for the witnesses. *)

From S2P Require Import Prelude NodeUrl.
From Stdlib Require Import Ascii.
From Stdlib Require Import Strings.Byte.

(** ** [aws_smithy_runtime_api::http::Headers] *)

Class HeaderApi := {
  Headers : Type;
  (** [get_all(name)]: the values of a name, in order. *)
  get_all : Headers → string → list string;
  (** The names that [iter] walks through (a name once per value). *)
  keys : Headers → list string;
  (** [insert], [append], [remove]. *)
  insert_header : Headers → string → string → Headers;
  append_header : Headers → string → string → Headers;
  remove_header : Headers → string → Headers;
  (** Whether a string is a valid header value ([try_insert] fails otherwise). *)
  valid_value : string → bool;
}.

(** The documented behaviour, observed through [get_all]. *)
Class HeaderLaws `{HeaderApi} : Prop := {
  elem_of_keys : ∀ h k, k ∈ keys h ↔ get_all h k ≠ [];
  get_all_insert : ∀ h k v k',
    get_all (insert_header h k v) k' = if decide (k' = k) then [v] else get_all h k';
  get_all_append : ∀ h k v k',
    get_all (append_header h k v) k' =
      if decide (k' = k) then get_all h k ++ [v] else get_all h k';
  get_all_remove : ∀ h k k',
    get_all (remove_header h k) k' = if decide (k' = k) then [] else get_all h k';
}.

(** [SdkBody]: collected bytes, or a stream that [bytes()] does not show. *)
Inductive Body (Stream : Type) : Type :=
| Collected (b : list byte)
| Streaming (s : Stream).
Arguments Collected {Stream} b.
Arguments Streaming {Stream} s.

(** [SdkBody::bytes]. *)
Definition body_bytes {Stream} (b : Body Stream) : option (list byte) :=
  match b with
  | Collected b => Some b
  | Streaming _ => None
  end.

(** [Request] and [Response], by the parts the driver touches. *)
Record Request `{HeaderApi} (Stream : Type) := mkRequest {
  uri : string;
  headers : Headers;
  body : Body Stream;
}.
Arguments mkRequest {_ Stream} uri headers body.
Arguments uri {_ Stream} r.
Arguments headers {_ Stream} r.
Arguments body {_ Stream} r.

Module Http.
Section http.
Context `{HeaderApi} {Stream : Type}.

Definition contains_key (h : Headers) (k : string) : bool := negb (bool_decide (get_all h k = [])).

Definition try_insert (h : Headers) (k v : string) : option Headers :=
  if valid_value v then Some (insert_header h k v) else None.

Definition set_headers (h : Headers) (r : Request Stream) : Request Stream :=
  mkRequest (uri r) h (body r).
Definition set_body (b : Body Stream) (r : Request Stream) : Request Stream :=
  mkRequest (uri r) (headers r) b.
Definition set_uri (u : string) (r : Request Stream) : Request Stream :=
  mkRequest u (headers r) (body r).

End http.
End Http.

(** ** [str] *)

Module Str.

(** [split(c)]: never empty. *)
Fixpoint split (c : Ascii.ascii) (s : string) : list string :=
  match s with
  | EmptyString => [EmptyString]
  | String a s' =>
      if Ascii.eqb a c then EmptyString :: split c s'
      else match split c s' with
           | [] => [String a EmptyString]
           | w :: ws => String a w :: ws
           end
  end.

(** [split_once(c)]. *)
Fixpoint split_once (c : Ascii.ascii) (s : string) : option (string * string) :=
  match s with
  | EmptyString => None
  | String a s' =>
      if Ascii.eqb a c then Some (EmptyString, s')
      else (λ '(x, y), (String a x, y)) <$> split_once c s'
  end.

(** [contains(c)]. *)
Fixpoint contains (c : Ascii.ascii) (s : string) : bool :=
  match s with
  | EmptyString => false
  | String a s' => Ascii.eqb a c || contains c s'
  end.

(** [bytes().any(p)]. *)
Fixpoint any (p : Ascii.ascii → bool) (s : string) : bool :=
  match s with
  | EmptyString => false
  | String a s' => p a || any p s'
  end.

Fixpoint of_codes (l : list N) : string :=
  match l with
  | [] => EmptyString
  | n :: l' => String (Ascii.ascii_of_N n) (of_codes l')
  end.

(** The characters with the Unicode property [White_Space], in UTF-8. *)
Definition white_space : list string :=
  of_codes <$>
    ([[9]; [10]; [11]; [12]; [13]; [32]; [194; 133]; [194; 160]; [225; 154; 128]] ++
     ((λ n, [226; 128; n]) <$> [128; 129; 130; 131; 132; 133; 134; 135; 136; 137; 138; 168; 169; 175]) ++
     [[226; 129; 159]; [227; 128; 128]])%N.

(** One whitespace character less in front. *)
Definition strip_space (spaces : list string) (s : string) : option string :=
  head (omap (λ w, strip_prefix w s) spaces).

Fixpoint trim_fuel (fuel : nat) (spaces : list string) (s : string) : string :=
  match fuel with
  | O => s
  | S fuel' =>
      match strip_space spaces s with
      | Some s' => trim_fuel fuel' spaces s'
      | None => s
      end
  end.

(** [trim]: the length bounds the number of characters. *)
Definition trim_start (s : string) : string := trim_fuel (String.length s) white_space s.
Definition trim_end (s : string) : string :=
  String.rev (trim_fuel (String.length s) (String.rev <$> white_space) (String.rev s)).
Definition trim (s : string) : string := trim_end (trim_start s).

(** [join]. *)
Fixpoint join (sep : string) (l : list string) : string :=
  match l with
  | [] => EmptyString
  | [x] => x
  | x :: l' => String.app x (String.app sep (join sep l'))
  end.

(** [usize::to_string]. *)
Fixpoint show_fuel (fuel : nat) (n : N) (acc : string) : string :=
  match fuel with
  | O => acc
  | S f =>
      let acc := String (Ascii.ascii_of_N (48 + n `mod` 10)) acc in
      if decide (n < 10)%N then acc else show_fuel f (n / 10)%N acc
  end.
Definition show_nat (n : nat) : string := show_fuel (S n) (N.of_nat n) EmptyString.

Example trim_examples :
  trim <$> [" gzip "; "gzip"; of_codes [194; 160; 97; 32; 98; 226; 128; 137]%N; "   "] =
  ["gzip"; "gzip"; "a b"; EmptyString].
Proof. vm_refl. Qed.

End Str.

(** ** A header map as a list of lines *)

Module ListHeaders.

Definition at_key (k : string) (l : list (string * string)) : list (string * string) :=
  filter (λ p, p.1 = k) l.
Definition not_at_key (k : string) (l : list (string * string)) : list (string * string) :=
  filter (λ p, p.1 ≠ k) l.

#[export] Instance api : HeaderApi := {|
  Headers := list (string * string);
  get_all h k := snd <$> at_key k h;
  keys h := fst <$> h;
  insert_header h k v := not_at_key k h ++ [(k, v)];
  append_header h k v := h ++ [(k, v)];
  remove_header h k := not_at_key k h;
  valid_value v := str_all (λ c, N.leb 32 (AsciiClass.code c) && N.ltb (AsciiClass.code c) 127) v;
|}.

Lemma at_not_at k k' l :
  at_key k' (not_at_key k l) = if decide (k' = k) then [] else at_key k' l.
Proof.
  unfold at_key, not_at_key. induction l as [|[a b] l IH]; [by case_decide|].
  rewrite !filter_cons. simpl. destruct (decide (k' = k)) as [->|Hk].
  - destruct (decide (a ≠ k)) as [Ha|Ha]; [|done].
    rewrite filter_cons, decide_False by done. done.
  - destruct (decide (a ≠ k)) as [Ha|Ha].
    + rewrite filter_cons. simpl. case_decide; by rewrite IH.
    + rewrite IH. rewrite decide_False; [done|]. simpl. intros ->. by apply Ha; intros ->.
Qed.

#[export] Instance laws : HeaderLaws.
Proof.
  assert (Hsing : ∀ k k' (v : string), at_key k' [(k, v)] = if decide (k' = k) then [(k, v)] else []).
  { intros k k' v. unfold at_key. rewrite filter_cons. simpl.
    repeat case_decide; naive_solver. }
  split; simpl.
  - intros h k. unfold at_key. rewrite list_elem_of_fmap. split.
    + intros ([a b] & -> & Hin) Hnil%fmap_nil_inv. simpl in *.
      assert (Hf : (a, b) ∈ filter (λ p : string * string, p.1 = a) h)
        by (by apply list_elem_of_filter).
      rewrite Hnil in Hf. by apply elem_of_nil in Hf.
    + destruct (filter _ h) as [|p l] eqn:Hf; [done|]. intros _.
      assert (Hp : p ∈ filter (λ p : string * string, p.1 = k) h) by (rewrite Hf; by left).
      apply list_elem_of_filter in Hp as [<- Hp]. by exists p.
  - intros h k v k'. unfold at_key at 1. rewrite filter_app, fmap_app.
    fold (at_key k' (not_at_key k h)) (at_key k' [(k, v)]).
    rewrite at_not_at, Hsing. case_decide; [done|]. by rewrite app_nil_r.
  - intros h k v k'. unfold at_key at 1. rewrite filter_app, fmap_app.
    fold (at_key k' h) (at_key k' [(k, v)]). rewrite Hsing.
    case_decide; [by subst|]. by rewrite app_nil_r.
  - intros h k k'. rewrite at_not_at. by case_decide.
Qed.

End ListHeaders.
