(* ===== verification/OptimizeHeaders.v ===== *)
(** * Header stripping and the user agent
    ([src/src/optimize_headers.rs], [src/src/user_agent.rs])

    Before a request is transmitted its headers are reduced to an allow list
    that, on a signed request, grows by the authentication headers and whatever
    the signature covers.  The theorems: stripping removes exactly the headers
    outside that list and never changes a value; a signature that cannot be
    understood leaves the request alone, so no signed header is ever lost; and
    a canonical SigV4 authorization header is understood, its signed headers
    being returned as printed. *)

From S2P Require Import Prelude NodeUrl Http.
From Stdlib Require Import Ascii.

Module OptimizeHeaders.

Definition BASE_WHITELIST : list string :=
  ["host"; "x-amz-target"; "content-length"; "content-type"; "accept-encoding";
   "content-encoding"].
Definition AUTH_WHITELIST : list string :=
  ["authorization"; "x-amz-date"; "x-amz-user-agent"; "x-amz-security-token"].

(** [is_canonical_header_name]. *)
Definition canonical_byte (b : Ascii.ascii) : bool :=
  AsciiClass.is_lower b || AsciiClass.is_digit b ||
  bool_decide (b ∈ ["!"; "#"; "$"; "%"; "&"; "'"; "*"; "+"; "-"; "."; "^"; "_"; "`"; "|"; "~"]%char).
Definition is_canonical_header_name (header : string) : bool :=
  negb (bool_decide (header = EmptyString)) && str_all canonical_byte header.

(** The loop over the parameters; [found] is [signed_headers]. *)
Fixpoint signed_parameter (parameters : list string) (found : option string)
    : option (option string) :=
  match parameters with
  | [] => Some found
  | parameter :: rest =>
      let parameter := Str.trim parameter in
      if bool_decide (parameter = EmptyString)
         || Str.any AsciiClass.is_ascii_whitespace parameter then None
      else
        '(name, value) ← Str.split_once "=" parameter;
        if bool_decide (name = EmptyString) || bool_decide (value = EmptyString)
           || Str.contains "=" value then None
        else if decide (name ≠ "SignedHeaders") then signed_parameter rest found
        else match found with
             | Some _ => None
             | None => signed_parameter rest (Some (Str.trim value))
             end
  end.

(** [windows(2).all(|pair| pair[0] < pair[1])]. *)
Fixpoint strictly_sorted (l : list string) : bool :=
  match l with
  | x :: (y :: _) as l' =>
      bool_decide (String.le x y) && negb (bool_decide (x = y)) && strictly_sorted l'
  | _ => true
  end.

(** [parse_signed_headers]. *)
Definition parse_signed_headers (authorization : string) : option (list string) :=
  '(algorithm, parameters) ← Str.split_once " " authorization;
  if decide (algorithm ≠ "AWS4-HMAC-SHA256") then None
  else
    signed_headers ← signed_parameter (Str.split "," parameters) None;
    headers ← Str.split ";" <$> signed_headers;
    if strictly_sorted headers && forallb is_canonical_header_name headers
    then Some headers else None.

Section strip.
Context `{HeaderApi} {Stream : Type}.

(** What is kept, given the signed headers. *)
Definition allowed (preserve_auth_headers : bool) (signed_headers : list string) (key : string)
    : bool :=
  bool_decide (key ∈ BASE_WHITELIST) ||
  preserve_auth_headers &&
    (bool_decide (key ∈ AUTH_WHITELIST) || bool_decide (key ∈ signed_headers)).

(** The [for key in unallowed_keys] loop. *)
Definition remove_all (h : Headers) (unallowed_keys : list string) : Headers :=
  foldl remove_header h unallowed_keys.

(** The early returns: which headers are signed, or [None] when the request
    has to stay as it is. *)
Definition signed_headers_of (preserve_auth_headers : bool) (h : Headers)
    : option (list string) :=
  if preserve_auth_headers then
    match get_all h "authorization" with
    | [authorization] => parse_signed_headers authorization
    | _ => None
    end
  else Some [].

(** [strip_headers]. *)
Definition strip_headers (preserve_auth_headers : bool) (request : Request Stream)
    : Request Stream :=
  let h := headers request in
  match signed_headers_of preserve_auth_headers h with
  | None => request
  | Some signed_headers =>
      let unallowed_keys :=
        filter (λ key, allowed preserve_auth_headers signed_headers key = false) (keys h) in
      Http.set_headers (remove_all h unallowed_keys) request
  end.

End strip.
End OptimizeHeaders.

(** ** The user agent *)

(** [DEFAULT_USER_AGENT]: the version is the build's. *)
Class CrateVersion := CARGO_PKG_VERSION : string.
Definition DEFAULT_USER_AGENT `{CrateVersion} : string :=
  String.app "scylladb-alternator-client-rust/" CARGO_PKG_VERSION.

(** [UserAgent]. *)
Inductive UserAgent : Type :=
| UaDefault
| UaDisabled
| UaValue (user_agent : string)
| UaTransform (transform : string → option string).

Module UserAgentOps.

Definition disabled : UserAgent := UaDisabled.
Definition value (user_agent : string) : UserAgent := UaValue user_agent.
Definition transform (f : string → string) : UserAgent :=
  UaTransform (λ default_user_agent, Some (f default_user_agent)).
Definition transform_optional (f : string → option string) : UserAgent := UaTransform f.

(** [resolve]. *)
Definition resolve `{CrateVersion} (u : UserAgent) : option string :=
  match u with
  | UaDefault => Some DEFAULT_USER_AGENT
  | UaDisabled => None
  | UaValue user_agent => Some user_agent
  | UaTransform f => f DEFAULT_USER_AGENT
  end.

(** [apply_user_agent]: an invalid value is an error, and by then the old
    header is gone. *)
Definition apply_user_agent `{CrateVersion, HeaderApi} {Stream} (u : UserAgent)
    (request : Request Stream) : Result unit string * Request Stream :=
  let h := remove_header (headers request) "user-agent" in
  match resolve u with
  | Some user_agent =>
      match Http.try_insert h "user-agent" user_agent with
      | Some h => (Ok (), Http.set_headers h request)
      | None => (Err "invalid header value", Http.set_headers h request)
      end
  | None => (Ok (), Http.set_headers h request)
  end.

End UserAgentOps.

(** ** Lemmas: header text *)

#[local] Arguments String.append !s1 s2 : simpl nomatch.

Module StrFacts.
Import Str.

(** Visible ASCII. *)
Definition visible (c : Ascii.ascii) : bool := AsciiClass.between 33 126 c.
(** A character of a SigV4 parameter value: visible, and no separator. *)
Definition plain (c : Ascii.ascii) : bool :=
  visible c && negb (Ascii.eqb c ",") && negb (Ascii.eqb c "=").

Lemma str_all_app p s t : str_all p (String.app s t) = str_all p s && str_all p t.
Proof. induction s as [|a s IH]; simpl; [done|]. by rewrite IH, andb_assoc. Qed.

Lemma str_all_impl (p q : Ascii.ascii → bool) s :
  (∀ c, p c = true → q c = true) → str_all p s = true → str_all q s = true.
Proof.
  intros Hpq. induction s as [|a s IH]; simpl; [done|].
  intros [Ha Hs]%andb_true_iff. apply andb_true_iff. auto.
Qed.

Lemma contains_false p c s : p c = false → str_all p s = true → contains c s = false.
Proof.
  intros Hc. induction s as [|a s IH]; simpl; [done|].
  intros [Ha Hs]%andb_true_iff. rewrite IH, orb_false_r by done.
  apply Ascii.eqb_neq. congruence.
Qed.

Lemma any_false p q s :
  (∀ c, p c = true → q c = false) → str_all p s = true → any q s = false.
Proof.
  intros Hpq. induction s as [|a s IH]; simpl; [done|].
  intros [Ha Hs]%andb_true_iff. by rewrite (Hpq a Ha), IH.
Qed.

Lemma split_app c s t :
  contains c s = false → split c (String.app s (String c t)) = s :: split c t.
Proof.
  induction s as [|a s IH]; simpl; [by rewrite Ascii.eqb_refl|].
  intros [Ha Hs]%orb_false_iff. by rewrite Ha, IH.
Qed.

Lemma split_whole c s : contains c s = false → split c s = [s].
Proof.
  induction s as [|a s IH]; simpl; [done|].
  intros [Ha Hs]%orb_false_iff. by rewrite Ha, IH.
Qed.

Lemma split_once_app c s t :
  contains c s = false → split_once c (String.app s (String c t)) = Some (s, t).
Proof.
  induction s as [|a s IH]; simpl; [by rewrite Ascii.eqb_refl|].
  intros [Ha Hs]%orb_false_iff. by rewrite Ha, IH.
Qed.

(** Splitting undoes joining. *)
Lemma split_join c l :
  l ≠ [] → Forall (λ s, contains c s = false) l →
  split c (join (String c EmptyString) l) = l.
Proof.
  intros Hne Hl. induction Hl as [|s l Hs Hl IH]; [done|].
  destruct l as [|s' l]; [by apply split_whole|].
  change (join (String c EmptyString) (s :: s' :: l))
    with (String.app s (String c (join (String c EmptyString) (s' :: l)))).
  rewrite split_app by done. by rewrite IH.
Qed.

Lemma app_nil_r_str s : String.app s EmptyString = s.
Proof. induction s as [|a s IH]; simpl; [done|]. by rewrite IH. Qed.

Lemma str_all_rev_app p s t : str_all p (String.rev_app s t) = str_all p s && str_all p t.
Proof.
  revert t. induction s as [|a s IH]; intros t; simpl; [done|].
  rewrite IH. simpl. by destruct (p a), (str_all p s).
Qed.

Lemma str_all_rev p s : str_all p (String.rev s) = str_all p s.
Proof. unfold String.rev. rewrite str_all_rev_app. simpl. apply andb_true_r. Qed.

Lemma rev_app_rev_app s t u :
  String.rev_app (String.rev_app s t) u = String.rev_app t (String.app s u).
Proof. revert t u. induction s as [|a s IH]; intros t u; simpl; [done|]. by rewrite IH. Qed.

Lemma rev_involutive s : String.rev (String.rev s) = s.
Proof. unfold String.rev. rewrite rev_app_rev_app. simpl. apply app_nil_r_str. Qed.

(** No whitespace character starts or ends with a visible byte. *)
Lemma strip_space_visible c s :
  visible c = true → strip_space white_space (String c s) = None.
Proof. destruct c as [[] [] [] [] [] [] [] []]; intros H; try discriminate H; reflexivity. Qed.

Lemma strip_space_rev_visible c s :
  visible c = true → strip_space (String.rev <$> white_space) (String c s) = None.
Proof. destruct c as [[] [] [] [] [] [] [] []]; intros H; try discriminate H; reflexivity. Qed.

Lemma trim_fuel_visible fuel spaces s :
  (∀ c t, visible c = true → strip_space spaces (String c t) = None) →
  strip_space spaces EmptyString = None →
  str_all visible s = true → trim_fuel fuel spaces s = s.
Proof.
  intros Hsp H0 Hs. destruct fuel as [|fuel]; simpl; [done|].
  destruct s as [|c s]; [by rewrite H0|].
  simpl in Hs. apply andb_true_iff in Hs as [Hc _]. by rewrite Hsp.
Qed.

Lemma trim_end_visible s : str_all visible s = true → trim_end s = s.
Proof.
  intros Hs. unfold trim_end. rewrite trim_fuel_visible; [apply rev_involutive| | |].
  - intros c t Hc. by apply strip_space_rev_visible.
  - reflexivity.
  - by rewrite str_all_rev.
Qed.

Lemma trim_visible s : str_all visible s = true → trim s = s.
Proof.
  intros Hs. unfold trim, trim_start. rewrite trim_fuel_visible; [by apply trim_end_visible| | |done].
  - exact strip_space_visible.
  - reflexivity.
Qed.

Lemma trim_space_visible s : str_all visible s = true → trim (String " " s) = s.
Proof.
  intros Hs. unfold trim, trim_start. cbn [String.length trim_fuel].
  change (strip_space white_space (String " " s)) with (Some s). cbv iota.
  rewrite trim_fuel_visible; [by apply trim_end_visible| | |done].
  - exact strip_space_visible.
  - reflexivity.
Qed.

End StrFacts.

(** ** Lemmas: authorization headers *)

Module OptimizeFacts.
Import OptimizeHeaders StrFacts.

Lemma plain_visible c : plain c = true → visible c = true.
Proof. unfold plain. intros H. by do 2 apply andb_true_iff in H as [H _]. Qed.

Lemma visible_no_space c : visible c = true → AsciiClass.is_ascii_whitespace c = false.
Proof. destruct c as [[] [] [] [] [] [] [] []]; intros H; try discriminate H; reflexivity. Qed.

Lemma canonical_plain c :
  canonical_byte c = true → plain c = true ∧ Ascii.eqb c ";" = false.
Proof. destruct c as [[] [] [] [] [] [] [] []]; intros H; try discriminate H; by split. Qed.

(** What one [name=value] parameter contributes. *)
Definition parameter (name value : string) : string := String.app name (String "=" value).

Lemma parameter_visible name value :
  str_all plain name = true → str_all visible value = true →
  str_all visible (parameter name value) = true.
Proof.
  intros Hn Hv. unfold parameter. rewrite str_all_app. apply andb_true_iff. split.
  - by eapply str_all_impl, Hn; apply plain_visible.
  - simpl. by rewrite Hv.
Qed.

Lemma signed_parameter_step text name value rest found :
  Str.trim text = parameter name value →
  str_all plain name = true → name ≠ EmptyString →
  str_all visible value = true → Str.contains "=" value = false → value ≠ EmptyString →
  signed_parameter (text :: rest) found =
    if decide (name ≠ "SignedHeaders") then signed_parameter rest found
    else match found with Some _ => None | None => signed_parameter rest (Some value) end.
Proof.
  intros Ht Hn Hn0 Hv Hc Hv0. cbn [signed_parameter]. rewrite Ht.
  pose proof (parameter_visible name value Hn Hv) as Hvis.
  rewrite bool_decide_eq_false_2 by (by destruct name).
  rewrite (any_false visible) by (done || apply visible_no_space). cbn [orb].
  unfold parameter. rewrite split_once_app; cycle 1.
  { by apply (contains_false plain). }
  cbn [mbind option_bind]. rewrite !bool_decide_eq_false_2, Hc by done. cbn [orb].
  by rewrite trim_visible.
Qed.

Lemma join_plain l :
  forallb is_canonical_header_name l = true → str_all plain (Str.join ";" l) = true.
Proof.
  induction l as [|s l IH]; [done|]. cbn [forallb]. intros [Hs Hl]%andb_true_iff.
  assert (Hp : str_all plain s = true).
  { unfold is_canonical_header_name in Hs. apply andb_true_iff in Hs as [_ Hs].
    eapply str_all_impl, Hs. intros c Hc. by apply canonical_plain. }
  destruct l as [|s' l]; [done|].
  change (Str.join ";" (s :: s' :: l))
    with (String.app s (String ";" (Str.join ";" (s' :: l)))).
  rewrite str_all_app, Hp. cbn [str_all andb]. by rewrite IH.
Qed.

Lemma canonical_no_semicolon l :
  forallb is_canonical_header_name l = true → Forall (λ s, Str.contains ";" s = false) l.
Proof.
  intros Hl. rewrite forallb_forall in Hl. apply Forall_forall. intros s Hs.
  apply list_elem_of_In, Hl in Hs. unfold is_canonical_header_name in Hs.
  apply andb_true_iff in Hs as [_ Hs]. by apply (contains_false canonical_byte).
Qed.

Lemma join_nonempty l :
  l ≠ [] → forallb is_canonical_header_name l = true → Str.join ";" l ≠ EmptyString.
Proof.
  destruct l as [|s l]; [done|]. cbn [forallb]. intros _ [Hs _]%andb_true_iff.
  unfold is_canonical_header_name in Hs. apply andb_true_iff in Hs as [Hs _].
  destruct s as [|a s]; [done|]. by destruct l.
Qed.

(** ** Stripping *)

Section strip.
Context `{HeaderLaws} {Stream : Type}.

Lemma get_all_remove_all h l k :
  get_all (remove_all h l) k = if decide (k ∈ l) then [] else get_all h k.
Proof.
  revert h. induction l as [|x l IH]; intros h.
  { rewrite decide_False; [done|]. apply not_elem_of_nil. }
  change (remove_all h (x :: l)) with (remove_all (remove_header h x) l).
  rewrite IH, get_all_remove. repeat case_decide; try done; exfalso; set_solver.
Qed.

Lemma strip_headers_get_all p (r : Request Stream) k :
  get_all (headers (strip_headers p r)) k =
    match signed_headers_of p (headers r) with
    | Some signed => if allowed p signed k then get_all (headers r) k else []
    | None => get_all (headers r) k
    end.
Proof.
  unfold strip_headers. destruct (signed_headers_of p (headers r)) as [signed|]; [|done].
  simpl. rewrite get_all_remove_all. destruct (allowed p signed k) eqn:Ha.
  - rewrite decide_False; [done|]. rewrite list_elem_of_filter. naive_solver congruence.
  - case_decide as Hin; [done|]. destruct (decide (get_all (headers r) k = [])) as [|Hne]; [done|].
    exfalso. apply Hin, list_elem_of_filter. split; [done|]. by apply elem_of_keys.
Qed.

End strip.
End OptimizeFacts.

(** ** Properties *)

Section properties.
Context `{HeaderLaws} {Stream : Type}.
Import OptimizeHeaders StrFacts OptimizeFacts.

(** C28: stripping is exact: the headers that are left are those of the allow
    list with their values unchanged, on a signed request together with the
    authentication headers and every header the signature covers; URI and body
    are untouched; and a signed request whose authorization header is missing,
    repeated or not understood keeps every header. *)
Theorem strip_headers_exact (preserve : bool) (r : Request Stream) (k : string) :
  get_all (headers (strip_headers preserve r)) k =
    (if (if preserve then bool_decide (
           match get_all (headers r) "authorization" with
           | [a] => parse_signed_headers a
           | _ => None
           end = None) else false)
        || bool_decide (k ∈ BASE_WHITELIST)
        || preserve && (bool_decide (k ∈ AUTH_WHITELIST)
             || existsb (λ a, bool_decide (k ∈ default [] (parse_signed_headers a)))
                  (get_all (headers r) "authorization"))
     then get_all (headers r) k else []) ∧
  uri (strip_headers preserve r) = uri r ∧ body (strip_headers preserve r) = body r.
Proof.
  split; [|unfold strip_headers; by destruct (signed_headers_of _ _)].
  rewrite strip_headers_get_all. unfold signed_headers_of, allowed.
  destruct preserve; simpl; [|by rewrite orb_false_r].
  destruct (get_all (headers r) "authorization") as [|a [|]]; simpl; try done.
  destruct (parse_signed_headers a) as [signed|]; simpl; [|done].
  by rewrite orb_false_r.
Qed.

(** C38: a canonical SigV4 authorization header is understood: for a credential
    and a signature of plain visible characters and a strictly sorted list of
    canonical header names, the parser returns exactly the names that were
    signed. *)
Theorem parse_signed_headers_roundtrip (credential signature : string) (signed : list string) :
  str_all plain credential = true → credential ≠ EmptyString →
  str_all plain signature = true → signature ≠ EmptyString →
  signed ≠ [] → strictly_sorted signed = true →
  forallb is_canonical_header_name signed = true →
  parse_signed_headers
    (String.app "AWS4-HMAC-SHA256 Credential=" (String.app credential
      (String.app ", SignedHeaders=" (String.app (Str.join ";" signed)
        (String.app ", Signature=" signature))))) = Some signed.
Proof.
  intros Hc Hc0 Hs Hs0 Hne Hsort Hcan.
  pose proof (join_plain signed Hcan) as Hj. pose proof (join_nonempty signed Hne Hcan) as Hj0.
  set (p1 := parameter "Credential" credential).
  set (p2 := parameter "SignedHeaders" (Str.join ";" signed)).
  set (p3 := parameter "Signature" signature).
  assert (Heq : String.app "AWS4-HMAC-SHA256 Credential=" (String.app credential
      (String.app ", SignedHeaders=" (String.app (Str.join ";" signed)
        (String.app ", Signature=" signature)))) =
    String.app "AWS4-HMAC-SHA256" (String " " (String.app p1 (String ","
      (String.app (String " " p2) (String "," (String " " p3))))))).
  { unfold p1, p2, p3, parameter. simpl. by rewrite ?app_assoc_str. }
  rewrite Heq. unfold parse_signed_headers. rewrite split_once_app by reflexivity.
  cbn [mbind option_bind]. rewrite decide_False by naive_solver.
  assert (Hv : ∀ s, str_all plain s = true → str_all visible s = true).
  { intros s. apply str_all_impl, plain_visible. }
  assert (Hcomma : ∀ n s, str_all plain n = true → str_all plain s = true →
    Str.contains "," (parameter n s) = false).
  { intros n s Hn Hp. apply (contains_false (λ c, plain c || Ascii.eqb c "=")); [done|].
    unfold parameter. rewrite str_all_app. cbn [str_all]. simpl.
    rewrite !(str_all_impl plain) by (done || intros c ->; done). done. }
  rewrite !split_app; [|by apply (Hcomma "SignedHeaders")|by apply (Hcomma "Credential")].
  rewrite split_whole by (by apply (Hcomma "Signature")).
  assert (Heqs : ∀ s, str_all plain s = true → Str.contains "=" s = false).
  { intros s. by apply contains_false. }
  rewrite (signed_parameter_step p1 "Credential" credential);
    [|by apply trim_visible, parameter_visible; auto|auto..].
  rewrite decide_True by discriminate.
  rewrite (signed_parameter_step _ "SignedHeaders" (Str.join ";" signed));
    [|by apply trim_space_visible, parameter_visible; auto|auto..].
  rewrite decide_False by naive_solver.
  rewrite (signed_parameter_step _ "Signature" signature);
    [|by apply trim_space_visible, parameter_visible; auto|auto..].
  rewrite decide_True by discriminate. cbn [signed_parameter mbind option_bind fmap option_fmap option_map].
  rewrite split_join by (done || by apply canonical_no_semicolon).
  by rewrite Hsort, Hcan.
Qed.

End properties.

Section witnesses.
Import OptimizeHeaders.

Definition signed_request : Request (H := ListHeaders.api) unit :=
  mkRequest (H := ListHeaders.api) "http://node/"
    [("host", "node"); ("x-trace", "1"); ("x-signed", "2");
     ("authorization", "AWS4-HMAC-SHA256 Credential=k, SignedHeaders=host;x-signed, Signature=ab")]
    (Collected []).

Lemma strip_headers_exact_witness :
  get_all (headers (strip_headers true signed_request)) "x-signed" = ["2"] ∧
  get_all (headers (strip_headers true signed_request)) "x-trace" = [] ∧
  get_all (headers (strip_headers false signed_request)) "authorization" = [].
Proof.
  split; [|split].
  - etrans; [exact (proj1 (@strip_headers_exact ListHeaders.api ListHeaders.laws unit true
      signed_request "x-signed"))|vm_refl].
  - etrans; [exact (proj1 (@strip_headers_exact ListHeaders.api ListHeaders.laws unit true
      signed_request "x-trace"))|vm_refl].
  - etrans; [exact (proj1 (@strip_headers_exact ListHeaders.api ListHeaders.laws unit false
      signed_request "authorization"))|vm_refl].
Defined.

Lemma parse_signed_headers_roundtrip_witness :
  parse_signed_headers
    "AWS4-HMAC-SHA256 Credential=AKID/20240101/us, SignedHeaders=host;x-amz-date, Signature=0a1b"
  = Some ["host"; "x-amz-date"].
Proof.
  apply (parse_signed_headers_roundtrip "AKID/20240101/us" "0a1b" ["host"; "x-amz-date"]);
    reflexivity || discriminate.
Defined.

End witnesses.
