(* ===== verification/Compression.v ===== *)
(** * Compression settings and request compression ([src/src/compression.rs])

    The codecs are [flate2]'s, a class whose law is that decoding undoes
    encoding.  The theorems: a request is compressed only when it is not encoded
    yet and its body is collected and not shorter than the threshold, and always
    when the body is longer or the threshold is zero (a body of exactly the
    threshold is where the README differs from the code; a lemma has it apart);
    what is sent decodes to the original body and is described by its headers;
    and the encodings the client advertises are exactly those it understands in
    a response, in the same order. *)

From S2P Require Import Prelude NodeUrl Http OptimizeHeaders.
From Stdlib Require Import Ascii.
From Stdlib Require Import Strings.Byte.

(** [CompressionAlgorithm] and [ResponseCompressionAlgorithm]. *)
Inductive CompressionAlgorithm : Type := ReqGzip | ReqDeflate.
Inductive ResponseCompressionAlgorithm : Type := Gzip | Deflate.
#[export] Instance ResponseCompressionAlgorithm_eq_dec : EqDecision ResponseCompressionAlgorithm.
Proof. solve_decision. Defined.

(** [flate2]: compression levels, and the readers that encode and decode a
    whole slice ([read_to_end(..).ok()]). *)
Class Flate := {
  CompressionLevel : Type;
  default_level : CompressionLevel;
  gz_encode : list byte → CompressionLevel → option (list byte);
  gz_decode : list byte → option (list byte);
  zlib_encode : list byte → CompressionLevel → option (list byte);
  zlib_decode : list byte → option (list byte);
}.
Class FlateLaws `{Flate} : Prop := {
  gz_roundtrip : ∀ content level z, gz_encode content level = Some z → gz_decode z = Some content;
  zlib_roundtrip : ∀ content level z,
    zlib_encode content level = Some z → zlib_decode z = Some content;
}.

(** [RequestCompression]; [usize]s are [nat]s. *)
Record RequestCompression `{Flate} := mkRequestCompression {
  compression_with_threshold : option (CompressionAlgorithm * CompressionLevel * nat);
}.

(** [ResponseCompression]. *)
Record ResponseCompression := mkResponseCompression {
  accepted_algorithms : option (list ResponseCompressionAlgorithm);
  max_encoding_layers : nat;
  max_decompressed_bytes : N;
}.

Definition DEFAULT_MAX_RESPONSE_ENCODING_LAYERS : nat := 5.
Definition DEFAULT_MAX_DECOMPRESSED_RESPONSE_BYTES : N := 32 * 1024 * 1024.

Module ReqCompression.
Section request.
Context `{Flate}.

Definition enabled (algorithm : CompressionAlgorithm) (level : CompressionLevel) (threshold : nat)
    : RequestCompression :=
  mkRequestCompression _ (Some (algorithm, level, threshold)).
Definition disabled : RequestCompression := mkRequestCompression _ None.
Definition get (c : RequestCompression) : option (CompressionAlgorithm * CompressionLevel * nat) :=
  compression_with_threshold c.
(** [Default for RequestCompression]. *)
Definition default_compression : RequestCompression := enabled ReqGzip default_level 1024.

Definition compress_gzip (content : list byte) (level : CompressionLevel) : option (list byte) :=
  gz_encode content level.
Definition compress_zlib (content : list byte) (level : CompressionLevel) : option (list byte) :=
  zlib_encode content level.
Definition decompress_gzip (content : list byte) : option (list byte) := gz_decode content.
Definition decompress_zlib (content : list byte) : option (list byte) := zlib_decode content.

(** [compress_request]. *)
Definition compress_request `{HeaderApi} {Stream} (algorithm : CompressionAlgorithm)
    (level : CompressionLevel) (threshold : nat) (request : Request Stream) : Request Stream :=
  if Http.contains_key (headers request) "content-encoding" then request
  else
    match body_bytes (body request) with
    | None => request
    | Some content =>
        if decide (length content < threshold) then request
        else
          let '(compressed, http_code) :=
            match algorithm with
            | ReqGzip => (compress_gzip content level, "gzip")
            | ReqDeflate => (compress_zlib content level, "deflate")
            end in
          match compressed with
          | None => request
          | Some compressed =>
              let h := append_header (headers request) "content-encoding" http_code in
              let h := insert_header h "content-length" (Str.show_nat (length compressed)) in
              Http.set_body (Collected compressed) (Http.set_headers h request)
          end
    end.

(** What a receiver does with an encoded body. *)
Definition decompress (algorithm : CompressionAlgorithm) (content : list byte) : option (list byte) :=
  match algorithm with
  | ReqGzip => decompress_gzip content
  | ReqDeflate => decompress_zlib content
  end.
Definition http_code (algorithm : CompressionAlgorithm) : string :=
  match algorithm with ReqGzip => "gzip" | ReqDeflate => "deflate" end.

End request.
End ReqCompression.

Module ResCompression.

(** [accept_encoding_token], [from_content_encoding], [all]. *)
Definition accept_encoding_token (a : ResponseCompressionAlgorithm) : string :=
  match a with Gzip => "gzip" | Deflate => "deflate" end.
Definition from_content_encoding (token : string) : option ResponseCompressionAlgorithm :=
  let token := Str.trim (default token (head (Str.split ";" token))) in
  let token := to_ascii_lowercase token in
  if decide (token = "gzip" ∨ token = "x-gzip") then Some Gzip
  else if decide (token = "deflate") then Some Deflate
  else None.
Definition all : list ResponseCompressionAlgorithm := [Gzip; Deflate].

(** [accept_encoding_header_value]. *)
Definition accept_encoding_header_value (algorithms : list ResponseCompressionAlgorithm) : string :=
  Str.join ", " (accept_encoding_token <$> algorithms).

Definition new (a : option (list ResponseCompressionAlgorithm)) : ResponseCompression :=
  mkResponseCompression a DEFAULT_MAX_RESPONSE_ENCODING_LAYERS
    DEFAULT_MAX_DECOMPRESSED_RESPONSE_BYTES.
Definition enabled (a : ResponseCompressionAlgorithm) : ResponseCompression := new (Some [a]).
Definition enabled_all : ResponseCompression := new (Some all).

(** The loop of [enabled_many]. *)
Fixpoint push_unseen (seen algorithms : list ResponseCompressionAlgorithm)
    : list ResponseCompressionAlgorithm :=
  match algorithms with
  | [] => seen
  | algo :: rest => push_unseen (if decide (algo ∈ seen) then seen else seen ++ [algo]) rest
  end.
Definition enabled_many (algorithms : list ResponseCompressionAlgorithm) : ResponseCompression :=
  match push_unseen [] algorithms with
  | [] => enabled_all
  | (_ :: _) as seen => new (Some seen)
  end.
Definition disabled : ResponseCompression := new None.
Definition with_max_encoding_layers (n : nat) (c : ResponseCompression) : ResponseCompression :=
  mkResponseCompression (accepted_algorithms c) n (max_decompressed_bytes c).
Definition with_max_decompressed_bytes (n : N) (c : ResponseCompression) : ResponseCompression :=
  mkResponseCompression (accepted_algorithms c) (max_encoding_layers c) n.
Definition get (c : ResponseCompression) : option (list ResponseCompressionAlgorithm) :=
  accepted_algorithms c.
(** [Default for ResponseCompression]. *)
Definition default_compression : ResponseCompression := disabled.

End ResCompression.

(** ** Properties *)

Section request_properties.
Context `{HeaderLaws, Flate} {Stream : Type}.
Import ReqCompression.

(** Whether the codec succeeds. *)
Definition encodes (algorithm : CompressionAlgorithm) (level : CompressionLevel) (content : list byte) : Prop :=
  is_Some (match algorithm with
           | ReqGzip => gz_encode content level
           | ReqDeflate => zlib_encode content level
           end).

(** The code compares with [<], so a body of exactly the threshold is compressed:
    what the comment of [RequestCompression::enabled] says, and what the README does
    not. *)
Lemma threshold_is_inclusive `{!FlateLaws} algorithm level (r : Request Stream) content :
  body r = Collected content → get_all (headers r) "content-encoding" = [] →
  encodes algorithm level content →
  ∃ z, body (compress_request algorithm level (length content) r) = Collected z ∧
       decompress algorithm z = Some content.
Proof.
  intros Hb He Hz. unfold compress_request, Http.contains_key. rewrite bool_decide_eq_true_2 by done.
  rewrite Hb. simpl. rewrite decide_False by lia. destruct Hz as [z Hz].
  destruct algorithm; simpl in *; unfold compress_gzip, compress_zlib; rewrite Hz; exists z; (split; [done|]).
  - by eapply gz_roundtrip.
  - by eapply zlib_roundtrip.
Qed.

(** C27: request compression is lossless: a request changes only when it carries
    no content encoding, its body is collected and not shorter than the
    threshold, and the codec succeeds; then the body sent decodes to the
    original, [content-encoding] names the codec, [content-length] is the new
    length, and every other header and the URI stay.  And it does change when
    the body is longer than the threshold, or the threshold is zero. *)
Theorem compress_request_lossless `{!FlateLaws} (algorithm : CompressionAlgorithm)
    (level : CompressionLevel) (threshold : nat) (r : Request Stream) :
  let r' := compress_request algorithm level threshold r in
  (r' = r ∨
   ∃ content compressed, body r = Collected content ∧ body r' = Collected compressed ∧
     get_all (headers r) "content-encoding" = [] ∧ threshold ≤ length content ∧
     decompress algorithm compressed = Some content ∧
     get_all (headers r') "content-encoding" = [http_code algorithm] ∧
     get_all (headers r') "content-length" = [Str.show_nat (length compressed)] ∧
     uri r' = uri r ∧
     ∀ k, k ≠ "content-encoding" → k ≠ "content-length" →
       get_all (headers r') k = get_all (headers r) k) ∧
  (∀ content, body r = Collected content → get_all (headers r) "content-encoding" = [] →
     threshold < length content ∨ threshold = 0 → encodes algorithm level content → r' ≠ r).
Proof.
  intros r'. unfold compress_request, Http.contains_key in r'.
  destruct (bool_decide (get_all (headers r) "content-encoding" = [])) eqn:He; simpl in r'; cycle 1.
  { apply bool_decide_eq_false in He. split; [by left|]. intros content _ ?. done. }
  apply bool_decide_eq_true in He.
  destruct (body r) as [content|s] eqn:Hb; simpl in r'; [|split; [by left|intros ? [=]]].
  destruct (decide (length content < threshold)) as [Hlt|Hge].
  { split; [by left|]. intros c [= <-] _ ?. lia. }
  set (code := match algorithm with
    | ReqGzip => gz_encode content level | ReqDeflate => zlib_encode content level end).
  assert (Hr' : r' = match code with
    | None => r
    | Some z => Http.set_body (Collected z) (Http.set_headers
        (insert_header (append_header (headers r) "content-encoding" (http_code algorithm))
           "content-length" (Str.show_nat (length z))) r)
    end) by (subst r' code; by destruct algorithm).
  clearbody r'. subst r'. destruct code as [z|] eqn:Hz; cycle 1.
  { split; [by left|]. intros c [= <-] _ _ [x Hx]. subst code. congruence. }
  assert (Hdec : decompress algorithm z = Some content).
  { subst code. destruct algorithm; [by eapply gz_roundtrip|by eapply zlib_roundtrip]. }
  split.
  - right. exists content, z. simpl. split_and!; try done; [lia|..].
    + rewrite get_all_insert, decide_False, get_all_append, decide_True, He by done. done.
    + by rewrite get_all_insert, decide_True.
    + intros k Hk1 Hk2. by rewrite get_all_insert, decide_False, get_all_append, decide_False.
  - intros c _ _ _ _ Heq. apply (f_equal (λ x, get_all (headers x) "content-encoding")) in Heq.
    simpl in Heq. rewrite get_all_insert, decide_False, get_all_append, decide_True, He in Heq by done.
    done.
Qed.

End request_properties.

Section response_properties.
Import ResCompression.

Lemma push_unseen_spec seen l :
  NoDup seen →
  NoDup (push_unseen seen l) ∧ (∀ a, a ∈ push_unseen seen l ↔ a ∈ seen ∨ a ∈ l) ∧
  seen `prefix_of` push_unseen seen l.
Proof.
  revert seen. induction l as [|x l IH]; intros seen Hnd; simpl; [set_solver|].
  case_decide as Hx.
  - destruct (IH seen Hnd) as (H1 & H2 & H3). split; [done|]. split; [|done].
    intros a. rewrite H2. set_solver.
  - destruct (IH (seen ++ [x])) as (H1 & H2 & H3).
    { apply NoDup_app. split; [done|]. split; [|apply NoDup_singleton]. set_solver. }
    split; [done|]. split; [intros a; rewrite H2; set_solver|].
    etrans; [|exact H3]. by apply prefix_app_r.
Qed.

(** The decoders of a response whose [Content-Encoding] lists these tokens. *)
Definition read_encodings (header_value : string) : list (option ResponseCompressionAlgorithm) :=
  (λ token, from_content_encoding (Str.trim token)) <$> Str.split "," header_value.

Lemma read_encodings_header (p : string) a l :
  p = EmptyString ∨ p = " " →
  read_encodings (String.app p (accept_encoding_header_value (a :: l))) = Some <$> (a :: l).
Proof.
  revert p a. induction l as [|b l IH]; intros p a Hp.
  { destruct Hp as [-> | ->], a; reflexivity. }
  assert (Heq : String.app p (accept_encoding_header_value (a :: b :: l)) =
    String.app (String.app p (accept_encoding_token a))
      (String "," (String.app " " (accept_encoding_header_value (b :: l))))).
  { by destruct Hp as [-> | ->]. }
  rewrite Heq. unfold read_encodings. rewrite StrFacts.split_app; cycle 1.
  { by destruct Hp as [-> | ->], a. }
  rewrite !fmap_cons. f_equal; [by destruct Hp as [-> | ->], a|].
  apply (IH " " b). by right.
Qed.

(** Negotiation is consistent: whatever encodings the caller lists, the
    setting advertises each once (all of them when none is listed), starting
    with the caller's favourite, and reading the advertised header value as a
    [Content-Encoding] yields exactly the advertised algorithms in order. *)
Theorem negotiation_roundtrip (algorithms : list ResponseCompressionAlgorithm) :
  ∃ l, get (enabled_many algorithms) = Some l ∧ l ≠ [] ∧ NoDup l ∧
    (∀ a, a ∈ l ↔ a ∈ algorithms ∨ algorithms = []) ∧
    (algorithms ≠ [] → head l = head algorithms) ∧
    read_encodings (accept_encoding_header_value l) = Some <$> l.
Proof.
  destruct (push_unseen_spec [] algorithms (NoDup_nil_2)) as (Hnd & Hin & _).
  assert (Hread : ∀ l, l ≠ [] → read_encodings (accept_encoding_header_value l) = Some <$> l).
  { intros [|a l] Hl; [done|]. apply (read_encodings_header EmptyString). by left. }
  unfold enabled_many. destruct (push_unseen [] algorithms) as [|x xs] eqn:Hp.
  - assert (algorithms = []) as ->.
    { destruct algorithms as [|a l]; [done|]. exfalso. apply (not_elem_of_nil a), Hin. right. by left. }
    exists all. split_and!; try done.
    + by apply (bool_decide_unpack _).
    + intros a. split; [by right|]. intros _. destruct a; [by left|right; by left].
  - exists (x :: xs). split_and!; [done|done|done| | |by apply Hread].
    + intros a. rewrite Hin. split; [intros [Ha|Ha]; [by apply elem_of_nil in Ha|by left]|].
      intros [Ha | ->]; [by right|done].
    + destruct algorithms as [|a l]; [done|]. intros _. simpl in Hp.
      destruct (push_unseen_spec [a] l (NoDup_singleton a)) as (_ & _ & [k Hk]).
      rewrite Hp in Hk. by injection Hk as ->.
Qed.

End response_properties.

(** ** A codec that marks what it encodes, for the witness *)

Module MarkFlate.

#[export] Instance api : Flate := {|
  CompressionLevel := unit;
  default_level := tt;
  gz_encode content _ := Some (x01 :: content);
  gz_decode z := match z with x01 :: content => Some content | _ => None end;
  zlib_encode content _ := Some (x02 :: content);
  zlib_decode z := match z with x02 :: content => Some content | _ => None end;
|}.
#[export] Instance laws : FlateLaws.
Proof. by split; intros content level z [= <-]. Qed.

End MarkFlate.

Section witnesses.
Import ReqCompression.

Definition plain_request : Request (H := ListHeaders.api) unit :=
  mkRequest (H := ListHeaders.api) "http://node/" [("host", "node")] (Collected [x61; x62]).

Lemma compress_request_lossless_witness :
  compress_request (H := MarkFlate.api) ReqGzip tt 1 plain_request ≠ plain_request.
Proof.
  apply (proj2 (@compress_request_lossless ListHeaders.api ListHeaders.laws MarkFlate.api unit
    MarkFlate.laws ReqGzip tt 1 plain_request) [x61; x62]).
  - reflexivity.
  - reflexivity.
  - simpl. lia.
  - by eexists.
Defined.

End witnesses.
