(* ===== verification/Decompression.v ===== *)
(** * Streaming response decompression ([src/src/decompression.rs])

    A response body is wrapped in one decoder and one size limiter per content
    encoding.  A reader is a state with a poll function, as [AsyncRead] is; the
    decoders are [async-compression]'s over [tokio]'s buffered reader and the
    byte budget is [tokio]'s [Take], all of them classes.  [layered] says, without
    the fold of the code, what the reader of a list of encodings is: a limiter over
    a decoder for each of them, the last listed one next to the raw body.  The
    theorems: a wrapped body is layered that way, no layer of it ever yields more
    than the configured number of bytes, and it is refused when it stacks too many
    encodings; an over-long stream ends in an
    error, never in what looks like a regular end; and a decoder reports its end
    only once its compressed input has ended too. *)

From S2P Require Import Prelude Compression.
From Stdlib Require Import Strings.Byte.

(** [std::io::Error], as far as it is told apart. *)
Inductive IoError : Type :=
| DecompressedResponseSizeLimitExceeded (limit : N)
| OtherError (message : string).

(** [Poll<io::Result<()>>] with the bytes put into the buffer; no bytes in a
    non-empty buffer are the end of the stream. *)
Inductive Poll : Type :=
| Ready (r : Result (list byte) IoError)
| Pending.

(** [AsyncRead]: [poll_read remaining state]. *)
Record Reader := mkReader {
  State : Type;
  poll_read : nat → State → Poll * State;
}.

(** A poll cannot put more bytes into the buffer than fit. *)
Definition fills_at_most (R : Reader) : Prop :=
  ∀ n s b, fst (poll_read R n s) = Ready (Ok b) → length b ≤ n.

(** [http_body::Frame] and [Poll<Option<Result<Frame, _>>>]. *)
Inductive Frame : Type :=
| Data (b : list byte)
| Trailers.
Inductive FramePoll : Type :=
| FrameReady (f : Result Frame IoError)
| FrameEnd
| FramePending.

(** [SdkBody]: an [http_body::Body] and its state. *)
Record BodyImpl := mkBody {
  BodyState : Type;
  poll_frame : BodyState → FramePoll * BodyState;
}.
Abbreviation SdkBody := { B : BodyImpl & BodyState B }.

(** [Poll<Option<io::Result<Bytes>>>] of a stream. *)
Inductive StreamPoll : Type :=
| Next (b : Result (list byte) IoError)
| Done
| Waiting.

(** [tokio-util]'s adapters: [StreamReader] over a [BodyStream] whose frames
    [try_filter_map] keeps the given part of, and [ReaderStream]. *)
Class BodyIo := {
  stream_reader : (Frame → option (list byte)) → BodyImpl → Reader;
  stream_reader_new : ∀ keep B, BodyState B → State (stream_reader keep B);
  StreamState : Type → Type;
  reader_stream_new : ∀ R : Reader, State R → StreamState (State R);
  poll_next : ∀ R : Reader, StreamState (State R) → StreamPoll * StreamState (State R);
}.

(** What they promise: the reader fills a buffer as any reader does; the stream
    holds its reader until that has ended or failed, and each poll is one read
    into a buffer that is not empty. *)
Class BodyIoLaws `{BodyIo} := {
  stream_reader_fills : ∀ keep B, fills_at_most (stream_reader keep B);
  held : ∀ R : Reader, StreamState (State R) → option (State R);
  held_new : ∀ R s, held R (reader_stream_new R s) = Some s;
  poll_held : ∀ R st s, held R st = Some s → ∃ n, 0 < n ∧
    match poll_read R n s with
    | (Ready (Ok []), _) => fst (poll_next R st) = Done ∧ held R (snd (poll_next R st)) = None
    | (Ready (Ok b), s') => fst (poll_next R st) = Next (Ok b) ∧ held R (snd (poll_next R st)) = Some s'
    | (Ready (Err e), _) => fst (poll_next R st) = Next (Err e) ∧ held R (snd (poll_next R st)) = None
    | (Pending, s') => fst (poll_next R st) = Waiting ∧ held R (snd (poll_next R st)) = Some s'
    end;
  poll_released : ∀ R st, held R st = None →
    fst (poll_next R st) = Done ∧ held R (snd (poll_next R st)) = None;
}.

(** [GzipDecoder] and [ZlibDecoder] on a [BufReader]: polling the decoder,
    and polling the buffered input behind it ([get_mut]). *)
Class Decoders := {
  DecoderState : Type → Type;
  decoder_new : ResponseCompressionAlgorithm → ∀ R : Reader, State R → DecoderState (State R);
  poll_decode : ResponseCompressionAlgorithm → ∀ R : Reader,
    nat → DecoderState (State R) → Poll * DecoderState (State R);
  poll_input : ResponseCompressionAlgorithm → ∀ R : Reader,
    nat → DecoderState (State R) → Poll * DecoderState (State R);
}.

(** A decoder fills a buffer as any reader does. *)
Class DecoderLaws `{Decoders} : Prop := {
  decode_fills : ∀ a R n d b, fills_at_most R →
    fst (poll_decode a R n d) = Ready (Ok b) → length b ≤ n;
}.

(** [tokio::io::Take]. *)
Class TakeApi := {
  TakeState : Type → Type;
  take_new : ∀ R : Reader, State R → N → TakeState (State R);
  take_limit : ∀ R : Reader, TakeState (State R) → N;
  take_inner : ∀ R : Reader, TakeState (State R) → State R;
  take_set_inner : ∀ R : Reader, State R → TakeState (State R) → TakeState (State R);
  take_poll : ∀ R : Reader, nat → TakeState (State R) → Poll * TakeState (State R);
}.

(** What [Take] promises: below its limit it reads at most as much as is left,
    from the inner reader, and accounts for it. *)
Class TakeLaws `{TakeApi} : Prop := {
  take_limit_new : ∀ R s n, take_limit R (take_new R s n) = n;
  take_limit_set_inner : ∀ R s t, take_limit R (take_set_inner R s t) = take_limit R t;
  take_poll_fst : ∀ R n t, (0 < take_limit R t)%N →
    fst (take_poll R n t) = fst (poll_read R (min n (N.to_nat (take_limit R t))) (take_inner R t));
  take_poll_budget : ∀ R n t, fills_at_most R →
    match fst (take_poll R n t) with
    | Ready (Ok b) => (N.of_nat (length b) + take_limit R (snd (take_poll R n t)) = take_limit R t)%N
    | _ => take_limit R (snd (take_poll R n t)) = take_limit R t
    end;
}.

(** [ResponseEncodingLayerLimitExceeded]. *)
Record ResponseEncodingLayerLimitExceeded := mkLayerLimit { actual : nat; maximum : nat }.

Module Decompression.
Section decompression.
Context `{Decoders, TakeApi, BodyIo}.

(** [validate_response_encoding_layer_count]. *)
Definition validate_response_encoding_layer_count (count maximum : nat)
    : Result unit ResponseEncodingLayerLimitExceeded :=
  if decide (maximum < count) then Err (mkLayerLimit count maximum) else Ok ().

(** ** [CompleteStageDecoder] *)

Record CompleteStage (S : Type) := mkStage { inner : DecoderState S; decoding_complete : bool }.
Arguments mkStage {S}.
Arguments inner {S}.
Arguments decoding_complete {S}.

(** The part after decoding: one chunk of the input is read and thrown away. *)
Definition drain (a : ResponseCompressionAlgorithm) (R : Reader) (st : CompleteStage (State R))
    : Poll * CompleteStage (State R) :=
  let '(result, d) := poll_input a R 8192 (inner st) in
  let st := mkStage d (decoding_complete st) in
  match result with
  | Ready (Ok []) => (Ready (Ok []), st)
  | Ready (Ok (_ :: _)) => (Pending, st)
  | Ready (Err e) => (Ready (Err e), st)
  | Pending => (Pending, st)
  end.

(** Its [poll_read]. *)
Definition poll_complete_stage (a : ResponseCompressionAlgorithm) (R : Reader) (remaining : nat)
    (st : CompleteStage (State R)) : Poll * CompleteStage (State R) :=
  if decide (remaining = 0) then (Ready (Ok []), st)
  else if negb (decoding_complete st) then
    let '(result, d) := poll_decode a R remaining (inner st) in
    match result with
    | Ready (Ok []) => drain a R (mkStage d true)
    | result => (result, mkStage d (decoding_complete st))
    end
  else drain a R st.

(** [CompleteStageDecoder::new]. *)
Definition complete_stage_decoder (a : ResponseCompressionAlgorithm) (R : Reader) : Reader :=
  mkReader (CompleteStage (State R)) (poll_complete_stage a R).
Definition complete_stage_new (a : ResponseCompressionAlgorithm) (R : Reader) (s : State R)
    : State (complete_stage_decoder a R) :=
  mkStage (decoder_new a R s) false.

(** ** [SizeLimitedReader] *)

Record SizeLimited (S : Type) := mkLimited { take : TakeState S; limit : N }.
Arguments mkLimited {S}.
Arguments take {S}.
Arguments limit {S}.

(** Its [poll_read]. *)
Definition poll_size_limited (R : Reader) (remaining : nat) (st : SizeLimited (State R))
    : Poll * SizeLimited (State R) :=
  if decide ((0 < take_limit R (take st))%N ∨ remaining = 0) then
    let '(result, t) := take_poll R remaining (take st) in (result, mkLimited t (limit st))
  else
    let '(result, s) := poll_read R 1 (take_inner R (take st)) in
    let st := mkLimited (take_set_inner R s (take st)) (limit st) in
    match result with
    | Ready (Ok []) => (Ready (Ok []), st)
    | Ready (Ok (_ :: _)) => (Ready (Err (DecompressedResponseSizeLimitExceeded (limit st))), st)
    | Ready (Err e) => (Ready (Err e), st)
    | Pending => (Pending, st)
    end.

(** [SizeLimitedReader::new]. *)
Definition size_limited_reader (R : Reader) : Reader :=
  mkReader (SizeLimited (State R)) (poll_size_limited R).
Definition size_limited_new (R : Reader) (s : State R) (limit : N)
    : State (size_limited_reader R) :=
  mkLimited (take_new R s limit) limit.

(** ** [wrap_decompressed_body] *)

(** The decoder and the limiter of one encoding. *)
Definition wrap_layer (max_decompressed_bytes : N) (r : { R : Reader & State R })
    (algorithm : ResponseCompressionAlgorithm) : { R : Reader & State R } :=
  let '(existT R s) := r in
  let decoder := complete_stage_new algorithm R s in
  existT (size_limited_reader (complete_stage_decoder algorithm R))
    (size_limited_new (complete_stage_decoder algorithm R) decoder max_decompressed_bytes).

(** The closure of [try_filter_map]: [frame.into_data().ok()]. *)
Definition into_data (f : Frame) : option (list byte) :=
  match f with Data b => Some b | Trailers => None end.
Definition body_reader (body : SdkBody) : { R : Reader & State R } :=
  let '(existT B s) := body in
  existT (stream_reader into_data B) (stream_reader_new into_data B s).

(** [StreamingDecompressedBody::poll_frame]. *)
Definition streaming_poll_frame (R : Reader) (st : StreamState (State R))
    : FramePoll * StreamState (State R) :=
  match poll_next R st with
  | (Next (Ok bytes), st) => (FrameReady (Ok (Data bytes)), st)
  | (Next (Err e), st) => (FrameReady (Err e), st)
  | (Done, st) => (FrameEnd, st)
  | (Waiting, st) => (FramePending, st)
  end.
Definition StreamingDecompressedBody (R : Reader) : BodyImpl :=
  mkBody (StreamState (State R)) (streaming_poll_frame R).
Definition streaming_decompressed_body (r : { R : Reader & State R }) : SdkBody :=
  let '(existT R s) := r in
  existT (StreamingDecompressedBody R) (reader_stream_new R s).

(** The reader of the decoded bytes: the last listed encoding is undone first. *)
Definition decoding_reader (body : SdkBody) (encodings : list ResponseCompressionAlgorithm)
    (max_decompressed_bytes : N) : { R : Reader & State R } :=
  foldl (wrap_layer max_decompressed_bytes) (body_reader body) (reverse encodings).

Definition wrap_decompressed_body (body : SdkBody)
    (encodings : list ResponseCompressionAlgorithm) (max_encoding_layers : nat)
    (max_decompressed_bytes : N) : Result SdkBody ResponseEncodingLayerLimitExceeded :=
  result_bind (validate_response_encoding_layer_count (length encodings) max_encoding_layers)
    (λ _, Ok (streaming_decompressed_body (decoding_reader body encodings max_decompressed_bytes))).

(** ** The reader of a list of encodings

    [layered m body l r]: [r] undoes the encodings [l] of [body], which were
    applied in this order.  Undoing the first of them is the last step, on the
    bytes of the reader that undoes the others. *)
Inductive layered (m : N) (body : SdkBody) :
    list ResponseCompressionAlgorithm → { R : Reader & State R } → Prop :=
| layered_raw : layered m body [] (body_reader body)
| layered_over a l R s :
    layered m body l (existT R s) →
    layered m body (a :: l)
      (existT (size_limited_reader (complete_stage_decoder a R))
        (size_limited_new (complete_stage_decoder a R) (complete_stage_new a R s) m)).

(** ** Observing a reader *)

(** The results of polls with the given buffer sizes. *)
Fixpoint polls (R : Reader) (sizes : list nat) (s : State R) : list Poll :=
  match sizes with
  | [] => []
  | n :: sizes => let '(p, s) := poll_read R n s in p :: polls R sizes s
  end.

(** The results of [k] polls of a body. *)
Fixpoint frames (B : BodyImpl) (k : nat) (s : BodyState B) : list FramePoll :=
  match k with
  | O => []
  | S k' => let '(p, s) := poll_frame B s in p :: frames B k' s
  end.

(** A read, as the frame it becomes. *)
Definition frame_of (p : Poll) : FramePoll :=
  match p with
  | Ready (Ok []) => FrameEnd
  | Ready (Ok b) => FrameReady (Ok (Data b))
  | Ready (Err e) => FrameReady (Err e)
  | Pending => FramePending
  end.
(** Nothing is read after these. *)
Definition ends (p : Poll) : Prop :=
  match p with Ready (Ok []) | Ready (Err _) => True | _ => False end.

(** The bytes a poll delivered; the bytes of a run of polls. *)
Definition delivered (p : Poll) : nat :=
  match p with Ready (Ok b) => length b | _ => 0 end.
Definition total (ps : list Poll) : nat := sum_list (delivered <$> ps).
Definition frame_bytes (p : FramePoll) : nat :=
  match p with FrameReady (Ok (Data b)) => length b | _ => 0 end.
Definition total_frames (fs : list FramePoll) : nat := sum_list (frame_bytes <$> fs).

End decompression.
End Decompression.

(** ** Properties *)

Section properties.
Context `{DecoderLaws, TakeLaws, BodyIoLaws}.
Import Decompression.

Lemma complete_stage_fills a R : fills_at_most R → fills_at_most (complete_stage_decoder a R).
Proof.
  intros HR n st b. simpl. unfold poll_complete_stage. case_decide; [by intros [= <-]; simpl; lia|].
  assert (Hdrain : ∀ st', fst (drain a R st') = Ready (Ok b) → length b ≤ n).
  { intros st'. unfold drain. destruct (poll_input a R 8192 _) as [[[[|x c]|e]|] d]; try done.
    intros [= <-]. simpl. lia. }
  destruct (negb _); [|apply Hdrain].
  pose proof (decode_fills a R n (inner (State R) st)) as Hf.
  destruct (poll_decode a R n _) as [[[[|x c]|e]|] d]; try done; [apply Hdrain|].
  simpl. intros [= <-]. by apply Hf.
Qed.

Lemma size_limited_fills R : fills_at_most R → fills_at_most (size_limited_reader R).
Proof.
  intros HR n st b. simpl. unfold poll_size_limited. case_decide as Hd.
  - pose proof (take_poll_budget R n (take (State R) st) HR) as Hb.
    pose proof (take_poll_fst R n (take (State R) st)) as Hf.
    destruct (take_poll R n (take (State R) st)) as [p t]. simpl in *. intros ->.
    destruct (decide (0 < take_limit R (take (State R) st))%N) as [Hl|Hl].
    + specialize (Hf Hl). symmetry in Hf. apply HR in Hf. lia.
    + simpl in Hb. lia.
  - destruct (poll_read R 1 _) as [[[[|x c]|e]|] s]; try done. intros [= <-]. simpl. lia.
Qed.

Lemma body_reader_fills body : fills_at_most (projT1 (body_reader body)).
Proof. destruct body. apply stream_reader_fills. Qed.

(** The reader the code builds has these layers. *)
Lemma layered_fold m body l l0 r :
  layered m body l0 r → layered m body (reverse l ++ l0) (foldl (wrap_layer m) r l).
Proof.
  revert l0 r. induction l as [|a l IH]; intros l0 [R s] Hr; simpl; [done|].
  rewrite reverse_cons, <-app_assoc. apply IH. by constructor.
Qed.
Lemma decoding_reader_layered body encodings m :
  layered m body encodings (decoding_reader body encodings m).
Proof.
  pose proof (layered_fold m body (reverse encodings) [] _ (layered_raw m body)) as Hl.
  by rewrite reverse_involutive, app_nil_r in Hl.
Qed.

Lemma layered_fills m body l r : layered m body l r → fills_at_most (projT1 r).
Proof.
  induction 1 as [|a l R s _ IH]; [apply body_reader_fills|].
  by apply size_limited_fills, complete_stage_fills.
Qed.

Lemma poll_size_limited_budget R n st : fills_at_most R →
  (N.of_nat (delivered (fst (poll_size_limited R n st)))
     + take_limit R (take (State R) (snd (poll_size_limited R n st)))
   = take_limit R (take (State R) st))%N.
Proof.
  intros HR. unfold poll_size_limited. case_decide as Hd.
  - pose proof (take_poll_budget R n (take (State R) st) HR) as Hb.
    destruct (take_poll R n (take (State R) st)) as [[[b|e]|] t]; simpl in *; lia.
  - destruct (poll_read R 1 _) as [[[[|x b]|e]|] s]; simpl; rewrite take_limit_set_inner; lia.
Qed.

Lemma total_size_limited R sizes st : fills_at_most R →
  (N.of_nat (total (polls (size_limited_reader R) sizes st)) ≤ take_limit R (take (State R) st))%N.
Proof.
  intros HR. unfold total. revert st. induction sizes as [|n sizes IH]; intros st; simpl; [lia|].
  pose proof (poll_size_limited_budget R n st HR) as Hb.
  destruct (poll_size_limited R n st) as [p st']. simpl in *. specialize (IH st').
  change (list_fmap Poll nat delivered) with (fmap (M := list) delivered). lia.
Qed.

(** Every layer delivers at most the limit. *)
Lemma layered_total m body l r sizes :
  layered m body l r → l ≠ [] → (N.of_nat (total (polls (projT1 r) sizes (projT2 r))) ≤ m)%N.
Proof.
  intros Hr. destruct Hr as [|a l R s Hr]; [done|]. intros _. cbn [projT1 projT2].
  etrans; [apply total_size_limited, complete_stage_fills, (layered_fills m body l _ Hr)|].
  simpl. by rewrite take_limit_new.
Qed.

(** What is layered under a layer. *)
Lemma layered_suffix m body l1 l2 r :
  layered m body (l1 ++ l2) r → ∃ r', layered m body l2 r'.
Proof.
  revert r. induction l1 as [|a l1 IH]; intros r Hr; [eauto|]. inversion Hr; subst. eauto.
Qed.

(** The frames of a streamed reader are its reads, up to its end. *)
Lemma frames_released R k st :
  held R st = None → frames (StreamingDecompressedBody R) k st = replicate k FrameEnd.
Proof.
  revert st. induction k as [|k IH]; intros st Hst; [done|]. cbn [frames replicate].
  change (poll_frame (StreamingDecompressedBody R) st) with (streaming_poll_frame R st).
  unfold streaming_poll_frame. destruct (poll_released R st Hst) as [Hp Hn].
  destruct (poll_next R st) as [p st']. simpl in *. subst p. by rewrite IH.
Qed.

Definition read_as (R : Reader) (s : State R) (k : nat) (fs : list FramePoll) : Prop :=
  ∃ sizes, Forall (lt 0) sizes ∧ length sizes ≤ k ∧
    fs = (frame_of <$> polls R sizes s) ++ replicate (k - length sizes) FrameEnd ∧
    (∀ i p, polls R sizes s !! i = Some p → ends p → S i = length sizes) ∧
    (length sizes < k → ∃ p, last (polls R sizes s) = Some p ∧ ends p).

Lemma read_as_end R s k n :
  0 < n → ends (fst (poll_read R n s)) →
  read_as R s (S k) (frame_of (fst (poll_read R n s)) :: replicate k FrameEnd).
Proof.
  intros Hn Hq. exists [n]. cbn [polls]. destruct (poll_read R n s) as [q s']. simpl in *.
  rewrite Nat.sub_0_r. split_and!; [by constructor|lia|done|by intros [|i]|by exists q].
Qed.

Lemma read_as_more R s k n fs :
  0 < n → ¬ ends (fst (poll_read R n s)) → read_as R (snd (poll_read R n s)) k fs →
  read_as R s (S k) (frame_of (fst (poll_read R n s)) :: fs).
Proof.
  intros Hn Hq (sizes & Hs & Hl & Hf & He & Hlast). exists (n :: sizes). cbn [polls].
  destruct (poll_read R n s) as [q s']. simpl in *.
  split_and!; [by constructor|lia|by rewrite Hf| |].
  - intros [|i] p; simpl; [by intros [= <-]|]. intros Hi Hp. f_equal. by apply (He i p).
  - intros Hlt. destruct Hlast as (p & Hp & Hends); [lia|]. exists p.
    split; [|done]. by rewrite last_cons, Hp.
Qed.

Lemma frames_reads R k st s :
  held R st = Some s →
  read_as R s k (frames (StreamingDecompressedBody R) k st).
Proof.
  revert st s. induction k as [|k IH]; intros st s Hst.
  { exists []. simpl. split_and!; [constructor|lia|done|by intros []|lia]. }
  cbn [frames]. change (poll_frame (StreamingDecompressedBody R) st) with (streaming_poll_frame R st).
  unfold streaming_poll_frame. destruct (poll_held R st s Hst) as (n & Hn & Hp).
  pose proof (read_as_end R s k n Hn) as Hend.
  pose proof (λ fs, read_as_more R s k n fs Hn) as Hmore.
  destruct (poll_read R n s) as [q s'], (poll_next R st) as [sp st'].
  destruct q as [[[|x b]|e]|]; destruct Hp as [Hp1 Hp2]; cbn [fst snd ends frame_of] in *; subst sp;
    first [rewrite (frames_released R k st' Hp2); exact (Hend I)|apply Hmore; [by intros []|by apply IH]].
Qed.

Lemma length_polls R sizes s : length (polls R sizes s) = length sizes.
Proof.
  revert s. induction sizes as [|n sizes IH]; intros s; [done|]. cbn [polls].
  destruct (poll_read R n s). simpl. by rewrite IH.
Qed.

(** An end without an error is the end of the reader. *)
Lemma read_as_ended R s k fs :
  read_as R s k fs → FrameEnd ∈ fs → (∀ e, FrameReady (Err e) ∉ fs) →
  ∃ sizes, Forall (lt 0) sizes ∧ last (polls R sizes s) = Some (Ready (Ok [])).
Proof.
  intros (sizes & Hs & Hl & -> & He & Hlast) Hend Hno. exists sizes. split; [done|].
  assert (Hp : ∃ p, last (polls R sizes s) = Some p ∧ ends p).
  { apply elem_of_app in Hend as [Hend|Hend].
    - apply list_elem_of_fmap in Hend as (p & Hp & Hin). exists p.
      apply list_elem_of_lookup in Hin as [i Hi].
      assert (Hends : ends p) by (by destruct p as [[[|x b]|e]|]). split; [|done].
      rewrite last_lookup, length_polls, <-(He i p Hi Hends). done.
    - apply Hlast. destruct (k - length sizes) eqn:Hk; [by apply elem_of_nil in Hend|lia]. }
  destruct Hp as (p & Hp & Hends). destruct p as [[[|x b]|e]|]; try done. exfalso.
  apply (Hno e), elem_of_app. left. apply list_elem_of_fmap. exists (Ready (Err e)). split; [done|].
  by apply last_Some_elem_of in Hp.
Qed.

Lemma total_frames_reads ps m :
  total_frames ((frame_of <$> ps) ++ replicate m FrameEnd) = total ps.
Proof.
  unfold total_frames, total. induction ps as [|p ps IH]; simpl.
  - induction m as [|m IH]; [done|]. exact IH.
  - f_equal; [|exact IH]. by destruct p as [[[|x b]|e]|].
Qed.

(** C22: decompression is bounded at every layer: a response with more encodings
    than allowed is refused with the two numbers.  Otherwise the body streams a
    reader with a decoder and a limiter for each encoding; for every split of the
    encodings, the layer that undoes the later ones, and so is what the decoders
    of the earlier ones read, delivers at most the configured number of bytes
    however it is polled; and the frames of the body hold at most as many in
    total. *)
Theorem decompression_bounded (body : SdkBody)
    (encodings : list ResponseCompressionAlgorithm) (max_layers : nat) (max_bytes : N) :
  encodings ≠ [] →
  match wrap_decompressed_body body encodings max_layers max_bytes with
  | Err e => e = mkLayerLimit (length encodings) max_layers ∧ max_layers < length encodings
  | Ok decoded => length encodings ≤ max_layers ∧
      (∃ r, decoded = streaming_decompressed_body r ∧ layered max_bytes body encodings r) ∧
      (∀ l1 l2, encodings = l1 ++ l2 → l2 ≠ [] →
         (∃ r, layered max_bytes body l2 r) ∧
         ∀ r sizes, layered max_bytes body l2 r →
           (N.of_nat (total (polls (projT1 r) sizes (projT2 r))) ≤ max_bytes)%N) ∧
      ∀ k, (N.of_nat (total_frames (frames (projT1 decoded) k (projT2 decoded))) ≤ max_bytes)%N
  end.
Proof.
  intros Hne. unfold wrap_decompressed_body, validate_response_encoding_layer_count.
  case_decide as Hlt; cbn [result_bind]; [by split|].
  pose proof (decoding_reader_layered body encodings max_bytes) as Hr.
  split_and!; [lia|by eexists| |].
  - intros l1 l2 -> Hl2. split; [by eapply layered_suffix|]. intros r sizes Hl. by eapply layered_total.
  - intros k. pose proof (λ sizes, layered_total _ _ _ _ sizes Hr Hne) as Htot.
    destruct (decoding_reader body encodings max_bytes) as [R s]. cbn [projT1 projT2] in *.
    destruct (frames_reads R k _ s (held_new R s)) as (sizes & _ & _ & Hf & _).
    simpl. by rewrite Hf, total_frames_reads.
Qed.

(** C26: a decoded body is its reader: the frames of the body are the reads of the
    outermost limiter in order, each a data frame, an error or a pending poll, up
    to the first end or error, and ends after that.  So a consumer that sees no
    error frame sees the end of the body only where the limiter reported its
    own: the whole response, as [no_silent_truncation] has it. *)
Theorem body_frames_faithful (body : SdkBody) (encodings : list ResponseCompressionAlgorithm)
    (max_layers : nat) (max_bytes : N) (k : nat) :
  length encodings ≤ max_layers →
  let '(existT R s) := decoding_reader body encodings max_bytes in
  match wrap_decompressed_body body encodings max_layers max_bytes with
  | Err _ => False
  | Ok (existT B st) =>
      read_as R s k (frames B k st) ∧
      (FrameEnd ∈ frames B k st → (∀ e, FrameReady (Err e) ∉ frames B k st) →
       ∃ sizes, Forall (lt 0) sizes ∧ last (polls R sizes s) = Some (Ready (Ok [])))
  end.
Proof.
  intros Hlen. unfold wrap_decompressed_body, validate_response_encoding_layer_count.
  rewrite decide_False by lia. cbn [result_bind].
  destruct (decoding_reader body encodings max_bytes) as [R s]. cbn [streaming_decompressed_body].
  pose proof (frames_reads R k _ s (held_new R s)) as Hr. split; [exact Hr|].
  intros Hend Hno. by apply (read_as_ended R s k _ Hr).
Qed.

(** C21: no silent truncation: a size-limited layer reports the end of the
    stream only in a poll in which the layer below it reported its own end, and
    with its budget spent a further byte is an error; a decoder layer reports
    its end only in a poll in which its compressed input has ended, so the layer
    below was read (and checked) completely. *)
Theorem no_silent_truncation (a : ResponseCompressionAlgorithm) (R : Reader) (n : nat) :
  0 < n →
  (∀ st, fst (poll_size_limited R n st) = Ready (Ok []) →
     ∃ m, 0 < m ∧ fst (poll_read R m (take_inner R (take (State R) st))) = Ready (Ok [])) ∧
  (∀ st x b, take_limit R (take (State R) st) = 0%N →
     fst (poll_read R 1 (take_inner R (take (State R) st))) = Ready (Ok (x :: b)) →
     fst (poll_size_limited R n st) =
       Ready (Err (DecompressedResponseSizeLimitExceeded (limit (State R) st)))) ∧
  (∀ st, fst (poll_complete_stage a R n st) = Ready (Ok []) →
     ∃ d, fst (poll_input a R 8192 d) = Ready (Ok [])).
Proof.
  intros Hn. split; [|split].
  - intros st. unfold poll_size_limited. case_decide as Hd.
    + pose proof (take_poll_fst R n (take (State R) st)) as Ht.
      destruct (take_poll R n (take (State R) st)) as [p t]. simpl in *. intros ->.
      destruct Hd as [Hd|Hd]; [|lia]. rewrite Ht by done. eexists. split; [|done]. lia.
    + intros Hp. exists 1. split; [lia|].
      by destruct (poll_read R 1 _) as [[[[|x b]|e]|] s].
  - intros st x b Hz Hp. unfold poll_size_limited. rewrite decide_False by lia.
    destruct (poll_read R 1 _) as [p s]. simpl in Hp. by subst p.
  - intros st. unfold poll_complete_stage. rewrite decide_False by lia.
    assert (Hdrain : ∀ st', fst (drain a R st') = Ready (Ok []) →
      ∃ d, fst (poll_input a R 8192 d) = Ready (Ok [])).
    { intros st' Hp. exists (inner (State R) st'). unfold drain in Hp.
      by destruct (poll_input a R 8192 _) as [[[[|x b]|e]|] d]. }
    destruct (negb _); [|apply Hdrain].
    destruct (poll_decode a R n _) as [[[[|x b]|e]|] d]; try done. apply Hdrain.
Qed.

End properties.

(** ** Transparent decoders, for the witnesses *)

Module CopyDecoders.

#[export] Instance decoders : Decoders := {|
  DecoderState S := S;
  decoder_new _ R s := s;
  poll_decode _ R n s := poll_read R n s;
  poll_input _ R n s := poll_read R n s;
|}.
#[export] Instance decoder_laws : DecoderLaws.
Proof. split. intros a R n d b HR. apply HR. Qed.

#[export] Instance take_api : TakeApi := {|
  TakeState S := (S * N)%type;
  take_new _ s n := (s, n);
  take_limit _ t := t.2;
  take_inner _ t := t.1;
  take_set_inner _ s t := (s, t.2);
  take_poll R n t :=
    if decide (t.2 = 0)%N then (Ready (Ok []), t)
    else
      let '(p, s) := poll_read R (min n (N.to_nat t.2)) t.1 in
      (p, (s, match p with Ready (Ok b) => t.2 - N.of_nat (length b) | _ => t.2 end)%N);
|}.
#[export] Instance take_laws : TakeLaws.
Proof.
  split; try done.
  - intros R n [s l]. simpl. intros Hl. rewrite decide_False by lia. by destruct (poll_read _ _ _).
  - intros R n [s l] HR. simpl. case_decide as Hl; [simpl; lia|].
    pose proof (HR (min n (N.to_nat l)) s) as Hb.
    destruct (poll_read _ _ _) as [[[b|e]|] s']; simpl in *; [|done..].
    specialize (Hb b eq_refl). lia.
Qed.

(** Three bytes, one per poll. *)
Definition three_bytes : Reader :=
  mkReader (list byte) (λ n s,
    match n, s with
    | S _, x :: s => (Ready (Ok [x]), s)
    | _, _ => (Ready (Ok []), s)
    end).
Lemma three_bytes_fill : fills_at_most three_bytes.
Proof. intros [|n] [|x s] b; simpl; intros [= <-]; simpl; lia. Qed.

(** A reader of the frames kept, with what is left of the last one; a dropped
    frame is a pending poll. *)
Definition frame_poll (keep : Frame → option (list byte)) (B : BodyImpl) (n : nat)
    (s : BodyState B * list byte) : Poll * (BodyState B * list byte) :=
  match s.2 with
  | _ :: _ => (Ready (Ok (take n s.2)), (s.1, drop n s.2))
  | [] =>
      match poll_frame B s.1 with
      | (FrameReady (Ok f), b) =>
          match keep f with
          | Some ((_ :: _) as c) => (Ready (Ok (take n c)), (b, drop n c))
          | _ => (Pending, (b, []))
          end
      | (FrameReady (Err e), b) => (Ready (Err e), (b, []))
      | (FrameEnd, b) => (Ready (Ok []), (b, []))
      | (FramePending, b) => (Pending, (b, []))
      end
  end.

(** A stream that reads four bytes at a time. *)
Definition next_poll (R : Reader) (st : option (State R)) : StreamPoll * option (State R) :=
  match st with
  | None => (Done, None)
  | Some s =>
      match poll_read R 4 s with
      | (Ready (Ok []), _) => (Done, None)
      | (Ready (Ok b), s') => (Next (Ok b), Some s')
      | (Ready (Err e), _) => (Next (Err e), None)
      | (Pending, s') => (Waiting, Some s')
      end
  end.

#[export] Instance body_io : BodyIo := {|
  stream_reader keep B := mkReader (BodyState B * list byte) (frame_poll keep B);
  stream_reader_new _ _ s := (s, []);
  StreamState S := option S;
  reader_stream_new _ s := Some s;
  poll_next R st := next_poll R st;
|}.
#[export] Instance body_io_laws : BodyIoLaws.
Proof.
  refine {| held := λ R (st : @StreamState body_io (State R)), st |}.
  - intros keep B n [s rest] b. simpl. unfold frame_poll. simpl.
    destruct rest as [|x rest]; [|intros [= <-]; rewrite length_take; lia].
    destruct (poll_frame B s) as [[[f|e]| |] s']; simpl; try done; [|by intros [= <-]; simpl; lia].
    destruct (keep f) as [[|x c]|]; try done. intros [= <-]. rewrite length_take. lia.
  - done.
  - intros R st s Hst. exists 4. split; [lia|]. simpl in *. subst st. simpl.
    by destruct (poll_read R 4 s) as [[[[|x b]|e]|] s'].
  - intros R st Hst. simpl in *. by subst st.
Defined.

(** A body is a list of frames. *)
Definition frame_list : BodyImpl :=
  mkBody (list Frame) (λ s, match s with f :: s => (FrameReady (Ok f), s) | [] => (FrameEnd, []) end).
Definition three_frames : SdkBody :=
  existT frame_list [Data [x01]; Data [x02]; Trailers; Data [x03]].

End CopyDecoders.

Section witnesses.
Import Decompression CopyDecoders.

(** Both layers of a body with two encodings are limited. *)
Lemma decompression_bounded_witness :
  match wrap_decompressed_body three_frames [Gzip; Deflate] 5 2 with
  | Err e => False
  | Ok decoded =>
      (∃ r, layered 2 three_frames [Deflate] r) ∧
      (∀ r sizes, layered 2 three_frames [Deflate] r →
         (N.of_nat (total (polls (projT1 r) sizes (projT2 r))) ≤ 2)%N) ∧
      ∀ k, (N.of_nat (total_frames (frames (projT1 decoded) k (projT2 decoded))) ≤ 2)%N
  end.
Proof.
  assert (Hne : [Gzip; Deflate] ≠ []) by discriminate.
  destruct (decompression_bounded three_frames [Gzip; Deflate] 5 2 Hne) as (_ & _ & Hsplit & Hk).
  assert (Hl : [Deflate] ≠ []) by discriminate.
  destruct (Hsplit [Gzip] [Deflate] eq_refl Hl) as [Hr Htot].
  split; [exact Hr|]. split; [exact Htot|exact Hk].
Defined.

Lemma body_frames_faithful_witness :
  let '(existT R s) := decoding_reader three_frames [Gzip; Deflate] 3 in
  match wrap_decompressed_body three_frames [Gzip; Deflate] 5 3 with
  | Err _ => False
  | Ok (existT B st) =>
      read_as R s 5 (frames B 5 st) ∧
      (FrameEnd ∈ frames B 5 st → (∀ e, FrameReady (Err e) ∉ frames B 5 st) →
       ∃ sizes, Forall (lt 0) sizes ∧ last (polls R sizes s) = Some (Ready (Ok [])))
  end.
Proof.
  apply (body_frames_faithful three_frames [Gzip; Deflate] 5 3 5). simpl. lia.
Defined.

Lemma no_silent_truncation_witness :
  let R := three_bytes in
  fst (poll_size_limited R 8 (mkLimited (State R) ([x03], 0%N) 2)) =
    Ready (Err (DecompressedResponseSizeLimitExceeded 2)).
Proof.
  refine (proj1 (proj2 (@no_silent_truncation decoders take_api take_laws Gzip three_bytes 8 _))
    (mkLimited (list byte) ([x03], 0%N) 2) x03 [] _ _).
  - lia.
  - reflexivity.
  - reflexivity.
Defined.

(** Two layers with a budget of two bytes: the third byte is an error; with a
    budget of three the body ends as it should. *)
Example limited_frames :
  (λ m, match wrap_decompressed_body three_frames [Gzip; Deflate] 5 m with
        | Ok (existT B s) => frames B 6 s
        | Err _ => []
        end) <$> [2%N; 3%N] =
  [[FrameReady (Ok (Data [x01])); FrameReady (Ok (Data [x02])); FramePending;
    FrameReady (Err (DecompressedResponseSizeLimitExceeded 2)); FrameEnd; FrameEnd];
   [FrameReady (Ok (Data [x01])); FrameReady (Ok (Data [x02])); FramePending;
    FrameReady (Ok (Data [x03])); FrameEnd; FrameEnd]].
Proof. vm_compute. reflexivity. Qed.

End witnesses.
