(* ===== verification/Interceptors.v ===== *)
(** * The request and response hooks ([src/src/interceptors.rs],
      [src/src/customize.rs])

    [AlternatorInterceptor] works on a request through the SDK's hooks, in this
    order: before serialization a query plan and per-operation overrides enter
    the config bag; before the retry loop the request is compressed and the
    accepted encodings are advertised; before each attempt is signed its URI is
    pointed at the next node of the plan; after signing a signature is noted;
    before transmission headers are stripped and the user agent is set; and
    before deserialization the response body is unwrapped.

    The theorems: each attempt goes to the next node of the plan and only to
    the network location of that node; whatever is stripped, a signed request
    keeps what its signature covers; the last override wins; and a response is
    decoded exactly when every encoding is known and there are not too many. *)

From S2P Require Import Prelude UrlApi NodeUrl RoutingScope LiveNodes QueryPlan.
From S2P Require Import Http OptimizeHeaders Compression Decompression.
From Stdlib Require Import Ascii.
From Stdlib Require Import Strings.Byte.

(** The parts of the config bag the driver stores under its own types. *)
Record ConfigBag `{UrlApi, Flate} := mkBag {
  query_plan : option QueryPlanState;
  request_compression_store : option RequestCompression;
  response_compression_store : option ResponseCompression;
  preserve_auth_headers_store : option bool;
}.

(** [AlternatorInterceptor]. *)
Record AlternatorInterceptor `{Flate} := mkInterceptor {
  request_compression : RequestCompression;
  response_compression : ResponseCompression;
  optimize_headers : bool;
  user_agent : UserAgent;
  preserve_auth_headers : bool;
}.

(** [AlternatorOverrideInterceptor], by what it stores. *)
Inductive OverrideInterceptor `{Flate} : Type :=
| OverrideRequest (c : RequestCompression)
| OverrideResponse (c : ResponseCompression).

(** [AlternatorOperationBuilder]. *)
Record AlternatorOperationBuilder `{Flate} := mkOperationBuilder {
  op_request_compression : option RequestCompression;
  op_response_compression : option ResponseCompression;
}.

(** Why an attempt cannot be routed. *)
Inductive RouteError : Type :=
| NoLiveNode
| BadRequestUri (e : ParseError)
| CannotSetScheme
| CannotSetHost
| CannotSetPort
| InvalidUri.

(** Why a response cannot be decoded. *)
Inductive DecodeError : Type :=
| TooManyLayers (e : ResponseEncodingLayerLimitExceeded)
| UnsupportedEncoding (token : string).

(** A response, by its headers and its body. *)
Record Response `{HeaderApi} := mkResponse {
  response_headers : Headers;
  response_body : SdkBody;
}.

(** [Request::set_uri] accepts a URI. *)
Class UriApi := uri_ok : string → bool.

Module Hooks.

(** [SdkBody::empty]. *)
Definition empty_body : SdkBody := existT (mkBody unit (λ s, (FrameEnd, s))) tt.

Section hooks.
Context `{UrlApi, HeaderApi, Flate, UriApi, CrateVersion, Decoders, TakeApi, BodyIo} {Stream : Type}.

Definition empty_bag : ConfigBag := mkBag _ _ None None None None.

(** [store_put] of each store. *)
Definition put_plan (p : QueryPlanState) (b : ConfigBag) : ConfigBag :=
  mkBag _ _ (Some p) (request_compression_store b) (response_compression_store b)
    (preserve_auth_headers_store b).
Definition put_request (c : RequestCompression) (b : ConfigBag) : ConfigBag :=
  mkBag _ _ (query_plan b) (Some c) (response_compression_store b) (preserve_auth_headers_store b).
Definition put_response (c : ResponseCompression) (b : ConfigBag) : ConfigBag :=
  mkBag _ _ (query_plan b) (request_compression_store b) (Some c) (preserve_auth_headers_store b).
Definition put_preserve (p : bool) (b : ConfigBag) : ConfigBag :=
  mkBag _ _ (query_plan b) (request_compression_store b) (response_compression_store b) (Some p).

(** ** Before serialization *)

(** [for_request_compression], [for_response_compression]. *)
Definition for_request_compression (c : RequestCompression) : OverrideInterceptor := OverrideRequest c.
Definition for_response_compression (c : ResponseCompression) : OverrideInterceptor :=
  OverrideResponse c.

(** Their [modify_before_serialization]. *)
Definition override_before_serialization (o : OverrideInterceptor) (b : ConfigBag) : ConfigBag :=
  match o with
  | OverrideRequest c => put_request c b
  | OverrideResponse c => put_response c b
  end.

(** [RoundRobinQueryPlanInterceptor::modify_before_serialization]. *)
Definition round_robin_before_serialization (b : ConfigBag) : ConfigBag := put_plan Plan.new_basic b.

(** [alternator_config_override]: the interceptors it adds to the operation. *)
Definition alternator_config_override (interceptors : list OverrideInterceptor)
    (config_override : AlternatorOperationBuilder) : list OverrideInterceptor :=
  let this := interceptors in
  let this :=
    match op_request_compression config_override with
    | Some c => this ++ [for_request_compression c]
    | None => this
    end in
  match op_response_compression config_override with
  | Some c => this ++ [for_response_compression c]
  | None => this
  end.

(** The overrides of an operation, in the order in which they were added. *)
Definition run_overrides (interceptors : list OverrideInterceptor) (b : ConfigBag) : ConfigBag :=
  foldl (λ b o, override_before_serialization o b) b interceptors.

(** ** Before the retry loop *)

Definition modify_before_retry_loop (self : AlternatorInterceptor) (cfg : ConfigBag)
    (r : Request Stream) : Request Stream :=
  let rq := default (request_compression self) (request_compression_store cfg) in
  let r :=
    match ReqCompression.get rq with
    | Some (algorithm, level, threshold) =>
        ReqCompression.compress_request algorithm level threshold r
    | None => r
    end in
  let rs := default (response_compression self) (response_compression_store cfg) in
  match ResCompression.get rs with
  | Some algorithms =>
      Http.set_headers (insert_header (headers r) "accept-encoding"
        (ResCompression.accept_encoding_header_value algorithms)) r
  | None => r
  end.

(** ** Before signing *)

(** The rewriting of the request URI. *)
Definition route (node : Url) (r : Request Stream) : Result (Request Stream) RouteError :=
  match Url_parse (uri r) with
  | Err e => Err (BadRequestUri e)
  | Ok current =>
      match set_scheme current (scheme node) with
      | None => Err CannotSetScheme
      | Some current =>
          match set_host current (host_str node) with
          | None => Err CannotSetHost
          | Some current =>
              match set_port current (port node) with
              | None => Err CannotSetPort
              | Some current =>
                  if uri_ok (as_str current) then Ok (Http.set_uri (as_str current) r)
                  else Err InvalidUri
              end
          end
      end
  end.

(** [modify_before_signing]; the plan lives in the bag and advances even when
    the rewriting fails. *)
Definition modify_before_signing (cfg : ConfigBag) (v : NodeView) (r : Request Stream)
    : Result (Request Stream) RouteError * ConfigBag * NodeView :=
  match query_plan cfg with
  | None => (Ok r, cfg, v)
  | Some plan =>
      match Plan.next_node_or_restart plan v with
      | (None, plan, v) => (Err NoLiveNode, put_plan plan cfg, v)
      | (Some node, plan, v) => (route node r, put_plan plan cfg, v)
      end
  end.

(** ** After signing and before transmission *)

Definition read_after_signing (r : Request Stream) (cfg : ConfigBag) : ConfigBag :=
  if Http.contains_key (headers r) "authorization" && Http.contains_key (headers r) "x-amz-date"
  then put_preserve true cfg else cfg.

Definition modify_before_transmit (self : AlternatorInterceptor) (cfg : ConfigBag)
    (r : Request Stream) : Result unit string * Request Stream :=
  let preserve := default (preserve_auth_headers self) (preserve_auth_headers_store cfg) in
  let r := if optimize_headers self then OptimizeHeaders.strip_headers preserve r else r in
  UserAgentOps.apply_user_agent (user_agent self) r.

(** ** Before deserialization *)

(** The loop over the tokens of all header values. *)
Fixpoint read_tokens (max_encoding_layers : nat) (tokens : list string)
    (algorithms : list ResponseCompressionAlgorithm)
    : Result (list ResponseCompressionAlgorithm) DecodeError :=
  match tokens with
  | [] => Ok algorithms
  | token :: rest =>
      let token := Str.trim token in
      if decide (token = EmptyString) then read_tokens max_encoding_layers rest algorithms
      else
        match Decompression.validate_response_encoding_layer_count (length algorithms + 1)
                max_encoding_layers with
        | Err e => Err (TooManyLayers e)
        | Ok _ =>
            match ResCompression.from_content_encoding token with
            | Some algo => read_tokens max_encoding_layers rest (algorithms ++ [algo])
            | None => Err (UnsupportedEncoding token)
            end
        end
  end.

Definition modify_before_deserialization (self : AlternatorInterceptor) (cfg : ConfigBag)
    (response : Response) : Result unit DecodeError * Response :=
  let rc := default (response_compression self) (response_compression_store cfg) in
  let tokens := get_all (response_headers response) "content-encoding" ≫= Str.split "," in
  match read_tokens (max_encoding_layers rc) tokens [] with
  | Err e => (Err e, response)
  | Ok [] => (Ok (), response)
  | Ok ((_ :: _) as algorithms) =>
      match Decompression.wrap_decompressed_body (response_body response) algorithms
              (max_encoding_layers rc) (max_decompressed_bytes rc) with
      | Err e => (Err (TooManyLayers e),
                  mkResponse _ (response_headers response) empty_body)
      | Ok body =>
          let h := remove_header (response_headers response) "content-encoding" in
          let h := remove_header h "content-length" in
          (Ok (), mkResponse _ h body)
      end
  end.

(** The results of [k] attempts; the SDK rewinds the request before each. *)
Fixpoint attempt_uris (k : nat) (cfg : ConfigBag) (v : NodeView) (r : Request Stream)
    : list (Result (Request Stream) RouteError) :=
  match k with
  | O => []
  | S k' =>
      let '(result, cfg, v) := modify_before_signing cfg v r in
      result :: attempt_uris k' cfg v r
  end.

End hooks.
End Hooks.

(** ** Laws of the URL setters *)

(** What the setters change, observed through the getters; [target] is the
    path, query and fragment. *)
Class UrlEditLaws `{UrlApi} := {
  target : Url → string;
  set_scheme_laws : ∀ u s u', set_scheme u s = Some u' →
    scheme u' = s ∧ host_str u' = host_str u ∧ target u' = target u;
  set_host_laws : ∀ u h u', set_host u h = Some u' →
    scheme u' = scheme u ∧ host_str u' = h ∧ target u' = target u;
  set_port_laws : ∀ u p u', set_port u p = Some u' →
    scheme u' = scheme u ∧ host_str u' = host_str u ∧ target u' = target u;
  (** A port read from a URL is set as it is on a URL of that scheme. *)
  set_port_same_scheme : ∀ u n u', scheme u = scheme n → set_port u (port n) = Some u' →
    port u' = port n;
}.

Module HooksFacts.
Import Hooks.
Section facts.
Context `{UrlApi, HeaderApi, Flate, UriApi} {Stream : Type}.

Lemma route_spec `{!UrlEditLaws} node (r r' : Request Stream) :
  route node r = Ok r' →
  ∃ u0 u, Url_parse (uri r) = Ok u0 ∧ uri r' = as_str u ∧
    scheme u = scheme node ∧ host_str u = host_str node ∧ port u = port node ∧
    target u = target u0 ∧ headers r' = headers r ∧ body r' = body r.
Proof.
  unfold route. destruct (Url_parse (uri r)) as [u0|e]; [|done].
  destruct (set_scheme u0 (scheme node)) as [u1|] eqn:Hs; [|done].
  destruct (set_host u1 (host_str node)) as [u2|] eqn:Hh; [|done].
  destruct (set_port u2 (port node)) as [u3|] eqn:Hp; [|done].
  destruct (uri_ok (as_str u3)); [|done]. intros [= <-].
  apply set_scheme_laws in Hs as (Hs1 & _ & Hs3).
  apply set_host_laws in Hh as (Hh1 & Hh2 & Hh3).
  assert (Hport : port u3 = port node) by (eapply set_port_same_scheme; [|exact Hp]; congruence).
  apply set_port_laws in Hp as (Hp1 & Hp2 & Hp3).
  exists u0, u3. simpl. split_and!; congruence.
Qed.

(** [read_tokens] on all tokens: it fails at the first offending one. *)
Lemma read_tokens_Ok m tokens acc algorithms :
  length acc ≤ m →
  read_tokens m tokens acc = Ok algorithms ↔
  (∃ l, algorithms = acc ++ l ∧ length algorithms ≤ m ∧
    Some <$> l = ResCompression.from_content_encoding
      <$> filter (λ t, t ≠ EmptyString) (Str.trim <$> tokens)).
Proof.
  revert acc. induction tokens as [|t tokens IH]; intros acc Hacc; simpl.
  { split.
    - intros [= ->]. exists []. by rewrite app_nil_r.
    - intros (l & -> & _ & Hl). destruct l; [by rewrite app_nil_r|done]. }
  rewrite filter_cons. destruct (decide (Str.trim t = EmptyString)) as [Ht|Ht].
  { rewrite decide_False by naive_solver. by apply IH. }
  rewrite decide_True by done. rewrite fmap_cons.
  unfold Decompression.validate_response_encoding_layer_count.
  destruct (decide (m < length acc + 1)) as [Hm|Hm].
  { split; [done|]. intros (l & -> & Hlen & Hl). rewrite length_app in Hlen.
    destruct l; simpl in *; [done|lia]. }
  destruct (ResCompression.from_content_encoding (Str.trim t)) as [a|]; cycle 1.
  { split; [done|]. intros (l & _ & _ & Hl). by destruct l. }
  rewrite IH by (rewrite length_app; simpl; lia). split.
  - intros (l & -> & Hlen & Hl). exists (a :: l). rewrite <-app_assoc in *. split_and!; [done|done|].
    rewrite fmap_cons. by rewrite Hl.
  - intros (l & -> & Hlen & Hl). destruct l as [|b l]; [done|]. rewrite fmap_cons in Hl.
    injection Hl as -> Hl. exists l. rewrite <-app_assoc. by split_and!.
Qed.

Lemma read_tokens_Err m tokens acc e :
  length acc ≤ m → read_tokens m tokens acc = Err e →
  ∃ known token rest,
    filter (λ t, t ≠ EmptyString) (Str.trim <$> tokens) = known ++ token :: rest ∧
    (∀ t, t ∈ known → is_Some (ResCompression.from_content_encoding t)) ∧
    match e with
    | TooManyLayers l => length acc + length known = m ∧ l = mkLayerLimit (S m) m
    | UnsupportedEncoding t => length acc + length known < m ∧ t = token ∧
        ResCompression.from_content_encoding token = None
    end.
Proof.
  revert acc. induction tokens as [|t tokens IH]; intros acc Hacc; [done|].
  cbn [read_tokens]. rewrite fmap_cons, filter_cons.
  destruct (decide (Str.trim t = EmptyString)) as [Ht|Ht].
  { rewrite decide_False by naive_solver. by apply IH. }
  rewrite decide_True by done.
  unfold Decompression.validate_response_encoding_layer_count.
  destruct (decide (m < length acc + 1)) as [Hm|Hm].
  { intros [= <-]. eexists [], _, _. split; [done|]. split; [by intros ? ?%not_elem_of_nil|].
    simpl. split; [lia|]. f_equal; lia. }
  destruct (ResCompression.from_content_encoding (Str.trim t)) as [a|] eqn:Ha; cycle 1.
  { intros [= <-]. eexists [], _, _. split; [done|]. split; [by intros ? ?%not_elem_of_nil|].
    simpl. split; [lia|done]. }
  intros He. destruct (IH (acc ++ [a])) as (known & token & rest & Hf & Hk & Hc);
    [rewrite length_app; simpl; lia|done|].
  exists (Str.trim t :: known), token, rest. rewrite Hf. split; [done|]. split.
  - intros t' [->|Hin]%elem_of_cons; [by rewrite Ha|by apply Hk].
  - rewrite length_app in Hc. simpl in *. destruct e; destruct Hc as [Hc ?]; (split; [lia|done]).
Qed.

Lemma modify_before_signing_plan cfg v (r : Request Stream) p :
  query_plan cfg = Some p →
  modify_before_signing cfg v r =
    match Plan.next_node_or_restart p v with
    | (None, p, v) => (Err NoLiveNode, put_plan p cfg, v)
    | (Some node, p, v) => (route node r, put_plan p cfg, v)
    end.
Proof. unfold modify_before_signing. by intros ->. Qed.

(** The attempts follow the plan. *)
Lemma attempt_uris_plan k cfg v (r : Request Stream) p :
  query_plan cfg = Some p →
  attempt_uris k cfg v r =
    (λ o, match o with Some node => route node r | None => Err NoLiveNode end)
      <$> fst (Plan.attempts Plan.next_node_or_restart k p v).
Proof.
  revert cfg v p. induction k as [|k IH]; intros cfg v p Hp; [done|].
  cbn [attempt_uris Plan.attempts]. rewrite (modify_before_signing_plan cfg v r p Hp).
  destruct (Plan.next_node_or_restart p v) as [[[node|] p'] v'];
    rewrite (IH _ _ p') by done;
    by destruct (Plan.attempts Plan.next_node_or_restart k p' v').
Qed.

End facts.
End HooksFacts.

(** ** Properties *)

Section properties.
Context `{UrlApi, HeaderApi, Flate, UriApi, CrateVersion, Decoders, TakeApi, BodyIo} {Stream : Type}.
Import Hooks HooksFacts.

(** C10: every attempt is routed by the plan: the [k] attempts of a request go to
    the nodes the plan yields, restarting when it is exhausted; an attempt fails
    for want of a node only when the plan has none at all; and an attempt that
    succeeds differs from the request only in its URI, which has the scheme,
    host and port of the node and the target of the request. *)
Theorem attempts_follow_plan `{!UrlEditLaws} k cfg v (r : Request Stream) p :
  query_plan cfg = Some p →
  let nodes := fst (Plan.attempts Plan.next_node_or_restart k p v) in
  attempt_uris k cfg v r =
    (λ o, match o with Some node => route node r | None => Err NoLiveNode end) <$> nodes ∧
  ∀ i r', attempt_uris k cfg v r !! i = Some (Ok r') →
    ∃ node u0 u, nodes !! i = Some (Some node) ∧
      Url_parse (uri r) = Ok u0 ∧ uri r' = as_str u ∧
      scheme u = scheme node ∧ host_str u = host_str node ∧ port u = port node ∧
      target u = target u0 ∧ headers r' = headers r ∧ body r' = body r.
Proof.
  intros Hp nodes. pose proof (attempt_uris_plan k cfg v r p Hp) as Ha. fold nodes in Ha.
  split; [done|]. intros i r' Hi. rewrite Ha, list_lookup_fmap in Hi.
  destruct (nodes !! i) as [[node|]|] eqn:Hn; simpl in Hi; [|done..].
  injection Hi as Hi. apply route_spec in Hi as (u0 & u & Hu). by exists node, u0, u.
Qed.

(** C11: a signature survives header stripping: once a signed request has been
    seen, its authentication headers and every header its signature covers
    reach the network unchanged, whatever the client's settings; only the user
    agent is set afterwards. *)
Theorem signature_survives `{!HeaderLaws} self cfg (r : Request Stream) authorization signed k :
  get_all (headers r) "authorization" = [authorization] →
  get_all (headers r) "x-amz-date" ≠ [] →
  OptimizeHeaders.parse_signed_headers authorization = Some signed →
  k ∈ OptimizeHeaders.AUTH_WHITELIST ∨ k ∈ signed → k ≠ "user-agent" →
  get_all (headers (snd (modify_before_transmit self (read_after_signing r cfg) r))) k =
    get_all (headers r) k.
Proof.
  intros Ha Hd Hs Hk Hua. unfold read_after_signing, Http.contains_key.
  rewrite Ha, !bool_decide_eq_false_2 by done. simpl.
  unfold modify_before_transmit. simpl.
  set (r1 := if optimize_headers self then _ else r).
  assert (Hr1 : get_all (headers r1) k = get_all (headers r) k).
  { subst r1. destruct (optimize_headers self); [|done].
    rewrite OptimizeFacts.strip_headers_get_all. unfold OptimizeHeaders.signed_headers_of.
    rewrite Ha, Hs. unfold OptimizeHeaders.allowed.
    destruct Hk as [Hk|Hk].
    - rewrite (bool_decide_eq_true_2 (k ∈ OptimizeHeaders.AUTH_WHITELIST)) by done.
      by rewrite orb_true_r.
    - rewrite (bool_decide_eq_true_2 (k ∈ signed)) by done. by rewrite !orb_true_r. }
  unfold UserAgentOps.apply_user_agent, Http.try_insert.
  destruct (UserAgentOps.resolve (user_agent self)) as [ua|]; [destruct (valid_value ua)|]; simpl;
    rewrite ?get_all_insert, ?(decide_False (P := k = "user-agent")), ?get_all_remove,
      ?(decide_False (P := k = "user-agent")) by done; done.
Qed.

(** The stores a list of overrides leaves behind. *)
Lemma run_overrides_stores os b :
  request_compression_store (run_overrides os b) =
    match last (omap (λ o, match o with OverrideRequest c => Some c | _ => None end) os) with
    | Some c => Some c
    | None => request_compression_store b
    end ∧
  response_compression_store (run_overrides os b) =
    match last (omap (λ o, match o with OverrideResponse c => Some c | _ => None end) os) with
    | Some c => Some c
    | None => response_compression_store b
    end.
Proof.
  induction os as [|o os [IH1 IH2]] using rev_ind; [done|].
  unfold run_overrides in *. rewrite foldl_app, !omap_app. simpl.
  destruct o as [c|c]; simpl; rewrite ?last_snoc, ?app_nil_r; by split.
Qed.

Lemma overrides_of_configs ovs :
  omap (λ o, match o with OverrideRequest c => Some c | _ => None end)
    (foldl alternator_config_override [] ovs) = omap op_request_compression ovs ∧
  omap (λ o, match o with OverrideResponse c => Some c | _ => None end)
    (foldl alternator_config_override [] ovs) = omap op_response_compression ovs.
Proof.
  induction ovs as [|o ovs [IH1 IH2]] using rev_ind; [done|].
  rewrite foldl_app, !omap_app. simpl. unfold alternator_config_override at 1 3.
  destruct (op_request_compression o), (op_response_compression o);
    rewrite ?omap_app; simpl; rewrite ?IH1, ?IH2, ?app_nil_r; by split.
Qed.

(** Per-operation overrides win: an operation with any number of Alternator
    overrides is compressed, negotiated and decoded exactly as by a client
    configured with the last override of each setting, and with the client's
    own setting where no override names one. *)
Theorem overrides_win self (ovs : list AlternatorOperationBuilder) (r : Request Stream)
    (response : Response) :
  let self' := mkInterceptor _
    (default (request_compression self) (last (omap op_request_compression ovs)))
    (default (response_compression self) (last (omap op_response_compression ovs)))
    (optimize_headers self) (user_agent self) (preserve_auth_headers self) in
  let cfg := run_overrides (foldl alternator_config_override [] ovs) empty_bag in
  modify_before_retry_loop self cfg r = modify_before_retry_loop self' empty_bag r ∧
  modify_before_deserialization self cfg response =
    modify_before_deserialization self' empty_bag response.
Proof.
  intros self' cfg.
  destruct (run_overrides_stores (foldl alternator_config_override [] ovs) empty_bag) as [Hrq Hrs].
  destruct (overrides_of_configs ovs) as [Ho1 Ho2]. rewrite Ho1 in Hrq. rewrite Ho2 in Hrs.
  fold cfg in Hrq, Hrs.
  assert (Hq : default (request_compression self) (request_compression_store cfg) =
    request_compression self') by (rewrite Hrq; by destruct (last _)).
  assert (Hs : default (response_compression self) (response_compression_store cfg) =
    response_compression self') by (rewrite Hrs; by destruct (last (omap op_response_compression ovs))).
  unfold modify_before_retry_loop, modify_before_deserialization. by rewrite Hq, Hs.
Qed.

(** C39: a response is decoded exactly when it can be: with the tokens of all its
    [content-encoding] headers in order and empty ones dropped, decoding is set
    up when every token is a known encoding and there are at most as many as
    allowed.  Then the body reads through one layer for each of them, the last
    listed being undone first, on the raw bytes, and the first listed last; and
    the two headers that no longer hold are removed.  Without tokens the response
    passes unchanged.  A failure leaves it unchanged too and names its cause, the
    first token that cannot be taken: it is one too many, and the error has the
    two numbers, or it is not known, and the error has the token. *)
Theorem response_decoding_exact `{!HeaderLaws} self cfg (response : Response) :
  let rc := default (response_compression self) (response_compression_store cfg) in
  let tokens := filter (λ t, t ≠ EmptyString)
    (Str.trim <$> (get_all (response_headers response) "content-encoding" ≫= Str.split ",")) in
  match modify_before_deserialization self cfg response with
  | (Ok _, response') =>
      ∃ algorithms, Some <$> algorithms = ResCompression.from_content_encoding <$> tokens ∧
        length algorithms ≤ max_encoding_layers rc ∧
        (algorithms = [] → response' = response) ∧
        (algorithms ≠ [] →
          (∃ r, response_body response' = Decompression.streaming_decompressed_body r ∧
             Decompression.layered (max_decompressed_bytes rc) (response_body response) algorithms r) ∧
          ∀ k, get_all (response_headers response') k =
            if decide (k = "content-encoding" ∨ k = "content-length") then []
            else get_all (response_headers response) k)
  | (Err e, response') =>
      response' = response ∧
      ∃ known token rest, tokens = known ++ token :: rest ∧
        (∀ t, t ∈ known → is_Some (ResCompression.from_content_encoding t)) ∧
        match e with
        | TooManyLayers l => length known = max_encoding_layers rc ∧
            l = mkLayerLimit (S (max_encoding_layers rc)) (max_encoding_layers rc)
        | UnsupportedEncoding t => length known < max_encoding_layers rc ∧ t = token ∧
            ResCompression.from_content_encoding token = None
        end
  end.
Proof.
  intros rc tokens. unfold modify_before_deserialization. fold rc.
  set (raw := get_all (response_headers response) "content-encoding" ≫= Str.split ",") in *.
  pose proof (λ l, read_tokens_Ok (max_encoding_layers rc) raw [] l (Nat.le_0_l _)) as Hread.
  pose proof (λ e, read_tokens_Err (max_encoding_layers rc) raw [] e (Nat.le_0_l _)) as Herr.
  destruct (read_tokens _ _ _) as [algorithms|e]; [|split; [done|by apply Herr]].
  destruct (proj1 (Hread algorithms) eq_refl) as (l & -> & Hlen & Hl). simpl in Hlen |- *.
  destruct l as [|a l]; [exists []; by split_and!|].
  unfold Decompression.wrap_decompressed_body, Decompression.validate_response_encoding_layer_count.
  rewrite decide_False by lia. cbn [result_bind]. exists (a :: l).
  split_and!; [done|done|done|]. intros _. split.
  - eexists. split; [done|]. apply decoding_reader_layered.
  - intros k. simpl. rewrite !get_all_remove. repeat case_decide; naive_solver.
Qed.

End properties.

(** ** Witnesses *)

Module PartsUrl.

(** A URL as its scheme, host, port and target. *)
#[export] Instance api : UrlApi := {|
  Url := string * option string * option Z * string;
  as_str u := String.app u.1.1.1 (default EmptyString u.1.1.2);
  Url_parse s := Ok ("http", Some s, None, "/");
  Host_parse _ := Ok ();
  scheme u := u.1.1.1;
  host_str u := u.1.1.2;
  port u := u.1.2;
  port_or_known_default u := u.1.2;
  set_scheme u s := Some (s, u.1.1.2, u.1.2, u.2);
  set_host u h := Some (u.1.1.1, h, u.1.2, u.2);
  set_port u p := Some (u.1.1.1, u.1.1.2, p, u.2);
  set_path u p := (u.1.1.1, u.1.1.2, u.1.2, p);
  append_pair u k v := (u.1.1.1, u.1.1.2, u.1.2, String.app u.2 (String.app k v));
|}.
#[export] Instance edit_laws : UrlEditLaws.
Proof.
  refine {| target := λ u : Url, u.2 |}; intros [[[? ?] ?] ?]; simpl; naive_solver.
Defined.

End PartsUrl.

Section witnesses.
Import Hooks PartsUrl CopyDecoders.

Definition any_uri : UriApi := λ _, true.
Definition n1 : @Url api := ("http", Some "n1", Some 8000%Z, "/").
Definition n2 : @Url api := ("http", Some "n2", Some 8000%Z, "/").
Definition view0 : @NodeView api := @View.new api Scope.from_cluster [n1; n2].
Definition get_request : Request (H := ListHeaders.api) unit :=
  mkRequest (H := ListHeaders.api) "original" [("host", "original")] (Collected []).
Definition bag0 : @ConfigBag api MarkFlate.api := put_plan (Ordered [n2; n1] 0) empty_bag.

Lemma attempts_follow_plan_witness :
  @attempt_uris api ListHeaders.api MarkFlate.api any_uri unit 3 bag0 view0 get_request =
  [@route api ListHeaders.api any_uri unit n2 get_request;
   @route api ListHeaders.api any_uri unit n1 get_request;
   @route api ListHeaders.api any_uri unit n2 get_request].
Proof.
  refine (proj1 (@attempts_follow_plan api ListHeaders.api MarkFlate.api any_uri unit
    edit_laws 3 bag0 view0 get_request (Ordered [n2; n1] 0) _)).
  reflexivity.
Defined.

Definition self0 : @AlternatorInterceptor MarkFlate.api :=
  mkInterceptor _ ReqCompression.disabled ResCompression.disabled true UaDefault false.
Definition signed0 : Request (H := ListHeaders.api) unit :=
  mkRequest (H := ListHeaders.api) "u"
    [("x-amz-date", "d"); ("x-a", "1");
     ("authorization", "AWS4-HMAC-SHA256 Credential=k, SignedHeaders=x-a, Signature=s")]
    (Collected []).
Definition version0 : CrateVersion := "1.0".

Lemma signature_survives_witness :
  get_all (headers (snd (@modify_before_transmit api ListHeaders.api MarkFlate.api version0 unit self0
    (@read_after_signing api ListHeaders.api MarkFlate.api unit signed0 empty_bag) signed0))) "x-a"
  = ["1"].
Proof.
  apply (@signature_survives api ListHeaders.api MarkFlate.api version0 unit ListHeaders.laws
    self0 empty_bag signed0
    "AWS4-HMAC-SHA256 Credential=k, SignedHeaders=x-a, Signature=s" ["x-a"] "x-a").
  - reflexivity.
  - discriminate.
  - vm_refl.
  - right. by left.
  - discriminate.
Defined.

Definition response0 : @Response ListHeaders.api :=
  mkResponse ListHeaders.api [("content-encoding", "gzip, deflate")] three_frames.

(** One encoding more than the client allows, and one it does not know. *)
Definition too_many : @Response ListHeaders.api :=
  mkResponse ListHeaders.api [("content-encoding", "gzip,gzip,gzip,gzip,gzip,deflate")] three_frames.
Definition unknown : @Response ListHeaders.api :=
  mkResponse ListHeaders.api [("content-encoding", "gzip, br")] three_frames.

Example decoding_refused :
  fst (@modify_before_deserialization api ListHeaders.api MarkFlate.api decoders take_api body_io
    self0 empty_bag too_many) = Err (TooManyLayers (mkLayerLimit 6 5)) ∧
  fst (@modify_before_deserialization api ListHeaders.api MarkFlate.api decoders take_api body_io
    self0 empty_bag unknown) = Err (UnsupportedEncoding "br").
Proof. split; vm_refl. Qed.

Lemma response_decoding_exact_witness :
  ∃ response', @modify_before_deserialization api ListHeaders.api MarkFlate.api decoders take_api body_io
      self0 empty_bag response0 = (Ok (), response') ∧
    ∃ r, response_body response' = Decompression.streaming_decompressed_body r ∧
      Decompression.layered DEFAULT_MAX_DECOMPRESSED_RESPONSE_BYTES (response_body response0)
        [Gzip; Deflate] r.
Proof.
  assert (Hd : result_ok (fst (@modify_before_deserialization api ListHeaders.api MarkFlate.api
    decoders take_api body_io self0 empty_bag response0)) = Some ()) by vm_refl.
  generalize (@response_decoding_exact api ListHeaders.api MarkFlate.api decoders take_api body_io
    ListHeaders.laws self0 empty_bag response0). revert Hd.
  destruct (@modify_before_deserialization _ _ _ _ _ _ _ _ _) as [[[]|e] response'];
    [|intros Hd; discriminate Hd].
  intros _ (algorithms & Htokens & _ & _ & Hbody). exists response'. split; [reflexivity|].
  assert (Hal : algorithms = [Gzip; Deflate]).
  { revert Htokens. clear Hbody.
    destruct algorithms as [|a1 [|a2 [|a3 l]]]; intros Htokens; vm_compute in Htokens; try discriminate Htokens.
    injection Htokens as -> ->. reflexivity. }
  subst algorithms. assert (Hne : [Gzip; Deflate] ≠ []) by discriminate.
  destruct (Hbody Hne) as [Hr _]. exact Hr.
Defined.

End witnesses.
