(* ===== verification/Sdk.v ===== *)
(** * The interface to the AWS SDK's configuration

    [aws_sdk_dynamodb::Config] and its builder are third-party types that the
    driver fills and reads through setters and getters.  A setting is a key, and
    the class has one setter and one observation for all of them, so that its
    laws are short: what was set is what is seen, and nothing else moved.  What
    an absent value does depends on the setting, and only the cases the driver
    documents are laws: it clears the endpoint, it leaves the retry and timeout
    settings alone, and it removes the default of the stalled stream protection.
    Some observations have no public getter in the SDK (the endpoint, the
    behavior version, the credentials, the no-auth scheme): there they are what
    the SDK uses when it sends a request.  [ListSdk] is a concrete
    implementation in which a configuration is a record of functions. *)

From S2P Require Import Prelude.

(** The settings that hold at most one value. *)
Inductive Setting : Type :=
| SHttpClient | SRegion | SCredentials | SNoAuth | STimeoutConfig | SRetryConfig
| SSleepImpl | SRetryPartition | SIdentityCache | STimeSource | SAppName
| SDisableClockSkewCorrection | SInvocationIdGenerator | SStalledStreamProtection
| SEndpointUrl | SBehaviorVersion.

(** The settings that accumulate values. *)
Inductive ListSetting : Type :=
| LInterceptors | LRetryClassifiers | LFrameworkMetadata.

#[export] Instance Setting_eq_dec : EqDecision Setting.
Proof. solve_decision. Defined.
#[export] Instance ListSetting_eq_dec : EqDecision ListSetting.
Proof. solve_decision. Defined.

(** The third-party types of the values. *)
Class SdkTypes := {
  (** HTTP clients and identity caches that the driver did not make. *)
  ForeignHttpClient : Type;
  ForeignIdentityCache : Type;
  Region : Type;
  SharedCredentialsProvider : Type;
  TimeoutConfig : Type;
  RetryConfig : Type;
  SharedAsyncSleep : Type;
  RetryPartition : Type;
  SharedTimeSource : Type;
  AppName : Type;
  SharedInvocationIdGenerator : Type;
  StalledStreamProtectionConfig : Type;
  BehaviorVersion : Type;
  SharedRetryClassifier : Type;
  FrameworkMetadata : Type;
  (** [BehaviorVersion::v2026_01_12()]. *)
  v2026_01_12 : BehaviorVersion;
  (** [Region::from_static]. *)
  from_static : string → Region;
}.

(** [SharedHttpClient] and [SharedIdentityCache] are shared trait objects: what
    the user or the SDK made, or one of the adapters of [client.rs].  The
    [error] cell of [SdkConfigValidation] is state of its operations. *)
Inductive SharedHttpClient `{SdkTypes} : Type :=
| ForeignHttp (h : ForeignHttpClient)
| ValidatingHttp (validation : SdkConfigValidation)
| UnvalidatedHttpClient (inner : SharedHttpClient)
with SharedIdentityCache `{SdkTypes} : Type :=
| ForeignCache (c : ForeignIdentityCache)
| ValidatedIdentityCache (validation : SdkConfigValidation)
| UnvalidatedIdentityCache (inner : SharedIdentityCache)
with SdkConfigValidation `{SdkTypes} : Type :=
| mkValidation (http_client : SharedHttpClient) (identity_cache : SharedIdentityCache).

Definition Val `{SdkTypes} (s : Setting) : Type :=
  match s with
  | SHttpClient => SharedHttpClient
  | SRegion => Region
  | SCredentials => SharedCredentialsProvider
  | SNoAuth => unit
  | STimeoutConfig => TimeoutConfig
  | SRetryConfig => RetryConfig
  | SSleepImpl => SharedAsyncSleep
  | SRetryPartition => RetryPartition
  | SIdentityCache => SharedIdentityCache
  | STimeSource => SharedTimeSource
  | SAppName => AppName
  | SDisableClockSkewCorrection => bool
  | SInvocationIdGenerator => SharedInvocationIdGenerator
  | SStalledStreamProtection => StalledStreamProtectionConfig
  | SEndpointUrl => string
  | SBehaviorVersion => BehaviorVersion
  end.

(** [I] is the type of shared interceptors, which the driver adds its own to. *)
Definition Elem `{SdkTypes} (I : Type) (l : ListSetting) : Type :=
  match l with
  | LInterceptors => I
  | LRetryClassifiers => SharedRetryClassifier
  | LFrameworkMetadata => FrameworkMetadata
  end.

Class SdkApi `{SdkTypes} (I : Type) := {
  SdkConfig : Type;
  SdkBuilder : Type;
  builder_default : SdkBuilder;
  sdk_build : SdkBuilder → SdkConfig;
  sdk_to_builder : SdkConfig → SdkBuilder;
  sdk_set : ∀ s : Setting, option (Val s) → SdkBuilder → SdkBuilder;
  sdk_get : ∀ s : Setting, SdkConfig → option (Val s);
  sdk_push : ∀ l : ListSetting, Elem I l → SdkBuilder → SdkBuilder;
  sdk_set_all : ∀ l : ListSetting, list (Elem I l) → SdkBuilder → SdkBuilder;
  sdk_get_all : ∀ l : ListSetting, SdkConfig → list (Elem I l);
  (** The default stalled stream protection was removed and not replaced. *)
  sdk_stalled_removed : SdkConfig → bool;
  (** Builder-only operations that select input attributes for tracing. *)
  sdk_emit_input_attributes : list string → SdkBuilder → SdkBuilder;
  sdk_capture_input_attributes : list string → SdkBuilder → SdkBuilder;
  sdk_signing_name : SdkConfig → string;
}.

(** The settings whose setters ignore an absent value ([set_retry_config],
    [set_timeout_config] and [set_retry_partition] of [config.rs] say so). *)
Definition ignores_none (s : Setting) : bool :=
  match s with SRetryConfig | STimeoutConfig | SRetryPartition => true | _ => false end.

(** What the SDK's builder promises. *)
Class SdkLaws `{SdkApi} : Prop := {
  default_signs : sdk_get SNoAuth (sdk_build builder_default) = None;
  get_set_some : ∀ s v b, sdk_get s (sdk_build (sdk_set s (Some v) b)) = Some v;
  clear_endpoint : ∀ b, sdk_get SEndpointUrl (sdk_build (sdk_set SEndpointUrl None b)) = None;
  get_set_ignored : ∀ s b, ignores_none s = true →
    sdk_get s (sdk_build (sdk_set s None b)) = sdk_get s (sdk_build b);
  get_set_other : ∀ s s' o b, s ≠ s' →
    sdk_get s' (sdk_build (sdk_set s o b)) = sdk_get s' (sdk_build b);
  get_all_set : ∀ s l o b, sdk_get_all l (sdk_build (sdk_set s o b)) = sdk_get_all l (sdk_build b);
  get_push : ∀ s l x b, sdk_get s (sdk_build (sdk_push l x b)) = sdk_get s (sdk_build b);
  get_all_push : ∀ l x b,
    sdk_get_all l (sdk_build (sdk_push l x b)) = sdk_get_all l (sdk_build b) ++ [x];
  get_all_push_other : ∀ l l' x b, l ≠ l' →
    sdk_get_all l' (sdk_build (sdk_push l x b)) = sdk_get_all l' (sdk_build b);
  get_set_all : ∀ s l xs b, sdk_get s (sdk_build (sdk_set_all l xs b)) = sdk_get s (sdk_build b);
  get_emit : ∀ s ns b, sdk_get s (sdk_build (sdk_emit_input_attributes ns b)) = sdk_get s (sdk_build b);
  get_capture : ∀ s ns b,
    sdk_get s (sdk_build (sdk_capture_input_attributes ns b)) = sdk_get s (sdk_build b);
  get_to_builder : ∀ s c, sdk_get s (sdk_build (sdk_to_builder c)) = sdk_get s c;
  get_all_to_builder : ∀ l c, sdk_get_all l (sdk_build (sdk_to_builder c)) = sdk_get_all l c;
  (** The default protection is there until its setter is called without a value,
      and a later value replaces it. *)
  stalled_default : sdk_stalled_removed (sdk_build builder_default) = false;
  stalled_set : ∀ o b,
    sdk_stalled_removed (sdk_build (sdk_set SStalledStreamProtection o b)) =
    match o with Some _ => false | None => true end;
  stalled_set_other : ∀ s o b, s ≠ SStalledStreamProtection →
    sdk_stalled_removed (sdk_build (sdk_set s o b)) = sdk_stalled_removed (sdk_build b);
  stalled_push : ∀ l x b,
    sdk_stalled_removed (sdk_build (sdk_push l x b)) = sdk_stalled_removed (sdk_build b);
  stalled_set_all : ∀ l xs b,
    sdk_stalled_removed (sdk_build (sdk_set_all l xs b)) = sdk_stalled_removed (sdk_build b);
  stalled_emit : ∀ ns b,
    sdk_stalled_removed (sdk_build (sdk_emit_input_attributes ns b)) = sdk_stalled_removed (sdk_build b);
  stalled_capture : ∀ ns b,
    sdk_stalled_removed (sdk_build (sdk_capture_input_attributes ns b)) = sdk_stalled_removed (sdk_build b);
  stalled_to_builder : ∀ c, sdk_stalled_removed (sdk_build (sdk_to_builder c)) = sdk_stalled_removed c;
}.

(** What set a key to, seen at any key. *)
Lemma get_set `{SdkLaws} s (v : Val s) s' b :
  sdk_get s' (sdk_build (sdk_set s (Some v) b)) =
  match decide (s = s') with
  | left e => Some (eq_rect s Val v s' e)
  | right _ => sdk_get s' (sdk_build b)
  end.
Proof.
  destruct (decide (s = s')) as [e|e]; [destruct e; apply get_set_some|by apply get_set_other].
Qed.

(** ** Configurations up to what can be observed *)

Definition sdk_same `{SdkApi} (c c' : SdkConfig) : Prop :=
  (∀ s, sdk_get s c = sdk_get s c') ∧ (∀ l, sdk_get_all l c = sdk_get_all l c').
#[export] Instance sdk_equiv `{SdkApi} : Equiv SdkConfig := sdk_same.
#[export] Instance sdk_equivalence `{SdkApi} : Equivalence (≡@{SdkConfig}).
Proof.
  split.
  - by intros c.
  - intros c c' [Hs Hl]. by split.
  - intros c1 c2 c3 [Hs Hl] [Hs' Hl']. split; intros; etrans; eauto.
Qed.

(** Builders are compared by what they build. *)
#[export] Instance sdk_builder_equiv `{SdkApi} : Equiv SdkBuilder := λ b b',
  sdk_build b ≡ sdk_build b'.
#[export] Instance sdk_builder_equivalence `{SdkApi} : Equivalence (≡@{SdkBuilder}).
Proof.
  split.
  - intros b. by unfold equiv, sdk_builder_equiv.
  - intros b b' Hb. unfold equiv, sdk_builder_equiv in *. by symmetry.
  - intros b1 b2 b3 Hb Hb'. unfold equiv, sdk_builder_equiv in *. by etrans.
Qed.

Section proper.
Context `{SdkLaws}.

#[export] Instance sdk_get_proper s : Proper ((≡) ==> (=)) (sdk_get s).
Proof. by intros c c' [Hs _]. Qed.
#[export] Instance sdk_get_all_proper l : Proper ((≡) ==> (=)) (sdk_get_all l).
Proof. by intros c c' [_ Hl]. Qed.
#[export] Instance sdk_build_proper : Proper ((≡) ==> (≡)) sdk_build.
Proof. by intros b b' Hb. Qed.
#[export] Instance sdk_to_builder_proper : Proper ((≡) ==> (≡)) sdk_to_builder.
Proof.
  intros c c' [Hs Hl]. split; intros.
  - by rewrite !get_to_builder.
  - by rewrite !get_all_to_builder.
Qed.
#[export] Instance sdk_set_proper s (v : Val s) :
  Proper ((≡) ==> (≡)) (sdk_set s (Some v)).
Proof.
  intros b b' [Hs Hl]. split; intros.
  - rewrite !get_set. case_match; [done|apply Hs].
  - by rewrite !get_all_set.
Qed.

Lemma sdk_build_to_builder c : sdk_build (sdk_to_builder c) ≡ c.
Proof. split; intros; [apply get_to_builder|apply get_all_to_builder]. Qed.

(** Setting what is set already changes nothing. *)
Lemma sdk_set_idle s (v : Val s) b :
  sdk_get s (sdk_build b) = Some v → sdk_set s (Some v) b ≡ b.
Proof.
  intros Hv. split; intros.
  - rewrite get_set. case_match eqn:E; [|done]. destruct e. by rewrite Hv.
  - apply get_all_set.
Qed.

End proper.

(** ** A configuration as functions from settings to values *)

Module ListSdk.

(** Every third-party value is a string here. *)
#[export] Instance types : SdkTypes := {|
  ForeignHttpClient := string; ForeignIdentityCache := string; Region := string; SharedCredentialsProvider := string;
  TimeoutConfig := string; RetryConfig := string; SharedAsyncSleep := string;
  RetryPartition := string; SharedTimeSource := string;
  AppName := string; SharedInvocationIdGenerator := string;
  StalledStreamProtectionConfig := string; BehaviorVersion := string;
  SharedRetryClassifier := string; FrameworkMetadata := string;
  v2026_01_12 := "2026-01-12"; from_static r := r;
|}.

Section list_sdk.
Context (I : Type).

Record Config := mkConfig {
  values : ∀ s, option (Val s);
  lists : ∀ l, list (Elem I l);
  removed : bool;
}.

Definition put (s : Setting) (o : option (Val s)) (f : ∀ s, option (Val s)) (s' : Setting)
    : option (Val s') :=
  match decide (s = s') with
  | left e => eq_rect s (λ s, option (Val s)) o s' e
  | right _ => f s'
  end.
Definition put_list (l : ListSetting) (xs : list (Elem I l)) (f : ∀ l, list (Elem I l))
    (l' : ListSetting) : list (Elem I l') :=
  match decide (l = l') with
  | left e => eq_rect l (λ l, list (Elem I l)) xs l' e
  | right _ => f l'
  end.

(** The setter of one setting. *)
Definition set (s : Setting) (o : option (Val s)) (b : Config) : Config :=
  match o with
  | None => if ignores_none s then b else mkConfig (put s None (values b)) (lists b)
              (bool_decide (s = SStalledStreamProtection) || removed b)
  | Some v => mkConfig (put s (Some v) (values b)) (lists b)
                (negb (bool_decide (s = SStalledStreamProtection)) && removed b)
  end.

#[export] Instance api : SdkApi I := {|
  SdkConfig := Config;
  SdkBuilder := Config;
  builder_default := mkConfig (λ _, None) (λ _, []) false;
  sdk_build b := b;
  sdk_to_builder c := c;
  sdk_set := set;
  sdk_get s c := values c s;
  sdk_push l x b := mkConfig (values b) (put_list l (lists b l ++ [x]) (lists b)) (removed b);
  sdk_set_all l xs b := mkConfig (values b) (put_list l xs (lists b)) (removed b);
  sdk_get_all l c := lists c l;
  sdk_stalled_removed := removed;
  sdk_emit_input_attributes _ b := b;
  sdk_capture_input_attributes _ b := b;
  sdk_signing_name _ := "dynamodb";
|}.

#[export] Instance laws : SdkLaws.
Proof.
  split; try done; simpl.
  - intros [] v b; done.
  - intros [] b; done.
  - intros s s' [v|] b Hne; simpl; [|destruct (ignores_none s); [done|]]; simpl; unfold put; by case_match.
  - intros s l [v|] b; [done|]. by destruct s.
  - intros [] x b; done.
  - intros l l' x b Hne. unfold put_list. by case_match.
  - by intros [v|] b.
  - intros s [v|] b Hne; simpl; [|destruct (ignores_none s); [done|]]; simpl; by rewrite bool_decide_eq_false_2.
Qed.

End list_sdk.
End ListSdk.
