(* ===== verification/Config.v ===== *)
(** * The configuration ([src/src/config.rs])

    An [AlternatorConfig] is the SDK's configuration next to the driver's own
    settings, and both have a builder.  Module [Config] holds the getters and
    the conversions, module [Builder] every setter: those of the driver's
    settings, which write a field of [AlternatorExtensions], and the SDK
    passthroughs, which write the SDK's builder.  A setter and its [set_]
    variant do the same to the builder, so both have the one body.  The panic on
    contradicting authentication options is an [Err] with its message.

    The theorems: of a scheme exactly the two documented wrappers are taken
    off, so that a malformed one stays malformed; no sequence of calls yields a
    configuration that both requires and waives authentication, and the SDK's
    no-auth scheme is registered exactly when the driver's flag is set; the SDK
    endpoint and the behavior version of a built configuration are the driver's
    whatever the SDK's builder held, and building is undone by
    [to_builder]. *)

From S2P Require Import Prelude UrlApi NodeUrl RoutingScope Classifier.
From S2P Require Import Http OptimizeHeaders Compression Interceptors Sdk.
From Stdlib Require Import Ascii.

#[local] Arguments String.append !s1 s2 : simpl nomatch.

(** [AlternatorExtensions]; intervals and deadlines are durations, the port is
    a [u16]. *)
Record AlternatorExtensions `{Flate, SdkTypes} := mkExt {
  ext_request_compression : option RequestCompression;
  ext_response_compression : option ResponseCompression;
  ext_optimize_headers : option bool;
  ext_user_agent : option UserAgent;
  ext_credentials_provider : option SharedCredentialsProvider;
  ext_require_auth : bool;
  ext_allow_no_auth : bool;
  ext_active_interval : option Z;
  ext_idle_interval : option Z;
  ext_discovery_timeout : option Z;
  ext_routing_scope : option RoutingScope;
  ext_scheme : option string;
  ext_port : option Z;
  ext_seed_hosts : option (list string);
  ext_without_discovery : bool;
  ext_key_route_affinity : option KeyRouteAffinityConfig;
  ext_stalled_stream_protection_explicitly_unset : bool;
}.

(** [AlternatorConfig] and [AlternatorBuilder]. *)
Record AlternatorConfig `{Flate} {types : SdkTypes} {I : Type} {sdk : SdkApi I} := mkConfig {
  dynamodb_config : SdkConfig;
  config_ext : AlternatorExtensions;
}.
Record AlternatorBuilder `{Flate} {types : SdkTypes} {I : Type} {sdk : SdkApi I} := mkBuilder {
  dynamodb_builder : SdkBuilder;
  builder_ext : AlternatorExtensions;
}.

(** ** Updates of one field of the extensions *)

Module Ext.
Section ext.
Context `{Flate, SdkTypes}.

Definition default_extensions : AlternatorExtensions :=
  mkExt _ _ None None None None None false false None None None None None None None false None false.
Definition with_request_compression (v : option RequestCompression) (e : AlternatorExtensions)
    : AlternatorExtensions :=
  mkExt _ _ v (ext_response_compression e) (ext_optimize_headers e) (ext_user_agent e)
    (ext_credentials_provider e) (ext_require_auth e) (ext_allow_no_auth e)
    (ext_active_interval e) (ext_idle_interval e) (ext_discovery_timeout e) (ext_routing_scope e)
    (ext_scheme e) (ext_port e) (ext_seed_hosts e) (ext_without_discovery e)
    (ext_key_route_affinity e) (ext_stalled_stream_protection_explicitly_unset e).
Definition with_response_compression (v : option ResponseCompression) (e : AlternatorExtensions)
    : AlternatorExtensions :=
  mkExt _ _ (ext_request_compression e) v (ext_optimize_headers e) (ext_user_agent e)
    (ext_credentials_provider e) (ext_require_auth e) (ext_allow_no_auth e)
    (ext_active_interval e) (ext_idle_interval e) (ext_discovery_timeout e) (ext_routing_scope e)
    (ext_scheme e) (ext_port e) (ext_seed_hosts e) (ext_without_discovery e)
    (ext_key_route_affinity e) (ext_stalled_stream_protection_explicitly_unset e).
Definition with_optimize_headers (v : option bool) (e : AlternatorExtensions)
    : AlternatorExtensions :=
  mkExt _ _ (ext_request_compression e) (ext_response_compression e) v (ext_user_agent e)
    (ext_credentials_provider e) (ext_require_auth e) (ext_allow_no_auth e)
    (ext_active_interval e) (ext_idle_interval e) (ext_discovery_timeout e) (ext_routing_scope e)
    (ext_scheme e) (ext_port e) (ext_seed_hosts e) (ext_without_discovery e)
    (ext_key_route_affinity e) (ext_stalled_stream_protection_explicitly_unset e).
Definition with_user_agent (v : option UserAgent) (e : AlternatorExtensions)
    : AlternatorExtensions :=
  mkExt _ _ (ext_request_compression e) (ext_response_compression e) (ext_optimize_headers e) v
    (ext_credentials_provider e) (ext_require_auth e) (ext_allow_no_auth e)
    (ext_active_interval e) (ext_idle_interval e) (ext_discovery_timeout e) (ext_routing_scope e)
    (ext_scheme e) (ext_port e) (ext_seed_hosts e) (ext_without_discovery e)
    (ext_key_route_affinity e) (ext_stalled_stream_protection_explicitly_unset e).
Definition with_credentials_provider (v : option SharedCredentialsProvider) (e : AlternatorExtensions)
    : AlternatorExtensions :=
  mkExt _ _ (ext_request_compression e) (ext_response_compression e) (ext_optimize_headers e)
    (ext_user_agent e) v (ext_require_auth e) (ext_allow_no_auth e) (ext_active_interval e)
    (ext_idle_interval e) (ext_discovery_timeout e) (ext_routing_scope e) (ext_scheme e)
    (ext_port e) (ext_seed_hosts e) (ext_without_discovery e) (ext_key_route_affinity e)
    (ext_stalled_stream_protection_explicitly_unset e).
Definition with_require_auth (v : bool) (e : AlternatorExtensions)
    : AlternatorExtensions :=
  mkExt _ _ (ext_request_compression e) (ext_response_compression e) (ext_optimize_headers e)
    (ext_user_agent e) (ext_credentials_provider e) v (ext_allow_no_auth e)
    (ext_active_interval e) (ext_idle_interval e) (ext_discovery_timeout e) (ext_routing_scope e)
    (ext_scheme e) (ext_port e) (ext_seed_hosts e) (ext_without_discovery e)
    (ext_key_route_affinity e) (ext_stalled_stream_protection_explicitly_unset e).
Definition with_allow_no_auth (v : bool) (e : AlternatorExtensions)
    : AlternatorExtensions :=
  mkExt _ _ (ext_request_compression e) (ext_response_compression e) (ext_optimize_headers e)
    (ext_user_agent e) (ext_credentials_provider e) (ext_require_auth e) v (ext_active_interval e)
    (ext_idle_interval e) (ext_discovery_timeout e) (ext_routing_scope e) (ext_scheme e)
    (ext_port e) (ext_seed_hosts e) (ext_without_discovery e) (ext_key_route_affinity e)
    (ext_stalled_stream_protection_explicitly_unset e).
Definition with_active_interval (v : option Z) (e : AlternatorExtensions)
    : AlternatorExtensions :=
  mkExt _ _ (ext_request_compression e) (ext_response_compression e) (ext_optimize_headers e)
    (ext_user_agent e) (ext_credentials_provider e) (ext_require_auth e) (ext_allow_no_auth e) v
    (ext_idle_interval e) (ext_discovery_timeout e) (ext_routing_scope e) (ext_scheme e)
    (ext_port e) (ext_seed_hosts e) (ext_without_discovery e) (ext_key_route_affinity e)
    (ext_stalled_stream_protection_explicitly_unset e).
Definition with_idle_interval (v : option Z) (e : AlternatorExtensions)
    : AlternatorExtensions :=
  mkExt _ _ (ext_request_compression e) (ext_response_compression e) (ext_optimize_headers e)
    (ext_user_agent e) (ext_credentials_provider e) (ext_require_auth e) (ext_allow_no_auth e)
    (ext_active_interval e) v (ext_discovery_timeout e) (ext_routing_scope e) (ext_scheme e)
    (ext_port e) (ext_seed_hosts e) (ext_without_discovery e) (ext_key_route_affinity e)
    (ext_stalled_stream_protection_explicitly_unset e).
Definition with_discovery_timeout (v : option Z) (e : AlternatorExtensions)
    : AlternatorExtensions :=
  mkExt _ _ (ext_request_compression e) (ext_response_compression e) (ext_optimize_headers e)
    (ext_user_agent e) (ext_credentials_provider e) (ext_require_auth e) (ext_allow_no_auth e)
    (ext_active_interval e) (ext_idle_interval e) v (ext_routing_scope e) (ext_scheme e)
    (ext_port e) (ext_seed_hosts e) (ext_without_discovery e) (ext_key_route_affinity e)
    (ext_stalled_stream_protection_explicitly_unset e).
Definition with_routing_scope (v : option RoutingScope) (e : AlternatorExtensions)
    : AlternatorExtensions :=
  mkExt _ _ (ext_request_compression e) (ext_response_compression e) (ext_optimize_headers e)
    (ext_user_agent e) (ext_credentials_provider e) (ext_require_auth e) (ext_allow_no_auth e)
    (ext_active_interval e) (ext_idle_interval e) (ext_discovery_timeout e) v (ext_scheme e)
    (ext_port e) (ext_seed_hosts e) (ext_without_discovery e) (ext_key_route_affinity e)
    (ext_stalled_stream_protection_explicitly_unset e).
Definition with_scheme (v : option string) (e : AlternatorExtensions)
    : AlternatorExtensions :=
  mkExt _ _ (ext_request_compression e) (ext_response_compression e) (ext_optimize_headers e)
    (ext_user_agent e) (ext_credentials_provider e) (ext_require_auth e) (ext_allow_no_auth e)
    (ext_active_interval e) (ext_idle_interval e) (ext_discovery_timeout e) (ext_routing_scope e)
    v (ext_port e) (ext_seed_hosts e) (ext_without_discovery e) (ext_key_route_affinity e)
    (ext_stalled_stream_protection_explicitly_unset e).
Definition with_port (v : option Z) (e : AlternatorExtensions)
    : AlternatorExtensions :=
  mkExt _ _ (ext_request_compression e) (ext_response_compression e) (ext_optimize_headers e)
    (ext_user_agent e) (ext_credentials_provider e) (ext_require_auth e) (ext_allow_no_auth e)
    (ext_active_interval e) (ext_idle_interval e) (ext_discovery_timeout e) (ext_routing_scope e)
    (ext_scheme e) v (ext_seed_hosts e) (ext_without_discovery e) (ext_key_route_affinity e)
    (ext_stalled_stream_protection_explicitly_unset e).
Definition with_seed_hosts (v : option (list string)) (e : AlternatorExtensions)
    : AlternatorExtensions :=
  mkExt _ _ (ext_request_compression e) (ext_response_compression e) (ext_optimize_headers e)
    (ext_user_agent e) (ext_credentials_provider e) (ext_require_auth e) (ext_allow_no_auth e)
    (ext_active_interval e) (ext_idle_interval e) (ext_discovery_timeout e) (ext_routing_scope e)
    (ext_scheme e) (ext_port e) v (ext_without_discovery e) (ext_key_route_affinity e)
    (ext_stalled_stream_protection_explicitly_unset e).
Definition with_without_discovery (v : bool) (e : AlternatorExtensions)
    : AlternatorExtensions :=
  mkExt _ _ (ext_request_compression e) (ext_response_compression e) (ext_optimize_headers e)
    (ext_user_agent e) (ext_credentials_provider e) (ext_require_auth e) (ext_allow_no_auth e)
    (ext_active_interval e) (ext_idle_interval e) (ext_discovery_timeout e) (ext_routing_scope e)
    (ext_scheme e) (ext_port e) (ext_seed_hosts e) v (ext_key_route_affinity e)
    (ext_stalled_stream_protection_explicitly_unset e).
Definition with_key_route_affinity (v : option KeyRouteAffinityConfig) (e : AlternatorExtensions)
    : AlternatorExtensions :=
  mkExt _ _ (ext_request_compression e) (ext_response_compression e) (ext_optimize_headers e)
    (ext_user_agent e) (ext_credentials_provider e) (ext_require_auth e) (ext_allow_no_auth e)
    (ext_active_interval e) (ext_idle_interval e) (ext_discovery_timeout e) (ext_routing_scope e)
    (ext_scheme e) (ext_port e) (ext_seed_hosts e) (ext_without_discovery e) v
    (ext_stalled_stream_protection_explicitly_unset e).
Definition with_stalled_stream_protection_explicitly_unset (v : bool) (e : AlternatorExtensions)
    : AlternatorExtensions :=
  mkExt _ _ (ext_request_compression e) (ext_response_compression e) (ext_optimize_headers e)
    (ext_user_agent e) (ext_credentials_provider e) (ext_require_auth e) (ext_allow_no_auth e)
    (ext_active_interval e) (ext_idle_interval e) (ext_discovery_timeout e) (ext_routing_scope e)
    (ext_scheme e) (ext_port e) (ext_seed_hosts e) (ext_without_discovery e)
    (ext_key_route_affinity e) v.

(** [AlternatorExtensions::endpoint_url]. *)
Definition endpoint_url `{UrlApi} (e : AlternatorExtensions) : option string :=
  seed_hosts ← ext_seed_hosts e;
  seed_host ← head seed_hosts;
  let sch := default "http" (ext_scheme e) in
  as_str <$> result_ok (NodeUrl.build_seed_url sch seed_host (ext_port e)).

End ext.
End Ext.

Definition INCOMPATIBLE_AUTH_OPTIONS_MESSAGE : string :=
  "require_auth() cannot be combined with allow_no_auth(): require_auth() makes missing credentials fail before sending an unsigned request, while allow_no_auth() explicitly permits unsigned requests.".

(** [ALTERNATOR_BEHAVIOR_VERSION]. *)
Definition ALTERNATOR_BEHAVIOR_VERSION `{SdkTypes} : BehaviorVersion := v2026_01_12.

Module Config.
Section config.
Context `{UrlApi, Flate} {types : SdkTypes} {I : Type} {sdk : SdkApi I}.
Implicit Types (self : AlternatorConfig).

(** The driver's settings. *)
Definition request_compression self : option RequestCompression := ext_request_compression (config_ext self).
Definition response_compression self : option ResponseCompression := ext_response_compression (config_ext self).
Definition optimize_headers self : option bool := ext_optimize_headers (config_ext self).
Definition user_agent self : option UserAgent := ext_user_agent (config_ext self).
Definition credentials_provider self : option SharedCredentialsProvider := ext_credentials_provider (config_ext self).
Definition requires_auth self : bool := ext_require_auth (config_ext self).
Definition allows_no_auth self : bool := ext_allow_no_auth (config_ext self).
Definition active_interval self : option Z := ext_active_interval (config_ext self).
Definition idle_interval self : option Z := ext_idle_interval (config_ext self).
Definition discovery_timeout self : option Z := ext_discovery_timeout (config_ext self).
Definition routing_scope self : option RoutingScope := ext_routing_scope (config_ext self).
Definition scheme self : option string := ext_scheme (config_ext self).
Definition port self : option Z := ext_port (config_ext self).
Definition seed_hosts self : option (list string) := ext_seed_hosts (config_ext self).
Definition without_discovery self : bool := ext_without_discovery (config_ext self).
Definition key_route_affinity self : option KeyRouteAffinityConfig := ext_key_route_affinity (config_ext self).
Definition endpoint_url self : option string := Ext.endpoint_url (config_ext self).

(** The SDK's settings. *)
Definition stalled_stream_protection self : option (Val SStalledStreamProtection) := sdk_get SStalledStreamProtection (dynamodb_config self).
Definition http_client self : option (Val SHttpClient) := sdk_get SHttpClient (dynamodb_config self).
Definition retry_config self : option (Val SRetryConfig) := sdk_get SRetryConfig (dynamodb_config self).
Definition sleep_impl self : option (Val SSleepImpl) := sdk_get SSleepImpl (dynamodb_config self).
Definition timeout_config self : option (Val STimeoutConfig) := sdk_get STimeoutConfig (dynamodb_config self).
Definition retry_partition self : option (Val SRetryPartition) := sdk_get SRetryPartition (dynamodb_config self).
Definition identity_cache self : option (Val SIdentityCache) := sdk_get SIdentityCache (dynamodb_config self).
Definition time_source self : option (Val STimeSource) := sdk_get STimeSource (dynamodb_config self).
Definition app_name self : option (Val SAppName) := sdk_get SAppName (dynamodb_config self).
Definition disable_clock_skew_correction self : option (Val SDisableClockSkewCorrection) := sdk_get SDisableClockSkewCorrection (dynamodb_config self).
Definition invocation_id_generator self : option (Val SInvocationIdGenerator) := sdk_get SInvocationIdGenerator (dynamodb_config self).
Definition region self : option (Val SRegion) := sdk_get SRegion (dynamodb_config self).
Definition interceptors self : list (Elem I LInterceptors) := sdk_get_all LInterceptors (dynamodb_config self).
Definition retry_classifiers self : list (Elem I LRetryClassifiers) := sdk_get_all LRetryClassifiers (dynamodb_config self).
Definition framework_metadata self : list (Elem I LFrameworkMetadata) := sdk_get_all LFrameworkMetadata (dynamodb_config self).
Definition signing_name self : string := sdk_signing_name (dynamodb_config self).

(** ** Conversions *)

Definition builder : AlternatorBuilder := mkBuilder _ _ _ _ builder_default Ext.default_extensions.
Definition operation_builder : AlternatorOperationBuilder := mkOperationBuilder _ None None.
Definition to_builder self : AlternatorBuilder :=
  mkBuilder _ _ _ _ (sdk_to_builder (dynamodb_config self)) (config_ext self).

(** [AlternatorOperationBuilder]'s setters. *)
Definition op_with_request_compression (c : RequestCompression) (b : AlternatorOperationBuilder)
    : AlternatorOperationBuilder :=
  mkOperationBuilder _ (Some c) (op_response_compression b).
Definition op_with_response_compression (c : ResponseCompression) (b : AlternatorOperationBuilder)
    : AlternatorOperationBuilder :=
  mkOperationBuilder _ (op_request_compression b) (Some c).

End config.
End Config.

Module Builder.
Section builder.
Context `{UrlApi, Flate} {types : SdkTypes} {I : Type} {sdk : SdkApi I}.
Implicit Types (self : AlternatorBuilder).

Definition new : AlternatorBuilder := Config.builder.

(** [build]. *)
Definition build self : AlternatorConfig :=
  let b := sdk_set SBehaviorVersion (Some ALTERNATOR_BEHAVIOR_VERSION) (dynamodb_builder self) in
  let b := sdk_set SEndpointUrl (Ext.endpoint_url (builder_ext self)) b in
  mkConfig _ _ _ _ (sdk_build b) (builder_ext self).

(** Writing one of the two parts. *)
Definition on_ext (f : AlternatorExtensions → AlternatorExtensions) self : AlternatorBuilder :=
  mkBuilder _ _ _ _ (dynamodb_builder self) (f (builder_ext self)).
Definition on_sdk (f : SdkBuilder → SdkBuilder) self : AlternatorBuilder :=
  mkBuilder _ _ _ _ (f (dynamodb_builder self)) (builder_ext self).

(** ** The driver's settings *)

Definition set_optimize_headers (optimize : bool) self : AlternatorBuilder :=
  on_ext (Ext.with_optimize_headers (Some optimize)) self.
Definition set_user_agent (user_agent : option UserAgent) self : AlternatorBuilder :=
  on_ext (Ext.with_user_agent user_agent) self.
Definition set_without_user_agent self : AlternatorBuilder :=
  on_ext (Ext.with_user_agent (Some UserAgentOps.disabled)) self.
Definition set_request_compression (c : RequestCompression) self : AlternatorBuilder :=
  on_ext (Ext.with_request_compression (Some c)) self.
Definition set_response_compression (c : ResponseCompression) self : AlternatorBuilder :=
  on_ext (Ext.with_response_compression (Some c)) self.
Definition set_discovery_timeout (timeout : option Z) self : AlternatorBuilder :=
  on_ext (Ext.with_discovery_timeout timeout) self.
Definition set_active_interval (active_interval : Z) self : AlternatorBuilder :=
  on_ext (Ext.with_active_interval (Some active_interval)) self.
Definition set_idle_interval (idle_interval : Z) self : AlternatorBuilder :=
  on_ext (Ext.with_idle_interval (Some idle_interval)) self.
Definition set_routing_scope (routing_scope : RoutingScope) self : AlternatorBuilder :=
  on_ext (Ext.with_routing_scope (Some routing_scope)) self.

(** [set_scheme]: of the two documented wrappers the one that is there is taken
    off, once. *)
Definition normalize_scheme (s : string) : string :=
  match strip_suffix "://" s with
  | Some bare => bare
  | None => default s (strip_suffix ":" s)
  end.
Definition set_scheme (s : string) self : AlternatorBuilder :=
  on_ext (Ext.with_scheme (Some (normalize_scheme s))) self.

Definition set_port (port : Z) self : AlternatorBuilder :=
  on_ext (Ext.with_port (Some port)) self.
Definition set_seed_hosts (seed_hosts : list string) self : AlternatorBuilder :=
  on_ext (Ext.with_seed_hosts (Some seed_hosts)) self.
Definition set_without_discovery (without_discovery : bool) self : AlternatorBuilder :=
  on_ext (Ext.with_without_discovery without_discovery) self.
Definition set_key_route_affinity (cfg : KeyRouteAffinityConfig) self : AlternatorBuilder :=
  on_ext (Ext.with_key_route_affinity (Some cfg)) self.
Definition set_credentials_provider (p : option SharedCredentialsProvider) self : AlternatorBuilder :=
  on_ext (Ext.with_credentials_provider p) self.

(** The same settings, by value: the argument of an [Option] is present. *)
Definition optimize_headers := set_optimize_headers.
Definition user_agent (u : UserAgent) self : AlternatorBuilder := set_user_agent (Some u) self.
Definition without_user_agent := set_without_user_agent.
Definition request_compression := set_request_compression.
Definition response_compression := set_response_compression.
Definition discovery_timeout (timeout : Z) self : AlternatorBuilder :=
  set_discovery_timeout (Some timeout) self.
Definition active_interval := set_active_interval.
Definition idle_interval := set_idle_interval.
Definition routing_scope := set_routing_scope.
Definition scheme := set_scheme.
Definition port := set_port.
Definition seed_hosts := set_seed_hosts.
Definition without_discovery self : AlternatorBuilder := set_without_discovery true self.
Definition key_route_affinity := set_key_route_affinity.
Definition credentials_provider (p : SharedCredentialsProvider) self : AlternatorBuilder :=
  set_credentials_provider (Some p) self.

(** ** Authentication options *)

(** [set_require_auth]. *)
Definition set_require_auth (require_auth : bool) self : Result AlternatorBuilder string :=
  if require_auth && ext_allow_no_auth (builder_ext self) then Err INCOMPATIBLE_AUTH_OPTIONS_MESSAGE
  else Ok (on_ext (Ext.with_require_auth require_auth) self).
Definition require_auth self : Result AlternatorBuilder string := set_require_auth true self.

(** [set_allow_no_auth]: the flag, and the SDK's no-auth scheme. *)
Definition set_allow_no_auth self : Result AlternatorBuilder string :=
  if ext_require_auth (builder_ext self) then Err INCOMPATIBLE_AUTH_OPTIONS_MESSAGE
  else Ok (on_sdk (sdk_set SNoAuth (Some tt)) (on_ext (Ext.with_allow_no_auth true) self)).
Definition allow_no_auth := set_allow_no_auth.

(** ** SDK passthroughs *)

(** [set_stalled_stream_protection] also remembers that a default was removed. *)
Definition set_stalled_stream_protection (c : option StalledStreamProtectionConfig) self
    : AlternatorBuilder :=
  on_sdk (sdk_set SStalledStreamProtection c)
    (on_ext (Ext.with_stalled_stream_protection_explicitly_unset (match c with Some _ => false | None => true end)) self).
Definition stalled_stream_protection (c : StalledStreamProtectionConfig) self : AlternatorBuilder :=
  set_stalled_stream_protection (Some c) self.

Definition http_client (v : Val SHttpClient) self : AlternatorBuilder :=
  on_sdk (sdk_set SHttpClient (Some v)) self.
Definition set_http_client (v : option (Val SHttpClient)) self : AlternatorBuilder :=
  on_sdk (sdk_set SHttpClient v) self.
Definition retry_config (v : Val SRetryConfig) self : AlternatorBuilder :=
  on_sdk (sdk_set SRetryConfig (Some v)) self.
Definition set_retry_config (v : option (Val SRetryConfig)) self : AlternatorBuilder :=
  on_sdk (sdk_set SRetryConfig v) self.
Definition sleep_impl (v : Val SSleepImpl) self : AlternatorBuilder :=
  on_sdk (sdk_set SSleepImpl (Some v)) self.
Definition set_sleep_impl (v : option (Val SSleepImpl)) self : AlternatorBuilder :=
  on_sdk (sdk_set SSleepImpl v) self.
Definition timeout_config (v : Val STimeoutConfig) self : AlternatorBuilder :=
  on_sdk (sdk_set STimeoutConfig (Some v)) self.
Definition set_timeout_config (v : option (Val STimeoutConfig)) self : AlternatorBuilder :=
  on_sdk (sdk_set STimeoutConfig v) self.
Definition retry_partition (v : Val SRetryPartition) self : AlternatorBuilder :=
  on_sdk (sdk_set SRetryPartition (Some v)) self.
Definition set_retry_partition (v : option (Val SRetryPartition)) self : AlternatorBuilder :=
  on_sdk (sdk_set SRetryPartition v) self.
Definition time_source (v : Val STimeSource) self : AlternatorBuilder :=
  on_sdk (sdk_set STimeSource (Some v)) self.
Definition set_time_source (v : option (Val STimeSource)) self : AlternatorBuilder :=
  on_sdk (sdk_set STimeSource v) self.
Definition app_name (v : Val SAppName) self : AlternatorBuilder :=
  on_sdk (sdk_set SAppName (Some v)) self.
Definition set_app_name (v : option (Val SAppName)) self : AlternatorBuilder :=
  on_sdk (sdk_set SAppName v) self.
Definition invocation_id_generator (v : Val SInvocationIdGenerator) self : AlternatorBuilder :=
  on_sdk (sdk_set SInvocationIdGenerator (Some v)) self.
Definition set_invocation_id_generator (v : option (Val SInvocationIdGenerator)) self : AlternatorBuilder :=
  on_sdk (sdk_set SInvocationIdGenerator v) self.
Definition disable_clock_skew_correction (v : option (Val SDisableClockSkewCorrection)) self : AlternatorBuilder :=
  on_sdk (sdk_set SDisableClockSkewCorrection v) self.
Definition set_disable_clock_skew_correction (v : option (Val SDisableClockSkewCorrection)) self : AlternatorBuilder :=
  on_sdk (sdk_set SDisableClockSkewCorrection v) self.
Definition region (v : option (Val SRegion)) self : AlternatorBuilder :=
  on_sdk (sdk_set SRegion v) self.
Definition set_region (v : option (Val SRegion)) self : AlternatorBuilder :=
  on_sdk (sdk_set SRegion v) self.
Definition identity_cache (v : SharedIdentityCache) self : AlternatorBuilder :=
  on_sdk (sdk_set SIdentityCache (Some (v : Val SIdentityCache))) self.
Definition set_identity_cache := identity_cache.
Definition interceptor (x : Elem _ LInterceptors) self : AlternatorBuilder :=
  on_sdk (sdk_push LInterceptors x) self.
Definition push_interceptor := interceptor.
Definition set_interceptors (xs : list (Elem I LInterceptors)) self : AlternatorBuilder :=
  on_sdk (sdk_set_all LInterceptors xs) self.
Definition retry_classifier (x : Elem _ LRetryClassifiers) self : AlternatorBuilder :=
  on_sdk (sdk_push LRetryClassifiers x) self.
Definition push_retry_classifier := retry_classifier.
Definition set_retry_classifiers (xs : list (Elem I LRetryClassifiers)) self : AlternatorBuilder :=
  on_sdk (sdk_set_all LRetryClassifiers xs) self.
Definition framework_metadata (x : Elem _ LFrameworkMetadata) self : AlternatorBuilder :=
  on_sdk (sdk_push LFrameworkMetadata x) self.
Definition push_framework_metadata := framework_metadata.
Definition emit_input_attributes (names : list string) self : AlternatorBuilder :=
  on_sdk (sdk_emit_input_attributes names) self.
Definition capture_input_attributes (names : list string) self : AlternatorBuilder :=
  on_sdk (sdk_capture_input_attributes names) self.

(** ** Sequences of calls

    Every public method of the builder, and rebuilding a built configuration. *)
Inductive BuilderOp : Type :=
| SetRequireAuth (required : bool)
| SetAllowNoAuth
| Rebuild
| SetOptimizeHeaders (optimize : bool)
| SetUserAgent (u : option UserAgent)
| SetWithoutUserAgent
| SetRequestCompression (c : RequestCompression)
| SetResponseCompression (c : ResponseCompression)
| SetDiscoveryTimeout (t : option Z)
| SetActiveInterval (d : Z)
| SetIdleInterval (d : Z)
| SetRoutingScope (s : RoutingScope)
| SetScheme (s : string)
| SetPort (p : Z)
| SetSeedHosts (hs : list string)
| SetWithoutDiscovery (w : bool)
| SetKeyRouteAffinity (c : KeyRouteAffinityConfig)
| SetCredentialsProvider (p : option SharedCredentialsProvider)
| SetStalledStreamProtection (c : option StalledStreamProtectionConfig)
| SetHttpClient (v : option (Val SHttpClient))
| SetRetryConfig (v : option (Val SRetryConfig))
| SetSleepImpl (v : option (Val SSleepImpl))
| SetTimeoutConfig (v : option (Val STimeoutConfig))
| SetRetryPartition (v : option (Val SRetryPartition))
| SetTimeSource (v : option (Val STimeSource))
| SetAppName (v : option (Val SAppName))
| SetInvocationIdGenerator (v : option (Val SInvocationIdGenerator))
| SetDisableClockSkewCorrection (v : option (Val SDisableClockSkewCorrection))
| SetRegion (v : option (Val SRegion))
| SetIdentityCache (v : SharedIdentityCache)
| PushInterceptor (x : Elem I LInterceptors)
| SetInterceptors (xs : list (Elem I LInterceptors))
| PushRetryClassifier (x : Elem I LRetryClassifiers)
| SetRetryClassifiers (xs : list (Elem I LRetryClassifiers))
| PushFrameworkMetadata (x : Elem I LFrameworkMetadata)
| EmitInputAttributes (names : list string)
| CaptureInputAttributes (names : list string).

Definition apply_op (op : BuilderOp) self : Result AlternatorBuilder string :=
  match op with
  | SetRequireAuth r => set_require_auth r self
  | SetAllowNoAuth => set_allow_no_auth self
  | Rebuild => Ok (Config.to_builder (build self))
  | SetOptimizeHeaders optimize => Ok (set_optimize_headers optimize self)
  | SetUserAgent u => Ok (set_user_agent u self)
  | SetWithoutUserAgent => Ok (set_without_user_agent self)
  | SetRequestCompression c => Ok (set_request_compression c self)
  | SetResponseCompression c => Ok (set_response_compression c self)
  | SetDiscoveryTimeout t => Ok (set_discovery_timeout t self)
  | SetActiveInterval d => Ok (set_active_interval d self)
  | SetIdleInterval d => Ok (set_idle_interval d self)
  | SetRoutingScope s => Ok (set_routing_scope s self)
  | SetScheme s => Ok (set_scheme s self)
  | SetPort p => Ok (set_port p self)
  | SetSeedHosts hs => Ok (set_seed_hosts hs self)
  | SetWithoutDiscovery w => Ok (set_without_discovery w self)
  | SetKeyRouteAffinity c => Ok (set_key_route_affinity c self)
  | SetCredentialsProvider p => Ok (set_credentials_provider p self)
  | SetStalledStreamProtection c => Ok (set_stalled_stream_protection c self)
  | SetHttpClient v => Ok (set_http_client v self)
  | SetRetryConfig v => Ok (set_retry_config v self)
  | SetSleepImpl v => Ok (set_sleep_impl v self)
  | SetTimeoutConfig v => Ok (set_timeout_config v self)
  | SetRetryPartition v => Ok (set_retry_partition v self)
  | SetTimeSource v => Ok (set_time_source v self)
  | SetAppName v => Ok (set_app_name v self)
  | SetInvocationIdGenerator v => Ok (set_invocation_id_generator v self)
  | SetDisableClockSkewCorrection v => Ok (set_disable_clock_skew_correction v self)
  | SetRegion v => Ok (set_region v self)
  | SetIdentityCache v => Ok (set_identity_cache v self)
  | PushInterceptor x => Ok (push_interceptor x self)
  | SetInterceptors xs => Ok (set_interceptors xs self)
  | PushRetryClassifier x => Ok (push_retry_classifier x self)
  | SetRetryClassifiers xs => Ok (set_retry_classifiers xs self)
  | PushFrameworkMetadata x => Ok (push_framework_metadata x self)
  | EmitInputAttributes names => Ok (emit_input_attributes names self)
  | CaptureInputAttributes names => Ok (capture_input_attributes names self)
  end.

(** The first call that panics ends the sequence. *)
Fixpoint apply_ops (ops : list BuilderOp) self : Result AlternatorBuilder string :=
  match ops with
  | [] => Ok self
  | op :: ops => result_bind (apply_op op self) (apply_ops ops)
  end.

End builder.
End Builder.

(** ** The wrappers of a scheme *)

Module SchemeFacts.
Import StrFacts.

Lemma rev_app_rev s t : String.rev_app s t = String.app (String.rev s) t.
Proof.
  unfold String.rev. revert t. induction s as [|c s IH]; intros t; simpl; [done|].
  rewrite (IH (String c t)), (IH (String c EmptyString)).
  by rewrite app_assoc_str.
Qed.

Lemma rev_app_distr s t :
  String.rev (String.app s t) = String.app (String.rev t) (String.rev s).
Proof.
  induction s as [|c s IH]; simpl.
  - by rewrite app_nil_r_str.
  - change (String.rev (String c (String.app s t)))
      with (String.rev_app (String.app s t) (String c EmptyString)).
    change (String.rev (String c s)) with (String.rev_app s (String c EmptyString)).
    by rewrite !rev_app_rev, IH, app_assoc_str.
Qed.

Lemma strip_prefix_Some p s r : strip_prefix p s = Some r ↔ s = String.app p r.
Proof.
  revert s. induction p as [|a p IH]; intros s; simpl; [naive_solver|].
  destruct s as [|b s]; [done|].
  destruct (Ascii.eqb_spec a b) as [->|Hne]; [|naive_solver].
  rewrite IH. naive_solver.
Qed.

Lemma strip_suffix_Some p s r : strip_suffix p s = Some r ↔ s = String.app r p.
Proof.
  unfold strip_suffix. split.
  - intros (r' & Hs & ->)%fmap_Some. apply strip_prefix_Some in Hs.
    by rewrite <-(rev_involutive s), Hs, rev_app_distr, rev_involutive.
  - intros ->. rewrite rev_app_distr. apply fmap_Some. exists (String.rev r).
    by rewrite strip_prefix_Some, rev_involutive.
Qed.

(** A valid scheme holds no delimiter, so neither wrapper ends it. *)
Lemma valid_no_suffix s p c :
  NodeUrl.is_valid_uri_scheme s = true → NodeUrl.is_valid_uri_scheme (String c EmptyString) = false →
  AsciiClass.is_alphanumeric c = false → c ∉ ["+"; "-"; "."]%char →
  strip_suffix (String.app p (String c EmptyString)) s = None.
Proof.
  intros Hs Hc Ha Hn. apply eq_None_not_Some. intros [r ->%strip_suffix_Some].
  assert (Hall : ∀ t, str_all (λ b, AsciiClass.is_alphanumeric b
      || Ascii.eqb b "+"%char || Ascii.eqb b "-"%char || Ascii.eqb b "."%char)
      (String.app t (String c EmptyString)) = false).
  { intros t. rewrite str_all_app. simpl. rewrite Ha.
    destruct (Ascii.eqb_spec c "+"); [set_solver|].
    destruct (Ascii.eqb_spec c "-"); [set_solver|].
    destruct (Ascii.eqb_spec c "."); [set_solver|]. simpl. by rewrite andb_false_r. }
  rewrite <-app_assoc_str in Hs.
  destruct (String.app r p) as [|a t]; simpl in Hs; [by simpl in Hc; congruence|].
  rewrite Hall, andb_false_r in Hs. done.
Qed.

End SchemeFacts.

(** ** Invariants of a builder *)

Module ConfigFacts.
Section facts.
Context `{UrlApi, Flate} {types : SdkTypes} {I : Type} {sdk : SdkApi I} {laws : SdkLaws}.
Import Builder.
Implicit Types (self : AlternatorBuilder) (b : SdkBuilder) (c : AlternatorConfig).

(** The driver's flags exclude each other and agree with the SDK. *)
Definition auth_ok self : Prop :=
  ¬ (ext_require_auth (builder_ext self) = true ∧ ext_allow_no_auth (builder_ext self) = true) ∧
  (sdk_get SNoAuth (sdk_build (dynamodb_builder self)) = Some tt ↔
   ext_allow_no_auth (builder_ext self) = true).

Lemma auth_ok_frame self self' :
  ext_require_auth (builder_ext self') = ext_require_auth (builder_ext self) →
  ext_allow_no_auth (builder_ext self') = ext_allow_no_auth (builder_ext self) →
  sdk_get SNoAuth (sdk_build (dynamodb_builder self')) =
    sdk_get SNoAuth (sdk_build (dynamodb_builder self)) →
  auth_ok self → auth_ok self'.
Proof. unfold auth_ok. by intros -> -> ->. Qed.

Lemma set_no_auth (s : Setting) o b :
  s ≠ SNoAuth → sdk_get SNoAuth (sdk_build (sdk_set s o b)) = sdk_get SNoAuth (sdk_build b).
Proof. apply get_set_other. Qed.

(** A built configuration, seen through the SDK. *)
Lemma build_endpoint self :
  sdk_get SEndpointUrl (dynamodb_config (build self)) = Ext.endpoint_url (builder_ext self).
Proof.
  simpl. destruct (Ext.endpoint_url _) as [u|]; [apply (get_set_some SEndpointUrl)|apply clear_endpoint].
Qed.
Lemma build_behavior self :
  sdk_get SBehaviorVersion (dynamodb_config (build self)) = Some ALTERNATOR_BEHAVIOR_VERSION.
Proof. simpl. rewrite get_set_other by done. apply (get_set_some SBehaviorVersion). Qed.
Lemma build_other self s :
  s ≠ SEndpointUrl → s ≠ SBehaviorVersion →
  sdk_get s (dynamodb_config (build self)) = sdk_get s (sdk_build (dynamodb_builder self)).
Proof. intros. simpl. by rewrite !get_set_other by done. Qed.
Lemma build_lists self l :
  sdk_get_all l (dynamodb_config (build self)) = sdk_get_all l (sdk_build (dynamodb_builder self)).
Proof. simpl. by rewrite !get_all_set. Qed.

Lemma build_stalled self :
  sdk_stalled_removed (dynamodb_config (build self)) = sdk_stalled_removed (sdk_build (dynamodb_builder self)).
Proof. simpl. by rewrite !stalled_set_other by done. Qed.

(** An absent retry configuration, timeout configuration or retry partition
    leaves what was set before. *)
Lemma absent_settings_ignored self s :
  sdk_get s (sdk_build (dynamodb_builder (set_retry_config None self))) =
    sdk_get s (sdk_build (dynamodb_builder self)) ∧
  sdk_get s (sdk_build (dynamodb_builder (set_timeout_config None self))) =
    sdk_get s (sdk_build (dynamodb_builder self)) ∧
  sdk_get s (sdk_build (dynamodb_builder (set_retry_partition None self))) =
    sdk_get s (sdk_build (dynamodb_builder self)).
Proof.
  assert (Hset : ∀ s', ignores_none s' = true → ∀ b,
    sdk_get s (sdk_build (sdk_set s' None b)) = sdk_get s (sdk_build b)).
  { intros s' Hs b. destruct (decide (s' = s)) as [<-|]; [by apply get_set_ignored|by apply get_set_other]. }
  split_and!; simpl; by apply Hset.
Qed.

(** Configurations and builders up to what the SDK shows of them. *)
#[export] Instance config_equiv : Equiv AlternatorConfig := λ c c',
  dynamodb_config c ≡ dynamodb_config c' ∧ config_ext c = config_ext c'.
#[export] Instance config_equivalence : Equivalence (≡@{AlternatorConfig}).
Proof.
  split; unfold equiv, config_equiv.
  - by intros c.
  - intros c c' [Hc He]. by split.
  - intros c1 c2 c3 [Hc He] [Hc' He']. split; by etrans.
Qed.
#[export] Instance builder_equiv : Equiv AlternatorBuilder := λ self self',
  dynamodb_builder self ≡ dynamodb_builder self' ∧ builder_ext self = builder_ext self'.
#[export] Instance to_builder_proper : Proper ((≡) ==> (≡)) Config.to_builder.
Proof. intros c c' [Hc He]. split; [by apply sdk_to_builder_proper|done]. Qed.
#[export] Instance build_proper : Proper ((≡) ==> (≡)) build.
Proof.
  intros b b' [Hb He]. split; [|done]. split; intros s.
  - destruct (decide (s = SEndpointUrl)) as [->|]; [by rewrite !build_endpoint, He|].
    destruct (decide (s = SBehaviorVersion)) as [->|]; [by rewrite !build_behavior|].
    rewrite !build_other by done. apply Hb.
  - rewrite !build_lists. apply Hb.
Qed.

Lemma build_to_builder_build self : build (Config.to_builder (build self)) ≡ build self.
Proof.
  split; [|done]. split; intros s.
  - destruct (decide (s = SEndpointUrl)) as [->|]; [by rewrite !build_endpoint|].
    destruct (decide (s = SBehaviorVersion)) as [->|]; [by rewrite !build_behavior|].
    rewrite (build_other (Config.to_builder _)) by done. apply get_to_builder.
  - rewrite (build_lists (Config.to_builder _)). apply get_all_to_builder.
Qed.

Lemma auth_ok_apply op self self' : auth_ok self → apply_op op self = Ok self' → auth_ok self'.
Proof.
  intros Hok. destruct op; simpl;
    try (intros [= <-]; revert Hok; apply auth_ok_frame; try done; simpl;
         rewrite ?get_push, ?get_set_all, ?get_emit, ?get_capture, ?set_no_auth by done; done).
  - unfold set_require_auth. destruct Hok as [Hex Hno].
    destruct required, (ext_allow_no_auth (builder_ext self)) eqn:Ha; simpl; try done;
      intros [= <-]; split; simpl; rewrite ?Ha; naive_solver.
  - unfold set_allow_no_auth. destruct (ext_require_auth (builder_ext self)) eqn:Hr; [done|].
    intros [= <-]. split; simpl; [rewrite Hr; naive_solver|].
    split; [done|]. intros _. apply (get_set_some SNoAuth).
  - intros [= <-]. revert Hok. apply auth_ok_frame; [done|done|].
    change (dynamodb_builder (Config.to_builder ?c)) with (sdk_to_builder (dynamodb_config c)).
    by rewrite get_to_builder, build_other.
Qed.

Lemma auth_ok_default : auth_ok Config.builder.
Proof. split; simpl; [naive_solver|]. rewrite default_signs. naive_solver. Qed.

Lemma auth_ok_ops ops self self' : auth_ok self → apply_ops ops self = Ok self' → auth_ok self'.
Proof.
  revert self. induction ops as [|op ops IH]; intros self Hok; simpl; [by intros [= <-]|].
  destruct (apply_op op self) as [self1|e] eqn:Hop; simpl; [|done].
  apply IH. by eapply auth_ok_apply.
Qed.

(** The driver's flag says whether the SDK's default protection was removed. *)
Definition stalled_ok self : Prop :=
  sdk_stalled_removed (sdk_build (dynamodb_builder self)) =
  ext_stalled_stream_protection_explicitly_unset (builder_ext self).

Lemma stalled_ok_default : stalled_ok Config.builder.
Proof. apply stalled_default. Qed.

Lemma stalled_ok_apply op self self' : stalled_ok self → apply_op op self = Ok self' → stalled_ok self'.
Proof.
  unfold stalled_ok. intros Hok. destruct op; simpl;
    try (intros [= <-]; simpl;
         rewrite ?stalled_push, ?stalled_set_all, ?stalled_emit, ?stalled_capture,
           ?stalled_set_other by done; exact Hok).
  - unfold set_require_auth. destruct (_ && _); [done|]. by intros [= <-].
  - unfold set_allow_no_auth. destruct (ext_require_auth _); [done|]. intros [= <-]. simpl.
    by rewrite stalled_set_other.
  - intros [= <-]. change (dynamodb_builder (Config.to_builder ?c)) with (sdk_to_builder (dynamodb_config c)).
    by rewrite stalled_to_builder, build_stalled.
  - intros [= <-]. simpl. by rewrite stalled_set.
Qed.

Lemma stalled_ok_ops ops self self' : stalled_ok self → apply_ops ops self = Ok self' → stalled_ok self'.
Proof.
  revert self. induction ops as [|op ops IH]; intros self Hok; simpl; [by intros [= <-]|].
  destruct (apply_op op self) as [self1|e] eqn:Hop; simpl; [|done].
  apply IH. by eapply stalled_ok_apply.
Qed.

End facts.
End ConfigFacts.

(** ** Properties *)

Section properties.
Context `{UrlApi, Flate} {types : SdkTypes} {I : Type} {sdk : SdkApi I}.
Import Builder ConfigFacts.
Implicit Types (self : AlternatorBuilder).

(** [set_scheme] takes off exactly the documented wrappers: it stores a
    valid scheme [bare] precisely when it is given [bare], [bare:] or
    [bare://], so that any other spelling of a scheme is stored malformed and
    the client construction refuses it. *)
Theorem scheme_wrappers_exact self (given bare : string) :
  NodeUrl.is_valid_uri_scheme bare = true →
  ext_scheme (builder_ext (set_scheme given self)) = Some bare ↔
  given = bare ∨ given = String.app bare ":" ∨ given = String.app bare "://".
Proof.
  intros Hv. simpl. unfold normalize_scheme.
  pose proof (SchemeFacts.valid_no_suffix bare ":/" "/" Hv eq_refl eq_refl ltac:(set_solver)) as Hs.
  pose proof (SchemeFacts.valid_no_suffix bare EmptyString ":" Hv eq_refl eq_refl
    ltac:(set_solver)) as Hc.
  simpl in Hs, Hc. split.
  - destruct (strip_suffix "://" given) as [r|] eqn:E1.
    { intros [= ->]. apply SchemeFacts.strip_suffix_Some in E1. auto. }
    destruct (strip_suffix ":" given) as [r|] eqn:E2; simpl; intros [= ->]; [|by left].
    apply SchemeFacts.strip_suffix_Some in E2. auto.
  - intros [->|[->| ->]].
    + by rewrite Hs, Hc.
    + assert (strip_suffix "://" (String.app bare ":") = None) as ->.
      { unfold strip_suffix. by rewrite SchemeFacts.rev_app_distr. }
      by rewrite (proj2 (SchemeFacts.strip_suffix_Some ":" _ bare) eq_refl).
    + by rewrite (proj2 (SchemeFacts.strip_suffix_Some "://" _ bare) eq_refl).
Qed.

Context {laws : SdkLaws}.

(** Whatever is called on a fresh builder, in whatever order and through any
    number of rebuilds, it never both requires and waives authentication, the
    SDK's no-auth scheme is registered exactly when it is waived, and the only
    call that panics is the one that would contradict an earlier one. *)
Theorem auth_options_exclusive (ops : list BuilderOp) self :
  apply_ops ops Config.builder = Ok self →
  ¬ (ext_require_auth (builder_ext self) = true ∧ ext_allow_no_auth (builder_ext self) = true) ∧
  (sdk_get SNoAuth (dynamodb_config (build self)) = Some tt ↔
   ext_allow_no_auth (builder_ext self) = true) ∧
  (∀ op m, apply_op op self = Err m ↔
     m = INCOMPATIBLE_AUTH_OPTIONS_MESSAGE ∧
     (op = SetRequireAuth true ∧ ext_allow_no_auth (builder_ext self) = true ∨
      op = SetAllowNoAuth ∧ ext_require_auth (builder_ext self) = true)).
Proof.
  intros Hops. destruct (ConfigFacts.auth_ok_ops _ _ _ ConfigFacts.auth_ok_default Hops) as [Hex Hno].
  split; [done|]. split; [by rewrite ConfigFacts.build_other|].
  clear Hops Hex Hno. intros op m.
  destruct op; simpl; try (split; [done|by intros [_ [[? _]|[? _]]]]).
  - unfold set_require_auth. destruct required, (ext_allow_no_auth (builder_ext self)); simpl;
      (split; [by intros [= <-]; auto|by intros [-> [[? ?]|[? ?]]]]).
  - unfold set_allow_no_auth. destruct (ext_require_auth (builder_ext self)); simpl;
      (split; [by intros [= <-]; auto|by intros [-> [[? ?]|[? ?]]]]).
Qed.

(** The SDK endpoint and behavior version of a built configuration are the
    driver's, whatever the SDK's builder held: the endpoint is the first seed
    host under the configured scheme and port.  Every other SDK setting is kept,
    and turning the configuration back into a builder and building it again
    gives the same configuration. *)
Theorem rebuild_roundtrip self :
  let c := build self in
  sdk_get SEndpointUrl (dynamodb_config c) = Config.endpoint_url c ∧
  sdk_get SBehaviorVersion (dynamodb_config c) = Some v2026_01_12 ∧
  (∀ s, s ≠ SEndpointUrl → s ≠ SBehaviorVersion →
     sdk_get s (dynamodb_config c) = sdk_get s (sdk_build (dynamodb_builder self))) ∧
  config_ext c = builder_ext self ∧
  build (Config.to_builder c) ≡ c.
Proof.
  split; [apply ConfigFacts.build_endpoint|]. split; [apply ConfigFacts.build_behavior|].
  split; [apply ConfigFacts.build_other|]. split; [done|]. apply ConfigFacts.build_to_builder_build.
Qed.

End properties.

(** ** Witnesses *)

Section witnesses.
Import Builder.
#[local] Existing Instances StrUrl.api MarkFlate.api ListSdk.types.
#[local] Instance sdk0 : SdkApi unit := ListSdk.api unit.

(** A configuration that is rebuilt on the way. *)
Definition calls : list (BuilderOp (I := unit)) :=
  [SetSeedHosts ["node1"]; SetScheme "https://"; SetPort 8043%Z; Rebuild; SetAllowNoAuth].
Definition fresh : AlternatorBuilder := Config.builder.
Definition configured : AlternatorBuilder :=
  match apply_ops calls fresh with Ok b => b | Err _ => fresh end.

Example configured_endpoint :
  Config.endpoint_url (build configured) = Some "https://node1:8043/".
Proof. vm_refl. Qed.

Lemma scheme_wrappers_exact_witness :
  ext_scheme (builder_ext (set_scheme "https://" fresh)) = Some "https" ∧
  (ext_scheme (builder_ext (set_scheme "https:://" fresh)) = Some "https" →
   "https:://" = "https" ∨ "https:://" = "https:" ∨ "https:://" = "https://").
Proof.
  split.
  - apply (scheme_wrappers_exact fresh "https://" "https" eq_refl). auto.
  - apply (scheme_wrappers_exact fresh "https:://" "https" eq_refl).
Defined.

Lemma auth_options_exclusive_witness :
  apply_ops calls fresh = Ok configured ∧
  (∀ op m, apply_op op configured = Err m ↔
     m = INCOMPATIBLE_AUTH_OPTIONS_MESSAGE ∧
     (op = SetRequireAuth true ∧ ext_allow_no_auth (builder_ext configured) = true ∨
      op = SetAllowNoAuth ∧ ext_require_auth (builder_ext configured) = true)).
Proof.
  split; [vm_refl|].
  apply (auth_options_exclusive (laws := ListSdk.laws unit) calls configured). vm_refl.
Defined.

Lemma rebuild_roundtrip_witness :
  sdk_get SEndpointUrl (dynamodb_config (build configured)) =
    Config.endpoint_url (build configured) ∧
  sdk_get SNoAuth (dynamodb_config (build configured)) = Some tt.
Proof.
  pose proof (rebuild_roundtrip (laws := ListSdk.laws unit) configured) as (Hu & _ & Ho & _).
  split; [exact Hu|]. etransitivity; [by apply (Ho SNoAuth)|vm_refl].
Defined.

End witnesses.
