(* ===== verification/DiscoveryHttp.v ===== *)
(** * The HTTP client of discovery ([build_discovery_http_client] and the native
      roots in [src/src/live_nodes.rs])

    Discovery sends its requests with the SDK's HTTP client when one is
    configured and with a [reqwest] client on the native CA roots otherwise.
    The certificate store, [rustls] and [reqwest] are a class.  The theorem says
    when each client is chosen, under which deadlines, and when the roots make
    it fail: a missing root store is an error for [https] only. *)

From S2P Require Import Prelude UrlApi NodeUrl RoutingScope Refresh Http Classifier.
From S2P Require Import OptimizeHeaders Compression Interceptors Sdk Config.

(** [rustls_native_certs], [rustls] and [reqwest]; errors are seen through
    [to_string]. *)
Class TlsApi := {
  NativeCert : Type;
  RootCertStore : Type;
  TlsClientConfig : Type;
  ReqwestClient : Type;
  ReqwestError : Type;
  (** [load_native_certs()]: certificates and errors. *)
  load_native_certs : list NativeCert * list string;
  roots_empty : RootCertStore;
  roots_add : NativeCert → RootCertStore → Result RootCertStore string;
  roots_is_empty : RootCertStore → bool;
  (** [builder_with_provider(..)] up to [with_no_client_auth()]. *)
  tls_config : RootCertStore → Result TlsClientConfig string;
  (** [use_preconfigured_tls(..).timeout(..).connect_timeout(..).build()]. *)
  reqwest_build : TlsClientConfig → Z → Z → Result ReqwestClient ReqwestError;
}.

(** [LiveNodesBuildError]. *)
Inductive LiveNodesBuildError `{TlsApi} : Type :=
| MissingRoutingTarget
| InvalidSeedHost (seed_host : string) (source : ParseError)
| InvalidScheme (scheme : string)
| TlsConfiguration (message : string)
| HttpClientError (source : ReqwestError).

(** [DiscoveryHttpClient]. *)
Inductive DiscoveryHttpClient `{SdkTypes, TlsApi} : Type :=
| Reqwest (client : ReqwestClient)
| Smithy (http_client : SharedHttpClient) (sleep_impl : option SharedAsyncSleep)
    (time_source : option SharedTimeSource).

Module DiscoveryHttp.

(** ** Native roots *)

Section roots.
Context `{TlsApi}.

(** The loop of [load_native_root_store]: an unusable certificate is an error
    and the others still count. *)
Fixpoint add_certificates (certs : list NativeCert) (roots : RootCertStore) (errors : list string)
    : RootCertStore * list string :=
  match certs with
  | [] => (roots, errors)
  | certificate :: certs =>
      match roots_add certificate roots with
      | Ok roots => add_certificates certs roots errors
      | Err error => add_certificates certs roots (errors ++ [error])
      end
  end.
Definition load_native_root_store : RootCertStore * list string :=
  let '(certs, errors) := load_native_certs in add_certificates certs roots_empty errors.

Definition native_roots_are_usable : bool :=
  let '(roots, _) := load_native_root_store in negb (roots_is_empty roots).

Definition unusable_native_roots_message (errors : list string) : string :=
  match errors with
  | [] => "no usable native CA certificates were found"
  | _ => Str.join "; " errors
  end.

Definition ensure_native_roots_are_usable : Result unit string :=
  let '(roots, errors) := load_native_root_store in
  if roots_is_empty roots then Err (unusable_native_roots_message errors) else Ok ().

(** [discovery_http_client_builder_with_root_status]. *)
Definition discovery_http_client_builder_with_root_status (sch : string)
    : Result (TlsClientConfig * bool) LiveNodesBuildError :=
  let '(roots, errors) := load_native_root_store in
  let native_roots_usable := negb (roots_is_empty roots) in
  if eq_ignore_ascii_case sch "https" && negb native_roots_usable then
    Err (TlsConfiguration (unusable_native_roots_message errors))
  else
    result_bind (map_err TlsConfiguration (tls_config roots)) (λ tls,
    Ok (tls, native_roots_usable)).
End roots.

(** ** The client *)

Section client.
Context `{Flate} {types : SdkTypes} {I : Type} {sdk : SdkApi I} {tls : TlsApi}.

(** [build_default_discovery_http_client]. *)
Definition build_default_discovery_http_client (sch : string) (request_timeout : Z)
    : Result (DiscoveryHttpClient * bool) LiveNodesBuildError :=
  result_bind (discovery_http_client_builder_with_root_status sch)
    (λ '(builder, native_roots_usable),
     result_bind (map_err HttpClientError
       (reqwest_build builder request_timeout (Z.min (from_secs 2) request_timeout)))
     (λ client, Ok (Reqwest client, native_roots_usable))).

(** [build_discovery_http_client]. *)
Definition build_discovery_http_client (config : AlternatorConfig) (sch : string)
    : Result (DiscoveryHttpClient * bool) LiveNodesBuildError :=
  match Config.http_client config with
  | Some http_client =>
      Ok (Smithy (http_client : SharedHttpClient) (Config.sleep_impl config)
            (Config.time_source config), false)
  | None =>
      build_default_discovery_http_client sch
        (default DISCOVERY_HTTP_OPERATION_TIMEOUT (Config.discovery_timeout config))
  end.
End client.
End DiscoveryHttp.

(** ** A certificate store as a list of names, for the witnesses *)

Module ListTls.

(** The roots of the host, with the errors of loading them. *)
Definition api (host : list string * list string) : TlsApi := {|
  NativeCert := string;
  RootCertStore := list string;
  TlsClientConfig := list string;
  ReqwestClient := list string * Z * Z;
  ReqwestError := string;
  load_native_certs := host;
  roots_empty := [];
  roots_add c s := if decide (c = "broken") then Err "invalid certificate" else Ok (c :: s);
  roots_is_empty s := bool_decide (s = []);
  tls_config s := Ok s;
  reqwest_build c timeout connect_timeout := Ok (c, timeout, connect_timeout);
|}.

End ListTls.
