(* ===== verification/DiscoveryTransport.v ===== *)
(** * Discovery requests ([DiscoveryHttpClient::get_live_nodes] in
      [src/src/live_nodes.rs])

    One [/localnodes] request is a plain [reqwest] GET, or an unauthenticated,
    never retried operation of the Smithy runtime on the HTTP client the user
    configured; either way the answer is a buffered body that is a JSON list of
    strings, and Tokio's timeout cuts it short.  [reqwest], the Smithy runtime,
    [serde_json] and Tokio are the class [DiscoveryIo].  The client makes the
    network of the refresh ([discovery_network]).

    The theorem: an answer that counts was decoded from the body of the response
    to a GET for exactly the URL that was asked for, sent by the client in use
    and, on the Smithy runtime, by the operation with its endpoint, deadlines and
    no retries.  How many such requests a refresh sends is a theorem of
    [Refresh]; how long the runtimes take over them is not modelled. *)

From S2P Require Import Prelude UrlApi NodeUrl RoutingScope LiveNodes Refresh Http Classifier.
From S2P Require Import OptimizeHeaders Compression Interceptors Sdk Config DiscoveryHttp.
From Stdlib Require Import Strings.Byte.

(** What the discovery operation of the Smithy runtime is configured with. *)
Record OperationConfig `{SdkTypes} := mkOperation {
  service_name : string;
  operation_name : string;
  behavior_version : BehaviorVersion;
  operation_http_client : SharedHttpClient;
  operation_endpoint_url : string;
  no_auth : bool;
  no_retry : bool;
  connect_timeout : Z;
  operation_timeout : Z;
  connection_poisoning : bool;
  operation_sleep_impl : option SharedAsyncSleep;
  operation_time_source : option SharedTimeSource;
}.

(** [reqwest], the Smithy runtime, [serde_json] and Tokio.  An asynchronous
    operation takes the world from where it starts to where it ends. *)
Class DiscoveryIo `{UrlApi, SdkTypes, TlsApi} := {
  IoWorld : Type;
  HttpRequest : Type;
  HttpResponse : Type;
  ReqwestResponse : Type;
  (** [Client::get(url).send()] and [Response::bytes]. *)
  reqwest_get : ReqwestClient → Url → IoWorld → Result ReqwestResponse ReqwestError * IoWorld;
  reqwest_bytes : ReqwestResponse → IoWorld → Result (list byte) ReqwestError * IoWorld;
  (** [serde_json::from_slice::<Vec<String>>]. *)
  json_strings : list byte → Result (list string) string;
  (** [url.origin().ascii_serialization()]. *)
  origin_ascii : Url → string;
  (** [HttpRequest::get(uri)] and [response.body().bytes()]. *)
  request_get : string → Result HttpRequest string;
  response_bytes : HttpResponse → option (list byte);
  (** One attempt of an operation with a request, and [Operation::invoke] with its
      serializer and deserializer. *)
  send : OperationConfig → HttpRequest → IoWorld → Result HttpResponse string * IoWorld;
  invoke : OperationConfig → (Url → Result HttpRequest string) →
    (HttpResponse → Result (list string) string) → Url → IoWorld → Result (list string) string * IoWorld;
  (** [tokio::time::timeout]: [None] is [Elapsed]. *)
  tokio_timeout : ∀ {A : Type}, Z → (IoWorld → A * IoWorld) → IoWorld → option A * IoWorld;
  (** What other tasks do to the view between two worlds and what other threads
      do in one, and the shuffle. *)
  view_events : IoWorld → IoWorld → list ViewEvent;
  thread_events : IoWorld → list ViewEvent * IoWorld;
  io_shuffle : list Url → IoWorld → list Url * IoWorld;
}.

Module DiscoveryTransport.
Section transport.
Context `{DiscoveryIo}.

(** [Response::json::<Vec<String>>]: the body, decoded. *)
Definition reqwest_json (response : ReqwestResponse) (w : IoWorld) : option (list string) * IoWorld :=
  let '(bytes, w) := reqwest_bytes response w in
  (bytes ← result_ok bytes; result_ok (json_strings bytes), w).

(** The operation of the Smithy client. *)
Definition discovery_operation (http_client : SharedHttpClient) (sleep_impl : option SharedAsyncSleep)
    (time_source : option SharedTimeSource) (url : Url) (request_timeout : Z) : OperationConfig :=
  mkOperation _ "alternator" "DiscoverLiveNodes" ALTERNATOR_BEHAVIOR_VERSION http_client
    (origin_ascii url) true true (Z.min (from_secs 2) request_timeout) request_timeout true sleep_impl time_source.

(** Its serializer and deserializer. *)
Definition serializer (url : Url) : Result HttpRequest string := request_get (as_str url).
Definition deserializer (response : HttpResponse) : Result (list string) string :=
  result_bind (ok_or (response_bytes response) "discovery response body was not buffered") json_strings.

(** [get_live_nodes]. *)
Definition get_live_nodes (client : DiscoveryHttpClient) (url : Url) (request_timeout : Z)
    (w : IoWorld) : option (list string) * IoWorld :=
  match client with
  | Reqwest client =>
      match reqwest_get client url w with
      | (Ok response, w) => reqwest_json response w
      | (Err _, w) => (None, w)
      end
  | Smithy http_client sleep_impl time_source =>
      let '(result, w) :=
        invoke (discovery_operation http_client sleep_impl time_source url request_timeout)
          serializer deserializer url w in
      (result_ok result, w)
  end.

(** The network of a refresh over that client. *)
Definition discovery_network (client : DiscoveryHttpClient) : Network := {|
  World := IoWorld;
  probe url request_timeout w :=
    let '(answer, w') := tokio_timeout request_timeout (get_live_nodes client url request_timeout) w in
    (answer, view_events w w', w');
  interfere := thread_events;
  shuffle := io_shuffle;
|}.

End transport.
End DiscoveryTransport.

(** What the runtimes promise. *)
Class DiscoveryIoLaws `{DiscoveryIo} : Prop := {
  (** An operation without retries that succeeds made one attempt with the request
      of its serializer, and returns what its deserializer makes of the response. *)
  invoke_ok : ∀ cfg ser de url w l w', no_retry cfg = true → invoke cfg ser de url w = (Ok l, w') →
    ∃ request response, ser url = Ok request ∧ send cfg request w = (Ok response, w') ∧
      de response = Ok l;
  (** A timeout that does not elapse has the result of its future. *)
  timeout_result : ∀ {A} t (f : IoWorld → A * IoWorld) w a w',
    tokio_timeout t f w = (Some a, w') → f w = (a, w');
}.

(** ** Properties *)

Section properties.
Context `{DiscoveryIoLaws}.
Import DiscoveryTransport.

(** C33: an answer that counts is a decoded body.  When a discovery request has an
    answer, it is the JSON list of strings in the body of the response to a GET
    of exactly that URL: one that the [reqwest] client sent, or one that the
    discovery operation for that URL and timeout sent in its one attempt, with a
    response that was fully buffered.  A failed request, a body that is no such
    list and an elapsed timeout are all no answer. *)
Theorem discovery_answer_decoded (client : DiscoveryHttpClient) (url : Url) (request_timeout : Z)
    (w w' : IoWorld) nodes meanwhile :
  probe (Network := discovery_network client) url request_timeout w = (Some (Some nodes), meanwhile, w') →
  ∃ bytes, json_strings bytes = Ok nodes ∧
    match client with
    | Reqwest client => ∃ response w1,
        reqwest_get client url w = (Ok response, w1) ∧ reqwest_bytes response w1 = (Ok bytes, w')
    | Smithy http_client sleep_impl time_source => ∃ request response,
        request_get (as_str url) = Ok request ∧
        send (discovery_operation http_client sleep_impl time_source url request_timeout) request w
          = (Ok response, w') ∧
        response_bytes response = Some bytes
    end.
Proof.
  simpl. destruct (tokio_timeout _ _ _) as [answer w1] eqn:Ht. intros [= -> <- ->].
  apply timeout_result in Ht. unfold get_live_nodes in Ht. destruct client as [client|h sleep time].
  - destruct (reqwest_get client url w) as [[response|] w2] eqn:Hg; [|done]. unfold reqwest_json in Ht.
    destruct (reqwest_bytes response w2) as [[bytes|] w3] eqn:Hb; [|done]. simpl in Ht.
    destruct (json_strings bytes) as [l|] eqn:Hj; simplify_eq/=. exists bytes. eauto.
  - destruct (invoke _ _ _ _ _) as [[l|] w2] eqn:Hi; simplify_eq/=.
    apply invoke_ok in Hi as (request & response & Hs & Hsend & Hd); [|done]. unfold deserializer in Hd.
    destruct (response_bytes response) as [bytes|] eqn:Hr; simpl in Hd; [|done]. exists bytes. eauto 6.
Qed.

End properties.

(** ** Witnesses *)

(** A runtime whose world is its clock: a node takes a second to answer and
    another one to send its body, which is a list of one address. *)
Module SlowIo.
#[local] Existing Instances StrUrl.api ListSdk.types.
#[local] Instance tls0 : TlsApi := ListTls.api (["root"], []).

#[export] Instance io : DiscoveryIo := {|
  IoWorld := Z;
  HttpRequest := string;
  HttpResponse := list byte;
  ReqwestResponse := list byte;
  reqwest_get _ _ w := (Ok [x01], w + from_secs 1)%Z;
  reqwest_bytes response w := (Ok response, w + from_secs 1)%Z;
  json_strings bytes := match bytes with [] => Err "no JSON" | _ => Ok ["node3"] end;
  origin_ascii u := u : string;
  request_get u := Ok u;
  response_bytes response := Some response;
  send _ request w := (Ok [x01], w + from_secs 2)%Z;
  invoke _ ser de url w :=
    match ser url with
    | Ok request => (de [x01], w + from_secs 2)%Z
    | Err e => (Err e, w)
    end;
  tokio_timeout A t f w :=
    let '(a, w') := f w in
    if decide (w' ≤ w + t)%Z then (Some a, w') else (None, w + t)%Z;
  view_events _ _ := [];
  thread_events w := ([], w);
  io_shuffle l w := (l, w);
|}.

#[export] Instance io_laws : DiscoveryIoLaws.
Proof.
  split; simpl.
  - intros _ ser de url w l w' _. destruct (ser url) as [request|]; [|done].
    intros [= Hd <-]. by exists request, [x01].
  - intros A t f w a w'. destruct (f w) as [a1 w1]. case_decide; by intros [= <- <-].
Qed.

End SlowIo.

Section witnesses.
Import DiscoveryTransport SlowIo.
#[local] Existing Instances StrUrl.api ListSdk.types.
#[local] Instance tls1 : TlsApi := ListTls.api (["root"], []).

Definition slow_client : DiscoveryHttpClient := Reqwest (["root"], from_secs 5, from_secs 2).
Definition slow_net : Network := discovery_network slow_client.
Definition slow_view : NodeView := View.new (Scope.from_datacenter "A") ["http://n1:8000/"; "http://n2:8000/"].

(** An impatient refresh gets no answer from any node. *)
Definition impatient : DiscoveryInputs :=
  mkInputs _ (Some (from_secs 1)) ["http://n1:8000/"] "http" (Some 8000%Z).
Definition start_run (w : IoWorld) : @Run _ slow_net := @mkRun _ slow_net w slow_view [].
Definition end_run (x : @Refreshed _ slow_net) : @Run _ slow_net :=
  match x with Finished _ r => r | _ => start_run 0%Z end.
Definition gave_up : @Run _ slow_net :=
  end_run (@Refresh.update_live_nodes_from _ slow_net impatient ∅ [] false (start_run 0%Z)).

Example gave_up_state :
  (world gave_up : Z, length (Refresh.trace_requests (trace gave_up)), live_nodes (view gave_up)) =
  (from_secs 3, 3, ["http://n1:8000/"; "http://n2:8000/"]).
Proof. vm_refl. Qed.

Definition n1 : Url := "http://n1:8000/".
Definition t0 : IoWorld := 0%Z.
Definition t2 : IoWorld := from_secs 2.

(** The same node, through a transport the user configured. *)
Definition custom : @SharedHttpClient ListSdk.types := @ForeignHttp ListSdk.types "custom".

Lemma discovery_answer_decoded_witness :
  ∃ bytes, json_strings bytes = Ok ["node3"] ∧ ∃ request response,
    request_get n1 = Ok request ∧
    send (discovery_operation custom None None n1 (from_secs 5)) request t0 = (Ok response, t2) ∧
    response_bytes response = Some bytes.
Proof.
  apply (discovery_answer_decoded (Smithy custom None None) n1 (from_secs 5) t0 t2 ["node3"] []).
  reflexivity.
Defined.

End witnesses.
