(* ===== verification/DiscoveryOwner.v ===== *)
(** * The owner of discovery ([DiscoveryManager], [DiscoveryRuntime] and
      [LiveNodes] in [src/src/live_nodes.rs])

    One background task per client refreshes the membership.  It runs on the
    Tokio runtime of some caller; a caller on another runtime probes that task
    and takes discovery over when the task is gone or does not answer in time.
    A [DiscoveryRuntime] is shared by reference and compared by [Arc::ptr_eq],
    so a manager keeps every one it ever allocated and refers to them by
    position.  Calls of [AbortHandle::abort] and the handles of the discovery
    loops it started are recorded in traces.

    The theorems: a probe hands over exactly when nothing answered it for the
    probe interval, and never while the owner answers; a client has at most one
    discovery loop that was not told to stop, whatever the order of accesses,
    hand-overs, acknowledgements and exits; and an access starts or takes over
    discovery exactly when there is no owner to be kept. *)

From S2P Require Import Prelude UrlApi NodeUrl RoutingScope LiveNodes Refresh DiscoveryTasks.
From S2P Require Import Http Classifier OptimizeHeaders Compression Interceptors Sdk Config.
From S2P Require Import DiscoveryHttp.

(** [DEFAULT_ACTIVE_REFRESH_INTERVAL], [DEFAULT_IDLE_REFRESH_INTERVAL] and
    [SHUTDOWN_PROBE_INTERVAL]. *)
Definition DEFAULT_ACTIVE_REFRESH_INTERVAL : Z := from_secs 1.
Definition DEFAULT_IDLE_REFRESH_INTERVAL : Z := from_secs 60.
Definition SHUTDOWN_PROBE_INTERVAL : Z := from_millis 250.

(** [tokio::runtime::Id]. *)
Abbreviation RuntimeId := nat.

(** [ShutdownProbe]. *)
Record ShutdownProbe `{TaskApi} := mkProbe {
  last_started : option Z;
  pending : bool;
  recheck_task : option AbortHandle;
}.

(** [DiscoveryRuntime]; [probe_requested] is the permit of its [Notify]. *)
Record DiscoveryRuntime `{TaskApi} := mkRuntime {
  runtime_id : RuntimeId;
  runtime_stopped : bool;
  handoff_required : bool;
  shutdown_probe : ShutdownProbe;
  probe_requested : bool;
}.

(** [DiscoveryManager] with its [DiscoveryTaskState].  [affinity_nodes] is what
    the weak reference upgrades to, [notified] the permit of [notify],
    [runtimes] every [DiscoveryRuntime] allocated so far, [discovery_runtime]
    the position of the registered one; [aborts] and [loops] are the traces. *)
Record DiscoveryManager `{UrlApi, TaskApi, SdkTypes, TlsApi} := mkManager {
  manager_tasks : DiscoveryTasks;
  ordinary : NodeView;
  inputs : DiscoveryInputs;
  client : DiscoveryHttpClient;
  native_roots_usable : bool;
  affinity_nodes : option NodeView;
  active_interval : Z;
  idle_interval : Z;
  last_activity : Z;
  notified : bool;
  active_task : option AbortHandle;
  affinity_task : option AbortHandle;
  runtimes : list DiscoveryRuntime;
  discovery_runtime : option nat;
  aborts : list AbortHandle;
  loops : list AbortHandle;
}.

(** A handle ([LiveNodes]): which view it reads and whether it keeps the
    manager alive. *)
Inductive ViewRef : Type := OrdinaryView | AffinityView.
Inductive OwnerRef : Type := Ordinary | Auxiliary.
Record LiveNodes := mkHandle { handle_view : ViewRef; handle_owner : OwnerRef }.

(** ** The liveness probe of an owner *)

Module Probe.
Section probe.
Context `{TaskApi}.
Implicit Types (rt : DiscoveryRuntime) (now : Z).

(** [ShutdownProbe::default]. *)
Definition default_probe : ShutdownProbe := mkProbe _ None false None.

(** [DiscoveryRuntime::new]. *)
Definition new (id : RuntimeId) : DiscoveryRuntime := mkRuntime _ id false false default_probe false.

(** [is_due]. *)
Definition is_due (p : ShutdownProbe) now : bool :=
  match last_started p with
  | None => true
  | Some started => bool_decide (SHUTDOWN_PROBE_INTERVAL ≤ saturating_duration_since now started)%Z
  end.

Definition set_stopped rt : DiscoveryRuntime :=
  mkRuntime _ (runtime_id rt) true (handoff_required rt) (shutdown_probe rt) (probe_requested rt).
Definition set_handoff (h : bool) rt : DiscoveryRuntime :=
  mkRuntime _ (runtime_id rt) (runtime_stopped rt) h (shutdown_probe rt) (probe_requested rt).
Definition set_probe (p : ShutdownProbe) rt : DiscoveryRuntime :=
  mkRuntime _ (runtime_id rt) (runtime_stopped rt) (handoff_required rt) p (probe_requested rt).
Definition set_requested (b : bool) rt : DiscoveryRuntime :=
  mkRuntime _ (runtime_id rt) (runtime_stopped rt) (handoff_required rt) (shutdown_probe rt) b.

(** The critical section of [should_handoff_at]. *)
Definition probe_verdict now rt : bool * DiscoveryRuntime :=
  let probe := shutdown_probe rt in
  if pending probe then
    let rt := if is_due probe now then set_handoff true rt else rt in
    (handoff_required rt, rt)
  else if is_due probe now then
    let probe := mkProbe _ (Some now) true (recheck_task probe) in
    (false, set_requested true (set_probe probe rt))
  else (false, rt).

(** [should_handoff_at]. *)
Definition should_handoff_at now rt : bool * DiscoveryRuntime :=
  if runtime_stopped rt then (true, rt) else probe_verdict now rt.

(** [acknowledge_probe], with the recheck it aborts. *)
Definition acknowledge_probe rt : option AbortHandle * DiscoveryRuntime :=
  let probe := shutdown_probe rt in
  (recheck_task probe,
   set_handoff false (set_probe (mkProbe _ (last_started probe) false None) rt)).

(** One poll of [with_probes] around a future that is [ready] or not: the probe
    is looked at first. *)
Definition poll_with_probes {T} (ready : option T) rt
    : option T * option AbortHandle * DiscoveryRuntime :=
  if probe_requested rt then
    let '(aborted, rt) := acknowledge_probe (set_requested false rt) in (ready, aborted, rt)
  else (ready, None, rt).

(** What an owner sees over time: accesses from another runtime, and polls of
    its own task. *)
Inductive ProbeEvent : Type := Access (now : Z) | Poll (now : Z).
Definition event_time (e : ProbeEvent) : Z := match e with Access t | Poll t => t end.
Definition is_access (e : ProbeEvent) : Prop :=
  match e with Access _ => True | Poll _ => False end.

Definition probe_event rt (e : ProbeEvent) : DiscoveryRuntime :=
  match e with
  | Access now => snd (should_handoff_at now rt)
  | Poll _ => snd (poll_with_probes (@None unit) rt)
  end.
Definition run_probe (es : list ProbeEvent) rt : DiscoveryRuntime := foldl probe_event rt es.

(** Events happen in the order of their times. *)
Definition in_order (es : list ProbeEvent) : Prop := StronglySorted Z.le (event_time <$> es).

End probe.
End Probe.

(** ** The manager *)

Module Manager.
Section manager.
Context `{UrlApi, TaskApi, SdkTypes, TlsApi}.
Implicit Types (m : DiscoveryManager) (now : Z) (id : RuntimeId) (owner : nat).

(** Updates of one field. *)
Definition set_tasks (t : DiscoveryTasks) m : DiscoveryManager :=
  mkManager _ _ _ _ t (ordinary m) (inputs m) (client m) (native_roots_usable m)
    (affinity_nodes m) (active_interval m) (idle_interval m) (last_activity m) (notified m)
    (active_task m) (affinity_task m) (runtimes m) (discovery_runtime m) (aborts m) (loops m).
Definition set_ordinary (v : NodeView) m : DiscoveryManager :=
  mkManager _ _ _ _ (manager_tasks m) v (inputs m) (client m) (native_roots_usable m)
    (affinity_nodes m) (active_interval m) (idle_interval m) (last_activity m) (notified m)
    (active_task m) (affinity_task m) (runtimes m) (discovery_runtime m) (aborts m) (loops m).
Definition set_affinity_nodes (v : option NodeView) m : DiscoveryManager :=
  mkManager _ _ _ _ (manager_tasks m) (ordinary m) (inputs m) (client m) (native_roots_usable m)
    v (active_interval m) (idle_interval m) (last_activity m) (notified m)
    (active_task m) (affinity_task m) (runtimes m) (discovery_runtime m) (aborts m) (loops m).
Definition set_activity (last : Z) (n : bool) m : DiscoveryManager :=
  mkManager _ _ _ _ (manager_tasks m) (ordinary m) (inputs m) (client m) (native_roots_usable m)
    (affinity_nodes m) (active_interval m) (idle_interval m) last n
    (active_task m) (affinity_task m) (runtimes m) (discovery_runtime m) (aborts m) (loops m).
Definition set_active_task (t : option AbortHandle) m : DiscoveryManager :=
  mkManager _ _ _ _ (manager_tasks m) (ordinary m) (inputs m) (client m) (native_roots_usable m)
    (affinity_nodes m) (active_interval m) (idle_interval m) (last_activity m) (notified m)
    t (affinity_task m) (runtimes m) (discovery_runtime m) (aborts m) (loops m).
Definition set_affinity_task (t : option AbortHandle) m : DiscoveryManager :=
  mkManager _ _ _ _ (manager_tasks m) (ordinary m) (inputs m) (client m) (native_roots_usable m)
    (affinity_nodes m) (active_interval m) (idle_interval m) (last_activity m) (notified m)
    (active_task m) t (runtimes m) (discovery_runtime m) (aborts m) (loops m).
Definition set_runtimes (rts : list DiscoveryRuntime) m : DiscoveryManager :=
  mkManager _ _ _ _ (manager_tasks m) (ordinary m) (inputs m) (client m) (native_roots_usable m)
    (affinity_nodes m) (active_interval m) (idle_interval m) (last_activity m) (notified m)
    (active_task m) (affinity_task m) rts (discovery_runtime m) (aborts m) (loops m).
Definition set_discovery_runtime (r : option nat) m : DiscoveryManager :=
  mkManager _ _ _ _ (manager_tasks m) (ordinary m) (inputs m) (client m) (native_roots_usable m)
    (affinity_nodes m) (active_interval m) (idle_interval m) (last_activity m) (notified m)
    (active_task m) (affinity_task m) (runtimes m) r (aborts m) (loops m).
Definition record_abort (t : option AbortHandle) m : DiscoveryManager :=
  mkManager _ _ _ _ (manager_tasks m) (ordinary m) (inputs m) (client m) (native_roots_usable m)
    (affinity_nodes m) (active_interval m) (idle_interval m) (last_activity m) (notified m)
    (active_task m) (affinity_task m) (runtimes m) (discovery_runtime m)
    (aborts m ++ option_list t) (loops m).
Definition record_loop (t : AbortHandle) m : DiscoveryManager :=
  mkManager _ _ _ _ (manager_tasks m) (ordinary m) (inputs m) (client m) (native_roots_usable m)
    (affinity_nodes m) (active_interval m) (idle_interval m) (last_activity m) (notified m)
    (active_task m) (affinity_task m) (runtimes m) (discovery_runtime m)
    (aborts m) (loops m ++ [t]).
Definition on_runtime (f : DiscoveryRuntime → DiscoveryRuntime) (r : nat) m : DiscoveryManager :=
  set_runtimes (alter f r (runtimes m)) m.

(** [if let Some(task) = slot.take() { task.abort() }] for both slots. *)
Definition abort_active m : DiscoveryManager :=
  set_active_task None (record_abort (active_task m) m).
Definition abort_affinity m : DiscoveryManager :=
  set_affinity_task None (record_abort (affinity_task m) m).

(** [mark_activity]: an access after an idle time wakes the loop. *)
Definition mark_activity now m : DiscoveryManager :=
  let was_idle := bool_decide (idle_interval m < saturating_duration_since now (last_activity m))%Z in
  set_activity now (notified m || was_idle) m.

(** Dropping the [DiscoveryTaskGuard] of the runtime at [r]: its second half,
    the [compare_and_swap] that clears only this task's registration, and both. *)
Definition clear_registration (r : nat) m : DiscoveryManager :=
  if decide (discovery_runtime m = Some r) then set_discovery_runtime None m else m.
Definition guard_drop (r : nat) m : DiscoveryManager :=
  clear_registration r (on_runtime Probe.set_stopped r m).

(** The [recheck] that [retain_discovery_owner] arranges, unless one is
    arranged already; [finished] is [AbortHandle::is_finished].  [None] is the
    panic on a pending probe without a start. *)
Definition arrange_recheck (finished : AbortHandle → bool) (owner : nat) (probe : ShutdownProbe) m
    : option DiscoveryManager :=
  if negb (pending probe) || from_option (λ task, negb (finished task)) false (recheck_task probe)
  then Some m
  else
    _deadline ← last_started probe;
    let '(task, t) := Tasks.spawn (manager_tasks m) in
    Some (on_runtime (Probe.set_probe (mkProbe _ (last_started probe) (pending probe) task)) owner
            (set_tasks t m)).

(** [retain_discovery_owner]: [None] is a panic, which no reachable state has. *)
Definition retain_discovery_owner (finished : AbortHandle → bool) (owner : nat) id now m
    : option (bool * DiscoveryManager) :=
  rt ← runtimes m !! owner;
  if decide (runtime_id rt = id) then Some (true, m)
  else
    let '(handoff, rt) := Probe.should_handoff_at now rt in
    let m := on_runtime (λ _, rt) owner m in
    if handoff : bool then Some (false, m)
    else (λ m, (true, m)) <$> arrange_recheck finished owner (shutdown_probe rt) m.

(** Registering a new runtime and spawning its loop; a rejected spawn drops the
    task's guard at once. *)
Definition register_runtime id m : DiscoveryManager :=
  set_discovery_runtime (Some (length (runtimes m)))
    (set_runtimes (runtimes m ++ [Probe.new id]) m).
Definition spawn_loop (runtime : nat) m : DiscoveryManager :=
  let '(task, t) := Tasks.spawn (manager_tasks m) in
  let m := set_tasks t m in
  match task with
  | Some h => set_active_task (Some h) (record_loop h m)
  | None => set_active_task None (guard_drop runtime m)
  end.

(** The rest of [ensure_discovery_started] once nothing is to be retained:
    stop the old tasks, register a new runtime, start the loop. *)
Definition start_discovery id now m : DiscoveryManager :=
  let m := abort_affinity (abort_active m) in
  let runtime := length (runtimes m) in
  spawn_loop runtime (mark_activity now (register_runtime id m)).

(** What runs under the start/transfer mutex. *)
Definition ensure_locked (finished : AbortHandle → bool) id now m : option DiscoveryManager :=
  match discovery_runtime m with
  | Some active =>
      '(retained, m) ← retain_discovery_owner finished active id now m;
      Some (if retained : bool then m else start_discovery id now m)
  | None => Some (start_discovery id now m)
  end.

(** [ensure_discovery_started]; [current] is the runtime of the calling thread,
    if any. *)
Definition ensure_discovery_started (finished : AbortHandle → bool) (current : option RuntimeId)
    now m : option DiscoveryManager :=
  if Tasks.is_stopped (manager_tasks m) then Some m
  else
    match current with
    | None => Some m
    | Some id =>
        match discovery_runtime m with
        | Some active =>
            '(retained, m) ← retain_discovery_owner finished active id now m;
            if retained : bool then Some m else ensure_locked finished id now m
        | None => ensure_locked finished id now m
        end
    end.

(** The body of the recheck task of the owner at [owner], once its deadline has
    passed. *)
Definition recheck (finished : AbortHandle → bool) (owner : nat) (current : option RuntimeId)
    now m : option DiscoveryManager :=
  rt ← runtimes m !! owner;
  if pending (shutdown_probe rt)
     && from_option (λ active, bool_decide (active = owner)) true (discovery_runtime m)
  then ensure_discovery_started finished current now m
  else Some m.

(** The loop of the owner at [r] is polled ([with_probes]). *)
Definition poll_loop (r : nat) m : DiscoveryManager :=
  match runtimes m !! r with
  | Some rt =>
      let '(_, aborted, rt) := Probe.poll_with_probes (@None unit) rt in
      record_abort aborted (on_runtime (λ _, rt) r m)
  | None => m
  end.

(** How long the loop sleeps after a refresh: [last] is the last access when the
    loop read it, [now] the time when it asked how long ago that was; the lock is
    released in between. *)
Definition sleep_interval (last : Z) now m : Z :=
  if decide (idle_interval m ≤ saturating_duration_since now last)%Z
  then idle_interval m else active_interval m.

(** [start_affinity_refresh], with the candidates the task is given if it is
    started. *)
Definition start_affinity_refresh (finished : AbortHandle → bool) (runtime : nat) m
    : option (list Url) * DiscoveryManager :=
  match affinity_nodes m with
  | None => (None, m)
  | Some _ =>
      if decide (discovery_runtime m ≠ Some runtime) then (None, m)
      else if from_option (λ task, negb (finished task)) false (affinity_task m) then (None, m)
      else
        let ordinary_candidates := live_nodes (ordinary m) in
        let '(task, t) := Tasks.spawn (manager_tasks m) in
        ((λ _, ordinary_candidates) <$> task, set_affinity_task task (set_tasks t m))
  end.

(** [Drop for DiscoveryManager]. *)
Definition drop m : DiscoveryManager := abort_affinity (abort_active m).

(** ** Handles *)

(** [affinity_view] of a handle that reads the view [v]; [None] is the panic of
    [without_rack]. *)
Definition affinity_view (self : LiveNodes) (v : NodeView) m : option (LiveNodes * DiscoveryManager) :=
  if negb (Scope.has_rack_restriction (routing_scope v)) then Some (self, m)
  else
    match affinity_nodes m with
    | Some _ => Some (mkHandle AffinityView Auxiliary, m)
    | None =>
        scope ← Scope.without_rack (routing_scope v);
        let view := View.new scope (seed_urls (inputs m)) in
        Some (mkHandle AffinityView Auxiliary, set_affinity_nodes (Some view) m)
    end.

(** [uses_http] and [has_usable_native_roots]. *)
Definition uses_http m : bool :=
  from_option (λ u, bool_decide (scheme u = "http")) false (head (seed_urls (inputs m))).
Definition has_usable_native_roots m : bool := native_roots_usable m.

(** [access], then reading the membership. *)
Definition access (finished : AbortHandle → bool) (current : option RuntimeId) now m
    : option DiscoveryManager :=
  mark_activity now <$> ensure_discovery_started finished current now m.
Definition get_live_nodes (finished : AbortHandle → bool) (current : option RuntimeId) now m
    : option (list Url * DiscoveryManager) :=
  m ← access finished current now m; Some (live_nodes (ordinary m), m).
Definition get_next_node_round_robin (finished : AbortHandle → bool)
    (current : option RuntimeId) now (used_nodes : gset Url) m
    : option (option Url * DiscoveryManager) :=
  m ← access finished current now m;
  let '(node, v) := View.get_next_node_round_robin used_nodes (ordinary m) in
  Some (node, set_ordinary v m).

(** ** Histories *)

(** What happens to a manager, in the order of the critical sections. *)
Inductive ManagerEvent : Type :=
| EvEnsure (current : option RuntimeId) (now : Z)
| EvLocked (id : RuntimeId) (now : Z)
| EvAccess (current : option RuntimeId) (now : Z)
| EvRecheck (owner : nat) (current : option RuntimeId) (now : Z)
| EvPoll (r : nat)
| EvExit (r : nat)
| EvAffinity (r : nat)
| EvStop.

Definition manager_event (finished : AbortHandle → bool) m (e : ManagerEvent)
    : option DiscoveryManager :=
  match e with
  | EvEnsure current now => ensure_discovery_started finished current now m
  | EvLocked id now => ensure_locked finished id now m
  | EvAccess current now => access finished current now m
  | EvRecheck owner current now =>
      if decide (owner < length (runtimes m)) then recheck finished owner current now m else Some m
  | EvPoll r => Some (poll_loop r m)
  | EvExit r => Some (guard_drop r m)
  | EvAffinity r => Some (snd (start_affinity_refresh finished r m))
  | EvStop => Some (set_tasks (Tasks.stop (manager_tasks m)) m)
  end.
Definition run_manager (finished : AbortHandle → bool) (es : list ManagerEvent) m
    : option DiscoveryManager :=
  foldl (λ o e, m ← o; manager_event finished m e) (Some m) es.

(** ** Specification: whether an access from the runtime [id] keeps the
    registered owner *)
Definition keeps_owner id now m : bool :=
  match discovery_runtime m ≫= (λ r, runtimes m !! r) with
  | Some rt => bool_decide (runtime_id rt = id) || negb (fst (Probe.should_handoff_at now rt))
  | None => false
  end.

(** A manager as [try_new] makes it. *)
Definition unstarted m : Prop :=
  discovery_runtime m = None ∧ runtimes m = [] ∧ active_task m = None ∧
  affinity_task m = None ∧ loops m = [] ∧ aborts m = [].

End manager.
End Manager.

(** ** Lemmas: probes *)

Module ProbeFacts.
Import Probe.
Section facts.
Context `{TaskApi}.
Implicit Types (rt : DiscoveryRuntime) (now : Z) (es : list ProbeEvent).

Lemma is_due_started p started now :
  last_started p = Some started → (started ≤ now)%Z →
  is_due p now = bool_decide (started + SHUTDOWN_PROBE_INTERVAL ≤ now)%Z.
Proof.
  intros Hs Hle. unfold is_due. rewrite Hs. apply bool_decide_ext.
  unfold saturating_duration_since. lia.
Qed.

(** A verdict in favour of a hand-over stays one. *)
Lemma handoff_again now rt rt' :
  should_handoff_at now rt = (true, rt') → should_handoff_at now rt' = (true, rt').
Proof.
  unfold should_handoff_at, probe_verdict. destruct (runtime_stopped rt) eqn:Hst.
  { intros [= <-]. by rewrite Hst. }
  destruct (pending (shutdown_probe rt)) eqn:Hp; [|by destruct (is_due _ now)].
  destruct (is_due (shutdown_probe rt) now) eqn:Hd; [intros [= <-]|intros [= Hh <-]]; simpl;
    by rewrite Hst, Hp, Hd, ?Hh.
Qed.

Lemma should_handoff_id now rt : runtime_id (snd (should_handoff_at now rt)) = runtime_id rt.
Proof. unfold should_handoff_at, probe_verdict. repeat case_match; done. Qed.
Lemma should_handoff_stopped now rt :
  runtime_stopped (snd (should_handoff_at now rt)) = runtime_stopped rt.
Proof. unfold should_handoff_at, probe_verdict. repeat case_match; simpl; congruence. Qed.

(** A pending probe knows when it was started. *)
Definition probe_ok (p : ShutdownProbe) : Prop := pending p = true → is_Some (last_started p).

Lemma should_handoff_ok now rt :
  probe_ok (shutdown_probe rt) → probe_ok (shutdown_probe (snd (should_handoff_at now rt))).
Proof.
  intros Hok. unfold should_handoff_at, probe_verdict. destruct (runtime_stopped rt); [done|].
  destruct (pending (shutdown_probe rt)) eqn:Hp, (is_due (shutdown_probe rt) now); try done.
  by intros _; eexists.
Qed.

Lemma run_probe_app es1 es2 rt : run_probe (es1 ++ es2) rt = run_probe es2 (run_probe es1 rt).
Proof. apply foldl_app. Qed.

(** What is known of a runtime after a history of events no later than [t]. *)
Definition seen (es : list ProbeEvent) (t : Z) rt : Prop :=
  runtime_stopped rt = false ∧
  probe_requested rt = pending (shutdown_probe rt) ∧
  (∀ s, last_started (shutdown_probe rt) = Some s → (s ≤ t)%Z) ∧
  (handoff_required rt = true → pending (shutdown_probe rt) = true) ∧
  (pending (shutdown_probe rt) = true → ∃ es1 s es2,
     es = es1 ++ Access s :: es2 ∧ Forall is_access es2 ∧
     last_started (shutdown_probe rt) = Some s ∧
     (handoff_required rt = true → (s + SHUTDOWN_PROBE_INTERVAL ≤ t)%Z)).

Lemma seen_step es t e rt :
  seen es t rt → (t ≤ event_time e)%Z → seen (es ++ [e]) (event_time e) (probe_event rt e).
Proof.
  intros (Hst & Hreq & Hlast & Hh & Hp) Ht. destruct e as [now|now]; simpl in *.
  - unfold should_handoff_at, probe_verdict. rewrite Hst.
    destruct (pending (shutdown_probe rt)) eqn:Hpend.
    + destruct (Hp eq_refl) as (es1 & s & es2 & -> & Hall & Hs & Hdone).
      pose proof (Hlast s Hs). rewrite (is_due_started _ s) by (done || lia).
      rewrite <-app_assoc. simpl.
      assert (Hall' : Forall is_access (es2 ++ [Access now])) by (apply Forall_app; split; [done|by repeat constructor]).
      assert (Hlast' : ∀ s', last_started (shutdown_probe rt) = Some s' → (s' ≤ now)%Z)
        by (intros s' Hs'; specialize (Hlast s' Hs'); lia).
      case_bool_decide; (split_and!; try done; simpl; [congruence|]); intros _;
        exists es1, s, (es2 ++ [Access now]); (split_and!; try done); [].
      intros Hr. specialize (Hdone Hr). lia.
    + assert (handoff_required rt = false) as Hhf by (destruct (handoff_required rt); naive_solver).
      destruct (is_due (shutdown_probe rt) now); simpl.
      * split; [done|]. split; [done|]. split; [intros ? [= <-]; lia|]. split; [done|].
        intros _. exists es, now, []. simpl. by rewrite Hhf.
      * split; [done|]. split; [congruence|]. split; [intros s Hs; specialize (Hlast s Hs); lia|].
        rewrite Hhf, Hpend. done.
  - unfold poll_with_probes. rewrite Hreq. destruct (pending (shutdown_probe rt)) eqn:Hpend; simpl.
    + split; [done|]. split; [done|]. split; [intros s Hs; specialize (Hlast s Hs); lia|]. done.
    + split; [done|]. split; [congruence|]. split; [intros s Hs; specialize (Hlast s Hs); lia|].
      rewrite Hpend. done.
Qed.

Lemma seen_run id es t :
  in_order es → (∀ e, e ∈ es → (event_time e ≤ t)%Z) → seen es t (run_probe es (new id)).
Proof.
  revert t. induction es as [|e es IH] using rev_ind; intros t Ho Ht.
  { split_and!; done. }
  assert (Hes : seen (es ++ [e]) (event_time e) (run_probe (es ++ [e]) (new id))).
  { rewrite run_probe_app. simpl. unfold in_order in Ho. rewrite fmap_app in Ho.
    apply StronglySorted_app in Ho as (Hle & Ho & _).
    eapply seen_step; [apply (IH (event_time e) Ho)|done].
    intros e' He'. apply Hle; [|by left].
    apply list_elem_of_fmap. eauto. }
  assert (event_time e ≤ t)%Z by (apply Ht; set_solver).
  destruct Hes as (Hst & Hreq & Hlast & Hh & Hp). split; [done|]. split; [done|].
  split; [intros s Hs; specialize (Hlast s Hs); lia|]. split; [done|].
  intros Hpend. destruct (Hp Hpend) as (es1 & s & es2 & ? & ? & ? & Hd).
  exists es1, s, es2. split_and!; [done..|]. intros Hr. specialize (Hd Hr). lia.
Qed.

(** Accesses leave a pending probe alone. *)
Lemma pending_kept es rt s :
  runtime_stopped rt = false → pending (shutdown_probe rt) = true →
  last_started (shutdown_probe rt) = Some s → Forall is_access es →
  let rt' := run_probe es rt in
  runtime_stopped rt' = false ∧ pending (shutdown_probe rt') = true ∧
  last_started (shutdown_probe rt') = Some s.
Proof.
  intros Hst Hp Hs Hall. revert rt Hst Hp Hs.
  induction Hall as [|e es He Hall IH]; intros rt Hst Hp Hs; [done|].
  destruct e as [now|]; [|done]. simpl. apply IH; unfold should_handoff_at, probe_verdict; rewrite Hst, Hp;
    by destruct (is_due _ now).
Qed.

(** After an access at [s1] and accesses only, a probe is pending or the last
    one was started no later than [s1]. *)
Lemma waiting_kept es rt s1 :
  runtime_stopped rt = false →
  (pending (shutdown_probe rt) = true ∨
   ∃ s, last_started (shutdown_probe rt) = Some s ∧ (s ≤ s1)%Z) →
  Forall is_access es →
  let rt' := run_probe es rt in
  runtime_stopped rt' = false ∧
  (pending (shutdown_probe rt') = true ∨
   ∃ s, last_started (shutdown_probe rt') = Some s ∧ (s ≤ s1)%Z).
Proof.
  intros Hst Hw Hall. revert rt Hst Hw.
  induction Hall as [|e es He Hall IH]; intros rt Hst Hw; [done|].
  destruct e as [now|]; [|done]. simpl. apply IH; unfold should_handoff_at, probe_verdict; rewrite Hst;
    destruct (pending (shutdown_probe rt)) eqn:Hp, (is_due (shutdown_probe rt) now); simpl; auto;
    destruct Hw; auto; congruence.
Qed.

Lemma verdict_pending rt s now :
  runtime_stopped rt = false → pending (shutdown_probe rt) = true →
  last_started (shutdown_probe rt) = Some s → (s + SHUTDOWN_PROBE_INTERVAL ≤ now)%Z →
  fst (should_handoff_at now rt) = true.
Proof.
  intros Hst Hp Hs Hle. unfold should_handoff_at, probe_verdict. rewrite Hst, Hp.
  rewrite (is_due_started _ s) by (done || (unfold SHUTDOWN_PROBE_INTERVAL, from_millis in *; lia)).
  by rewrite bool_decide_true.
Qed.

(** An access makes the probe of a silent owner pending once it is due. *)
Lemma access_pends rt s1 now :
  runtime_stopped rt = false →
  (pending (shutdown_probe rt) = true ∨
   ∃ s, last_started (shutdown_probe rt) = Some s ∧ (s ≤ s1)%Z) →
  (s1 + SHUTDOWN_PROBE_INTERVAL ≤ now)%Z →
  (∀ s, last_started (shutdown_probe rt) = Some s → (s ≤ now)%Z) →
  probe_ok (shutdown_probe rt) →
  let rt' := snd (should_handoff_at now rt) in
  runtime_stopped rt' = false ∧ pending (shutdown_probe rt') = true ∧
  ∃ s, last_started (shutdown_probe rt') = Some s ∧ (s ≤ now)%Z.
Proof.
  intros Hst Hw Hle Hlast Hok. unfold should_handoff_at, probe_verdict. rewrite Hst.
  destruct (pending (shutdown_probe rt)) eqn:Hp.
  - destruct (Hok Hp) as [s Hs]. destruct (is_due _ now); (split_and!; [done|done|]);
      (exists s; split; [done|by apply Hlast]).
  - destruct Hw as [|(s & Hs & Hs1)]; [done|].
    rewrite (is_due_started _ s) by (done || (unfold SHUTDOWN_PROBE_INTERVAL, from_millis in *; lia)).
    rewrite bool_decide_true by lia. simpl. split; [done|]. split; [done|]. exists now. split; [done|lia].
Qed.

Lemma seen_prefix id p e rest :
  in_order (p ++ e :: rest) → seen p (event_time e) (run_probe p (new id)).
Proof.
  unfold in_order. rewrite fmap_app, fmap_cons. intros (Hle & Ho & _)%StronglySorted_app.
  apply seen_run; [done|]. intros e' He. apply Hle; [|by left].
  apply list_elem_of_fmap. eauto.
Qed.

Lemma seen_probe_ok es t rt : seen es t rt → probe_ok (shutdown_probe rt).
Proof. intros (_ & _ & _ & _ & Hp) Hpend. destruct (Hp Hpend) as (? & s & ? & _ & _ & -> & _). eauto. Qed.

(** An access leaves a started probe behind. *)
Lemma access_started rt now :
  runtime_stopped rt = false → probe_ok (shutdown_probe rt) →
  (∀ s, last_started (shutdown_probe rt) = Some s → (s ≤ now)%Z) →
  let rt' := snd (should_handoff_at now rt) in
  runtime_stopped rt' = false ∧ ∃ s, last_started (shutdown_probe rt') = Some s ∧ (s ≤ now)%Z.
Proof.
  intros Hst Hok Hlast. unfold should_handoff_at, probe_verdict. rewrite Hst.
  destruct (pending (shutdown_probe rt)) eqn:Hp.
  - destruct (Hok Hp) as [s Hs].
    destruct (is_due _ now); (split; [done|]); exists s; (split; [done|by apply Hlast]).
  - destruct (is_due _ now) eqn:Hd; (split; [done|]); [by exists now; simpl|]. simpl.
    unfold is_due in Hd. destruct (last_started _) as [s|]; [|done].
    exists s. split; [done|by apply Hlast].
Qed.

(** Two unanswered accesses the probe interval apart leave a pending probe. *)
Lemma silence_pends id es1 s1 es2 s2 rest :
  in_order (es1 ++ Access s1 :: es2 ++ Access s2 :: rest) → Forall is_access es2 →
  (s1 + SHUTDOWN_PROBE_INTERVAL ≤ s2)%Z →
  let rt := run_probe (es1 ++ Access s1 :: es2 ++ [Access s2]) (new id) in
  runtime_stopped rt = false ∧ pending (shutdown_probe rt) = true ∧
  ∃ s, last_started (shutdown_probe rt) = Some s ∧ (s ≤ s2)%Z.
Proof.
  intros Ho Hall Hle.
  pose proof (seen_prefix id es1 _ _ Ho) as Hseen1.
  destruct (access_started _ s1 (proj1 Hseen1) (seen_probe_ok _ _ _ Hseen1)
    (proj1 (proj2 (proj2 Hseen1)))) as (Hst1 & s & Hs & Hss1).
  destruct (waiting_kept es2 _ s1 Hst1 (or_intror (ex_intro _ s (conj Hs Hss1))) Hall) as [Hst2 Hw].
  change (Access s1 :: es2 ++ Access s2 :: rest) with ([Access s1] ++ es2 ++ Access s2 :: rest) in Ho.
  rewrite !app_assoc in Ho. pose proof (seen_prefix id _ _ _ Ho) as Hseen2.
  change (Access s1 :: es2 ++ [Access s2]) with ([Access s1] ++ es2 ++ [Access s2]).
  rewrite !app_assoc, run_probe_app. rewrite !run_probe_app in Hseen2 |- *.
  apply (access_pends _ s1); [done|done|done|apply Hseen2|by eapply seen_probe_ok].
Qed.

End facts.
End ProbeFacts.

(** ** Lemmas: the manager *)

Module ManagerFacts.
Import Manager.
Section facts.
Context `{UrlApi, TaskApi, SdkTypes, TlsApi}.
Context (finished : AbortHandle → bool).
Implicit Types (m : DiscoveryManager) (now : Z) (id : RuntimeId) (r owner : nat).

(** The registered runtime is the newest one and runs, every pending probe has
    a start, and every loop but the active one was told to stop. *)
Record manager_ok m : Prop := {
  ok_registered : ∀ r, discovery_runtime m = Some r →
    S r = length (runtimes m) ∧ ∃ rt, runtimes m !! r = Some rt ∧ runtime_stopped rt = false;
  ok_probes : Forall (λ rt, ProbeFacts.probe_ok (shutdown_probe rt)) (runtimes m);
  ok_loops : ∀ h, h ∈ loops m → h ∈ aborts m ∨ active_task m = Some h;
}.

Lemma lookup_on_runtime f r m i :
  runtimes (on_runtime f r m) !! i = if decide (i = r) then f <$> runtimes m !! i else runtimes m !! i.
Proof.
  simpl. rewrite list_lookup_alter. repeat case_decide; congruence.
Qed.

Lemma on_runtime_ok f r m :
  manager_ok m →
  (∀ rt, runtimes m !! r = Some rt → ProbeFacts.probe_ok (shutdown_probe rt) →
     ProbeFacts.probe_ok (shutdown_probe (f rt))) →
  (∀ rt, runtimes m !! r = Some rt → runtime_stopped rt = false → runtime_stopped (f rt) = false) →
  manager_ok (on_runtime f r m).
Proof.
  intros [Hreg Hpr Hl] Hf Hs. split.
  - intros i Hi. destruct (Hreg i Hi) as (Hlen & rt & Hrt & Hst).
    change (S i = length (alter f r (runtimes m)) ∧
      ∃ rt, runtimes (on_runtime f r m) !! i = Some rt ∧ runtime_stopped rt = false).
    rewrite length_alter, lookup_on_runtime. split; [done|].
    case_decide; subst; rewrite Hrt; simpl; eauto.
  - apply Forall_lookup. intros i rt. rewrite lookup_on_runtime. rewrite Forall_lookup in Hpr.
    case_decide; subst; [|by apply Hpr].
    intros (rt0 & Hrt & ->)%fmap_Some. eauto.
  - apply Hl.
Qed.

(** Operations that touch none of what [manager_ok] speaks about. *)
Lemma ok_frame m m' :
  runtimes m' = runtimes m → discovery_runtime m' = discovery_runtime m →
  active_task m' = active_task m → loops m' = loops m →
  (∀ h, h ∈ aborts m → h ∈ aborts m') →
  manager_ok m → manager_ok m'.
Proof.
  intros Hr Hd Ha Hl Hab [Hreg Hpr Hlo]. split; rewrite ?Hr, ?Hd, ?Ha, ?Hl; [done|done|].
  intros h Hh. destruct (Hlo h Hh); auto.
Qed.

Lemma guard_drop_ok r m : manager_ok m → manager_ok (guard_drop r m).
Proof.
  intros [Hreg Hpr Hl]. unfold guard_drop, clear_registration. split.
  - intros i. case_decide as Hd; [done|]. simpl in Hd. intros Hi. simpl in Hi.
    destruct (Hreg i Hi) as (Hlen & rt & Hrt & Hst).
    change (S i = length (alter Probe.set_stopped r (runtimes m)) ∧
      ∃ rt, runtimes (on_runtime Probe.set_stopped r m) !! i = Some rt ∧ runtime_stopped rt = false).
    rewrite length_alter, lookup_on_runtime, decide_False by congruence. eauto.
  - assert (Forall (λ rt, ProbeFacts.probe_ok (shutdown_probe rt))
      (runtimes (on_runtime Probe.set_stopped r m))) as Hf.
    { apply Forall_lookup. intros i rt. rewrite lookup_on_runtime. rewrite Forall_lookup in Hpr.
      case_decide; [|by apply Hpr]. intros (rt0 & Hrt & ->)%fmap_Some. exact (Hpr _ _ Hrt). }
    by case_decide.
  - by case_decide.
Qed.

(** Starting a loop, as long as the task set is open. *)
Lemma start_discovery_open id now m :
  Tasks.is_stopped (manager_tasks m) = false →
  let m' := start_discovery id now m in
  ∃ h, fst (spawn_on (tasks (manager_tasks m))) = h ∧
    discovery_runtime m' = Some (length (runtimes m)) ∧
    runtimes m' = runtimes m ++ [Probe.new id] ∧
    active_task m' = Some h ∧ affinity_task m' = None ∧ loops m' = loops m ++ [h] ∧
    aborts m' = aborts m ++ option_list (active_task m) ++ option_list (affinity_task m).
Proof.
  intros Hopen. unfold start_discovery, spawn_loop, abort_active, abort_affinity, mark_activity. simpl.
  unfold Tasks.spawn. simpl. rewrite Hopen. destruct (spawn_on _) as [h t]. simpl.
  exists h. by rewrite app_assoc.
Qed.

Lemma register_runtime_ok id m :
  manager_ok m → active_task m = None → loops m ⊆ aborts m → manager_ok (register_runtime id m).
Proof.
  intros Hok Ha Hab. split; simpl.
  - intros r [= <-]. rewrite length_app. simpl. split; [lia|].
    exists (Probe.new id). by rewrite lookup_app_r, Nat.sub_diag by lia.
  - apply Forall_app. split; [apply Hok|]. by repeat constructor.
  - intros h Hh. left. by apply Hab.
Qed.

Lemma abort_both_ok m :
  manager_ok m → let m' := abort_affinity (abort_active m) in
  manager_ok m' ∧ active_task m' = None ∧ loops m' ⊆ aborts m'.
Proof.
  intros Hok. assert (Hab : ∀ h, h ∈ loops m →
    h ∈ (aborts m ++ option_list (active_task m)) ++ option_list (affinity_task m)).
  { intros h Hh. destruct (ok_loops m Hok h Hh) as [|Ha]; [set_solver|]. rewrite Ha. set_solver. }
  split; [|by split].
  split; [apply Hok..|]. intros h Hh. left. by apply Hab.
Qed.

Lemma mark_activity_ok now m : manager_ok m → manager_ok (mark_activity now m).
Proof. by apply ok_frame. Qed.

Lemma set_active_ok m h :
  manager_ok m → active_task m = None → manager_ok (set_active_task (Some h) (record_loop h m)).
Proof.
  intros [Hreg Hpr Hl] Ha. split; simpl; [done|done|].
  intros h' [Hh| ->%list_elem_of_singleton]%elem_of_app; [|by right].
  destruct (Hl h' Hh); [by left|congruence].
Qed.

Lemma set_active_none_ok m :
  manager_ok m → active_task m = None → manager_ok (set_active_task None m).
Proof. intros Hok Ha. by apply (ok_frame m). Qed.

Lemma set_tasks_ok t m : manager_ok m → manager_ok (set_tasks t m).
Proof. by apply ok_frame. Qed.

Lemma guard_drop_active r m : active_task (guard_drop r m) = active_task m.
Proof. unfold guard_drop, clear_registration. by case_decide. Qed.

Lemma spawn_loop_ok r m : manager_ok m → active_task m = None → manager_ok (spawn_loop r m).
Proof.
  intros Hok Ha. unfold spawn_loop. destruct (Tasks.spawn (manager_tasks m)) as [[h|] t].
  - by apply set_active_ok; [apply set_tasks_ok|].
  - apply set_active_none_ok; [by apply guard_drop_ok, set_tasks_ok|].
    by rewrite guard_drop_active.
Qed.

Lemma start_discovery_ok id now m : manager_ok m → manager_ok (start_discovery id now m).
Proof.
  intros (Hok & Ha & Hab)%abort_both_ok. apply spawn_loop_ok; [|done].
  by apply mark_activity_ok, register_runtime_ok.
Qed.

(** ** What an access leaves alone *)

Record same_owner m m' : Prop := {
  same_registered : discovery_runtime m' = discovery_runtime m;
  same_length : length (runtimes m') = length (runtimes m);
  same_active : active_task m' = active_task m;
  same_affinity : affinity_task m' = affinity_task m;
  same_loops : loops m' = loops m;
  same_aborts : aborts m' = aborts m;
}.

#[export] Instance same_owner_preorder : PreOrder same_owner.
Proof.
  split; [by intros m|]. intros m1 m2 m3 [] []. split; by etrans.
Qed.

Lemma same_on_runtime f r m : same_owner m (on_runtime f r m).
Proof. split; try done. apply length_alter. Qed.

Lemma arrange_recheck_spec owner rt m :
  manager_ok m → runtimes m !! owner = Some rt →
  ∃ m', arrange_recheck finished owner (shutdown_probe rt) m = Some m' ∧
    manager_ok m' ∧ same_owner m m'.
Proof.
  intros Hok Hrt. unfold arrange_recheck.
  assert (Hid : ∃ m', Some m = Some m' ∧ manager_ok m' ∧ same_owner m m').
  { exists m. split_and!; [done|done|reflexivity]. }
  destruct (pending (shutdown_probe rt)) eqn:Hp; simpl; [|exact Hid].
  destruct (from_option _ _ _); [exact Hid|].
  pose proof (ok_probes m Hok) as Hpr. rewrite Forall_lookup in Hpr.
  destruct (Hpr _ _ Hrt Hp) as [s Hs]. rewrite Hs. simpl.
  destruct (Tasks.spawn _) as [task t]. eexists. split; [done|]. split.
  - apply on_runtime_ok; [by apply set_tasks_ok|by intros ????; eexists|done].
  - trans (set_tasks t m); [by split|apply same_on_runtime].
Qed.

Lemma retain_spec owner rt id now m :
  manager_ok m → runtimes m !! owner = Some rt →
  let kept := bool_decide (runtime_id rt = id) || negb (fst (Probe.should_handoff_at now rt)) in
  ∃ m', retain_discovery_owner finished owner id now m = Some (kept, m') ∧
    manager_ok m' ∧ same_owner m m' ∧
    (kept = false → manager_tasks m' = manager_tasks m ∧
       runtimes m' !! owner = Some (snd (Probe.should_handoff_at now rt))).
Proof.
  intros Hok Hrt. unfold retain_discovery_owner. rewrite Hrt. simpl.
  case_decide as Hid.
  { exists m. rewrite bool_decide_true by done. by split_and!. }
  rewrite bool_decide_false by done. simpl.
  pose proof (ProbeFacts.should_handoff_ok now rt) as Hpo.
  pose proof (ProbeFacts.should_handoff_stopped now rt) as Hso.
  destruct (Probe.should_handoff_at now rt) as [h rt'] eqn:Hsh. simpl in *.
  assert (Hok' : manager_ok (on_runtime (λ _, rt') owner m)).
  { apply on_runtime_ok; [done|..]; intros rt0 Hrt0; simplify_eq; [done|by rewrite Hso]. }
  assert (Hl : runtimes (on_runtime (λ _, rt') owner m) !! owner = Some rt').
  { by rewrite lookup_on_runtime, decide_True, Hrt by done. }
  destruct h; simpl.
  - eexists. split; [done|]. split; [done|]. split; [apply same_on_runtime|done].
  - destruct (arrange_recheck_spec owner rt' _ Hok' Hl) as (m' & -> & Hok'' & Hsame).
    exists m'. split; [done|]. split; [done|]. split; [|done].
    etrans; [apply same_on_runtime|done].
Qed.

Lemma ensure_locked_spec id now m :
  manager_ok m →
  ∃ m', ensure_locked finished id now m = Some m' ∧ manager_ok m' ∧
    if keeps_owner id now m then same_owner m m'
    else ∃ m1, same_owner m m1 ∧ manager_tasks m1 = manager_tasks m ∧ manager_ok m1 ∧
           m' = start_discovery id now m1.
Proof.
  intros Hok. unfold ensure_locked, keeps_owner.
  destruct (discovery_runtime m) as [r|] eqn:Hr; simpl.
  - destruct (ok_registered m Hok r Hr) as (_ & rt & Hrt & _). rewrite Hrt.
    destruct (retain_spec r rt id now m Hok Hrt) as (m1 & -> & Hok1 & Hsame & Hk). simpl.
    destruct (_ || _); eexists; (split; [done|]); [by split|].
    split; [by apply start_discovery_ok|]. exists m1. split_and!; [done|by apply Hk|done|done].
  - eexists. split; [done|]. split; [by apply start_discovery_ok|]. by exists m.
Qed.

Lemma ensure_spec id now m :
  manager_ok m → Tasks.is_stopped (manager_tasks m) = false →
  ∃ m', ensure_discovery_started finished (Some id) now m = Some m' ∧ manager_ok m' ∧
    if keeps_owner id now m then same_owner m m'
    else ∃ m1, same_owner m m1 ∧ manager_tasks m1 = manager_tasks m ∧ manager_ok m1 ∧
           m' = start_discovery id now m1.
Proof.
  intros Hok Hopen. unfold ensure_discovery_started. rewrite Hopen.
  destruct (discovery_runtime m) as [r|] eqn:Hr; [|by apply ensure_locked_spec].
  destruct (ok_registered m Hok r Hr) as (_ & rt & Hrt & _).
  destruct (retain_spec r rt id now m Hok Hrt) as (m1 & Hret & Hok1 & Hsame & Hk).
  unfold keeps_owner. rewrite Hr. simpl. rewrite Hrt, Hret. simpl.
  destruct (_ || _) eqn:Hkept; [by exists m1|]. destruct (Hk eq_refl) as [Ht Hrt1].
  destruct (ensure_locked_spec id now m1 Hok1) as (m' & -> & Hok' & Hm').
  exists m'. split; [done|]. split; [done|].
  unfold keeps_owner in Hm'. rewrite (same_registered _ _ Hsame), Hr in Hm'. simpl in Hm'.
  rewrite Hrt1 in Hm'. apply orb_false_iff in Hkept as [Hid Hh].
  rewrite ProbeFacts.should_handoff_id, Hid in Hm'.
  apply negb_false_iff in Hh. destruct (Probe.should_handoff_at now rt) as [h rt'] eqn:Hsh.
  simpl in *. subst h. rewrite (ProbeFacts.handoff_again _ _ _ Hsh) in Hm'. simpl in Hm'.
  destruct Hm' as (m2 & Hs2 & Ht2 & Hok2 & ->). exists m2.
  split; [by etrans|]. split; [by etrans|done].
Qed.

Lemma ensure_ok current now m :
  manager_ok m → ∃ m', ensure_discovery_started finished current now m = Some m' ∧ manager_ok m'.
Proof.
  intros Hok. destruct (Tasks.is_stopped (manager_tasks m)) eqn:Hst.
  { exists m. unfold ensure_discovery_started. by rewrite Hst. }
  destruct current as [id|].
  - destruct (ensure_spec id now m Hok Hst) as (m' & ? & ? & _). eauto.
  - exists m. unfold ensure_discovery_started. by rewrite Hst.
Qed.

Lemma poll_loop_ok r m : manager_ok m → manager_ok (poll_loop r m).
Proof.
  intros Hok. unfold poll_loop. destruct (runtimes m !! r) as [rt|] eqn:Hr; [|done].
  unfold Probe.poll_with_probes. destruct (probe_requested rt); simpl.
  - apply (ok_frame (on_runtime (λ _, Probe.set_handoff false
      (Probe.set_probe (mkProbe _ (last_started (shutdown_probe rt)) false None)
         (Probe.set_requested false rt))) r m)); [done..|set_solver|].
    apply on_runtime_ok; [done|done|]. intros rt' Hr'. by simplify_eq.
  - apply (ok_frame (on_runtime (λ _, rt) r m)); [done..|set_solver|].
    apply on_runtime_ok; [done|by intros ??; simplify_eq|by intros ??; simplify_eq].
Qed.

Lemma affinity_ok r m : manager_ok m → manager_ok (snd (start_affinity_refresh finished r m)).
Proof.
  intros Hok. unfold start_affinity_refresh. destruct (affinity_nodes m); [|done].
  case_decide; [done|]. destruct (from_option _ _ _); [done|].
  destruct (Tasks.spawn _) as [task t]. by apply (ok_frame m).
Qed.

Lemma event_ok e m : manager_ok m → ∃ m', manager_event finished m e = Some m' ∧ manager_ok m'.
Proof.
  intros Hok. destruct e; simpl.
  - by apply ensure_ok.
  - destruct (ensure_locked_spec id now m Hok) as (m' & ? & ? & _). eauto.
  - unfold access. destruct (ensure_ok current now m Hok) as (m' & -> & Hok').
    eexists. split; [done|]. by apply mark_activity_ok.
  - case_decide as Hlt; [|by eauto]. apply lookup_lt_is_Some in Hlt as [rt Hrt].
    unfold recheck. rewrite Hrt. simpl. destruct (_ && _); [by apply ensure_ok|by eauto].
  - eexists. split; [done|]. by apply poll_loop_ok.
  - eexists. split; [done|]. by apply guard_drop_ok.
  - eexists. split; [done|]. by apply affinity_ok.
  - eexists. split; [done|]. by apply set_tasks_ok.
Qed.

Lemma run_ok es m : manager_ok m → ∃ m', run_manager finished es m = Some m' ∧ manager_ok m'.
Proof.
  unfold run_manager. revert m. induction es as [|e es IH] using rev_ind; intros m Hok.
  { by exists m. }
  destruct (IH m Hok) as (m' & Hm' & Hok'). rewrite foldl_app, Hm'. simpl. by apply event_ok.
Qed.

Lemma unstarted_ok m : unstarted m → manager_ok m.
Proof.
  intros (Hd & Hr & Ha & _ & Hl & _). split; rewrite ?Hd, ?Hr, ?Ha, ?Hl; [done|done|].
  intros h Hh. set_solver.
Qed.

End facts.
End ManagerFacts.

(** ** Properties *)

Section probe_properties.
Context `{TaskApi}.
Import Probe.

(** C23: discovery is handed over exactly to silence.  If an access from another
    runtime is told to take over, then an earlier access at least the probe
    interval ago was answered by no poll of the owner; and if two accesses the
    interval apart were answered by none, then an access the interval later is
    told to take over. *)
Theorem handoff_needs_silence (id : RuntimeId) (es : list ProbeEvent) (now : Z) :
  in_order (es ++ [Access now]) →
  (fst (should_handoff_at now (run_probe es (new id))) = true →
   ∃ es1 s es2, es = es1 ++ Access s :: es2 ∧ Forall is_access es2 ∧
     (s + SHUTDOWN_PROBE_INTERVAL ≤ now)%Z) ∧
  (∀ es1 s1 es2 s2 es3,
     es = es1 ++ Access s1 :: es2 ++ Access s2 :: es3 → Forall is_access es2 → Forall is_access es3 →
     (s1 + SHUTDOWN_PROBE_INTERVAL ≤ s2)%Z → (s2 + SHUTDOWN_PROBE_INTERVAL ≤ now)%Z →
     fst (should_handoff_at now (run_probe es (new id))) = true).
Proof.
  intros Ho. unfold in_order in Ho. rewrite fmap_app in Ho.
  apply StronglySorted_app in Ho as (Hle & Ho & _). split.
  - destruct (ProbeFacts.seen_run id es now Ho) as (Hst & _ & Hlast & Hh & Hp).
    { intros e He. apply Hle; [apply list_elem_of_fmap; eauto|by left]. }
    unfold should_handoff_at, probe_verdict. rewrite Hst.
    destruct (pending _) eqn:Hpend; [|by destruct (is_due _ now)].
    destruct (Hp eq_refl) as (es1 & s & es2 & -> & Hall & Hs & Hd).
    rewrite (ProbeFacts.is_due_started _ s) by (done || by apply Hlast).
    case_bool_decide; simpl; [eauto 10|]. intros Hr. specialize (Hd Hr). lia.
  - intros es1 s1 es2 s2 es3 -> H2 H3 Hs12 Hs2.
    destruct (ProbeFacts.silence_pends id es1 s1 es2 s2 es3 Ho H2 Hs12) as (Hst & Hp & s & Hs & Hle2).
    change (Access s1 :: es2 ++ Access s2 :: es3) with (Access s1 :: es2 ++ [Access s2] ++ es3).
    rewrite (app_assoc es2), app_comm_cons, app_assoc, ProbeFacts.run_probe_app.
    destruct (ProbeFacts.pending_kept es3 _ s Hst Hp Hs H3) as (Hst' & Hp' & Hs').
    apply (ProbeFacts.verdict_pending _ s); [done..|lia].
Qed.

End probe_properties.

Section manager_properties.
Context `{UrlApi, TaskApi, SdkTypes, TlsApi}.
Import Manager ManagerFacts.

(** A client has one discovery loop.  Whatever the order in which callers on
    any runtimes access it, take it over, recheck it and stop it, in which loops
    are polled and exit and affinity refreshes start, nothing panics, every loop
    ever started but the registered one was told to abort, and the registered
    owner is the newest one and has not exited. *)
Theorem one_discovery_loop (finished : AbortHandle → bool) (es : list ManagerEvent)
    (m : DiscoveryManager) :
  unstarted m →
  ∃ m', run_manager finished es m = Some m' ∧
    (∀ h, h ∈ loops m' → h ∉ aborts m' → active_task m' = Some h) ∧
    (∀ r, discovery_runtime m' = Some r → S r = length (runtimes m') ∧
       ∃ rt, runtimes m' !! r = Some rt ∧ runtime_stopped rt = false).
Proof.
  intros Hm%unstarted_ok. destruct (run_ok finished es m Hm) as (m' & Hr & [Hreg _ Hl]).
  exists m'. split; [done|]. split; [|done].
  intros h Hh Hab. by destruct (Hl h Hh).
Qed.

(** C25: an access from the runtime [id] starts or takes over discovery exactly
    when there is no owner to keep: no registered one, or one on another runtime
    that stopped or left its probe unanswered.  Then the old loop and the
    affinity task are told to abort and one new loop runs, registered for [id];
    otherwise the owner, the loops and the aborts are as before. *)
Theorem access_takes_over_exactly (finished : AbortHandle → bool) (es : list ManagerEvent)
    (m0 m : DiscoveryManager) (id : RuntimeId) (now : Z) :
  unstarted m0 → run_manager finished es m0 = Some m →
  Tasks.is_stopped (manager_tasks m) = false →
  ∃ m', ensure_discovery_started finished (Some id) now m = Some m' ∧
    if keeps_owner id now m then
      discovery_runtime m' = discovery_runtime m ∧ loops m' = loops m ∧ aborts m' = aborts m
    else ∃ h,
      discovery_runtime m' = Some (length (runtimes m)) ∧
      runtimes m' !! length (runtimes m) = Some (Probe.new id) ∧
      active_task m' = Some h ∧ loops m' = loops m ++ [h] ∧
      aborts m' = aborts m ++ option_list (active_task m) ++ option_list (affinity_task m).
Proof.
  intros Hm0%unstarted_ok Hrun Hopen.
  destruct (run_ok finished es m0 Hm0) as (m1 & Hr & Hok). rewrite Hrun in Hr. simplify_eq.
  destruct (ensure_spec finished id now m1 Hok Hopen) as (m' & He & _ & Hm'). exists m'. split; [done|].
  destruct (keeps_owner id now m1); [by destruct Hm'|].
  destruct Hm' as (m2 & [Hd Hlen Ha Haf Hl Hab] & Ht & _ & ->). rewrite <-Ht in Hopen.
  destruct (start_discovery_open id now m2 Hopen) as (h & _ & Hd' & Hr' & Ha' & _ & Hl' & Hab').
  exists h. rewrite Hd', Hr', Ha', Hl', Hab', Hlen, Ha, Haf, Hl, Hab. split_and!; try done.
  by rewrite <-Hlen, lookup_app_r, Nat.sub_diag by lia.
Qed.

End manager_properties.

(** ** Witnesses *)

Section witnesses.
Import Probe Manager.
#[local] Existing Instances StrUrl.api ListTasks.api ListSdk.types.
#[local] Instance tls0 : TlsApi := ListTls.api (["root"], []).

(** A manager of one seed host that nobody has used yet. *)
Definition idle_manager : DiscoveryManager :=
  mkManager _ _ _ _ Tasks.default_tasks (View.new Scope.from_cluster ["http://node1:8000/"])
    (mkInputs _ None ["http://node1:8000/"] "http" (Some 8000%Z)) (Reqwest (["root"], 0%Z, 0%Z))
    true None (from_secs 1) (from_secs 60) 0 false None None [] None [] [].
Definition unfinished : AbortHandle → bool := λ _, false.

(** Runtime 1 starts discovery and is never polled; runtime 2 probes it. *)
Definition silent_history : list ManagerEvent :=
  [EvEnsure (Some 1) 0; EvAccess (Some 2) (from_secs 1)].
Definition probed_manager : DiscoveryManager :=
  default idle_manager (run_manager unfinished silent_history idle_manager).

Lemma probed_run : run_manager unfinished silent_history idle_manager = Some probed_manager.
Proof.
  unfold probed_manager.
  destruct (ManagerFacts.run_ok unfinished silent_history idle_manager) as (m & -> & _); [|done].
  by apply ManagerFacts.unstarted_ok.
Qed.

Example handed_over :
  (λ m, (discovery_runtime m, loops m, aborts m)) <$>
    ensure_discovery_started unfinished (Some 2) (from_secs 2) probed_manager =
  Some (Some 1, [0; 2], [0]).
Proof. vm_refl. Qed.

Definition one_answer : list ProbeEvent :=
  [Access 0; Poll (from_millis 100); Access (from_millis 300)].

Lemma handoff_needs_silence_witness :
  fst (should_handoff_at (from_millis 400) (run_probe one_answer (new 1))) = false ∧
  fst (should_handoff_at (from_millis 550)
    (run_probe [Access 0%Z; Access (from_millis 300)] (new 1))) = true.
Proof.
  split; [vm_refl|].
  apply (handoff_needs_silence 1 [Access 0%Z; Access (from_millis 300)] (from_millis 550))
    with (es1 := []) (s1 := 0%Z) (es2 := []) (s2 := from_millis 300) (es3 := []);
    [|done|constructor|constructor|by vm_compute|by vm_compute].
  repeat (constructor; try done).
Defined.

Lemma one_discovery_loop_witness :
  ∃ m', run_manager unfinished silent_history idle_manager = Some m' ∧
    (∀ h, h ∈ loops m' → h ∉ aborts m' → active_task m' = Some h) ∧
    (∀ r, discovery_runtime m' = Some r → S r = length (runtimes m') ∧
       ∃ rt, runtimes m' !! r = Some rt ∧ runtime_stopped rt = false).
Proof. by apply (one_discovery_loop unfinished silent_history idle_manager). Defined.

Lemma access_takes_over_exactly_witness :
  ∃ m', ensure_discovery_started unfinished (Some 2) (from_secs 2) probed_manager = Some m' ∧
    if keeps_owner 2 (from_secs 2) probed_manager then
      discovery_runtime m' = discovery_runtime probed_manager ∧
      loops m' = loops probed_manager ∧ aborts m' = aborts probed_manager
    else ∃ h,
      discovery_runtime m' = Some (length (runtimes probed_manager)) ∧
      runtimes m' !! length (runtimes probed_manager) = Some (Probe.new 2) ∧
      active_task m' = Some h ∧ loops m' = loops probed_manager ++ [h] ∧
      aborts m' = aborts probed_manager ++ option_list (active_task probed_manager) ++
        option_list (affinity_task probed_manager).
Proof.
  apply (access_takes_over_exactly unfinished silent_history idle_manager probed_manager);
    [done|exact probed_run|vm_refl].
Defined.

End witnesses.
