(* ===== verification/DiscoveryInterleaving.v ===== *)
(** * Concurrent callers of discovery ([ensure_discovery_started] and
      [retain_discovery_owner] in [src/src/live_nodes.rs])

    [DiscoveryOwner] runs an access in one step, apart from what it does before
    and after waiting for the start/transfer mutex.  Here every access is a call
    with a program counter that advances by one atomic action at a time: one
    load or store of the registered owner, one critical section of a probe, one
    spawn.  Any number of calls advance in any order, between them the discovery
    loops are polled and exit, affinity refreshes start, and the client is
    stopped.

    The theorems: under every such schedule nothing panics and at most one
    discovery loop was not told to abort, which is the active one whenever the
    mutex is free; a call that nobody disturbs does exactly what [DiscoveryOwner]
    says; and no schedule blocks: whoever steps its calls again and again sees
    all of them return, within a bound on the work left. *)

From S2P Require Import Prelude UrlApi NodeUrl RoutingScope LiveNodes Refresh DiscoveryTasks.
From S2P Require Import Http Classifier OptimizeHeaders Compression Interceptors Sdk Config.
From S2P Require Import DiscoveryHttp DiscoveryOwner.

(** Where a call of [ensure_discovery_started] is, once it has a runtime handle.
    [locked] says on which side of the mutex the owner is examined; the probe is
    asked with the instant [at_time] that was read before the owner's [stopped]
    flag. *)
Inductive Stage `{TaskApi} : Type :=
| Load (locked : bool)
| Examine (locked : bool) (owner : nat)
| AskProbe (locked : bool) (owner : nat) (at_time : Z)
| ArrangeRecheck (locked : bool) (owner : nat)
| WaitLock
| AbortActive
| AbortAffinity
| RegisterRuntime
| MarkActivity (runtime : nat)
| SpawnLoop (runtime : nat)
| DropStop (runtime : nat)
| DropClear (runtime : nat)
| StoreTask (task : option AbortHandle)
| Unlock.

(** Where a call is: the body of a recheck task before it accesses discovery,
    the access itself, and the [mark_activity] of a handle's [access]. *)
Inductive Pc `{TaskApi} : Type :=
| RecheckPending (owner : nat)
| RecheckLoad (owner : nat)
| Enter
| Body (id : RuntimeId) (stage : Stage)
| MarkAccess
| Returned.

(** A call: the runtime of its thread, if any, and whether it is the access of a
    handle. *)
Record Call `{TaskApi} := mkCall {
  call_runtime : option RuntimeId;
  call_marks : bool;
  call_pc : Pc;
}.

(** The manager with the calls in progress; [lock] is the call that holds the
    start/transfer mutex. *)
Record Machine `{UrlApi, TaskApi, SdkTypes, TlsApi} := mkMachine {
  manager : DiscoveryManager;
  lock : option nat;
  calls : list Call;
}.

(** What happens: a call advances; a new call begins, on its own or as the
    body of a recheck task; and what goes on around the calls. *)
Inductive MachineEvent : Type :=
| Step (i : nat) (now : Z)
| Begin (current : option RuntimeId) (marks : bool)
| BeginRecheck (owner : nat) (current : option RuntimeId)
| LoopPolled (r : nat)
| LoopStopped (r : nat)
| LoopCleared (r : nat)
| AffinityRefresh (r : nat)
| ClientStopped.

Module Interleaving.
Import Manager.
Section interleaving.
Context `{UrlApi, TaskApi, SdkTypes, TlsApi}.
Context (finished : AbortHandle → bool).
Implicit Types (m : DiscoveryManager) (s : Machine) (c : Call) (now : Z) (i : nat).

(** The end of [ensure_discovery_started]. *)
Definition leave (marks : bool) : Pc := if marks then MarkAccess else Returned.

(** What follows a verdict of [retain_discovery_owner], on either side of the
    mutex. *)
Definition retained (marks locked : bool) (id : RuntimeId) : Pc :=
  if locked then Body id Unlock else leave marks.
Definition not_retained (locked : bool) (id : RuntimeId) : Pc :=
  Body id (if locked then AbortActive else WaitLock).

(** One atomic action of a body that does not touch the mutex; [None] is a
    panic. *)
Definition stage_step now (marks : bool) (id : RuntimeId) (stage : Stage) m
    : option (Pc * DiscoveryManager) :=
  match stage with
  | Load locked =>
      Some (match discovery_runtime m with
            | Some owner => Body id (Examine locked owner)
            | None => not_retained locked id
            end, m)
  | Examine locked owner =>
      rt ← runtimes m !! owner;
      Some (if decide (runtime_id rt = id) then retained marks locked id
            else if runtime_stopped rt then not_retained locked id
            else Body id (AskProbe locked owner now), m)
  | AskProbe locked owner at_time =>
      rt ← runtimes m !! owner;
      let '(handoff, rt) := Probe.probe_verdict at_time rt in
      Some (if handoff : bool then not_retained locked id else Body id (ArrangeRecheck locked owner),
            on_runtime (λ _, rt) owner m)
  | ArrangeRecheck locked owner =>
      rt ← runtimes m !! owner;
      m ← arrange_recheck finished owner (shutdown_probe rt) m;
      Some (retained marks locked id, m)
  | AbortActive => Some (Body id AbortAffinity, abort_active m)
  | AbortAffinity => Some (Body id RegisterRuntime, abort_affinity m)
  | RegisterRuntime =>
      Some (Body id (MarkActivity (length (runtimes m))), register_runtime id m)
  | MarkActivity runtime => Some (Body id (SpawnLoop runtime), mark_activity now m)
  | SpawnLoop runtime =>
      let '(task, t) := Tasks.spawn (manager_tasks m) in
      Some (match task with
            | Some h => (Body id (StoreTask (Some h)), record_loop h (set_tasks t m))
            | None => (Body id (DropStop runtime), set_tasks t m)
            end)
  | DropStop runtime =>
      Some (Body id (DropClear runtime), on_runtime Probe.set_stopped runtime m)
  | DropClear runtime => Some (Body id (StoreTask None), clear_registration runtime m)
  | StoreTask task => Some (Body id Unlock, set_active_task task m)
  | WaitLock | Unlock => Some (Body id stage, m)
  end.

(** One atomic action of a call that does not touch the mutex. *)
Definition pc_step now c m : option (Pc * DiscoveryManager) :=
  match call_pc c with
  | RecheckPending owner =>
      rt ← runtimes m !! owner;
      Some (if pending (shutdown_probe rt) then RecheckLoad owner else Returned, m)
  | RecheckLoad owner =>
      Some (if from_option (λ active, bool_decide (active = owner)) true (discovery_runtime m)
            then Enter else Returned, m)
  | Enter =>
      Some (if Tasks.is_stopped (manager_tasks m) then leave (call_marks c)
            else from_option (λ id, Body id (Load false)) (leave (call_marks c)) (call_runtime c), m)
  | Body id stage => stage_step now (call_marks c) id stage m
  | MarkAccess => Some (Returned, mark_activity now m)
  | Returned => Some (Returned, m)
  end.

(** The call [i] goes to [pc]. *)
Definition goto i c (pc : Pc) s (l : option nat) m : Machine :=
  mkMachine _ _ _ _ m l (<[i := mkCall _ (call_runtime c) (call_marks c) pc]> (calls s)).

(** The call [i] advances; one that waits for a mutex that is held does not. *)
Definition step i now s : option Machine :=
  match calls s !! i with
  | None => Some s
  | Some c =>
      match call_pc c with
      | Body id WaitLock =>
          Some (match lock s with
                | None => goto i c (Body id (Load true)) s (Some i) (manager s)
                | Some _ => s
                end)
      | Body id Unlock => Some (goto i c (leave (call_marks c)) s None (manager s))
      | _ =>
          '(pc, m) ← pc_step now c (manager s);
          Some (goto i c pc s (lock s) m)
      end
  end.

Definition set_manager m s : Machine := mkMachine _ _ _ _ m (lock s) (calls s).
Definition begin_call c s : Machine :=
  mkMachine _ _ _ _ (manager s) (lock s) (calls s ++ [c]).

(** [start_affinity_refresh] runs under the mutex as well: while a call holds
    it, nothing happens. *)
Definition event (e : MachineEvent) s : option Machine :=
  match e with
  | Step i now => step i now s
  | Begin current marks => Some (begin_call (mkCall _ current marks Enter) s)
  | BeginRecheck owner current =>
      Some (if decide (owner < length (runtimes (manager s)))
            then begin_call (mkCall _ current false (RecheckPending owner)) s else s)
  | LoopPolled r => Some (set_manager (poll_loop r (manager s)) s)
  | LoopStopped r => Some (set_manager (on_runtime Probe.set_stopped r (manager s)) s)
  | LoopCleared r => Some (set_manager (clear_registration r (manager s)) s)
  | AffinityRefresh r =>
      Some (match lock s with
            | None => set_manager (snd (start_affinity_refresh finished r (manager s))) s
            | Some _ => s
            end)
  | ClientStopped =>
      Some (set_manager (set_tasks (Tasks.stop (manager_tasks (manager s))) (manager s)) s)
  end.
Definition run (es : list MachineEvent) s : option Machine :=
  foldl (λ o e, s ← o; event e s) (Some s) es.

(** What a call has done when nobody disturbed it. *)
Definition starts c : Prop :=
  call_pc c = Enter ∨ (∃ owner, call_pc c = RecheckPending owner) ∧ call_marks c = false.
Definition whole_call c now m : option DiscoveryManager :=
  match call_pc c with
  | RecheckPending owner => recheck finished owner (call_runtime c) now m
  | _ =>
      (if call_marks c then access else ensure_discovery_started) finished (call_runtime c) now m
  end.

(** The points between [lock] and the end of [ensure_discovery_started]. *)
Definition locked_stage (stage : Stage) : bool :=
  match stage with
  | Load locked | Examine locked _ | AskProbe locked _ _ | ArrangeRecheck locked _ => locked
  | WaitLock => false
  | _ => true
  end.
Definition locked_pc (pc : Pc) : bool :=
  match pc with Body _ stage => locked_stage stage | _ => false end.

(** A machine nobody has used yet. *)
Definition initial m : Machine := mkMachine _ _ _ _ m None [].

(** ** The work left *)

Definition stage_work (stage : Stage) : nat :=
  match stage with
  | Load false => 19 | Examine false _ => 18 | AskProbe false _ _ => 17
  | ArrangeRecheck false _ => 16
  | WaitLock => 15
  | Load true => 14 | Examine true _ => 13 | AskProbe true _ _ => 12 | ArrangeRecheck true _ => 11
  | AbortActive => 10 | AbortAffinity => 9 | RegisterRuntime => 8 | MarkActivity _ => 7
  | SpawnLoop _ => 6 | DropStop _ => 5 | DropClear _ => 4 | StoreTask _ => 3 | Unlock => 2
  end.
Definition pc_work (pc : Pc) : nat :=
  match pc with
  | RecheckPending _ => 22
  | RecheckLoad _ => 21
  | Enter => 20
  | Body _ stage => stage_work stage
  | MarkAccess => 1
  | Returned => 0
  end.
Definition work s : nat := sum_list_with (λ c, pc_work (call_pc c)) (calls s).

(** A round steps every call of [n] at least once, in any order and with
    anything in between except new calls. *)
Definition is_step (i : nat) (e : MachineEvent) : Prop := ∃ now, e = Step i now.
Definition begins (e : MachineEvent) : bool :=
  match e with Begin _ _ | BeginRecheck _ _ => true | _ => false end.
Definition round (n : nat) (es : list MachineEvent) : Prop :=
  Forall (λ e, begins e = false) es ∧ ∀ i, i < n → Exists (is_step i) es.

(** One call that nobody disturbs, at one instant. *)
Definition alone (n i : nat) now : list MachineEvent := replicate n (Step i now).

End interleaving.
End Interleaving.

(** ** Lemmas: safety *)

Module InterleavingFacts.
Import Manager ManagerFacts Interleaving.
Section facts.
Context `{UrlApi, TaskApi, SdkTypes, TlsApi}.
Context (finished : AbortHandle → bool).
Implicit Types (m : DiscoveryManager) (s : Machine) (c : Call) (now : Z) (i : nat) (pc : Pc).

(** Whether a call at this point has emptied the slot of the active task, and
    which owner it is looking at. *)
Definition slot_taken pc : bool :=
  match pc with
  | Body _ (AbortAffinity | RegisterRuntime | MarkActivity _ | SpawnLoop _ | DropStop _ |
            DropClear _ | StoreTask _) => true
  | _ => false
  end.
Definition pc_owner pc : option nat :=
  match pc with
  | RecheckPending owner | Body _ (Examine _ owner | AskProbe _ owner _ | ArrangeRecheck _ owner) =>
      Some owner
  | _ => None
  end.

(** The loop that may run without having been told to stop. *)
Definition current_task pc m : option AbortHandle :=
  match pc with Body _ (StoreTask task) => task | _ => active_task m end.

(** The registered runtime is the newest one, and every pending probe has a
    start.  Unlike between whole accesses, it may already have stopped: its
    guard has two halves. *)
Record owner_ok m : Prop := {
  ow_registered : ∀ r, discovery_runtime m = Some r → S r = length (runtimes m);
  ow_probes : Forall (λ rt, ProbeFacts.probe_ok (shutdown_probe rt)) (runtimes m);
}.

(** Every loop but the current one was told to stop, as seen when the holder of
    the mutex is at [pc]. *)
Record loops_ok pc m : Prop := {
  lo_taken : slot_taken pc = true → active_task m = None;
  lo_loops : ∀ h, h ∈ loops m → h ∈ aborts m ∨ current_task pc m = Some h;
}.

Definition holder s : Pc := from_option call_pc Returned (lock s ≫= λ i, calls s !! i).

Record machine_ok s : Prop := {
  mo_owner : owner_ok (manager s);
  mo_loops : loops_ok (holder s) (manager s);
  mo_lock : ∀ i c, calls s !! i = Some c → locked_pc (call_pc c) = true ↔ lock s = Some i;
  mo_holder : ∀ i, lock s = Some i → i < length (calls s);
  mo_owners : ∀ i c owner, calls s !! i = Some c → pc_owner (call_pc c) = Some owner →
    owner < length (runtimes (manager s));
}.

(** *** Updates of the manager *)

Lemma owner_frame m m' :
  runtimes m' = runtimes m → discovery_runtime m' = discovery_runtime m → owner_ok m → owner_ok m'.
Proof. intros Hr Hd [Hreg Hp]. split; by rewrite ?Hr, ?Hd. Qed.

Lemma owner_on_runtime f r m :
  (∀ rt, runtimes m !! r = Some rt → ProbeFacts.probe_ok (shutdown_probe rt) →
     ProbeFacts.probe_ok (shutdown_probe (f rt))) →
  owner_ok m → owner_ok (on_runtime f r m).
Proof.
  intros Hf [Hreg Hp]. split; simpl; [by setoid_rewrite length_alter|].
  apply Forall_lookup. intros i rt. rewrite list_lookup_alter. rewrite Forall_lookup in Hp.
  case_decide; subst; [|by apply Hp]. intros (rt0 & Hrt & ->)%fmap_Some. eauto.
Qed.

Lemma owner_cleared r m : owner_ok m → owner_ok (clear_registration r m).
Proof. intros [Hreg Hp]. unfold clear_registration. by case_decide; split. Qed.

Lemma owner_register id m : owner_ok m → owner_ok (register_runtime id m).
Proof.
  intros [Hreg Hp]. split; simpl.
  - intros r [= <-]. rewrite length_app. simpl. lia.
  - apply Forall_app. split; [done|]. by repeat constructor.
Qed.

Lemma owner_recheck owner rt m :
  owner_ok m → runtimes m !! owner = Some rt →
  ∃ m', arrange_recheck finished owner (shutdown_probe rt) m = Some m' ∧ owner_ok m' ∧
    same_owner m m'.
Proof.
  intros Hok Hrt. unfold arrange_recheck.
  assert (Hid : ∃ m', Some m = Some m' ∧ owner_ok m' ∧ same_owner m m').
  { exists m. split_and!; [done|done|reflexivity]. }
  destruct (pending (shutdown_probe rt)) eqn:Hp; simpl; [|exact Hid].
  destruct (from_option _ _ _); [exact Hid|].
  pose proof (ow_probes m Hok) as Hpr. rewrite Forall_lookup in Hpr.
  destruct (Hpr _ _ Hrt Hp) as [s Hs]. rewrite Hs. simpl.
  destruct (Tasks.spawn _) as [task t]. eexists. split; [done|]. split.
  - apply owner_on_runtime; [by intros ????; eexists|]. by apply (owner_frame m).
  - trans (set_tasks t m); [by split|apply same_on_runtime].
Qed.

Lemma verdict_probe_ok now rt :
  ProbeFacts.probe_ok (shutdown_probe rt) →
  ProbeFacts.probe_ok (shutdown_probe (snd (Probe.probe_verdict now rt))).
Proof.
  intros Hok. unfold Probe.probe_verdict.
  destruct (pending (shutdown_probe rt)) eqn:Hp, (Probe.is_due (shutdown_probe rt) now); try done.
  by intros _; eexists.
Qed.

(** What the loops look like does not depend on the rest of the manager. *)
Lemma loops_frame pc pc' m m' :
  slot_taken pc' = slot_taken pc → current_task pc' m' = current_task pc m →
  active_task m' = active_task m → loops m' = loops m → aborts m ⊆ aborts m' →
  loops_ok pc m → loops_ok pc' m'.
Proof.
  intros Hs Hc Ha Hl Hab [Ht Hlo]. split; rewrite ?Hs, ?Ha, ?Hl, ?Hc; [done|].
  intros h Hh. destruct (Hlo h Hh); auto.
Qed.

Lemma loops_same pc m m' :
  active_task m' = active_task m → loops m' = loops m → aborts m ⊆ aborts m' →
  loops_ok pc m → loops_ok pc m'.
Proof.
  intros Ha. apply loops_frame; [done| |done]. by destruct pc as [| | |? []| |]; simpl; rewrite ?Ha.
Qed.

(** *** One action of a call *)

Record advanced pc m pc' m' : Prop := {
  ad_owner : owner_ok m';
  ad_grows : length (runtimes m) ≤ length (runtimes m');
  ad_pc_owner : ∀ owner, pc_owner pc' = Some owner → owner < length (runtimes m');
  ad_locked : locked_pc pc' = locked_pc pc;
  ad_held : loops_ok pc m → locked_pc pc = true → loops_ok pc' m';
  ad_free : locked_pc pc = false →
    active_task m' = active_task m ∧ loops m' = loops m ∧ aborts m' = aborts m;
}.

(** Actions that leave the loops alone. *)
Lemma advanced_quiet pc pc' m m' :
  owner_ok m' → active_task m' = active_task m → loops m' = loops m → aborts m' = aborts m →
  length (runtimes m') = length (runtimes m) →
  slot_taken pc' = slot_taken pc → current_task pc' m' = current_task pc m →
  locked_pc pc' = locked_pc pc →
  (∀ owner, pc_owner pc' = Some owner → owner < length (runtimes m)) →
  advanced pc m pc' m'.
Proof.
  intros Hok Ha Hl Hab Hlen Hs Hc Hlk Hown. split; rewrite ?Hlen; [done|lia|done|done| |done].
  intros Hlo _. apply (loops_frame pc pc' m m'); [done..|by rewrite Hab|done].
Qed.

Lemma advanced_same pc pc' m m' :
  owner_ok m' → same_owner m m' → slot_taken pc' = slot_taken pc →
  current_task pc' m' = current_task pc m → locked_pc pc' = locked_pc pc →
  (∀ owner, pc_owner pc' = Some owner → owner < length (runtimes m)) → advanced pc m pc' m'.
Proof. intros Hok []. by apply advanced_quiet. Qed.

Lemma advanced_refl pc pc' m :
  owner_ok m → slot_taken pc' = slot_taken pc → current_task pc' m = current_task pc m →
  locked_pc pc' = locked_pc pc →
  (∀ owner, pc_owner pc' = Some owner → owner < length (runtimes m)) → advanced pc m pc' m.
Proof. intros. by apply advanced_same. Qed.

(** Examining an owner, on either side of the mutex. *)
Lemma load_ok locked now marks id m :
  owner_ok m → ∃ pc' m', stage_step finished now marks id (Load locked) m = Some (pc', m') ∧
    advanced (Body id (Load locked)) m pc' m'.
Proof.
  intros Hok. eexists _, _. split; [done|]. unfold not_retained.
  destruct (discovery_runtime m) as [owner|] eqn:Hd; [|by destruct locked; apply advanced_refl].
  apply advanced_refl; [done..|]. intros ? [= <-]. pose proof (ow_registered m Hok owner Hd). lia.
Qed.

Lemma examine_ok locked owner now marks id m :
  owner_ok m → owner < length (runtimes m) →
  ∃ pc' m', stage_step finished now marks id (Examine locked owner) m = Some (pc', m') ∧
    advanced (Body id (Examine locked owner)) m pc' m'.
Proof.
  intros Hok Hlt. destruct (lookup_lt_is_Some_2 _ _ Hlt) as [rt Hrt]. simpl. rewrite Hrt. simpl.
  eexists _, _. split; [done|]. unfold not_retained, retained, leave.
  case_decide; [by destruct locked, marks; apply advanced_refl|].
  destruct (runtime_stopped rt); [by destruct locked; apply advanced_refl|].
  apply advanced_refl; [done..|]. by intros ? [= <-].
Qed.

Lemma ask_ok locked owner at_time now marks id m :
  owner_ok m → owner < length (runtimes m) →
  ∃ pc' m', stage_step finished now marks id (AskProbe locked owner at_time) m = Some (pc', m') ∧
    advanced (Body id (AskProbe locked owner at_time)) m pc' m'.
Proof.
  intros Hok Hlt. destruct (lookup_lt_is_Some_2 _ _ Hlt) as [rt Hrt]. simpl. rewrite Hrt. simpl.
  pose proof (verdict_probe_ok at_time rt) as Hp.
  destruct (Probe.probe_verdict at_time rt) as [handoff rt'] eqn:Hv. simpl in Hp.
  eexists _, _. split; [done|]. apply advanced_same.
  - apply owner_on_runtime; [|done]. intros rt0 Hrt0. rewrite Hrt in Hrt0. by injection Hrt0 as <-.
  - apply same_on_runtime.
  - by destruct handoff, locked.
  - by destruct handoff, locked.
  - by destruct handoff, locked.
  - destruct handoff; [by destruct locked|]. by intros ? [= <-].
Qed.

Lemma arrange_ok locked owner now marks id m :
  owner_ok m → owner < length (runtimes m) →
  ∃ pc' m', stage_step finished now marks id (ArrangeRecheck locked owner) m = Some (pc', m') ∧
    advanced (Body id (ArrangeRecheck locked owner)) m pc' m'.
Proof.
  intros Hok Hlt. destruct (lookup_lt_is_Some_2 _ _ Hlt) as [rt Hrt]. simpl. rewrite Hrt. simpl.
  destruct (owner_recheck owner rt m Hok Hrt) as (m' & -> & Hok' & Hsame). simpl.
  eexists _, _. split; [done|]. unfold retained, leave. pose proof (same_active _ _ Hsame) as Ha.
  by destruct locked, marks; apply advanced_same; rewrite ?Ha.
Qed.

(** The transfer, under the mutex. *)
Lemma abort_active_ok now marks id m :
  owner_ok m → ∃ pc' m', stage_step finished now marks id AbortActive m = Some (pc', m') ∧
    advanced (Body id AbortActive) m pc' m'.
Proof.
  intros Hok. eexists _, _. split; [done|]. split; [by apply (owner_frame m)|done..| |done].
  intros Hlo _. split; [done|]. intros h Hh. left. simpl in Hh |- *.
  destruct (lo_loops _ _ Hlo h Hh) as [|Hc]; [set_solver|]. simpl in Hc. rewrite Hc. set_solver.
Qed.

Lemma abort_affinity_ok now marks id m :
  owner_ok m → ∃ pc' m', stage_step finished now marks id AbortAffinity m = Some (pc', m') ∧
    advanced (Body id AbortAffinity) m pc' m'.
Proof.
  intros Hok. eexists _, _. split; [done|]. split; [by apply (owner_frame m)|done..| |done].
  intros Hlo _. apply (loops_frame (Body id AbortAffinity) _ m); [done..|set_solver|done].
Qed.

Lemma spawn_stage_ok runtime now marks id m :
  owner_ok m →
  ∃ pc' m', stage_step finished now marks id (SpawnLoop runtime) m = Some (pc', m') ∧
    advanced (Body id (SpawnLoop runtime)) m pc' m'.
Proof.
  intros Hok. simpl. destruct (Tasks.spawn (manager_tasks m)) as [[h|] t]; eexists _, _; (split; [done|]).
  - split; [by apply (owner_frame m)|done..| |done]. intros Hlo _.
    pose proof (lo_taken _ _ Hlo eq_refl) as Ha. split; [done|]. simpl.
    intros h' [Hh| ->%list_elem_of_singleton]%elem_of_app; [|by right].
    destruct (lo_loops _ _ Hlo h' Hh) as [|Hc]; [by left|]. simpl in Hc. congruence.
  - apply advanced_quiet; try done. by apply (owner_frame m).
Qed.

Lemma store_ok task now marks id m :
  owner_ok m → ∃ pc' m', stage_step finished now marks id (StoreTask task) m = Some (pc', m') ∧
    advanced (Body id (StoreTask task)) m pc' m'.
Proof.
  intros Hok. eexists _, _. split; [done|]. split; [by apply (owner_frame m)|done..| |done].
  intros Hlo _. split; [done|apply (lo_loops _ _ Hlo)].
Qed.

Lemma register_ok now marks id m :
  owner_ok m → ∃ pc' m', stage_step finished now marks id RegisterRuntime m = Some (pc', m') ∧
    advanced (Body id RegisterRuntime) m pc' m'.
Proof.
  intros Hok. eexists _, _. split; [done|].
  split; [by apply owner_register|simpl; rewrite length_app; lia|done..| |done].
  intros Hlo _. by apply (loops_frame (Body id RegisterRuntime) _ m).
Qed.

Lemma same_cleared r m :
  active_task (clear_registration r m) = active_task m ∧ loops (clear_registration r m) = loops m ∧
  aborts (clear_registration r m) = aborts m ∧ runtimes (clear_registration r m) = runtimes m.
Proof. unfold clear_registration. by case_decide. Qed.

Lemma drop_clear_ok runtime now marks id m :
  owner_ok m → ∃ pc' m', stage_step finished now marks id (DropClear runtime) m = Some (pc', m') ∧
    advanced (Body id (DropClear runtime)) m pc' m'.
Proof.
  intros Hok. eexists _, _. split; [done|]. destruct (same_cleared runtime m) as (Ha & Hl & Hb & Hr).
  split; rewrite ?Hr; try done; [by apply owner_cleared|].
  intros Hlo _. pose proof (lo_taken _ _ Hlo eq_refl) as Hn.
  split; rewrite ?Ha, ?Hl, ?Hb; [done|]. intros h Hh.
  destruct (lo_loops _ _ Hlo h Hh) as [|Hc]; [by left|]. simpl in Hc. congruence.
Qed.

Lemma stage_ok stage now marks id m :
  owner_ok m → (∀ owner, pc_owner (Body id stage) = Some owner → owner < length (runtimes m)) →
  ∃ pc' m', stage_step finished now marks id stage m = Some (pc', m') ∧
    advanced (Body id stage) m pc' m'.
Proof.
  intros Hok Hown. destruct stage; simpl in Hown.
  - by apply load_ok.
  - apply examine_ok; auto.
  - apply ask_ok; auto.
  - apply arrange_ok; auto.
  - eexists _, _. split; [done|]. by apply advanced_refl.
  - by apply abort_active_ok.
  - by apply abort_affinity_ok.
  - by apply register_ok.
  - eexists _, _. split; [done|]. apply advanced_quiet; try done. by apply (owner_frame m).
  - by apply spawn_stage_ok.
  - eexists _, _. split; [done|]. apply advanced_same; try done; [|apply same_on_runtime].
    by apply owner_on_runtime.
  - by apply drop_clear_ok.
  - by apply store_ok.
  - eexists _, _. split; [done|]. by apply advanced_refl.
Qed.

Lemma pc_ok now c m :
  owner_ok m → (∀ owner, pc_owner (call_pc c) = Some owner → owner < length (runtimes m)) →
  ∃ pc' m', pc_step finished now c m = Some (pc', m') ∧ advanced (call_pc c) m pc' m'.
Proof.
  intros Hok Hown. unfold pc_step. destruct (call_pc c) as [owner|owner| |id stage| |] eqn:Hpc.
  - destruct (lookup_lt_is_Some_2 _ _ (Hown owner eq_refl)) as [rt Hrt]. rewrite Hrt. simpl.
    eexists _, _. split; [done|]. by destruct (pending _); apply advanced_refl.
  - eexists _, _. split; [done|]. by destruct (from_option _ _ _); apply advanced_refl.
  - eexists _, _. split; [done|]. unfold leave.
    by destruct (Tasks.is_stopped _), (call_runtime c), (call_marks c); apply advanced_refl.
  - by apply stage_ok.
  - eexists _, _. split; [done|]. apply advanced_quiet; try done. by apply (owner_frame m).
  - eexists _, _. split; [done|]. by apply advanced_refl.
Qed.

(** *** One event of the machine *)

Lemma holder_at s i c : lock s = Some i → calls s !! i = Some c → holder s = call_pc c.
Proof. intros Hl Hc. unfold holder. rewrite Hl. simpl. by rewrite Hc. Qed.

(** A call that keeps its side of the mutex. *)
Lemma goto_ok i c pc' m' s :
  machine_ok s → calls s !! i = Some c → advanced (call_pc c) (manager s) pc' m' →
  machine_ok (goto i c pc' s (lock s) m').
Proof.
  intros Hok Hc Had. pose proof (lookup_lt_Some _ _ _ Hc) as Hlt. split; simpl.
  - apply Had.
  - destruct (decide (lock s = Some i)) as [Hl|Hl].
    + erewrite holder_at; [|exact Hl|simpl; by apply list_lookup_insert_eq]. simpl.
      apply (ad_held _ _ _ _ Had); [|by apply (mo_lock s Hok i c)].
      rewrite <-(holder_at s i c) by done. apply Hok.
    + assert (locked_pc (call_pc c) = false) as Hlk.
      { apply not_true_iff_false. by rewrite (mo_lock s Hok i c Hc). }
      destruct (ad_free _ _ _ _ Had Hlk) as (Ha & Hlo & Hab).
      apply (loops_same _ (manager s)); [done|done|by rewrite Hab|].
      replace (holder _) with (holder s); [apply Hok|]. unfold holder. simpl.
      destruct (lock s) as [j|]; [|done]. simpl. by rewrite list_lookup_insert_ne by congruence.
  - intros j cj. rewrite list_lookup_insert. case_decide as Hj.
    + destruct Hj as [<- _]. intros [= <-]. simpl. rewrite (ad_locked _ _ _ _ Had).
      by apply (mo_lock s Hok).
    + intros Hcj. by apply (mo_lock s Hok).
  - intros j Hj. rewrite length_insert. by apply (mo_holder s Hok).
  - intros j cj owner. rewrite list_lookup_insert. case_decide as Hj.
    + intros [= <-]. apply (ad_pc_owner _ _ _ _ Had).
    + intros Hcj Ho. pose proof (mo_owners s Hok j cj owner Hcj Ho) as Hlo.
      pose proof (ad_grows _ _ _ _ Had). lia.
Qed.

(** Taking and releasing the mutex. *)
Lemma take_lock_ok i c id s :
  machine_ok s → calls s !! i = Some c → call_pc c = Body id WaitLock → lock s = None →
  machine_ok (goto i c (Body id (Load true)) s (Some i) (manager s)).
Proof.
  intros Hok Hc Hpc Hl. pose proof (lookup_lt_Some _ _ _ Hc) as Hlt. split; simpl.
  - apply Hok.
  - erewrite holder_at; [|done|simpl; by apply list_lookup_insert_eq]. simpl.
    pose proof (mo_loops s Hok) as Hlo. unfold holder in Hlo. rewrite Hl in Hlo.
    by apply (loops_frame Returned _ (manager s)).
  - intros j cj. rewrite list_lookup_insert. case_decide as Hj.
    + destruct Hj as [<- _]. by intros [= <-].
    + intros Hcj. rewrite (mo_lock s Hok j cj Hcj), Hl. split; [done|]. intros [= <-]. by destruct Hj.
  - intros j [= <-]. by rewrite length_insert.
  - intros j cj owner. rewrite list_lookup_insert. case_decide as Hj; [by intros [= <-]|].
    apply (mo_owners s Hok).
Qed.

Lemma release_lock_ok i c id s :
  machine_ok s → calls s !! i = Some c → call_pc c = Body id Unlock →
  machine_ok (goto i c (leave (call_marks c)) s None (manager s)).
Proof.
  intros Hok Hc Hpc.
  assert (lock s = Some i) as Hl by (apply (mo_lock s Hok i c Hc); by rewrite Hpc).
  assert (Hlv : locked_pc (leave (call_marks c)) = false ∧ pc_owner (leave (call_marks c)) = None)
    by (unfold leave; by destruct (call_marks c)).
  destruct Hlv as [Hlv Hlo']. split; simpl.
  - apply Hok.
  - change (holder _) with Returned. pose proof (mo_loops s Hok) as Hlo.
    rewrite (holder_at s i c Hl Hc), Hpc in Hlo. by apply (loops_frame (Body id Unlock) _ (manager s)).
  - intros j cj. rewrite list_lookup_insert. case_decide as Hj.
    + intros [= <-]. simpl. by rewrite Hlv.
    + intros Hcj. rewrite (mo_lock s Hok j cj Hcj), Hl. split; [|done]. intros [= <-].
      destruct Hj. split; [done|]. by eapply lookup_lt_Some.
  - done.
  - intros j cj owner. rewrite list_lookup_insert. case_decide as Hj.
    + intros [= <-]. simpl. by rewrite Hlo'.
    + apply (mo_owners s Hok).
Qed.

Lemma step_ok i now s : machine_ok s → ∃ s', step finished i now s = Some s' ∧ machine_ok s'.
Proof.
  intros Hok. unfold step. destruct (calls s !! i) as [c|] eqn:Hc; [|by exists s].
  destruct (pc_ok now c (manager s) (mo_owner s Hok)) as (pc' & m' & Hpc' & Had).
  { intros owner Ho. by eapply mo_owners. }
  pose proof (goto_ok i c pc' m' s Hok Hc Had) as Hgo.
  destruct (call_pc c) as [| | |id []| |] eqn:Hpc;
    try (rewrite Hpc'; eexists; split; [done|exact Hgo]).
  - destruct (lock s) as [j|] eqn:Hl; [by exists s|].
    eexists. split; [done|]. by apply take_lock_ok.
  - eexists. split; [done|]. by eapply release_lock_ok.
Qed.

(** What goes on around the calls. *)
Lemma around_ok m' s :
  owner_ok m' → active_task m' = active_task (manager s) → loops m' = loops (manager s) →
  aborts (manager s) ⊆ aborts m' → length (runtimes m') = length (runtimes (manager s)) →
  machine_ok s → machine_ok (set_manager m' s).
Proof.
  intros Ho Ha Hl Hab Hlen Hok. split; simpl; rewrite ?Hlen; [done| |by apply Hok..].
  change (holder (set_manager m' s)) with (holder s).
  apply (loops_same _ (manager s)); [done..|apply Hok].
Qed.

Lemma begin_ok c s :
  machine_ok s → locked_pc (call_pc c) = false →
  (∀ owner, pc_owner (call_pc c) = Some owner → owner < length (runtimes (manager s))) →
  machine_ok (begin_call c s).
Proof.
  intros Hok Hlk Hown. assert (holder (begin_call c s) = holder s) as Hh.
  { unfold holder. simpl. destruct (lock s) as [i|] eqn:Hl; [|done]. simpl.
    by rewrite lookup_app_l by (by apply (mo_holder s Hok)). }
  assert (Hcall : ∀ i ci, (calls s ++ [c]) !! i = Some ci →
    calls s !! i = Some ci ∨ ci = c ∧ length (calls s) ≤ i).
  { intros i ci [|[Hle [_ ->]%list_lookup_singleton_Some]]%lookup_app_Some; [by left|by right]. }
  split; simpl; [apply Hok|rewrite Hh; apply Hok|..].
  - intros i ci [Hci|[-> Hi]]%Hcall; [by apply (mo_lock s Hok)|].
    rewrite Hlk. split; [done|]. intros Hl. pose proof (mo_holder s Hok _ Hl). lia.
  - intros i Hi. rewrite length_app. pose proof (mo_holder s Hok i Hi). lia.
  - intros i ci owner [Hci|[-> _]]%Hcall; [by apply (mo_owners s Hok i)|apply Hown].
Qed.

Lemma poll_owner_ok r m :
  owner_ok m → let m' := poll_loop r m in
  owner_ok m' ∧ active_task m' = active_task m ∧ loops m' = loops m ∧ aborts m ⊆ aborts m' ∧
  length (runtimes m') = length (runtimes m).
Proof.
  intros Hok. unfold poll_loop, Probe.poll_with_probes.
  destruct (runtimes m !! r) as [rt|] eqn:Hrt; [|done].
  destruct (probe_requested rt); simpl; rewrite length_alter.
  - split; [|split_and!; [done..|set_solver|done]].
    apply (owner_frame (on_runtime (λ _, Probe.set_handoff false (Probe.set_probe
      (mkProbe _ (last_started (shutdown_probe rt)) false None) (Probe.set_requested false rt))) r m));
      [done..|]. by apply owner_on_runtime.
  - split; [|split_and!; [done..|set_solver|done]].
    apply (owner_frame (on_runtime (λ _, rt) r m)); [done..|].
    apply owner_on_runtime; [|done]. intros rt0 Hrt0. rewrite Hrt in Hrt0. by injection Hrt0 as <-.
Qed.

Lemma machine_event_ok e s : machine_ok s → ∃ s', event finished e s = Some s' ∧ machine_ok s'.
Proof.
  intros Hok. pose proof (mo_owner s Hok) as Ho. destruct e; simpl; [by apply step_ok|..].
  - eexists. split; [done|]. by apply begin_ok.
  - eexists. split; [done|]. case_decide; [|done]. apply begin_ok; [done..|]. by intros ? [= <-].
  - eexists. split; [done|]. destruct (poll_owner_ok r _ Ho) as (? & ? & ? & ? & ?). by apply around_ok.
  - eexists. split; [done|]. apply around_ok; try done; [by apply owner_on_runtime|apply length_alter].
  - eexists. split; [done|]. destruct (same_cleared r (manager s)) as (Ha & Hl & Hb & Hr).
    apply around_ok; rewrite ?Hr, ?Hb; try done. by apply owner_cleared.
  - eexists. split; [done|]. destruct (lock s); [done|]. unfold start_affinity_refresh.
    apply around_ok; try done; destruct (affinity_nodes (manager s)); try done;
      (case_decide; [done|]); (destruct (from_option _ _ _); [done|]);
      destruct (Tasks.spawn _); try done. by apply (owner_frame (manager s)).
  - eexists. split; [done|]. apply around_ok; try done. by apply (owner_frame (manager s)).
Qed.

Lemma machine_run_ok es s : machine_ok s → ∃ s', run finished es s = Some s' ∧ machine_ok s'.
Proof.
  intros Hok. unfold run. revert s Hok. induction es as [|e es IH] using rev_ind; intros s Hok.
  { by exists s. }
  destruct (IH s Hok) as (s1 & Hs1 & Hok1). rewrite foldl_app, Hs1. simpl. by apply machine_event_ok.
Qed.

Lemma initial_ok m : unstarted m → machine_ok (initial m).
Proof.
  intros (Hd & Hr & _ & _ & Hl & _). split; simpl; try done.
  - split; by rewrite ?Hd, ?Hr.
  - split; rewrite ?Hl; [done|]. intros h Hh. set_solver.
Qed.

End facts.
End InterleavingFacts.

(** ** Lemmas: progress *)

Module Progress.
Import Manager ManagerFacts Interleaving InterleavingFacts.
Section progress.
Context `{UrlApi, TaskApi, SdkTypes, TlsApi}.
Context (finished : AbortHandle → bool).
Implicit Types (m : DiscoveryManager) (s : Machine) (c : Call) (now : Z) (i : nat) (pc : Pc).

(** A call that can advance: it has not returned and waits for no holder. *)
Definition waits (pc : Pc) : bool := match pc with Body _ WaitLock => true | _ => false end.
Definition releases (pc : Pc) : bool := match pc with Body _ Unlock => true | _ => false end.
Definition able i s : Prop :=
  ∃ c, calls s !! i = Some c ∧ call_pc c ≠ Returned ∧ (waits (call_pc c) = true → lock s = None).

Lemma able_same i s s' : calls s' = calls s → lock s' = lock s → able i s → able i s'.
Proof. intros Hc Hl. unfold able. by rewrite Hc, Hl. Qed.

Lemma stage_step_work now marks id stage m pc' m' :
  stage_step finished now marks id stage m = Some (pc', m') → stage ≠ WaitLock → stage ≠ Unlock →
  pc_work pc' < stage_work stage.
Proof.
  intros Hst Hw Hu. destruct stage as [[]|[]|[]|[]| | | | | | | | | |]; simpl in *;
    unfold not_retained, retained, leave in *; try done; repeat case_match;
    simplify_option_eq; repeat case_match; simplify_eq; simpl; lia.
Qed.

Lemma pc_step_work now c m pc' m' :
  pc_step finished now c m = Some (pc', m') → call_pc c ≠ Returned →
  waits (call_pc c) = false → releases (call_pc c) = false →
  pc_work pc' < pc_work (call_pc c).
Proof.
  unfold pc_step, leave. intros Hpc Hr Hw Hu. destruct (call_pc c) as [owner|owner| |id stage| |]; simpl.
  - destruct (runtimes m !! owner); [|done]. simpl in Hpc. injection Hpc as <- <-.
    destruct (pending _); simpl; lia.
  - injection Hpc as <- <-. destruct (from_option _ _ _); simpl; lia.
  - injection Hpc as <- <-.
    destruct (Tasks.is_stopped _), (call_runtime c), (call_marks c); simpl; lia.
  - eapply stage_step_work; [exact Hpc|by intros ->..].
  - injection Hpc as <- <-. simpl. lia.
  - done.
Qed.

Lemma sum_list_with_insert {A} (f : A → nat) (l : list A) (i : nat) (x y : A) :
  l !! i = Some x → f y < f x → sum_list_with f (<[i := y]> l) < sum_list_with f l.
Proof.
  revert i. induction l as [|z l IH]; intros [|i] Hi Hlt; simplify_eq/=; [lia|].
  specialize (IH i Hi Hlt). lia.
Qed.

Lemma goto_work i c pc' s l m :
  calls s !! i = Some c → pc_work pc' < pc_work (call_pc c) → work (goto i c pc' s l m) < work s.
Proof. intros Hc Hlt. unfold work. simpl. by eapply sum_list_with_insert. Qed.

Lemma step_able i now s s' : step finished i now s = Some s' → able i s → work s' < work s.
Proof.
  unfold step. intros Hst (c & Hc & Hr & Hw). rewrite Hc in Hst.
  destruct (waits (call_pc c)) eqn:Hwt.
  { destruct (call_pc c) as [| | |id []| |] eqn:Hpc; try done. rewrite (Hw eq_refl) in Hst.
    injection Hst as <-. apply goto_work; [done|]. rewrite Hpc. simpl. lia. }
  destruct (releases (call_pc c)) eqn:Hu.
  { destruct (call_pc c) as [| | |id []| |] eqn:Hpc; try done. injection Hst as <-.
    apply goto_work; [done|]. rewrite Hpc. unfold leave. destruct (call_marks c); simpl; lia. }
  assert (('(pc, m) ← pc_step finished now c (manager s); Some (goto i c pc s (lock s) m)) = Some s')
    as Hs'.
  { by destruct (call_pc c) as [| | |id []| |]. }
  destruct (pc_step _ _ _ _) as [[pc' m']|] eqn:Hpc'; [|done]. injection Hs' as <-.
  apply goto_work; [done|]. by eapply pc_step_work.
Qed.

Lemma pc_work_zero pc : pc_work pc = 0 → pc = Returned.
Proof. by destruct pc as [| | |? [[]|[]|[]|[]| | | | | | | | | |]| |]. Qed.

Lemma pc_returned_dec pc : Decision (pc = Returned).
Proof.
  destruct (decide (pc_work pc = 0)) as [Hz|Hz]; [left; by apply pc_work_zero|].
  right. by intros ->.
Defined.

(** A call that cannot advance does nothing. *)
Lemma step_unable i now s s' : step finished i now s = Some s' → ¬ able i s → s' = s.
Proof.
  unfold step. intros Hst Hna. destruct (calls s !! i) as [c|] eqn:Hc; [|congruence].
  destruct (decide (pc_work (call_pc c) = 0)) as [Hr%pc_work_zero|Hr].
  - rewrite Hr in Hst. unfold pc_step in Hst. rewrite Hr in Hst. simpl in Hst. injection Hst as <-.
    unfold goto. destruct s as [m l cs], c as [rt marks pc]. simpl in *. subst pc.
    by rewrite list_insert_id.
  - destruct (waits (call_pc c)) eqn:Hw.
    + destruct (call_pc c) as [| | |id []| |] eqn:Hpc; try done. destruct (lock s) eqn:Hl; [congruence|].
      destruct Hna. exists c. by rewrite Hpc.
    + destruct Hna. exists c. split; [done|]. rewrite Hw. split; [|done]. by intros Hpc; rewrite Hpc in Hr.
Qed.

Lemma able_dec i s : able i s ∨ ¬ able i s.
Proof.
  unfold able. destruct (calls s !! i) as [c|] eqn:Hc; [|right; by intros (? & ? & _)].
  destruct (decide (pc_work (call_pc c) = 0)) as [Hz|Hz].
  { right. intros (c' & [= <-] & Hr & _). by apply Hr, pc_work_zero. }
  assert (call_pc c ≠ Returned) as Hr by (intros Hr; by rewrite Hr in Hz).
  destruct (waits (call_pc c)) eqn:Hw; [|left; exists c; by rewrite Hw].
  destruct (lock s) eqn:Hl; [right|left; by exists c].
  intros (c' & [= <-] & _ & Hlk). by specialize (Hlk Hw).
Qed.

(** As long as a call has not returned, some call can advance: nobody waits for
    a mutex that is never released. *)
Lemma some_able s :
  machine_ok s → Exists (λ c, call_pc c ≠ Returned) (calls s) → ∃ i, i < length (calls s) ∧ able i s.
Proof.
  intros Hok (c & [i Hi]%list_elem_of_lookup & Hr)%Exists_exists.
  destruct (lock s) as [j|] eqn:Hl.
  - pose proof (mo_holder s Hok j Hl) as Hlt. destruct (lookup_lt_is_Some_2 _ _ Hlt) as [cj Hj].
    pose proof (proj2 (mo_lock s Hok j cj Hj) Hl) as Hlk.
    exists j. split; [done|]. exists cj. split; [done|].
    destruct (call_pc cj) as [| | |id []| |]; simpl in Hlk; try done; by split.
  - exists i. split; [by eapply lookup_lt_Some|]. by exists c.
Qed.

Lemma work_zero s : work s = 0 → Forall (λ c, call_pc c = Returned) (calls s).
Proof.
  unfold work. induction (calls s) as [|c cs IH]; simpl; [done|]. intros Hz.
  constructor; [apply pc_work_zero|apply IH]; lia.
Qed.

Lemma work_bound s : work s ≤ 22 * length (calls s).
Proof.
  unfold work. induction (calls s) as [|c cs IH]; simpl; [done|].
  assert (pc_work (call_pc c) ≤ 22); [|lia].
  destruct (call_pc c) as [| | |? [[]|[]|[]|[]| | | | | | | | | |]| |]; simpl; lia.
Qed.

(** ** Rounds *)

(** Between the steps nothing about the calls changes. *)
Lemma around_calls e s s' :
  event finished e s = Some s' → begins e = false → (∀ i, ¬ is_step i e) →
  calls s' = calls s ∧ lock s' = lock s.
Proof.
  intros He Hb Hi. destruct e; simpl in *; simplify_eq; try done.
  - destruct (Hi i). by exists now.
  - by destruct (lock s) eqn:Hl.
Qed.

Lemma step_calls i now s s' : step finished i now s = Some s' → length (calls s') = length (calls s).
Proof.
  unfold step. intros Hst. destruct (calls s !! i) as [c|]; [|by injection Hst as <-].
  assert (∀ pc l m, length (calls (goto i c pc s l m)) = length (calls s)) as Hg
    by (intros; apply length_insert).
  destruct (call_pc c) as [| | |id []| |];
    try (destruct (pc_step _ _ _ _) as [[pc' m']|]; [|done]); simpl in Hst; injection Hst as <-; try done.
  by destruct (lock s).
Qed.

(** An event other than a new call either lowers the work left or leaves the
    calls as they are; then it was no step of a call that could advance. *)
Definition idle (es : list MachineEvent) s s' : Prop :=
  calls s' = calls s ∧ lock s' = lock s ∧ ∀ i, Exists (is_step i) es → ¬ able i s.

Lemma event_idle e s s' :
  event finished e s = Some s' → begins e = false →
  length (calls s') = length (calls s) ∧ (work s' < work s ∨ idle [e] s s').
Proof.
  intros He Hb. assert ((∃ i now, e = Step i now) ∨ ∀ i, ¬ is_step i e) as [(i & now & ->)|Hi]
    by (destruct e; [left; by eexists _, _|right; by intros ? [? [=]]..]).
  - split; [by eapply step_calls|]. destruct (able_dec i s) as [Ha|Ha].
    + left. by eapply step_able.
    + right. rewrite (step_unable i now s s' He Ha). split_and!; [done..|].
      intros j [(now' & [= -> _])|Hj]%Exists_cons; [done|by apply Exists_nil in Hj].
  - destruct (around_calls e s s' He Hb Hi) as [Hc Hl]. split; [by rewrite Hc|]. right.
    split_and!; [done..|]. intros j [Hj|Hj]%Exists_cons; [by destruct (Hi j)|by apply Exists_nil in Hj].
Qed.

Lemma run_cons e es s :
  run finished (e :: es) s = (s1 ← event finished e s; run finished es s1).
Proof.
  unfold run. simpl. destruct (event finished e s) as [s1|]; simpl; [done|].
  induction es as [|e' es IH]; simpl; [done|exact IH].
Qed.

Lemma run_idle es s s' :
  run finished es s = Some s' → Forall (λ e, begins e = false) es →
  length (calls s') = length (calls s) ∧ (work s' < work s ∨ idle es s s').
Proof.
  intros Hrun Hes. revert s Hrun. induction Hes as [|e es He _ IH]; intros s Hrun.
  { injection Hrun as <-. split; [done|right]. split_and!; [done..|]. by intros i Hi%Exists_nil. }
  rewrite run_cons in Hrun. destruct (event finished e s) as [s1|] eqn:Hs1; [|done]. simpl in Hrun.
  destruct (event_idle e s s1 Hs1 He) as [Hlen Hev]. destruct (IH s1 Hrun) as [Hlen' Hes].
  split; [congruence|]. unfold work in *.
  destruct Hev as [Hlt|(Hc & Hl & Hna)], Hes as [Hlt'|(Hc' & Hl' & Hna')].
  - left. lia.
  - left. by rewrite Hc'.
  - left. by rewrite <-Hc.
  - right. split_and!; [congruence..|]. intros i [Hi|Hi]%Exists_cons.
    + apply Hna. by apply Exists_cons_hd.
    + intros Ha. apply (Hna' i Hi). by apply (able_same i s).
Qed.

Lemma round_progress es s s' :
  machine_ok s → round (length (calls s)) es → run finished es s = Some s' →
  length (calls s') = length (calls s) ∧ (work s' < work s ∨ work s = 0).
Proof.
  intros Hok [Hb Hall] Hrun. destruct (run_idle es s s' Hrun Hb) as [Hlen [Hlt|(Hc & Hl & Hna)]].
  { split; [done|by left]. }
  split; [done|]. destruct (decide (work s = 0)) as [|Hw]; [by right|]. exfalso.
  destruct (some_able s Hok) as (i & Hi & Ha); [|by apply (Hna i); [apply Hall|]].
  apply not_Forall_Exists; [intros c; apply pc_returned_dec|]. intros Hz. apply Hw.
  unfold work. clear -Hz. induction Hz as [|c cs Hc _ IH]; simpl; [done|]. by rewrite Hc.
Qed.

Lemma rounds_return rounds s :
  machine_ok s → Forall (round (length (calls s))) rounds → work s ≤ length rounds →
  ∃ s', run finished (concat rounds) s = Some s' ∧ machine_ok s' ∧
    length (calls s') = length (calls s) ∧ work s' = 0.
Proof.
  remember (length (calls s)) as n eqn:Hn. intros Hok Hr. revert s Hok Hn.
  induction Hr as [|es rounds Hes _ IH]; intros s Hok Hn Hw; simpl in Hw |- *.
  { exists s. split_and!; [done..|lia]. }
  destruct (machine_run_ok finished es s Hok) as (s1 & Hs1 & Hok1). subst n.
  destruct (round_progress es s s1 Hok Hes Hs1) as [Hlen Hlt].
  destruct (IH s1 Hok1 (eq_sym Hlen)) as (s' & Hs' & Hok' & Hlen' & Hz).
  { destruct Hlt as [|Hz]; [lia|]. destruct (run_idle es s s1 Hs1 (proj1 Hes)) as [_ [|(Hc & _)]]; [lia|].
    unfold work in *. rewrite Hc. lia. }
  exists s'. split_and!; [|done..]. unfold run in *. by rewrite foldl_app, Hs1.
Qed.

End progress.
End Progress.

(** ** Lemmas: a call that nobody disturbs *)

Module Alone.
Import Manager Interleaving.
Section alone.
Context `{UrlApi, TaskApi, SdkTypes, TlsApi}.
Context (finished : AbortHandle → bool) (now : Z) (i : nat) (c : Call) (s : Machine).
Context (Hi : i < length (calls s)).
Implicit Types (m : DiscoveryManager) (l : option nat) (pc : Pc) (r : option Machine).

(** The call [i] of [s] at [pc]. *)
Abbreviation at_pc pc l m := (goto i c pc s l m).

(** After at least [n] steps of the call, the outcome is [r]. *)
Definition settles (n : nat) (s1 : Machine) r : Prop :=
  ∀ k, n ≤ k → run finished (alone k i now) s1 = r.

Lemma settles_mono n n' s1 r : n ≤ n' → settles n s1 r → settles n' s1 r.
Proof. intros Hle Hs k Hk. apply Hs. lia. Qed.

Lemma settles_step n s1 s2 r : step finished i now s1 = Some s2 → settles n s2 r → settles (S n) s1 r.
Proof.
  intros Hst Hs [|k] Hk; [lia|]. unfold alone. simpl. rewrite Progress.run_cons. simpl.
  rewrite Hst. apply Hs. lia.
Qed.

Lemma settles_panic n s1 : step finished i now s1 = None → settles (S n) s1 None.
Proof.
  intros Hst [|k] Hk; [lia|]. unfold alone. simpl. rewrite Progress.run_cons. simpl. by rewrite Hst.
Qed.

Lemma at_pc_call pc l m :
  calls (at_pc pc l m) !! i = Some (mkCall _ (call_runtime c) (call_marks c) pc).
Proof. simpl. by apply list_lookup_insert_eq. Qed.

Lemma at_pc_goto pc pc' l l' m m' :
  goto i (mkCall _ (call_runtime c) (call_marks c) pc) pc' (at_pc pc l m) l' m' = at_pc pc' l' m'.
Proof. unfold goto. simpl. by rewrite list_insert_insert_eq. Qed.

(** How the call advances. *)
Lemma step_at pc l m :
  Progress.waits pc = false → Progress.releases pc = false →
  step finished i now (at_pc pc l m) =
    '(pc', m') ← pc_step finished now (mkCall _ (call_runtime c) (call_marks c) pc) m;
    Some (at_pc pc' l m').
Proof.
  intros Hw Hr. unfold step. rewrite at_pc_call. cbn [call_pc].
  destruct pc as [| | |id []| |]; try done; cbn [manager goto];
    (destruct (pc_step _ _ _ _) as [[pc' m']|]; [|done]); simpl; by rewrite at_pc_goto.
Qed.

Lemma advance n pc pc' l m m' r :
  Progress.waits pc = false → Progress.releases pc = false →
  pc_step finished now (mkCall _ (call_runtime c) (call_marks c) pc) m = Some (pc', m') →
  settles n (at_pc pc' l m') r → settles (S n) (at_pc pc l m) r.
Proof. intros Hw Hr Hpc. apply settles_step. by rewrite step_at, Hpc. Qed.

Lemma panics n pc l m :
  Progress.waits pc = false → Progress.releases pc = false →
  pc_step finished now (mkCall _ (call_runtime c) (call_marks c) pc) m = None →
  settles (S n) (at_pc pc l m) None.
Proof. intros Hw Hr Hpc. apply settles_panic. by rewrite step_at, Hpc. Qed.

(** The call has returned. *)
Definition after m : DiscoveryManager := if call_marks c then mark_activity now m else m.
Definition done_at m : Machine := at_pc Returned None m.

Lemma returned_settles n m : settles n (done_at m) (Some (done_at m)).
Proof.
  intros k _. unfold alone. induction k as [|k IH]; [done|]. simpl. rewrite Progress.run_cons. simpl.
  unfold done_at at 1. rewrite step_at by done. simpl. exact IH.
Qed.

Lemma leave_settles m : settles 1 (at_pc (leave (call_marks c)) None m) (Some (done_at (after m))).
Proof.
  unfold leave, after. destruct (call_marks c) eqn:Hm; [|apply returned_settles].
  eapply advance; [done..|]. apply returned_settles.
Qed.

Lemma unlock_settles id l m : settles 2 (at_pc (Body id Unlock) l m) (Some (done_at (after m))).
Proof.
  eapply settles_step; [|apply leave_settles]. unfold step. rewrite at_pc_call. simpl.
  by rewrite at_pc_goto.
Qed.

(** The transfer under the mutex is [start_discovery]. *)
Lemma transfer_settles id l m :
  settles 10 (at_pc (Body id AbortActive) l m) (Some (done_at (after (start_discovery id now m)))).
Proof.
  do 4 (eapply advance; [done..|]). unfold start_discovery, spawn_loop.
  set (runtime := length _). set (m1 := mark_activity now _).
  change (mark_activity now (register_runtime id (abort_affinity (abort_active m)))) with m1.
  assert (∀ task t, Tasks.spawn (manager_tasks m1) = (task, t) →
    stage_step finished now (call_marks c) id (SpawnLoop runtime) m1 = Some match task with
      | Some h => (Body id (StoreTask (Some h)), record_loop h (set_tasks t m1))
      | None => (Body id (DropStop runtime), set_tasks t m1)
      end) as Hspawn by (intros task t Hsp; unfold stage_step; by rewrite Hsp).
  destruct (Tasks.spawn (manager_tasks m1)) as [[h|] t]; specialize (Hspawn _ _ eq_refl);
    cbv iota beta in Hspawn.
  - apply (settles_mono 4); [lia|]. eapply advance; [done|done|exact Hspawn|].
    eapply advance; [done|done|reflexivity|]. apply unlock_settles.
  - eapply advance; [done|done|exact Hspawn|].
    do 3 (eapply advance; [done|done|reflexivity|]). apply unlock_settles.
Qed.

(** Evaluates one action of a call whose owner is known. *)
#[local] Ltac eval_stage Hrt :=
  unfold pc_step; cbn [call_pc call_marks call_runtime]; unfold stage_step;
  rewrite Hrt; cbn [mbind option_bind].

Lemma on_runtime_id owner rt m : runtimes m !! owner = Some rt → on_runtime (λ _, rt) owner m = m.
Proof.
  intros Hrt. unfold on_runtime. replace (alter (λ _, rt) owner (runtimes m)) with (runtimes m).
  { by destruct m. }
  apply list_eq. intros j. rewrite list_lookup_alter. case_decide; [|done]. subst. by rewrite Hrt.
Qed.

(** Examining an owner is [retain_discovery_owner]. *)
Lemma retain_settles n id locked owner l m (next : bool → DiscoveryManager → option Machine) :
  (∀ m', settles n (at_pc (retained (call_marks c) locked id) l m') (next true m')) →
  (∀ m', settles n (at_pc (not_retained locked id) l m') (next false m')) →
  settles (3 + n) (at_pc (Body id (Examine locked owner)) l m)
    ('(kept, m') ← retain_discovery_owner finished owner id now m; next kept m').
Proof.
  intros Hkept Hnot. unfold retain_discovery_owner.
  destruct (runtimes m !! owner) as [rt|] eqn:Hrt; [|by apply panics; [done..|eval_stage Hrt]].
  cbn [mbind option_bind]. case_decide as Hid.
  { eapply advance; [done..|eval_stage Hrt; by rewrite decide_True|].
    eapply settles_mono; [|apply Hkept]. lia. }
  unfold Probe.should_handoff_at. destruct (runtime_stopped rt) eqn:Hst.
  { rewrite on_runtime_id by done.
    eapply advance; [done..|eval_stage Hrt; by rewrite decide_False, Hst|].
    eapply settles_mono; [|apply Hnot]. lia. }
  eapply advance; [done..|eval_stage Hrt; by rewrite decide_False, Hst|].
  destruct (Probe.probe_verdict now rt) as [handoff rt'] eqn:Hv.
  eapply advance; [done..|eval_stage Hrt; by rewrite Hv|].
  destruct handoff; [eapply settles_mono; [|apply Hnot]; lia|].
  assert (Hrt' : runtimes (on_runtime (λ _, rt') owner m) !! owner = Some rt')
    by by rewrite ManagerFacts.lookup_on_runtime, decide_True, Hrt.
  destruct (arrange_recheck finished owner (shutdown_probe rt') _) as [m'|] eqn:Ha.
  - eapply advance; [done..|eval_stage Hrt'; by rewrite Ha|apply Hkept].
  - apply panics; [done..|]. eval_stage Hrt'. by rewrite Ha.
Qed.

(** What runs under the mutex. *)
Lemma locked_settles id m :
  settles 15 (at_pc (Body id WaitLock) None m)
    ((λ m', done_at (after m')) <$> ensure_locked finished id now m).
Proof.
  eapply settles_step.
  { unfold step. rewrite at_pc_call. cbn [call_pc lock goto manager]. by rewrite at_pc_goto. }
  unfold ensure_locked. destruct (discovery_runtime m) as [owner|] eqn:Hd.
  - eapply advance; [done|done|unfold pc_step; cbn; by rewrite Hd|].
    pose proof (retain_settles 10 id true owner (Some i) m
      (λ kept m', Some (done_at (after (if kept then m' else start_discovery id now m'))))) as Hret.
    destruct (retain_discovery_owner _ _ _ _ _) as [[kept m']|]; apply Hret.
    1, 3: intros; apply (settles_mono 2); [lia|apply unlock_settles].
    all: intros; apply transfer_settles.
  - eapply advance; [done|done|unfold pc_step; cbn; by rewrite Hd|].
    apply (settles_mono 10); [lia|apply transfer_settles].
Qed.

(** [ensure_discovery_started], and what follows it in an access. *)
Lemma enter_settles m :
  settles 20 (at_pc Enter None m)
    ((λ m', done_at (after m')) <$> ensure_discovery_started finished (call_runtime c) now m).
Proof.
  assert (Hlv : ∀ n m', settles (S n) (at_pc (leave (call_marks c)) None m') (Some (done_at (after m'))))
    by (intros n m'; apply (settles_mono 1); [lia|apply leave_settles]).
  unfold ensure_discovery_started. destruct (Tasks.is_stopped (manager_tasks m)) eqn:Hst.
  { eapply advance; [done|done|unfold pc_step; cbn; by rewrite Hst|apply Hlv]. }
  destruct (call_runtime c) as [id|] eqn:Hrt.
  2: { eapply advance; [done|done|unfold pc_step; cbn; by rewrite Hst, Hrt|apply Hlv]. }
  eapply advance; [done|done|unfold pc_step; cbn; by rewrite Hst, Hrt|].
  destruct (discovery_runtime m) as [owner|] eqn:Hd.
  - eapply advance; [done|done|unfold pc_step; cbn; by rewrite Hd|].
    pose proof (retain_settles 15 id false owner None m (λ (kept : bool) m',
      if kept then Some (done_at (after m'))
      else (λ m', done_at (after m')) <$> ensure_locked finished id now m')) as Hret.
    destruct (retain_discovery_owner _ _ _ _ _) as [[[] m']|]; apply Hret.
    1, 3, 5: intros; apply Hlv.
    all: intros; apply locked_settles.
  - eapply advance; [done|done|unfold pc_step; cbn; by rewrite Hd|].
    apply (settles_mono 15); [lia|apply locked_settles].
Qed.

(** The body of a recheck task. *)
Lemma recheck_settles owner m :
  call_marks c = false →
  settles 22 (at_pc (RecheckPending owner) None m)
    (done_at <$> recheck finished owner (call_runtime c) now m).
Proof.
  intros Hm. unfold recheck.
  destruct (runtimes m !! owner) as [rt|] eqn:Hrt; [|by apply panics; [done..|eval_stage Hrt]].
  cbn [mbind option_bind]. destruct (pending (shutdown_probe rt)) eqn:Hp; cbn [andb].
  2: { eapply advance; [done|done|eval_stage Hrt; by rewrite Hp|apply returned_settles]. }
  eapply advance; [done|done|eval_stage Hrt; by rewrite Hp|].
  destruct (from_option _ _ _) eqn:Ho.
  - eapply advance; [done|done|unfold pc_step; cbn [call_pc]; by rewrite Ho|].
    pose proof (enter_settles m) as He. unfold after in He. rewrite Hm in He. exact He.
  - eapply advance; [done|done|unfold pc_step; cbn [call_pc]; by rewrite Ho|].
    apply returned_settles.
Qed.

Lemma whole_settles :
  calls s !! i = Some c → lock s = None → starts c →
  settles 22 s (done_at <$> whole_call finished c now (manager s)).
Proof.
  intros Hc Hl Hst. assert (s = at_pc (call_pc c) None (manager s)) as Hs.
  { unfold goto. destruct s as [m l cs], c as [rt marks pc]. simpl in *. subst l.
    by rewrite list_insert_id. }
  unfold whole_call. destruct Hst as [He|[[owner He] Hm]]; rewrite He.
  - rewrite Hs at 1. rewrite He. apply (settles_mono 20); [lia|].
    pose proof (enter_settles (manager s)) as Hen. unfold after in Hen. unfold access.
    by destruct (call_marks c), (ensure_discovery_started _ _ _ _).
  - rewrite Hs at 1. rewrite He. by apply recheck_settles.
Qed.

End alone.
End Alone.

(** ** Properties *)

Section properties.
Context `{UrlApi, TaskApi, SdkTypes, TlsApi}.
Import Manager Interleaving InterleavingFacts.
Implicit Types (finished : AbortHandle → bool) (es : list MachineEvent).

(** C12: concurrent accesses never start two discovery loops.  Whatever calls
    begin, on whatever runtimes, and however their loads, stores, probe sections
    and spawns interleave with each other, with the loops' polls and exits and
    with the stop of the client: nothing panics; of all loops ever started at
    most one was not told to abort, and it is the active one whenever the mutex
    is free; at most one call is between lock and unlock; and the registered
    runtime is the newest. *)
Theorem concurrent_starts_safe finished (es : list MachineEvent) (m : DiscoveryManager) :
  unstarted m →
  ∃ s, run finished es (initial m) = Some s ∧
    (∀ h1 h2, h1 ∈ loops (manager s) → h2 ∈ loops (manager s) →
       h1 ∉ aborts (manager s) → h2 ∉ aborts (manager s) → h1 = h2) ∧
    (lock s = None → ∀ h, h ∈ loops (manager s) → h ∉ aborts (manager s) →
       active_task (manager s) = Some h) ∧
    (∀ i j ci cj, calls s !! i = Some ci → calls s !! j = Some cj →
       locked_pc (call_pc ci) = true → locked_pc (call_pc cj) = true → i = j) ∧
    (∀ r, discovery_runtime (manager s) = Some r → S r = length (runtimes (manager s))).
Proof.
  intros Hm%initial_ok. destruct (machine_run_ok finished es _ Hm) as (s & Hs & Hok).
  pose proof (lo_loops _ _ (mo_loops s Hok)) as Hl. exists s. split_and!; [done|..].
  - intros h1 h2 Hh1 Hh2 Hn1 Hn2.
    destruct (Hl h1 Hh1) as [|Hc1], (Hl h2 Hh2) as [|Hc2]; congruence.
  - intros Hlk h Hh Hn. destruct (Hl h Hh) as [|Hc]; [done|].
    unfold holder in Hc. by rewrite Hlk in Hc.
  - intros i j ci cj Hi Hj Hli%(mo_lock s Hok i ci Hi) Hlj%(mo_lock s Hok j cj Hj). congruence.
  - apply (mo_owner s Hok).
Qed.

(** C24: an access is the composition of its steps.  A call that starts while the
    mutex is free and that nobody disturbs ends, within its twenty-two steps, in
    exactly the state that the access, or the recheck, computes in one; it
    panics exactly when that does, and leaves the mutex free. *)
Theorem undisturbed_call_exact finished (i : nat) (now : Z) (s : Machine) (c : Call) :
  calls s !! i = Some c → lock s = None → starts c →
  run finished (alone 22 i now) s =
    goto i c Returned s None <$> whole_call finished c now (manager s).
Proof.
  intros Hc Hl Hst. by apply (Alone.whole_settles finished now i c s (lookup_lt_Some _ _ _ Hc) Hc Hl Hst).
Qed.

(** C13: no access blocks.  From any reachable state, if every call in progress
    is stepped at least once in each of twenty-two rounds per call, in any order
    and with polls, exits, affinity refreshes and the stop of the client in
    between, then all of them return, none panics, and the mutex is free. *)
Theorem calls_return finished (before : list MachineEvent) (m : DiscoveryManager) (s : Machine)
    (rounds : list (list MachineEvent)) :
  unstarted m → run finished before (initial m) = Some s →
  Forall (round (length (calls s))) rounds → 22 * length (calls s) ≤ length rounds →
  ∃ s', run finished (concat rounds) s = Some s' ∧ length (calls s') = length (calls s) ∧
    Forall (λ c, call_pc c = Returned) (calls s') ∧ lock s' = None.
Proof.
  intros Hm%initial_ok Hs Hr Hlen.
  destruct (machine_run_ok finished before _ Hm) as (s1 & Hs1 & Hok). rewrite Hs in Hs1.
  injection Hs1 as <-. pose proof (Progress.work_bound s) as Hb.
  destruct (Progress.rounds_return finished rounds s Hok Hr) as (s' & Hs' & Hok' & Hl & Hz); [lia|].
  apply Progress.work_zero in Hz. exists s'. split_and!; [done..|].
  destruct (lock s') as [i|] eqn:Hlk; [|done]. exfalso.
  destruct (lookup_lt_is_Some_2 _ _ (mo_holder s' Hok' i Hlk)) as [c Hc].
  pose proof (proj2 (mo_lock s' Hok' i c Hc) Hlk) as Hpc. rewrite Forall_lookup in Hz.
  by rewrite (Hz i c Hc) in Hpc.
Qed.

End properties.

(** ** Witnesses *)

Section witnesses.
Import Manager Interleaving.
#[local] Existing Instances StrUrl.api ListTasks.api ListSdk.types.
#[local] Instance tls_roots : TlsApi := ListTls.api (["root"], []).

(** Two threads on different runtimes access a client that was never used, in
    lock step, until both have returned. *)
Definition two_callers : list MachineEvent := [Begin (Some 1) true; Begin (Some 2) false].
Definition race : list (list MachineEvent) := replicate 44 [Step 0 0%Z; Step 1 0%Z].
Definition called : Machine :=
  default (initial idle_manager) (run unfinished two_callers (initial idle_manager)).

(** One of them starts the only loop; the other one finds it. *)
Example race_starts_one :
  (λ s, (call_pc <$> calls s, lock s, loops (manager s), discovery_runtime (manager s))) <$>
    run unfinished (concat race) called = Some ([Returned; Returned], None, [0], Some 0).
Proof. vm_refl. Qed.

Lemma concurrent_starts_safe_witness :
  ∃ s, run unfinished (two_callers ++ concat race) (initial idle_manager) = Some s ∧
    (∀ h1 h2, h1 ∈ loops (manager s) → h2 ∈ loops (manager s) →
       h1 ∉ aborts (manager s) → h2 ∉ aborts (manager s) → h1 = h2) ∧
    (lock s = None → ∀ h, h ∈ loops (manager s) → h ∉ aborts (manager s) →
       active_task (manager s) = Some h) ∧
    (∀ i j ci cj, calls s !! i = Some ci → calls s !! j = Some cj →
       locked_pc (call_pc ci) = true → locked_pc (call_pc cj) = true → i = j) ∧
    (∀ r, discovery_runtime (manager s) = Some r → S r = length (runtimes (manager s))).
Proof. by apply (concurrent_starts_safe unfinished (two_callers ++ concat race) idle_manager). Defined.

Lemma undisturbed_call_exact_witness :
  run unfinished (alone 22 0 0%Z) called =
    goto 0 (mkCall _ (Some 1) true Enter) Returned called None <$>
      access unfinished (Some 1) 0 (manager called).
Proof.
  apply (undisturbed_call_exact unfinished 0 0%Z called (mkCall _ (Some 1) true Enter));
    [vm_refl|vm_refl|by left].
Defined.

Lemma calls_return_witness :
  ∃ s', run unfinished (concat race) called = Some s' ∧ length (calls s') = length (calls called) ∧
    Forall (λ c, call_pc c = Returned) (calls s') ∧ lock s' = None.
Proof.
  apply (calls_return unfinished two_callers idle_manager called race); [done|vm_refl| |vm_compute; lia].
  unfold race. apply Forall_replicate.
  split; [by repeat constructor|]. intros [|[|i]] Hi; [left; by eexists|right; left; by eexists|].
  vm_compute in Hi. lia.
Defined.

End witnesses.
