(* ===== verification/LiveNodesBuild.v ===== *)
(** * Building the discovery state ([LiveNodes::try_new] in
      [src/src/live_nodes.rs])

    The routing part of a client's configuration is checked once, when the
    client is built.  The theorems: every outcome says what it must of the
    configuration, in particular a success always comes with an SDK endpoint and
    a membership that starts as the non-empty set of seeds; and with discovery
    on the order in which the seed hosts are given does not matter. *)

From S2P Require Import Prelude UrlApi NodeUrl RoutingScope LiveNodes Refresh DiscoveryTasks.
From S2P Require Import Http Classifier OptimizeHeaders Compression Interceptors Sdk Config.
From S2P Require Import DiscoveryHttp DiscoveryOwner.

Module LiveNodesBuild.
Section build.
Context `{UrlApi, Flate} {types : SdkTypes} {I : Type} {sdk : SdkApi I} {tls : TlsApi} {task : TaskApi}.
Implicit Types (config : AlternatorConfig).

(** The schemes the built-in transports speak. *)
Definition is_http (sch : string) : bool :=
  eq_ignore_ascii_case sch "http" || eq_ignore_ascii_case sch "https".

(** The checks made when discovery is off. *)
Definition check_direct config (alternator_scheme first_seed : string)
    : Result unit LiveNodesBuildError :=
  if negb (NodeUrl.is_valid_uri_scheme alternator_scheme)
     || (match Config.http_client config with Some _ => false | None => true end
         && negb (is_http alternator_scheme))
  then Err (InvalidScheme alternator_scheme)
  else
    result_bind (map_err (InvalidSeedHost first_seed)
      (NodeUrl.build_seed_url alternator_scheme first_seed (Config.port config))) (λ _, Ok tt).

(** One URL per seed host, or the first seed host that makes none. *)
Definition seed_url config (alternator_scheme seed_host : string) : Result Url LiveNodesBuildError :=
  map_err (InvalidSeedHost seed_host)
    (NodeUrl.build_seed_url alternator_scheme seed_host (Config.port config)).

(** The manager of sorted seed URLs. *)
Definition new_manager config (now : Z) (alternator_scheme : string) (seed_urls : list Url)
    (client : DiscoveryHttpClient) (native_roots_usable : bool) : DiscoveryManager :=
  let routing_scope := default Scope.from_cluster (Config.routing_scope config) in
  mkManager _ _ _ _ Tasks.default_tasks (View.new routing_scope seed_urls)
    (mkInputs _ (Config.discovery_timeout config) seed_urls alternator_scheme (Config.port config))
    client native_roots_usable None
    (default DEFAULT_ACTIVE_REFRESH_INTERVAL (Config.active_interval config))
    (default DEFAULT_IDLE_REFRESH_INTERVAL (Config.idle_interval config))
    now false None None [] None [] [].

(** [try_new]: [Ok None] is discovery turned off.  The first seed URL exists,
    since there is a first seed host. *)
Definition try_new config (now : Z)
    : Result (option (LiveNodes * DiscoveryManager)) LiveNodesBuildError :=
  let alternator_scheme := default "http" (Config.scheme config) in
  match Config.seed_hosts config with
  | None | Some [] => Err MissingRoutingTarget
  | Some ((first_seed :: _) as seed_nodes) =>
      if Config.without_discovery config then
        result_bind (check_direct config alternator_scheme first_seed) (λ _, Ok None)
      else if negb (is_http alternator_scheme) then Err (InvalidScheme alternator_scheme)
      else
        result_bind (collect_results (seed_url config alternator_scheme) seed_nodes) (λ urls,
        let seed_urls := sort_by_key as_str urls in
        let sch := from_option scheme EmptyString (head seed_urls) in
        result_bind (DiscoveryHttp.build_discovery_http_client config sch)
          (λ '(client, native_roots_usable),
           Ok (Some (mkHandle OrdinaryView Ordinary,
                     new_manager config now alternator_scheme seed_urls client
                       native_roots_usable))))
  end.

(** ** Specification *)

(** What an outcome says of the configuration. *)
Definition outcome_ok config (r : Result (option (LiveNodes * DiscoveryManager)) LiveNodesBuildError)
    : Prop :=
  let sch := default "http" (Config.scheme config) in
  let seeds := default [] (Config.seed_hosts config) in
  let custom := is_Some (Config.http_client config) in
  match r with
  | Ok None =>
      Config.without_discovery config = true ∧ is_Some (Config.endpoint_url config) ∧
      (custom ∨ is_http sch = true)
  | Ok (Some (self, m)) =>
      Config.without_discovery config = false ∧ is_Some (Config.endpoint_url config) ∧
      self = mkHandle OrdinaryView Ordinary ∧ Manager.unstarted m ∧
      manager_tasks m = Tasks.default_tasks ∧
      live_nodes (ordinary m) = seed_urls (inputs m) ∧ seed_urls (inputs m) ≠ [] ∧
      (∃ urls, Forall2 (λ h u, NodeUrl.build_seed_url sch h (Config.port config) = Ok u) seeds urls ∧
         seed_urls (inputs m) ≡ₚ urls) ∧
      (custom ∨ (∀ u, head (seed_urls (inputs m)) = Some u →
         eq_ignore_ascii_case (scheme u) "https" = true →
         DiscoveryHttp.native_roots_are_usable = true))
  | Err MissingRoutingTarget => seeds = []
  | Err (InvalidSeedHost h e) =>
      h ∈ seeds ∧ NodeUrl.build_seed_url sch h (Config.port config) = Err e
  | Err (InvalidScheme s) =>
      s = sch ∧
      (is_http s = false ∨ NodeUrl.is_valid_uri_scheme s = false ∧ Config.without_discovery config = true)
  | Err (TlsConfiguration _) | Err (HttpClientError _) =>
      ¬ custom ∧ Config.without_discovery config = false
  end.

End build.
End LiveNodesBuild.

#[local] Arguments Config.seed_hosts : simpl never.
#[local] Arguments Config.http_client : simpl never.
#[local] Arguments Config.without_discovery : simpl never.
#[local] Arguments Config.endpoint_url : simpl never.
#[local] Arguments Config.scheme : simpl never.
#[local] Arguments Config.port : simpl never.

Module LiveNodesBuildFacts.
Import LiveNodesBuild.
Section facts.
Context `{UrlApi, Flate} {types : SdkTypes} {I : Type} {sdk : SdkApi I} {tls : TlsApi} {task : TaskApi}.
Implicit Types (config : AlternatorConfig).

(** Which client the default transport is, and what it needs. *)
Lemma default_client_spec sch t :
  match DiscoveryHttp.build_default_discovery_http_client (types := types) sch t with
  | Ok (_, usable) =>
      usable = DiscoveryHttp.native_roots_are_usable ∧
      (eq_ignore_ascii_case sch "https" = true → usable = true)
  | Err (TlsConfiguration _) | Err (HttpClientError _) => True
  | Err _ => False
  end.
Proof.
  unfold DiscoveryHttp.build_default_discovery_http_client,
    DiscoveryHttp.discovery_http_client_builder_with_root_status,
    DiscoveryHttp.native_roots_are_usable.
  destruct DiscoveryHttp.load_native_root_store as [roots errors].
  destruct (eq_ignore_ascii_case sch "https"), (roots_is_empty roots); simpl; try done;
    (destruct (tls_config roots); simpl; [|done]); by destruct (reqwest_build _ _ _).
Qed.

Lemma seed_url_endpoint config sch h hs u :
  Config.seed_hosts config = Some (h :: hs) → sch = default "http" (Config.scheme config) →
  NodeUrl.build_seed_url sch h (Config.port config) = Ok u →
  Config.endpoint_url config = Some (as_str u).
Proof.
  unfold Config.seed_hosts, Config.scheme, Config.port, Config.endpoint_url, Ext.endpoint_url.
  intros Hs -> Hu. by rewrite Hs; simpl; rewrite Hu.
Qed.

(** Every outcome, by cases of the code. *)
Lemma try_new_spec config (now : Z) :
  outcome_ok config (try_new config now).
Proof.
  unfold try_new. set (sch := default "http" (Config.scheme config)).
  destruct (Config.seed_hosts config) as [[|h hs]|] eqn:Hs;
    [by unfold outcome_ok; rewrite Hs| |by unfold outcome_ok; rewrite Hs].
  destruct (Config.without_discovery config) eqn:Hw.
  - unfold check_direct. destruct (_ || _) eqn:Hc; simpl.
    + split; [done|]. rewrite Hw. destruct (NodeUrl.is_valid_uri_scheme sch); simpl in Hc; [left|by right].
      by apply andb_true_iff in Hc as [_ Hc%negb_true_iff].
    + apply orb_false_iff in Hc as [_ Hc].
      destruct (NodeUrl.build_seed_url sch h (Config.port config)) as [u|e] eqn:Hu; simpl.
      * split; [done|]. split; [by rewrite (seed_url_endpoint config sch h hs u)|].
        destruct (Config.http_client config); [left; eauto|right].
        by apply negb_false_iff.
      * rewrite Hs. split; [by left|done].
  - destruct (is_http sch) eqn:Hh; cbn [negb]; [|by split; auto].
    destruct (collect_results (seed_url config sch) (h :: hs)) as [urls|e] eqn:Hc; cbn [result_bind].
    + apply collect_results_Forall2 in Hc.
      assert (Hc' : Forall2 (λ h u, NodeUrl.build_seed_url sch h (Config.port config) = Ok u) (h :: hs) urls).
      { eapply Forall2_impl; [done|]. intros x y Hxy. by apply (map_err_Ok (InvalidSeedHost x)). }
      assert (He : is_Some (Config.endpoint_url config)).
      { inversion Hc'; subst. by erewrite seed_url_endpoint. }
      assert (Hne : sort_by_key as_str urls ≠ []).
      { intros Hn. apply (f_equal length) in Hn. rewrite length_sort_by_key in Hn.
        apply Forall2_length in Hc'. simpl in *. lia. }
      unfold DiscoveryHttp.build_discovery_http_client.
      destruct (Config.http_client config) as [c|] eqn:Hcl; simpl.
      * rewrite Hs, Hcl. do 7 (split; [done|]). split; [|by left; eauto].
        exists urls. split; [done|]. apply sort_by_key_Permutation.
      * pose proof (default_client_spec
          (from_option scheme EmptyString (head (sort_by_key as_str urls)))
          (default DISCOVERY_HTTP_OPERATION_TIMEOUT (Config.discovery_timeout config))) as Hd.
        destruct (DiscoveryHttp.build_default_discovery_http_client _ _) as [[client usable]|[]];
          simpl; try done.
        -- destruct Hd as [Hus Hd]. rewrite Hs. do 7 (split; [done|]). split.
           ++ exists urls. split; [done|]. apply sort_by_key_Permutation.
           ++ right. intros u Hu Hhttps. rewrite <-Hus. apply Hd. by rewrite Hu.
        -- rewrite Hcl. split; [by intros []|done].
        -- rewrite Hcl. split; [by intros []|done].
    + apply collect_results_Err in Hc as (x & Hx & Hux).
      unfold seed_url in Hux. apply map_err_Err in Hux as (e' & Hux & ->).
      simpl. by rewrite Hs.
Qed.

(** What discovery takes over from the configuration. *)
Lemma try_new_inputs config (now : Z) self m :
  try_new config now = Ok (Some (self, m)) →
  alternator_scheme (inputs m) = default "http" (Config.scheme config) ∧
  inputs_port (inputs m) = Config.port config ∧ affinity_nodes m = None.
Proof.
  unfold try_new. destruct (Config.seed_hosts config) as [[|h hs]|]; [done| |done].
  destruct (Config.without_discovery config); [by destruct (check_direct _ _ _)|].
  destruct (negb _); [done|]. destruct (collect_results _ _) as [urls|]; [|done]. cbn [result_bind].
  destruct (DiscoveryHttp.build_discovery_http_client _ _) as [[c b]|]; [|done]. by intros [= _ <-].
Qed.

End facts.
End LiveNodesBuildFacts.

(** ** Properties *)

Section properties.
Context `{UrlApi, Flate} {types : SdkTypes} {I : Type} {sdk : SdkApi I} {tls : TlsApi} {task : TaskApi}.
Import LiveNodesBuild LiveNodesBuildFacts.

(** Building the discovery state fails closed and starts from the seeds.  An
    error names what is wrong with the configuration; a success always comes
    with an SDK endpoint; with discovery off it needs a transport for the scheme
    and keeps no discovery state; with discovery on the membership is the
    non-empty set of URLs of the seed hosts, nothing has been started, and an
    [https] seed without a custom HTTP client has usable native roots. *)
Theorem try_new_outcome (config : AlternatorConfig) (now : Z) :
  outcome_ok config (try_new config now).
Proof. apply try_new_spec. Qed.

(** The configuration with other seed hosts, rebuilt. *)
Definition reseeded (seeds : list string) (config : AlternatorConfig) : AlternatorConfig :=
  Builder.build (Builder.set_seed_hosts seeds (Config.to_builder config)).

(** With discovery on, the order of the seed hosts does not matter: any
    permutation of them builds the same routing state, down to the order of the
    initial membership and the transport that is chosen. *)
Theorem seed_order_irrelevant {url_laws : UrlEqLaws} {sdk_laws : SdkLaws}
    (config : AlternatorConfig) (now : Z) (seeds : list string) r :
  default [] (Config.seed_hosts config) ≡ₚ seeds →
  try_new config now = Ok (Some r) → try_new (reseeded seeds config) now = Ok (Some r).
Proof.
  intros Hp. unfold try_new.
  change (Config.seed_hosts (reseeded seeds config)) with (Some seeds).
  change (Config.without_discovery (reseeded seeds config)) with (Config.without_discovery config).
  change (Config.scheme (reseeded seeds config)) with (Config.scheme config).
  set (sch := default "http" (Config.scheme config)).
  destruct (Config.seed_hosts config) as [[|h hs]|]; [done| |done]. simpl in Hp.
  destruct (Config.without_discovery config).
  { by destruct (check_direct config sch h). }
  destruct seeds as [|h' hs']; [by apply Permutation_nil_r in Hp|].
  destruct (is_http sch); cbn [negb]; [|done].
  destruct (collect_results (seed_url config sch) (h :: hs)) as [urls|] eqn:Hc; cbn [result_bind];
    [|done].
  destruct (collect_results_Permutation _ _ _ _ Hp Hc) as (urls' & Hc' & Hpu).
  change (seed_url (reseeded (h' :: hs') config) sch) with (seed_url config sch).
  rewrite Hc'. cbn [result_bind]. rewrite (sort_by_key_canonical as_str _ _ Hpu).
  assert (Hg : ∀ s, s ≠ SEndpointUrl → s ≠ SBehaviorVersion →
    sdk_get s (dynamodb_config (reseeded (h' :: hs') config)) = sdk_get s (dynamodb_config config)).
  { intros s H1 H2. unfold reseeded. rewrite ConfigFacts.build_other by done. apply get_to_builder. }
  unfold DiscoveryHttp.build_discovery_http_client, Config.http_client, Config.sleep_impl, Config.time_source.
  by rewrite !Hg by done.
Qed.

End properties.

(** ** Witnesses *)

Section witnesses.
Import LiveNodesBuild Builder.
#[local] Existing Instances StrUrl.api StrUrl.eq_laws MarkFlate.api ListTasks.api ListSdk.types.
#[local] Instance sdk0 : SdkApi unit := ListSdk.api unit.
#[local] Instance tls0 : TlsApi := ListTls.api (["broken"; "root"], []).

Definition two_seeds : AlternatorConfig :=
  build (set_port 8000%Z (set_seed_hosts ["node2"; "node1"] Config.builder)).

Definition built : LiveNodes * DiscoveryManager :=
  match try_new two_seeds 0 with
  | Ok (Some r) => r
  | _ => (mkHandle OrdinaryView Ordinary,
          new_manager two_seeds 0 "http" [] (Reqwest ([], 0%Z, 0%Z)) false)
  end.

Example built_seeds : seed_urls (inputs (snd built)) = ["http://node1:8000/"; "http://node2:8000/"].
Proof. vm_refl. Qed.

Lemma seed_order_irrelevant_witness :
  try_new (reseeded ["node1"; "node2"] two_seeds) 0 = Ok (Some built).
Proof.
  apply (seed_order_irrelevant (sdk_laws := ListSdk.laws unit) two_seeds 0 ["node1"; "node2"] built);
    [constructor|vm_refl].
Defined.

End witnesses.
