(* ===== verification/Validation.v ===== *)
(** * Validation without a panic (the adapters of [src/src/client.rs])

    The SDK's constructor validates the components of a configuration and turns
    an error into a panic.  [try_dynamodb_client_from_conf] puts an adapter in
    the place of the HTTP client, which validates the original components when
    the SDK asks it to, keeps the error and reports success; a second adapter
    keeps the SDK from validating the original identity cache once more.  At run
    time both delegate to the originals, and a final validation goes to the
    originals too, without touching a client that one operation brought along.

    The SDK's runtime components are a class.  Its validators get the components
    they belong to, so they see the adapters; the law that they cannot tell them
    from what the adapters stand for is [seen_through].  The SDK also has
    requirements of its own, which no adapter can answer for: a behavior version,
    and stalled stream protection that was not removed; [own_verdict] is what it
    says of a configuration by itself.  The theorems: the constructor panics
    exactly when the SDK refuses the configuration by itself, and otherwise fails
    with the verdict on the original components, exactly when the SDK would have
    panicked; and the adapters are transparent: connectors, identities and the
    final verdict are the originals'. *)

From S2P Require Import Prelude UrlApi NodeUrl RoutingScope Refresh Http Classifier.
From S2P Require Import OptimizeHeaders Compression Interceptors Sdk Config DiscoveryHttp.

(** [AlternatorClientBuildErrorKind]. *)
Inductive AlternatorClientBuildError `{TlsApi} : Type :=
| SdkConfiguration (message : string)
| TlsConfigurationError (message : string)
| DiscoveryConfiguration (message : string)
| LiveNodesError (source : LiveNodesBuildError).

(** What the adapters handle of the SDK's runtime. *)
Class SmithyTypes `{SdkTypes} := {
  (** All components but the HTTP client and the identity cache: in a builder
      and built. *)
  BuilderRest : Type;
  Rest : Type;
  ConfigBag : Type;
  HttpConnectorSettings : Type;
  SharedHttpConnector : Type;
  ConnectorMetadata : Type;
  SharedIdentityResolver : Type;
  IdentityFuture : Type;
  ProxyConfig : Type;
}.

(** [RuntimeComponentsBuilder] and [RuntimeComponents]. *)
Record RuntimeComponentsBuilder `{SmithyTypes} := mkComponentsBuilder {
  builder_http_client : option SharedHttpClient;
  builder_identity_cache : option SharedIdentityCache;
  builder_rest : BuilderRest;
}.
Record RuntimeComponents `{SmithyTypes} := mkComponents {
  components_http_client : option SharedHttpClient;
  components_identity_cache : SharedIdentityCache;
  components_rest : Rest;
}.

(** [ConnectorBuilder], as [sdk_http_client] fills it. *)
Record ConnectorBuilder `{SmithyTypes} := mkConnector {
  connector_settings : option HttpConnectorSettings;
  connector_sleep_impl : option SharedAsyncSleep;
  connector_proxy : ProxyConfig;
  (** Rustls with aws-lc, or plain HTTP. *)
  connector_tls : bool;
}.

(** A validation succeeds or fails with an error, seen through [to_string]. *)
Abbreviation Checked := (Result unit string).

Class SmithyApi `{SmithyTypes} {I : Type} {sdk : SdkApi I} := {
  (** What is not the driver's: the traits of a client and of a cache. *)
  foreign_http_connector :
    ForeignHttpClient → HttpConnectorSettings → RuntimeComponents → SharedHttpConnector;
  foreign_connector_metadata : ForeignHttpClient → option ConnectorMetadata;
  foreign_http_base : ForeignHttpClient → RuntimeComponentsBuilder → ConfigBag → Checked;
  foreign_http_final : ForeignHttpClient → RuntimeComponents → ConfigBag → Checked;
  foreign_resolve :
    ForeignIdentityCache → SharedIdentityResolver → RuntimeComponents → ConfigBag → IdentityFuture;
  foreign_cache_base : ForeignIdentityCache → RuntimeComponentsBuilder → ConfigBag → Checked;
  foreign_cache_final : ForeignIdentityCache → RuntimeComponents → ConfigBag → Checked;
  (** [IdentityCache::lazy().build()]. *)
  lazy_identity_cache : ForeignIdentityCache;
  (** [to_builder] and [build], on the other components. *)
  rest_to_builder : Rest → BuilderRest;
  rest_build : BuilderRest → Result Rest string;
  rest_sleep_impl : Rest → option SharedAsyncSleep;
  (** [validate_base_client_config] and [validate_final_config] of the
      components, given what the HTTP client and the identity cache say. *)
  base_verdict : BuilderRest → ConfigBag → option Checked → option Checked → Checked;
  final_verdict : Rest → ConfigBag → option Checked → Checked → Checked;
  (** What [Client::from_conf] assembles from a configuration, besides its HTTP
      client and its identity cache. *)
  assembled_rest : SdkConfig → BuilderRest;
  assembled_bag : SdkConfig → ConfigBag;
  (** [Builder::build_with_connector_fn], and building a connector. *)
  build_with_connector_fn :
    (option HttpConnectorSettings → option RuntimeComponents → ConnectorBuilder) → ForeignHttpClient;
  proxy_from_env : ProxyConfig;
}.

Module Validation.
Section validation.
Context `{smithy : SmithyApi} {tls : TlsApi}.
Implicit Types (self : SdkConfigValidation) (h : SharedHttpClient) (c : SharedIdentityCache).
Implicit Types (b : RuntimeComponentsBuilder) (rc : RuntimeComponents) (bag : ConfigBag).

Definition validation_http_client self : SharedHttpClient :=
  match self with mkValidation h _ => h end.
Definition validation_identity_cache self : SharedIdentityCache :=
  match self with mkValidation _ c => c end.

(** [RuntimeComponents::to_builder] and [RuntimeComponentsBuilder::build]. *)
Definition to_builder rc : RuntimeComponentsBuilder :=
  mkComponentsBuilder _ _ (components_http_client rc) (Some (components_identity_cache rc))
    (rest_to_builder (components_rest rc)).
Definition set_http_client (h : option SharedHttpClient) b : RuntimeComponentsBuilder :=
  mkComponentsBuilder _ _ h (builder_identity_cache b) (builder_rest b).
Definition set_identity_cache (c : option SharedIdentityCache) b : RuntimeComponentsBuilder :=
  mkComponentsBuilder _ _ (builder_http_client b) c (builder_rest b).
Definition build b : Result RuntimeComponents string :=
  result_bind (rest_build (builder_rest b)) (λ rest,
  match builder_identity_cache b with
  | Some cache => Ok (mkComponents _ _ (builder_http_client b) cache rest)
  | None => Err "the `identity_cache` runtime component is required"
  end).

(** ** The connector ([HttpClient] and [ResolveCachedIdentity] at run time) *)

Fixpoint http_connector h (settings : HttpConnectorSettings) rc : SharedHttpConnector :=
  match h with
  | ForeignHttp f => foreign_http_connector f settings rc
  | ValidatingHttp (mkValidation http_client _) => http_connector http_client settings rc
  | UnvalidatedHttpClient inner => http_connector inner settings rc
  end.
Fixpoint connector_metadata h : option ConnectorMetadata :=
  match h with
  | ForeignHttp f => foreign_connector_metadata f
  | ValidatingHttp (mkValidation http_client _) => connector_metadata http_client
  | UnvalidatedHttpClient inner => connector_metadata inner
  end.
Fixpoint resolve_cached_identity c (resolver : SharedIdentityResolver) rc bag : IdentityFuture :=
  match c with
  | ForeignCache f => foreign_resolve f resolver rc bag
  | ValidatedIdentityCache (mkValidation _ identity_cache) =>
      resolve_cached_identity identity_cache resolver rc bag
  | UnvalidatedIdentityCache inner => resolve_cached_identity inner resolver rc bag
  end.

(** ** Validation of the base configuration

    Only foreign components speak for themselves: the adapter always reports
    success, and the other wrappers leave the trait's default, which does. *)

Definition http_validate_base h b bag : Checked :=
  match h with
  | ForeignHttp f => foreign_http_base f b bag
  | ValidatingHttp _ | UnvalidatedHttpClient _ => Ok tt
  end.
Definition cache_validate_base c b bag : Checked :=
  match c with
  | ForeignCache f => foreign_cache_base f b bag
  | ValidatedIdentityCache _ | UnvalidatedIdentityCache _ => Ok tt
  end.
Definition components_validate_base b bag : Checked :=
  base_verdict (builder_rest b) bag
    ((λ h, http_validate_base h b bag) <$> builder_http_client b)
    ((λ c, cache_validate_base c b bag) <$> builder_identity_cache b).

(** [restore_base_components]. *)
Definition restore_base_components self b : RuntimeComponentsBuilder :=
  set_identity_cache (Some (validation_identity_cache self))
    (set_http_client (Some (validation_http_client self)) b).

(** [record_error]: the first error stays. *)
Definition record_error (error : string) (cell : option string) : option string :=
  match cell with Some first => Some first | None => Some error end.

(** [validate_base_client_config] of the adapter, with its error cell. *)
Definition validate_base_client_config self b bag (cell : option string)
    : Checked * option string :=
  match components_validate_base (restore_base_components self b) bag with
  | Err error => (Ok tt, record_error error cell)
  | Ok _ => (Ok tt, cell)
  end.

(** ** Validation of the final configuration of an operation *)

(** [validate_http_final_config]: the original HTTP client, with the cache the
    operation uses left out of it. *)
Fixpoint http_validate_final h rc bag : Checked :=
  match h with
  | ForeignHttp f => foreign_http_final f rc bag
  | UnvalidatedHttpClient _ => Ok tt
  | ValidatingHttp (mkValidation http_client _) =>
      let cache := UnvalidatedIdentityCache (components_identity_cache rc) in
      result_bind
        (build (set_identity_cache (Some cache) (set_http_client (Some http_client) (to_builder rc))))
        (λ components,
           final_verdict (components_rest components) bag
             (Some (http_validate_final http_client components bag)) (Ok tt))
  end.

(** [validate_identity_cache_final_config]: symmetrically. *)
Fixpoint cache_validate_final c rc bag : Checked :=
  match c with
  | ForeignCache f => foreign_cache_final f rc bag
  | UnvalidatedIdentityCache _ => Ok tt
  | ValidatedIdentityCache (mkValidation _ identity_cache) =>
      let components := to_builder rc in
      let components :=
        match components_http_client rc with
        | Some http_client =>
            set_http_client (Some (UnvalidatedHttpClient http_client)) components
        | None => components
        end in
      result_bind (build (set_identity_cache (Some identity_cache) components))
        (λ components,
           final_verdict (components_rest components) bag
             ((λ _, Ok tt) <$> components_http_client components)
             (cache_validate_final identity_cache components bag))
  end.

Definition components_validate_final rc bag : Checked :=
  final_verdict (components_rest rc) bag
    ((λ h, http_validate_final h rc bag) <$> components_http_client rc)
    (cache_validate_final (components_identity_cache rc) rc bag).

(** ** Construction *)

(** The components [Client::from_conf] validates; its plugin for defaults
    supplies the lazy cache when none is set. *)
Definition base_components (config : SdkConfig) : RuntimeComponentsBuilder :=
  mkComponentsBuilder _ _ (sdk_get SHttpClient config)
    (Some (default (ForeignCache lazy_identity_cache) (sdk_get SIdentityCache config)))
    (assembled_rest config).

(** [Client::from_conf]: [None] is its panic. *)
Definition sdk_client_from_conf (config : SdkConfig) : option SdkConfig :=
  match components_validate_base (base_components config) (assembled_bag config) with
  | Ok _ => Some config
  | Err _ => None
  end.

(** The configuration with both adapters in place. *)
Definition adapted (validation : SdkConfigValidation) (config : SdkConfig) : SdkConfig :=
  sdk_build
    (sdk_set SIdentityCache (Some (ValidatedIdentityCache validation))
      (sdk_set SHttpClient (Some (ValidatingHttp validation)) (sdk_to_builder config))).

(** [try_dynamodb_client_from_conf]: an SDK client is determined by the
    configuration it is built from, so it is that configuration.  The error cell
    is what the SDK's one call of the adapter leaves in it. *)
Definition try_dynamodb_client_from_conf (config : SdkConfig)
    : option (Result SdkConfig AlternatorClientBuildError) :=
  match sdk_get SHttpClient config with
  | None => Some (Err (SdkConfiguration "no HTTP client was selected"))
  | Some http_client =>
      let identity_cache :=
        default (ForeignCache lazy_identity_cache) (sdk_get SIdentityCache config) in
      let validation := mkValidation http_client identity_cache in
      let config := adapted validation config in
      client ← sdk_client_from_conf config;
      let '(_, error) :=
        validate_base_client_config validation (base_components config) (assembled_bag config) None in
      Some (match error with
            | Some message => Err (SdkConfiguration message)
            | None => Ok client
            end)
  end.

(** [sdk_http_client]. *)
Definition sdk_http_client (use_tls : bool) : SharedHttpClient :=
  ForeignHttp (build_with_connector_fn (λ settings runtime_components,
    mkConnector _ _ settings (runtime_components ≫= (λ rc, rest_sleep_impl (components_rest rc)))
      proxy_from_env use_tls)).

(** ** What the adapters stand for *)

Fixpoint original_http h : ForeignHttpClient :=
  match h with
  | ForeignHttp f => f
  | ValidatingHttp (mkValidation http_client _) => original_http http_client
  | UnvalidatedHttpClient inner => original_http inner
  end.
Fixpoint original_cache c : ForeignIdentityCache :=
  match c with
  | ForeignCache f => f
  | ValidatedIdentityCache (mkValidation _ identity_cache) => original_cache identity_cache
  | UnvalidatedIdentityCache inner => original_cache inner
  end.

(** Components are the same when the originals are. *)
Definition components_same rc rc' : Prop :=
  original_http <$> components_http_client rc = original_http <$> components_http_client rc' ∧
  original_cache (components_identity_cache rc) = original_cache (components_identity_cache rc') ∧
  components_rest rc = components_rest rc'.
#[global] Instance components_equiv : Equiv RuntimeComponents := components_same.
#[global] Instance components_equivalence : Equivalence (≡@{RuntimeComponents}).
Proof.
  split.
  - by intros rc.
  - intros rc rc' (? & ? & ?). by repeat split.
  - intros rc1 rc2 rc3 (? & ? & ?) (? & ? & ?). repeat split; congruence.
Qed.

(** What the SDK says of a configuration by itself, when neither the HTTP client
    nor the identity cache objects. *)
Definition own_verdict (config : SdkConfig) : Checked :=
  base_verdict (assembled_rest config) (assembled_bag config) (Some (Ok tt)) (Some (Ok tt)).

(** The verdict of the SDK on the components a configuration was made of. *)
Definition sdk_validate (config : SdkConfig) : option string :=
  match components_validate_base (base_components config) (assembled_bag config) with
  | Ok _ => None
  | Err message => Some message
  end.

End validation.
End Validation.

(** What the SDK promises of validation. *)
Class SmithyLaws `{smithy : SmithyApi} {laws : SdkLaws} : Prop := {
  (** The SDK asks for a behavior version and does without the stalled stream
      protection only when it was disabled, not removed; what else the driver's
      configuration exposes it accepts. *)
  own_requirements : ∀ config,
    Validation.own_verdict config = Ok tt ↔
    is_Some (sdk_get SBehaviorVersion config) ∧ sdk_stalled_removed config = false;
  (** Components are accepted when each of them is. *)
  base_accepts : ∀ r bag h c,
    base_verdict r bag (Some h) (Some c) = Ok tt ↔
    base_verdict r bag (Some (Ok tt)) (Some (Ok tt)) = Ok tt ∧ h = Ok tt ∧ c = Ok tt;
  (** The other components do not depend on these two settings. *)
  assembled_frame : ∀ config config',
    (∀ s, s ≠ SHttpClient → s ≠ SIdentityCache → sdk_get s config = sdk_get s config') →
    (∀ l, sdk_get_all l config = sdk_get_all l config') →
    sdk_stalled_removed config = sdk_stalled_removed config' →
    assembled_rest config = assembled_rest config' ∧ assembled_bag config = assembled_bag config';
  rest_build_to_builder : ∀ r, rest_build (rest_to_builder r) = Ok r;
  (** The components are accepted when each of them is. *)
  final_accepts : ∀ r bag h c,
    final_verdict r bag h c = Ok tt ↔
    final_verdict r bag None (Ok tt) = Ok tt ∧ (∀ v, h = Some v → v = Ok tt) ∧ c = Ok tt;
  (** An adapter cannot be told from the original by what it does. *)
  seen_through_http : ∀ f, Proper ((≡) ==> (=) ==> (=)) (foreign_http_final f);
  seen_through_cache : ∀ f, Proper ((≡) ==> (=) ==> (=)) (foreign_cache_final f);
  seen_through_connector : ∀ f settings, Proper ((≡) ==> (=)) (foreign_http_connector f settings);
  seen_through_identity : ∀ f resolver, Proper ((≡) ==> (=) ==> (=)) (foreign_resolve f resolver);
}.

(** ** Lemmas *)

Module ValidationFacts.
Import Validation.
Section facts.
Context `{smithy_laws : SmithyLaws} {tls : TlsApi}.
Implicit Types (self : SdkConfigValidation) (config : SdkConfig).
Implicit Types (rc : RuntimeComponents) (bag : ConfigBag).

(** What the adapters are put over is all that changes. *)
Lemma adapted_get v config s :
  s ≠ SHttpClient → s ≠ SIdentityCache → sdk_get s (adapted v config) = sdk_get s config.
Proof.
  intros H1 H2. unfold adapted. rewrite !get_set_other by congruence. apply get_to_builder.
Qed.
Lemma adapted_get_all v config l : sdk_get_all l (adapted v config) = sdk_get_all l config.
Proof. unfold adapted. rewrite !get_all_set. apply get_all_to_builder. Qed.
Lemma adapted_http v config :
  sdk_get SHttpClient (adapted v config) = Some (ValidatingHttp v).
Proof.
  unfold adapted. rewrite get_set_other by done. apply (get_set_some SHttpClient).
Qed.
Lemma adapted_cache v config :
  sdk_get SIdentityCache (adapted v config) = Some (ValidatedIdentityCache v).
Proof. apply (get_set_some SIdentityCache). Qed.

Lemma adapted_stalled v config : sdk_stalled_removed (adapted v config) = sdk_stalled_removed config.
Proof. unfold adapted. rewrite !stalled_set_other by done. apply stalled_to_builder. Qed.

Lemma adapted_rest v config :
  assembled_rest (adapted v config) = assembled_rest config ∧
  assembled_bag (adapted v config) = assembled_bag config.
Proof.
  apply assembled_frame;
    [intros; by apply adapted_get|intros; apply adapted_get_all|apply adapted_stalled].
Qed.

(** The components the constructor gives the SDK. *)
Lemma base_components_adapted v config :
  base_components (adapted v config) =
  mkComponentsBuilder _ _ (Some (ValidatingHttp v)) (Some (ValidatedIdentityCache v))
    (assembled_rest config).
Proof.
  unfold base_components. rewrite adapted_http, adapted_cache. by destruct (adapted_rest v config) as [-> _].
Qed.

(** The SDK is left with its own requirements of them. *)
Lemma adapted_accepted v config :
  sdk_client_from_conf (adapted v config) =
  match own_verdict config with Ok _ => Some (adapted v config) | Err _ => None end.
Proof.
  unfold sdk_client_from_conf. rewrite base_components_adapted.
  by destruct (adapted_rest v config) as [_ ->].
Qed.

(** What the SDK refuses by itself it refuses with any components. *)
Lemma own_refused config e :
  own_verdict config = Err e → sdk_get SHttpClient config ≠ None → sdk_client_from_conf config = None.
Proof.
  intros He Hh. unfold sdk_client_from_conf, base_components, components_validate_base. simpl.
  destruct (sdk_get SHttpClient config); [|done]. simpl. set (r := base_verdict _ _ _ _).
  destruct r as [[]|] eqn:Hr; [|done]. subst r. apply base_accepts in Hr as [Ho _].
  unfold own_verdict in He. by rewrite Ho in He.
Qed.

(** The adapters of a configuration with the HTTP client [h]. *)
Definition validation_of (h : SharedHttpClient) config : SdkConfigValidation :=
  mkValidation h (default (ForeignCache lazy_identity_cache) (sdk_get SIdentityCache config)).

Lemma try_dynamodb_client_spec config h :
  sdk_get SHttpClient config = Some h →
  try_dynamodb_client_from_conf config =
  match own_verdict config with
  | Err _ => None
  | Ok _ =>
      Some (match sdk_validate config with
            | Some message => Err (SdkConfiguration message)
            | None => Ok (adapted (validation_of h config) config)
            end)
  end.
Proof.
  intros Hh. unfold try_dynamodb_client_from_conf. rewrite Hh. fold (validation_of h config).
  rewrite adapted_accepted. destruct (own_verdict config) as [|e]; [|done]. simpl. unfold validate_base_client_config.
  rewrite base_components_adapted. destruct (adapted_rest (validation_of h config) config) as [_ ->].
  assert (restore_base_components (validation_of h config)
    (mkComponentsBuilder _ _ (Some (ValidatingHttp (validation_of h config)))
       (Some (ValidatedIdentityCache (validation_of h config))) (assembled_rest config)) =
    base_components config) as ->.
  { unfold restore_base_components, base_components. simpl. by rewrite Hh. }
  unfold sdk_validate. by destruct (components_validate_base _ _).
Qed.

(** ** The final configuration *)

Lemma build_to_builder h c rc :
  build (set_identity_cache (Some c) (set_http_client h (to_builder rc))) =
  Ok (mkComponents _ _ h c (components_rest rc)).
Proof. unfold build, to_builder. simpl. by rewrite rest_build_to_builder. Qed.

(** A fixed client and cache are accepted when their originals and the rest are:
    the wrappers that are only there to be skipped do not count. *)
Lemma http_validate_final_adapter h c rc bag :
  http_validate_final (ValidatingHttp (mkValidation h c)) rc bag = Ok tt ↔
  final_verdict (components_rest rc) bag None (Ok tt) = Ok tt ∧
  http_validate_final h
    (mkComponents _ _ (Some h) (UnvalidatedIdentityCache (components_identity_cache rc))
       (components_rest rc)) bag = Ok tt.
Proof.
  simpl. rewrite build_to_builder. simpl. rewrite final_accepts. naive_solver.
Qed.

Lemma cache_validate_final_adapter h c rc bag :
  cache_validate_final (ValidatedIdentityCache (mkValidation h c)) rc bag = Ok tt ↔
  final_verdict (components_rest rc) bag None (Ok tt) = Ok tt ∧
  cache_validate_final c
    (mkComponents _ _ (UnvalidatedHttpClient <$> components_http_client rc) c
       (components_rest rc)) bag = Ok tt.
Proof.
  simpl. destruct (components_http_client rc) as [h'|] eqn:Hh; simpl.
  - rewrite build_to_builder. simpl. rewrite final_accepts. naive_solver.
  - assert (to_builder rc = set_http_client None (to_builder rc)) as ->.
    { unfold to_builder, set_http_client. simpl. by rewrite Hh. }
    rewrite build_to_builder. simpl. rewrite final_accepts. naive_solver.
Qed.

(** Verdicts do not tell adapters from originals. *)
Lemma http_validate_final_same h rc rc' bag :
  rc ≡ rc' → http_validate_final h rc bag = Ok tt ↔ http_validate_final h rc' bag = Ok tt.
Proof.
  revert rc rc'. revert h. fix IH 1. intros [f|[h c]|inner] rc rc' Hrc.
  - simpl. by rewrite (seen_through_http f _ _ Hrc _ _ eq_refl).
  - rewrite !http_validate_final_adapter. destruct Hrc as (_ & Hc & Hr). rewrite Hr.
    apply and_iff_compat_l. apply IH. repeat split. exact Hc.
  - done.
Qed.

Lemma cache_validate_final_same c rc rc' bag :
  rc ≡ rc' → cache_validate_final c rc bag = Ok tt ↔ cache_validate_final c rc' bag = Ok tt.
Proof.
  revert rc rc'. revert c. fix IH 1. intros [f|[h c]|inner] rc rc' Hrc.
  - simpl. by rewrite (seen_through_cache f _ _ Hrc _ _ eq_refl).
  - rewrite !cache_validate_final_adapter. destruct Hrc as (Hh & _ & Hr). rewrite Hr.
    apply and_iff_compat_l. apply IH. repeat split. simpl.
    by destruct (components_http_client rc), (components_http_client rc').
  - done.
Qed.

Lemma components_validate_final_spec h c rest bag :
  components_validate_final (mkComponents _ _ (Some h) c rest) bag = Ok tt ↔
  final_verdict rest bag None (Ok tt) = Ok tt ∧
  http_validate_final h (mkComponents _ _ (Some h) c rest) bag = Ok tt ∧
  cache_validate_final c (mkComponents _ _ (Some h) c rest) bag = Ok tt.
Proof. unfold components_validate_final. simpl. rewrite final_accepts. naive_solver. Qed.

(** The cache adapter, next to any client. *)
Lemma validated_cache_final h c h' c' rest bag :
  final_verdict rest bag None (Ok tt) = Ok tt →
  cache_validate_final (ValidatedIdentityCache (mkValidation h c))
    (mkComponents _ _ (Some h') c' rest) bag = Ok tt ↔
  cache_validate_final c (mkComponents _ _ (Some h') c rest) bag = Ok tt.
Proof.
  intros Hr. rewrite cache_validate_final_adapter. simpl.
  rewrite (cache_validate_final_same c _ (mkComponents _ _ (Some h') c rest)) by done. tauto.
Qed.

(** Delegation at run time. *)
Lemma http_connector_same h settings rc rc' :
  rc ≡ rc' → http_connector h settings rc = http_connector h settings rc'.
Proof.
  revert h. fix IH 1. intros [f|[h c]|inner] Hrc; simpl; [|by apply IH..].
  exact (seen_through_connector f settings _ _ Hrc).
Qed.
Lemma resolve_same c resolver rc rc' bag :
  rc ≡ rc' → resolve_cached_identity c resolver rc bag = resolve_cached_identity c resolver rc' bag.
Proof.
  revert c. fix IH 1. intros [f|[h c]|inner] Hrc; simpl; [|by apply IH..].
  exact (seen_through_identity f resolver _ _ Hrc _ _ eq_refl).
Qed.

End facts.
End ValidationFacts.

(** ** Properties *)

Section properties.
Context `{smithy_laws : SmithyLaws} {tls : TlsApi}.
Import Validation ValidationFacts.
Implicit Types (config : SdkConfig).

(** C30: validation without a panic: a configuration without an HTTP client is
    refused with an error.  With one, the constructor panics exactly when the SDK
    refuses the configuration by itself, whatever the HTTP client and the identity
    cache say, and then the SDK's own constructor panics too.  Otherwise it
    returns: an error exactly when the SDK's constructor would panic over the
    original components, with the SDK's message about them, or a client that has
    both adapters and every other setting unchanged. *)
Theorem validation_captured config :
  match sdk_get SHttpClient config with
  | None =>
      try_dynamodb_client_from_conf config =
        Some (Err (SdkConfiguration "no HTTP client was selected"))
  | Some h =>
      match own_verdict config with
      | Err _ => try_dynamodb_client_from_conf config = None ∧ sdk_client_from_conf config = None
      | Ok _ => ∃ r, try_dynamodb_client_from_conf config = Some r ∧
          match r with
          | Err (SdkConfiguration message) =>
              sdk_client_from_conf config = None ∧
              components_validate_base (base_components config) (assembled_bag config) = Err message
          | Err _ => False
          | Ok client =>
              sdk_client_from_conf config = Some config ∧
              client = adapted (validation_of h config) config ∧
              (∀ s, s ≠ SHttpClient → s ≠ SIdentityCache → sdk_get s client = sdk_get s config) ∧
              (∀ l, sdk_get_all l client = sdk_get_all l config)
          end
      end
  end.
Proof.
  destruct (sdk_get SHttpClient config) as [h|] eqn:Hh; cycle 1.
  { unfold try_dynamodb_client_from_conf. by rewrite Hh. }
  rewrite (try_dynamodb_client_spec config h Hh).
  destruct (own_verdict config) as [[]|e] eqn:Ho.
  2: { split; [done|]. eapply own_refused; [done|by rewrite Hh]. }
  eexists. split; [done|]. unfold sdk_validate, sdk_client_from_conf.
  destruct (components_validate_base _ _) as [|message]; [|done].
  split_and!; [done|done| |]; intros; [by apply adapted_get|apply adapted_get_all].
Qed.

(** C31: the adapters are transparent: an operation with them passes its final
    validation exactly when it would with the originals, and with a client of its
    own exactly when that client and the original cache do; its connectors, their
    metadata and its identities are the originals'. *)
Theorem adapters_transparent (h : SharedHttpClient) (c : SharedIdentityCache) (rest : Rest)
    (bag : ConfigBag) :
  let v := mkValidation h c in
  let original := mkComponents _ _ (Some h) c rest in
  let wrapped := mkComponents _ _ (Some (ValidatingHttp v)) (ValidatedIdentityCache v) rest in
  (components_validate_final wrapped bag = Ok tt ↔ components_validate_final original bag = Ok tt) ∧
  (∀ h', components_validate_final
           (mkComponents _ _ (Some h') (ValidatedIdentityCache v) rest) bag = Ok tt ↔
         components_validate_final (mkComponents _ _ (Some h') c rest) bag = Ok tt) ∧
  (∀ settings, http_connector (ValidatingHttp v) settings wrapped = http_connector h settings original) ∧
  connector_metadata (ValidatingHttp v) = connector_metadata h ∧
  (∀ resolver, resolve_cached_identity (ValidatedIdentityCache v) resolver wrapped bag =
               resolve_cached_identity c resolver original bag).
Proof.
  intros v original wrapped. subst v. assert (Hsame : wrapped ≡ original) by done.
  split_and!; [|intros h'|intros settings|done|intros resolver].
  - unfold wrapped, original. rewrite !components_validate_final_spec.
    destruct (decide (final_verdict rest bag None (Ok tt) = Ok tt)) as [Hr|Hr]; [|tauto].
    rewrite validated_cache_final by done. rewrite http_validate_final_adapter. simpl.
    rewrite (http_validate_final_same h _ original) by done.
    rewrite (cache_validate_final_same c _ original) by done. tauto.
  - rewrite !components_validate_final_spec. split.
    + intros (Hr & Hh & Hc). rewrite validated_cache_final in Hc by done.
      split_and!; [done| |done]. by eapply http_validate_final_same, Hh.
    + intros (Hr & Hh & Hc). split_and!; [done|by eapply http_validate_final_same, Hh|].
      by rewrite validated_cache_final.
  - by apply (http_connector_same h).
  - by apply (resolve_same c).
Qed.

End properties.

(** ** A runtime whose validators look at names, for the witnesses *)

Module ListSmithy.

#[export] Instance types : SmithyTypes (H := ListSdk.types) := {|
  BuilderRest := unit; Rest := unit; ConfigBag := option string; HttpConnectorSettings := string;
  SharedHttpConnector := string * string; ConnectorMetadata := string;
  SharedIdentityResolver := string; IdentityFuture := string * string; ProxyConfig := string;
|}.

(** What the SDK says of its own requirements. *)
Definition MISSING_BEHAVIOR : string := "a behavior version must be set".
Definition MISSING_PROTECTION : string := "the default stalled stream protection was removed".

(** Transports and caches by their names. *)
Definition http (name : string) : @SharedHttpClient ListSdk.types :=
  @ForeignHttp ListSdk.types name.
Definition cache (name : string) : @SharedIdentityCache ListSdk.types :=
  @ForeignCache ListSdk.types name.

Definition accepts (what name : string) : Checked :=
  if decide (name = "broken") then Err (what +:+ " is broken") else Ok tt.

Section list_smithy.
Context (I : Type).
#[local] Existing Instance ListSdk.types.

#[export] Instance api : @SmithyApi ListSdk.types types I (ListSdk.api I) := {|
  foreign_http_connector (f : @ForeignHttpClient ListSdk.types)
    (settings : @HttpConnectorSettings ListSdk.types types) _ := (f : string, settings : string) : string * string;
  foreign_connector_metadata f := Some f;
  foreign_http_base f _ _ := accepts "http client" f;
  foreign_http_final f _ _ := accepts "http client" f;
  foreign_resolve f resolver _ _ := (f : string, resolver : string) : string * string;
  foreign_cache_base f _ _ := accepts "identity cache" f;
  foreign_cache_final f _ _ := accepts "identity cache" f;
  lazy_identity_cache := "lazy" : ForeignIdentityCache;
  rest_to_builder r := r;
  rest_build r := Ok r;
  rest_sleep_impl _ := None;
  base_verdict _ (bag : @ConfigBag ListSdk.types types) h c :=
    match (bag : option string), h with
    | Some e, _ => Err e
    | None, Some (Err e) => Err e
    | None, _ => match c with Some (Err e) => Err e | _ => Ok tt end
    end;
  final_verdict _ _ h c := match h with Some (Err e) => Err e | _ => c end;
  assembled_rest _ := tt;
  assembled_bag c :=
    (if sdk_stalled_removed c then Some MISSING_PROTECTION
     else match sdk_get SBehaviorVersion c with Some _ => None | None => Some MISSING_BEHAVIOR end)
    : option string;
  build_with_connector_fn f :=
    (if connector_tls (f None None) then "tls" else "plaintext") : ForeignHttpClient;
  proxy_from_env := "no proxy";
|}.

#[export] Instance laws : SmithyLaws (smithy := api) (laws := ListSdk.laws I).
Proof.
  split; try done.
  - intros config. unfold Validation.own_verdict. simpl.
    destruct (ListSdk.removed _ config), (ListSdk.values _ config SBehaviorVersion); simpl;
      split; try done; [by intros [_ ?]|by intros [_ ?]|by intros [[? ?] _]].
  - intros [] [e|] [[]|e'] [[]|e'']; simpl; naive_solver.
  - intros c c' Hs _ Hr. split; [done|]. simpl in *. by rewrite Hr, (Hs SBehaviorVersion).
  - intros [] bag [[[]|e]|] c; simpl; naive_solver.
Qed.
End list_smithy.
End ListSmithy.

(** ** Witnesses *)

Section witnesses.
Import Validation.
#[local] Existing Instances ListSdk.types ListSmithy.types.
#[local] Instance sdk0 : SdkApi unit := ListSdk.api unit.
#[local] Instance smithy0 : SmithyApi := ListSmithy.api unit.
#[local] Instance tls0 : TlsApi := ListTls.api ([], []).

(** A working transport, and an identity cache that cannot be used. *)
Definition versioned : SdkBuilder :=
  sdk_set SBehaviorVersion (Some v2026_01_12) (sdk_set SHttpClient (Some (ListSmithy.http "tls")) builder_default).
Definition broken_cache : SdkConfig :=
  sdk_build (sdk_set SIdentityCache (Some (ListSmithy.cache "broken")) versioned).

Example broken_cache_refused :
  try_dynamodb_client_from_conf broken_cache =
  Some (Err (SdkConfiguration "identity cache is broken")).
Proof. vm_refl. Qed.

(** Without a behavior version, or with the protection removed, both constructors
    panic. *)
Example unversioned_panics :
  let c := sdk_build (sdk_set SHttpClient (Some (ListSmithy.http "tls")) builder_default) in
  try_dynamodb_client_from_conf c = None ∧ sdk_client_from_conf c = None.
Proof. split; vm_refl. Qed.
Example unprotected_panics :
  let c := sdk_build (sdk_set SStalledStreamProtection None versioned) in
  try_dynamodb_client_from_conf c = None ∧ sdk_client_from_conf c = None.
Proof. split; vm_refl. Qed.

Lemma validation_captured_witness :
  ∃ r, try_dynamodb_client_from_conf broken_cache = Some r ∧
    match r with
    | Err (SdkConfiguration message) => sdk_client_from_conf broken_cache = None
    | _ => False
    end.
Proof.
  pose proof (validation_captured (smithy_laws := ListSmithy.laws unit) broken_cache) as Hv.
  simpl in Hv. destruct Hv as (r & Hr & Hspec). exists r. split; [exact Hr|].
  destruct r as [client|[message| | |]]; [|exact (proj1 Hspec)|exact Hspec..].
  exfalso. destruct Hspec as [Hc _]. discriminate Hc.
Defined.

(** An operation that brings a broken transport along is refused, through the
    adapters too. *)
Lemma adapters_transparent_witness :
  components_validate_final
    (mkComponents _ _ (Some (ListSmithy.http "broken"))
       (ValidatedIdentityCache (mkValidation (ListSmithy.http "tls") (ListSmithy.cache "lazy"))) tt) None ≠ Ok tt.
Proof.
  destruct (adapters_transparent (smithy_laws := ListSmithy.laws unit)
    (ListSmithy.http "tls") (ListSmithy.cache "lazy") tt None) as (_ & Ho & _).
  intros Hok. apply Ho in Hok. discriminate Hok.
Defined.

End witnesses.
