(* ===== verification/Client.v ===== *)
(** * The client ([src/src/client.rs])

    [try_from_conf] checks the configuration, completes the SDK's builder
    (credentials or the no-auth scheme, the driver's interceptor, a transport, a
    region, the routing interceptor) and owns the discovery state.  An SDK
    client is determined by the configuration it is built from, so it is that
    configuration here; what the SDK's own validation says of a configuration is
    an interface, as are the runtime clock and the connector builder.

    The theorems: a configuration that the builder put together never makes
    construction panic; when it fails, and with what, down to which of the
    configurations given to the SDK was refused; a client sends unsigned requests exactly when it was asked to or has
    no credentials and none are required; its interceptors, its transport and
    its partition-key client are the ones the routing configuration calls for;
    discovery runs when construction returns on a runtime; and after [shutdown]
    or the last drop every task set is closed. *)

From S2P Require Import Prelude UrlApi NodeUrl RoutingScope LiveNodes Refresh DiscoveryTasks.
From S2P Require Import Http Classifier Resolver OptimizeHeaders Compression Interceptors Sdk Config.
From S2P Require Import DiscoveryHttp DiscoveryOwner LiveNodesBuild Validation.

(** A shared interceptor: the user's, or one of the driver's.  The routing
    interceptors share the client's routing state through their handles, the
    affinity interceptor also the client's resolver. *)
Inductive SharedInterceptor `{Flate} {U : Type} : Type :=
| UserInterceptor (u : U)
| DriverInterceptor (i : AlternatorInterceptor)
| RoundRobinRouting (nodes : LiveNodes)
| AffinityRouting (cfg : KeyRouteAffinityConfig) (nodes affinity_nodes : LiveNodes).
Arguments SharedInterceptor {_} U.

(** What construction uses of the runtime clock and the timeouts. *)
Class ClientApi `{SdkTypes} := {
  (** [Instant::now().checked_add(timeout)]. *)
  instant_checked_add : Z → Z → option Z;
  (** The builder of timeouts. *)
  timeouts_default : TimeoutConfig;
  operation_timeout : Z → TimeoutConfig → TimeoutConfig;
  operation_attempt_timeout : Z → TimeoutConfig → TimeoutConfig;
}.

(** The partition-key resolver with its client and its deadline. *)
Record PartitionKeys `{TaskApi} {C : Type} := mkPartitionKeys {
  pk_resolver : PartitionKeyResolver;
  pk_discovery_client : C;
  pk_timeout : option Z;
}.
Arguments PartitionKeys {_} C.

(** [ClientDiscovery]; the topology has at most one entry. *)
Record ClientDiscovery `{UrlApi, TaskApi, SdkTypes, TlsApi} {C : Type} := mkDiscovery {
  topology : list (LiveNodes * DiscoveryManager);
  partition_keys : option (PartitionKeys C);
}.
Arguments ClientDiscovery {_ _ _ _} C.

(** [AlternatorClient]. *)
Record AlternatorClient `{UrlApi, TaskApi, Flate, TlsApi} {types : SdkTypes} {I : Type} {sdk : SdkApi I} :=
  mkClient {
  dynamodb_client : SdkConfig;
  client_config : AlternatorConfig;
  discovery : ClientDiscovery SdkConfig;
}.

Definition STALLED_STREAM_MESSAGE : string :=
  "The default stalled stream protection config was removed, and no other config was put in its place.".
Definition DISCOVERY_TIMEOUT_MESSAGE : string :=
  "discovery_timeout must be positive and fit the runtime clock".

Module Discovery.
Section discovery.
Context `{UrlApi, TaskApi, SdkTypes, TlsApi} {C : Type}.

(** [stop], which is also what dropping the last owner does. *)
Definition stop (d : ClientDiscovery C) : ClientDiscovery C :=
  mkDiscovery _ _ _ _ _
    ((λ '(h, m), (h, Manager.set_tasks (Tasks.stop (manager_tasks m)) m)) <$> topology d)
    ((λ p, mkPartitionKeys _ _ (Resolver.set_owned (Tasks.stop (owned (pk_resolver p))) (pk_resolver p))
             (pk_discovery_client p) (pk_timeout p)) <$> partition_keys d).

(** [shutdown] returns once every task set it waits for is closed and empty. *)
Definition shutdown_returns (d : ClientDiscovery C) : bool :=
  forallb (λ '(_, m), Tasks.shutdown_returns (manager_tasks m)) (topology d) &&
  from_option (λ p, Tasks.shutdown_returns (owned (pk_resolver p))) true (partition_keys d).

End discovery.
End Discovery.

Module Client.
Section client.
Context `{UrlApi, Flate, TaskApi} {types : SdkTypes} {tls : TlsApi} {U : Type}.
Context {sdk : SdkApi (SharedInterceptor U)} {stypes : SmithyTypes} {smithy : SmithyApi}.
Context {capi : ClientApi}.
Implicit Types (config : AlternatorConfig) (builder : SdkBuilder).

(** ** Validation *)

Definition validate_sdk_default_config (stalled_stream_protection_explicitly_unset : bool)
    : Result unit AlternatorClientBuildError :=
  if stalled_stream_protection_explicitly_unset then Err (SdkConfiguration STALLED_STREAM_MESSAGE)
  else Ok tt.

(** The check of the discovery deadline. *)
Definition check_discovery_timeout config (now : Z) : Result unit AlternatorClientBuildError :=
  match Config.discovery_timeout config with
  | Some timeout =>
      if bool_decide (timeout = 0%Z)
         || match instant_checked_add now timeout with Some _ => false | None => true end
      then Err (DiscoveryConfiguration DISCOVERY_TIMEOUT_MESSAGE) else Ok tt
  | None => Ok tt
  end.

(** ** The SDK's builder, step by step *)

Definition has_credentials_provider config : bool :=
  match Config.credentials_provider config with Some _ => true | None => false end.

(** Whether the driver adds the no-auth scheme by itself. *)
Definition implicit_no_auth config : bool :=
  negb (has_credentials_provider config) && negb (Config.requires_auth config)
  && negb (Config.allows_no_auth config).

(** [AlternatorInterceptor::new(..)] with the defaults filled in. *)
Definition driver_interceptor config : AlternatorInterceptor :=
  mkInterceptor _
    (default ReqCompression.disabled (Config.request_compression config))
    (default ResCompression.default_compression (Config.response_compression config))
    (default true (Config.optimize_headers config))
    (default UaDefault (Config.user_agent config))
    (has_credentials_provider config).

Definition base_builder config : SdkBuilder :=
  let builder := sdk_to_builder (dynamodb_config config) in
  let builder :=
    match Config.credentials_provider config with
    | Some credentials_provider => sdk_set SCredentials (Some credentials_provider) builder
    | None => builder
    end in
  let builder := if implicit_no_auth config then sdk_set SNoAuth (Some tt) builder else builder in
  sdk_push LInterceptors (DriverInterceptor (driver_interceptor config)) builder.

(** [live_nodes], as [try_new] left it. *)
Implicit Types (live_nodes : option (LiveNodes * DiscoveryManager)).

(** With discovery off the scheme of the seed host decides the transport. *)
Definition direct_scheme config live_nodes : option string :=
  match live_nodes with
  | None => Some (default "http" (Config.scheme config))
  | Some _ => None
  end.
Definition uses_plaintext_transport config live_nodes : bool :=
  from_option (λ '(_, m), Manager.uses_http m) false live_nodes
  || from_option (λ s, eq_ignore_ascii_case s "http") false (direct_scheme config live_nodes).
Definition uses_direct_https_transport config live_nodes : bool :=
  from_option (λ s, eq_ignore_ascii_case s "https") false (direct_scheme config live_nodes).
Definition has_custom_http_client config : bool :=
  match Config.http_client config with Some _ => true | None => false end.

Definition check_native_roots config live_nodes : Result unit AlternatorClientBuildError :=
  if uses_direct_https_transport config live_nodes && negb (has_custom_http_client config)
  then map_err TlsConfigurationError DiscoveryHttp.ensure_native_roots_are_usable
  else Ok tt.

Definition needs_rootless_plaintext_transport config live_nodes : bool :=
  uses_plaintext_transport config live_nodes
  && negb (from_option (λ '(_, m), Manager.has_usable_native_roots m)
             DiscoveryHttp.native_roots_are_usable live_nodes).

(** The transport and the region. *)
Definition complete_builder config live_nodes builder : SdkBuilder :=
  let builder :=
    if has_custom_http_client config then builder
    else sdk_set SHttpClient
           (Some (Validation.sdk_http_client
                    (negb (needs_rootless_plaintext_transport config live_nodes))))
           builder in
  match Config.region config with
  | Some _ => builder
  | None => sdk_set SRegion (Some (from_static "us-east-1")) builder
  end.

(** The builder of the partition-key client: the same base with round-robin
    routing, and the discovery deadline when one is configured. *)
Definition pk_builder config (nodes : LiveNodes) builder : SdkBuilder :=
  let builder := sdk_push LInterceptors (RoundRobinRouting nodes) builder in
  match Config.discovery_timeout config with
  | Some timeout =>
      let timeouts := default timeouts_default (Config.timeout_config config) in
      sdk_set STimeoutConfig
        (Some (operation_attempt_timeout timeout (operation_timeout timeout timeouts))) builder
  | None => builder
  end.

(** What the routing configuration leads to: the interceptor, the resolver, and
    the routing state, in which the affinity view may now exist. *)
Definition Routing : Type :=
  option (SharedInterceptor U) * option (PartitionKeys SdkConfig) *
  option (LiveNodes * DiscoveryManager).

Definition enabled_affinity config : option KeyRouteAffinityConfig :=
  cfg ← Config.key_route_affinity config;
  if Affinity.is_enabled cfg then Some cfg else None.

(** The [match] on the routing configuration; [None] is a panic of
    [affinity_view] or of the SDK. *)
Definition choose_routing config live_nodes builder
    : option (Result Routing AlternatorClientBuildError) :=
  match live_nodes, enabled_affinity config with
  | None, _ => Some (Ok (None, None, None))
  | Some (nodes, m), None => Some (Ok (Some (RoundRobinRouting nodes), None, Some (nodes, m)))
  | Some (nodes, m), Some cfg =>
      '(affinity_nodes, m) ← Manager.affinity_view nodes (ordinary m) m;
      client ← Validation.try_dynamodb_client_from_conf (sdk_build (pk_builder config nodes builder));
      Some (
        result_bind client (λ pk_discovery_client,
          let resolver :=
            mkPartitionKeys _ _ (Resolver.new_with_timeout (pk_info_per_table cfg))
              pk_discovery_client (Config.discovery_timeout config) in
          Ok (Some (AffinityRouting cfg nodes affinity_nodes), Some resolver, Some (nodes, m))))
  end.

(** [ensure_discovery_started] on the routing state. *)
Definition start_live_nodes (current : option RuntimeId) (now : Z) live_nodes
    : option (option (LiveNodes * DiscoveryManager)) :=
  match live_nodes with
  | None => Some None
  | Some (nodes, m) =>
      m ← Manager.ensure_discovery_started (λ _, false) current now m; Some (Some (nodes, m))
  end.

(** The last part of [try_from_conf]: the client is built, then discovery is
    started. *)
Definition finish_client (current : option RuntimeId) (now : Z) config builder (routing : Routing)
    : option (Result AlternatorClient AlternatorClientBuildError) :=
  let '(routing_interceptor, partition_keys, live_nodes) := routing in
  let builder :=
    match routing_interceptor with
    | Some interceptor => sdk_push LInterceptors interceptor builder
    | None => builder
    end in
  match Validation.try_dynamodb_client_from_conf (sdk_build builder) with
  | None => None
  | Some (Err e) => Some (Err e)
  | Some (Ok dynamodb_client) =>
      live_nodes ← start_live_nodes current now live_nodes;
      Some (Ok (mkClient _ _ _ _ _ _ _ dynamodb_client config
        (mkDiscovery _ _ _ _ _ (option_list live_nodes) partition_keys)))
  end.

(** [try_from_conf] on the thread of the runtime [current], if any; [None] is a
    panic: the SDK's, on a configuration it refuses by itself, which the
    builder's configurations are not. *)
Definition try_from_conf config (current : option RuntimeId) (now : Z)
    : option (Result AlternatorClient AlternatorClientBuildError) :=
  match check_discovery_timeout config now with
  | Err e => Some (Err e)
  | Ok _ =>
  let builder := base_builder config in
  match LiveNodesBuild.try_new config now with
  | Err source => Some (Err (LiveNodesError source))
  | Ok live_nodes =>
  match check_native_roots config live_nodes with
  | Err e => Some (Err e)
  | Ok _ =>
  let builder := complete_builder config live_nodes builder in
  match validate_sdk_default_config
          (ext_stalled_stream_protection_explicitly_unset (config_ext config)) with
  | Err e => Some (Err e)
  | Ok _ =>
  match choose_routing config live_nodes builder with
  | None => None
  | Some (Err e) => Some (Err e)
  | Some (Ok routing) => finish_client current now config builder routing
  end end end end end.

(** [from_conf] panics on an error. *)
Definition from_conf config (current : option RuntimeId) (now : Z) : option AlternatorClient :=
  try_from_conf config current now ≫= result_ok.

(** The [stop] of a client's [shutdown]; its configuration. *)
Definition stop (self : AlternatorClient) : AlternatorClient :=
  mkClient _ _ _ _ _ _ _ (dynamodb_client self) (client_config self) (Discovery.stop (discovery self)).
Definition config (self : AlternatorClient) : AlternatorConfig := client_config self.

End client.
End Client.

(** ** Lemmas *)

Module ClientFacts.
Import Client.
Section facts.
Context `{UrlApi, Flate, TaskApi} {types : SdkTypes} {tls : TlsApi} {U : Type}.
Context {sdk : SdkApi (SharedInterceptor U)} {stypes : SmithyTypes} {smithy : SmithyApi}.
Context {capi : ClientApi} {laws : SdkLaws} {smithy_laws : SmithyLaws}.
Implicit Types (config : AlternatorConfig) (builder : SdkBuilder).
Implicit Types (live_nodes : option (LiveNodes * DiscoveryManager)) (m : DiscoveryManager).

(** ** What the builder steps leave in the SDK's configuration *)

Lemma base_get config s :
  s ≠ SCredentials → s ≠ SNoAuth →
  sdk_get s (sdk_build (base_builder config)) = sdk_get s (dynamodb_config config).
Proof.
  intros Hs1 Hs2. unfold base_builder. rewrite get_push.
  destruct (implicit_no_auth config), (Config.credentials_provider config);
    rewrite ?get_set_other by congruence; apply get_to_builder.
Qed.

Lemma base_no_auth config :
  sdk_get SNoAuth (sdk_build (base_builder config)) =
  if implicit_no_auth config then Some tt else sdk_get SNoAuth (dynamodb_config config).
Proof.
  unfold base_builder. rewrite get_push. destruct (implicit_no_auth config).
  - apply (get_set_some SNoAuth).
  - destruct (Config.credentials_provider config);
      rewrite ?get_set_other by congruence; apply get_to_builder.
Qed.

Lemma base_interceptors config :
  sdk_get_all LInterceptors (sdk_build (base_builder config)) =
  sdk_get_all LInterceptors (dynamodb_config config) ++ [DriverInterceptor (driver_interceptor config)].
Proof.
  unfold base_builder. rewrite get_all_push. f_equal.
  destruct (implicit_no_auth config), (Config.credentials_provider config);
    rewrite ?get_all_set; apply get_all_to_builder.
Qed.

Lemma complete_get config live_nodes builder s :
  s ≠ SHttpClient → s ≠ SRegion →
  sdk_get s (sdk_build (complete_builder config live_nodes builder)) = sdk_get s (sdk_build builder).
Proof.
  intros Hs1 Hs2. unfold complete_builder.
  destruct (Config.region config), (has_custom_http_client config);
    rewrite ?get_set_other by congruence; done.
Qed.

Lemma complete_http config live_nodes builder :
  sdk_get SHttpClient (sdk_build builder) = Config.http_client config →
  sdk_get SHttpClient (sdk_build (complete_builder config live_nodes builder)) =
  match Config.http_client config with
  | Some c => Some c
  | None =>
      Some (Validation.sdk_http_client (negb (needs_rootless_plaintext_transport config live_nodes)))
  end.
Proof.
  intros Hb. unfold complete_builder, has_custom_http_client.
  destruct (Config.region config), (Config.http_client config);
    rewrite ?get_set_other by congruence; try done; apply (get_set_some SHttpClient).
Qed.

Lemma complete_interceptors config live_nodes builder :
  sdk_get_all LInterceptors (sdk_build (complete_builder config live_nodes builder)) =
  sdk_get_all LInterceptors (sdk_build builder).
Proof.
  unfold complete_builder.
  destruct (Config.region config), (has_custom_http_client config); by rewrite ?get_all_set.
Qed.

Lemma pk_get config nodes builder s :
  s ≠ STimeoutConfig →
  sdk_get s (sdk_build (pk_builder config nodes builder)) = sdk_get s (sdk_build builder).
Proof.
  intros Hs. unfold pk_builder.
  destruct (Config.discovery_timeout config); rewrite ?get_set_other by congruence; apply get_push.
Qed.

Lemma pk_interceptors config nodes builder :
  sdk_get_all LInterceptors (sdk_build (pk_builder config nodes builder)) =
  sdk_get_all LInterceptors (sdk_build builder) ++ [RoundRobinRouting nodes].
Proof.
  unfold pk_builder.
  destruct (Config.discovery_timeout config); rewrite ?get_all_set; apply (get_all_push LInterceptors).
Qed.

(** Both builders, composed as [try_from_conf] does. *)
Definition ready config live_nodes : SdkBuilder :=
  complete_builder config live_nodes (base_builder config).

Lemma ready_http config live_nodes :
  is_Some (sdk_get SHttpClient (sdk_build (ready config live_nodes))).
Proof.
  unfold ready. rewrite complete_http by (by apply base_get). destruct (Config.http_client config); eauto.
Qed.

(** The SDK client of a configuration: the configuration with its adapters. *)
Definition client_of (c : SdkConfig) : SdkConfig :=
  match sdk_get SHttpClient c with
  | Some h => Validation.adapted (ValidationFacts.validation_of h c) c
  | None => c
  end.

Lemma client_of_get c s :
  s ≠ SHttpClient → s ≠ SIdentityCache → sdk_get s (client_of c) = sdk_get s c.
Proof.
  intros. unfold client_of. destruct (sdk_get SHttpClient c); [|done].
  by apply ValidationFacts.adapted_get.
Qed.
Lemma client_of_all c l : sdk_get_all l (client_of c) = sdk_get_all l c.
Proof.
  unfold client_of. destruct (sdk_get SHttpClient c); [|done]. apply ValidationFacts.adapted_get_all.
Qed.
Lemma client_of_transport c :
  Validation.original_http <$> sdk_get SHttpClient (client_of c) =
  Validation.original_http <$> sdk_get SHttpClient c.
Proof.
  unfold client_of. destruct (sdk_get SHttpClient c) as [h|] eqn:Hh; [|by rewrite Hh].
  by rewrite ValidationFacts.adapted_http.
Qed.

(** What the SDK says of one complete configuration. *)
Definition sdk_outcome (c : SdkConfig) (r : option (Result SdkConfig AlternatorClientBuildError)) : Prop :=
  match r with
  | None => Validation.own_verdict c ≠ Ok tt
  | Some (Ok c') => c' = client_of c ∧ Validation.sdk_validate c = None
  | Some (Err (SdkConfiguration message)) => Validation.sdk_validate c = Some message
  | Some (Err _) => False
  end.

Lemma sdk_client_spec c :
  is_Some (sdk_get SHttpClient c) → sdk_outcome c (Validation.try_dynamodb_client_from_conf c).
Proof.
  intros [h Hh]. rewrite (ValidationFacts.try_dynamodb_client_spec c h Hh).
  unfold sdk_outcome, client_of. rewrite Hh. destruct (Validation.own_verdict c); [|done].
  by destruct (Validation.sdk_validate c).
Qed.

(** ** The routing state *)

(** [affinity_view] may add a view of its own, of the seeds. *)
Definition affinity_added m m' : Prop :=
  ordinary m' = ordinary m ∧ inputs m' = inputs m ∧
  (∀ v, affinity_nodes m' = Some v →
     affinity_nodes m = Some v ∨ live_nodes v = seed_urls (inputs m)) ∧
  (Scope.has_rack_restriction (routing_scope (ordinary m)) = true → is_Some (affinity_nodes m')).

Lemma affinity_view_spec nodes m :
  ∃ m', Manager.affinity_view nodes (ordinary m) m =
    Some (if Scope.has_rack_restriction (routing_scope (ordinary m))
          then mkHandle AffinityView Auxiliary else nodes, m') ∧
    manager_tasks m' = manager_tasks m ∧ (Manager.unstarted m → Manager.unstarted m') ∧
    affinity_added m m'.
Proof.
  unfold Manager.affinity_view, affinity_added.
  destruct (Scope.has_rack_restriction _); simpl; [|exists m; split_and!; eauto; done].
  destruct (affinity_nodes m) eqn:Hv; [exists m; rewrite Hv; split_and!; eauto|].
  destruct (ScopeFacts.without_rack_is_Some (routing_scope (ordinary m))) as [w ->]. eexists.
  split; [done|]. split_and!; try done. intros v [= <-]. by right.
Qed.

(** The outcome of the routing choice. *)
Definition routing_spec config live_nodes (builder : SdkBuilder) (routing : Routing) : Prop :=
  match live_nodes, enabled_affinity config with
  | None, _ => routing = (None, None, None)
  | Some (nodes, m), None => routing = (Some (RoundRobinRouting nodes), None, Some (nodes, m))
  | Some (nodes, m), Some cfg => ∃ affinity_nodes p m',
      routing = (Some (AffinityRouting cfg nodes affinity_nodes), Some p, Some (nodes, m')) ∧
      affinity_nodes = (if Scope.has_rack_restriction (routing_scope (ordinary m))
                        then mkHandle AffinityView Auxiliary else nodes) ∧
      manager_tasks m' = manager_tasks m ∧ (Manager.unstarted m → Manager.unstarted m') ∧
      pk_resolver p = Resolver.new_with_timeout (pk_info_per_table cfg) ∧
      pk_discovery_client p = client_of (sdk_build (pk_builder config nodes builder)) ∧
      pk_timeout p = Config.discovery_timeout config ∧ affinity_added m m'
  end.

(** The configuration of the partition-key client, when there is one, and the
    routing interceptor. *)
Definition pk_configs config live_nodes builder : list SdkConfig :=
  match live_nodes, enabled_affinity config with
  | Some (nodes, _), Some _ => [sdk_build (pk_builder config nodes builder)]
  | _, _ => []
  end.
Definition routing_interceptor config live_nodes : option (SharedInterceptor U) :=
  match live_nodes, enabled_affinity config with
  | None, _ => None
  | Some (nodes, _), None => Some (RoundRobinRouting nodes)
  | Some (nodes, m), Some cfg =>
      Some (AffinityRouting cfg nodes
        (if Scope.has_rack_restriction (routing_scope (ordinary m))
         then mkHandle AffinityView Auxiliary else nodes))
  end.

Lemma routing_spec_interceptor config live_nodes builder i p live_nodes' :
  routing_spec config live_nodes builder (i, p, live_nodes') → i = routing_interceptor config live_nodes.
Proof.
  unfold routing_spec, routing_interceptor.
  destruct live_nodes as [[nodes m]|]; [|by intros [= -> _ _]].
  destruct (enabled_affinity config); [|by intros [= -> _ _]].
  by intros (a & p' & m' & [= -> _ _] & -> & _).
Qed.

Lemma choose_routing_spec config live_nodes builder :
  is_Some (sdk_get SHttpClient (sdk_build builder)) →
  match choose_routing config live_nodes builder with
  | None => ∃ c, c ∈ pk_configs config live_nodes builder ∧ Validation.own_verdict c ≠ Ok tt
  | Some (Ok routing) =>
      routing_spec config live_nodes builder routing ∧
      omap Validation.sdk_validate (pk_configs config live_nodes builder) = []
  | Some (Err (SdkConfiguration message)) =>
      omap Validation.sdk_validate (pk_configs config live_nodes builder) = [message]
  | Some (Err _) => False
  end.
Proof.
  intros Hh. unfold choose_routing, routing_spec, pk_configs.
  destruct live_nodes as [[nodes m]|]; [|done].
  destruct (enabled_affinity config) as [cfg|]; [|done].
  destruct (affinity_view_spec nodes m) as (m' & -> & Ht & Hu & Ha). simpl.
  assert (Hc : is_Some (sdk_get SHttpClient (sdk_build (pk_builder config nodes builder))))
    by by rewrite pk_get.
  pose proof (sdk_client_spec _ Hc) as Hv. unfold sdk_outcome in Hv.
  destruct (Validation.try_dynamodb_client_from_conf _) as [[c'|[]]|]; simpl; try done.
  - destruct Hv as [-> ->]. split; [|done]. by eexists _, _, m'.
  - by rewrite Hv.
  - eexists. split; [by apply list_elem_of_singleton|done].
Qed.

Lemma start_spec current now live_nodes :
  (∀ nodes m, live_nodes = Some (nodes, m) → Manager.unstarted m) →
  ∃ live_nodes', start_live_nodes current now live_nodes = Some live_nodes' ∧
    match live_nodes with
    | None => live_nodes' = None
    | Some (nodes, m) => ∃ m', live_nodes' = Some (nodes, m') ∧
        Manager.ensure_discovery_started (λ _, false) current now m = Some m'
    end.
Proof.
  intros Hu. destruct live_nodes as [[nodes m]|]; [|by exists None]. simpl.
  destruct (ManagerFacts.ensure_ok (λ _, false) current now m) as (m' & Hm' & _).
  { by apply ManagerFacts.unstarted_ok, (Hu nodes). }
  rewrite Hm'. simpl. eauto.
Qed.

(** Adding the routing interceptor. *)
Definition with_interceptor (i : option (SharedInterceptor U)) builder : SdkBuilder :=
  match i with Some i => sdk_push LInterceptors i builder | None => builder end.

Lemma with_interceptor_get i builder s :
  sdk_get s (sdk_build (with_interceptor i builder)) = sdk_get s (sdk_build builder).
Proof. destruct i; simpl; [apply get_push|done]. Qed.
Lemma with_interceptor_all i builder :
  sdk_get_all LInterceptors (sdk_build (with_interceptor i builder)) =
  sdk_get_all LInterceptors (sdk_build builder) ++ option_list i.
Proof. destruct i; simpl; [apply (get_all_push LInterceptors)|by rewrite app_nil_r]. Qed.

(** The configurations that construction hands to the SDK, in order. *)
Definition final_config config live_nodes : SdkConfig :=
  sdk_build (with_interceptor (routing_interceptor config live_nodes) (ready config live_nodes)).
Definition handed config live_nodes : list SdkConfig :=
  pk_configs config live_nodes (ready config live_nodes) ++ [final_config config live_nodes].

(** Every outcome of [try_from_conf], by what it went through. *)
Definition outcome_spec config (current : option RuntimeId) (now : Z)
    (r : Result AlternatorClient AlternatorClientBuildError) : Prop :=
  let flag := ext_stalled_stream_protection_explicitly_unset (config_ext config) in
  match r with
  | Err (DiscoveryConfiguration message) =>
      check_discovery_timeout config now = Err (DiscoveryConfiguration message)
  | Err (LiveNodesError e) =>
      check_discovery_timeout config now = Ok tt ∧ LiveNodesBuild.try_new config now = Err e
  | Err (TlsConfigurationError message) => ∃ live_nodes,
      check_discovery_timeout config now = Ok tt ∧
      LiveNodesBuild.try_new config now = Ok live_nodes ∧
      check_native_roots config live_nodes = Err (TlsConfigurationError message)
  | Err (SdkConfiguration message) => ∃ live_nodes,
      check_discovery_timeout config now = Ok tt ∧
      LiveNodesBuild.try_new config now = Ok live_nodes ∧
      check_native_roots config live_nodes = Ok tt ∧
      (flag = true ∧ message = STALLED_STREAM_MESSAGE ∨
       flag = false ∧
       head (omap Validation.sdk_validate (handed config live_nodes)) = Some message)
  | Ok self => ∃ live_nodes interceptor p live_nodes' live_nodes'',
      check_discovery_timeout config now = Ok tt ∧
      LiveNodesBuild.try_new config now = Ok live_nodes ∧
      check_native_roots config live_nodes = Ok tt ∧ flag = false ∧
      routing_spec config live_nodes (ready config live_nodes) (interceptor, p, live_nodes') ∧
      start_live_nodes current now live_nodes' = Some live_nodes'' ∧
      dynamodb_client self =
        client_of (sdk_build (with_interceptor interceptor (ready config live_nodes))) ∧
      omap Validation.sdk_validate (handed config live_nodes) = [] ∧
      client_config self = config ∧
      topology (discovery self) = option_list live_nodes'' ∧ partition_keys (discovery self) = p
  end.

Lemma check_discovery_timeout_cases config now :
  check_discovery_timeout config now = Ok tt ∨
  ∃ message, check_discovery_timeout config now = Err (DiscoveryConfiguration message).
Proof.
  unfold check_discovery_timeout. destruct (Config.discovery_timeout config); [|by left].
  destruct (_ || _); eauto.
Qed.

Lemma check_native_roots_cases config live_nodes :
  check_native_roots config live_nodes = Ok tt ∨
  ∃ message, check_native_roots config live_nodes = Err (TlsConfigurationError message).
Proof.
  unfold check_native_roots. destruct (_ && _); [|by left].
  destruct DiscoveryHttp.ensure_native_roots_are_usable as [[]|]; simpl; eauto.
Qed.

(** The routing state reaches [start_live_nodes] unstarted. *)
Lemma routing_unstarted config now live_nodes builder i p live_nodes' :
  LiveNodesBuild.try_new config now = Ok live_nodes →
  routing_spec config live_nodes builder (i, p, live_nodes') →
  ∀ nodes m, live_nodes' = Some (nodes, m) → Manager.unstarted m.
Proof.
  intros Hn Hr nodes m ->. pose proof (LiveNodesBuildFacts.try_new_spec config now) as Hs.
  rewrite Hn in Hs. destruct live_nodes as [[nodes0 m0]|]; simpl in Hr; [|by simplify_eq].
  destruct Hs as (_ & _ & _ & Hu & _).
  destruct (enabled_affinity config); [|by simplify_eq].
  destruct Hr as (a & p' & m' & Heq & _ & _ & Hu' & _). simplify_eq. by apply Hu'.
Qed.

(** It panics only over a configuration that the SDK refuses by itself. *)
Lemma try_from_conf_spec config current now :
  match try_from_conf config current now with
  | Some r => outcome_spec config current now r
  | None => ext_stalled_stream_protection_explicitly_unset (config_ext config) = false ∧
      ∃ live_nodes c, LiveNodesBuild.try_new config now = Ok live_nodes ∧
        c ∈ handed config live_nodes ∧ Validation.own_verdict c ≠ Ok tt
  end.
Proof.
  unfold try_from_conf.
  destruct (check_discovery_timeout_cases config now) as [Hc|[msg Hc]]; rewrite Hc; [|done].
  destruct (LiveNodesBuild.try_new config now) as [live_nodes|e] eqn:Hn; [|done].
  destruct (check_native_roots_cases config live_nodes) as [Ht|[msg Ht]]; rewrite Ht; [|by exists live_nodes].
  unfold validate_sdk_default_config.
  destruct (ext_stalled_stream_protection_explicitly_unset (config_ext config)) eqn:Hf.
  { exists live_nodes. rewrite Hf. split_and!; [done..|]. by left. }
  change (complete_builder config live_nodes (base_builder config)) with (ready config live_nodes).
  pose proof (choose_routing_spec config live_nodes _ (ready_http config live_nodes)) as Hr.
  destruct (choose_routing _ _ _) as [[[[i p] live_nodes']|[]]|]; try done.
  3: { destruct Hr as (c & Hin & Ho). split; [done|]. exists live_nodes, c. split_and!; [done| |done].
       apply elem_of_app. by left. }
  2: { exists live_nodes. rewrite Hf. split_and!; [done..|]. right. split; [done|]. unfold handed.
       by rewrite omap_app, Hr. }
  destruct Hr as [Hr Hpk]. unfold finish_client. change (match i with Some i => _ | None => _ end)
    with (with_interceptor i (ready config live_nodes)).
  assert (Hh : is_Some (sdk_get SHttpClient (sdk_build (with_interceptor i (ready config live_nodes))))).
  { rewrite with_interceptor_get. apply ready_http. }
  pose proof (routing_spec_interceptor _ _ _ _ _ _ Hr) as Hi.
  assert (Hfin : sdk_build (with_interceptor i (ready config live_nodes)) = final_config config live_nodes)
    by by rewrite Hi.
  pose proof (sdk_client_spec _ Hh) as Hv. unfold sdk_outcome in Hv.
  destruct (Validation.try_dynamodb_client_from_conf _) as [[c|[]]|]; try done.
  - destruct Hv as [-> Hv].
    destruct (start_spec current now live_nodes' (routing_unstarted _ _ _ _ _ _ _ Hn Hr)) as (live' & Hl & _).
    rewrite Hl. exists live_nodes, i, p, live_nodes', live'. rewrite Hf. split_and!; try done.
    unfold handed. rewrite omap_app, Hpk, <-Hfin. simpl. by rewrite Hv.
  - exists live_nodes. rewrite Hf. split_and!; [done..|]. right. split; [done|].
    unfold handed. rewrite omap_app, Hpk, <-Hfin. simpl. by rewrite Hv.
  - split; [done|]. exists live_nodes, (final_config config live_nodes).
    rewrite <-Hfin at 2. split_and!; [done| |done]. apply elem_of_app. right. by apply list_elem_of_singleton.
Qed.

Lemma try_from_conf_outcome config current now r :
  try_from_conf config current now = Some r → outcome_spec config current now r.
Proof. intros Hr. pose proof (try_from_conf_spec config current now) as Hs. by rewrite Hr in Hs. Qed.

(** What the SDK asks of a configuration is not touched on the way. *)
Lemma handed_stalled config live_nodes c :
  c ∈ handed config live_nodes →
  sdk_stalled_removed c = sdk_stalled_removed (dynamodb_config config) ∧
  sdk_get SBehaviorVersion c = sdk_get SBehaviorVersion (dynamodb_config config).
Proof.
  assert (Hready : sdk_stalled_removed (sdk_build (ready config live_nodes)) =
    sdk_stalled_removed (dynamodb_config config)).
  { unfold ready, complete_builder, base_builder.
    destruct (Config.region config), (has_custom_http_client config), (implicit_no_auth config),
      (Config.credentials_provider config);
      by rewrite ?stalled_set_other, ?stalled_push, ?stalled_set_other, ?stalled_to_builder by done. }
  assert (Hversion : sdk_get SBehaviorVersion (sdk_build (ready config live_nodes)) =
    sdk_get SBehaviorVersion (dynamodb_config config)).
  { unfold ready. rewrite complete_get by done. by apply base_get. }
  unfold handed, pk_configs. intros [Hin|Hin]%elem_of_app.
  - destruct live_nodes as [[nodes m]|]; [|by apply not_elem_of_nil in Hin].
    destruct (enabled_affinity config); [|by apply not_elem_of_nil in Hin].
    apply list_elem_of_singleton in Hin as ->. split; [|by rewrite pk_get].
    rewrite <-Hready. unfold pk_builder.
    by destruct (Config.discovery_timeout config); rewrite ?stalled_set_other, stalled_push by done.
  - apply list_elem_of_singleton in Hin as ->. unfold final_config. split; [|by rewrite with_interceptor_get].
    rewrite <-Hready. by destruct (routing_interceptor config live_nodes); simpl; rewrite ?stalled_push.
Qed.

Lemma from_conf_Some config current now self :
  from_conf config current now = Some self ↔ try_from_conf config current now = Some (Ok self).
Proof.
  unfold from_conf. split; [|by intros ->]. intros ([c|e] & -> & Hc)%bind_Some; by simplify_eq/=.
Qed.

(** ** Readings of a successful outcome *)

Lemma client_get config live_nodes i s :
  s ≠ SCredentials → s ≠ SNoAuth → s ≠ SHttpClient → s ≠ SRegion →
  sdk_get s (sdk_build (with_interceptor i (ready config live_nodes))) =
  sdk_get s (dynamodb_config config).
Proof. intros. rewrite with_interceptor_get. unfold ready. rewrite complete_get by done. by apply base_get. Qed.

Lemma ready_no_auth config live_nodes :
  sdk_get SNoAuth (sdk_build (ready config live_nodes)) =
  if implicit_no_auth config then Some tt else sdk_get SNoAuth (dynamodb_config config).
Proof. unfold ready. rewrite complete_get by done. apply base_no_auth. Qed.

Lemma ready_interceptors config live_nodes :
  sdk_get_all LInterceptors (sdk_build (ready config live_nodes)) =
  sdk_get_all LInterceptors (dynamodb_config config) ++ [DriverInterceptor (driver_interceptor config)].
Proof. unfold ready. rewrite complete_interceptors. apply base_interceptors. Qed.

Lemma ready_transport config live_nodes :
  sdk_get SHttpClient (sdk_build (ready config live_nodes)) =
  match Config.http_client config with
  | Some c => Some c
  | None =>
      Some (Validation.sdk_http_client (negb (needs_rootless_plaintext_transport config live_nodes)))
  end.
Proof. unfold ready. apply complete_http. by apply base_get. Qed.

Lemma ready_region config live_nodes :
  is_Some (sdk_get SRegion (sdk_build (ready config live_nodes))).
Proof.
  unfold ready, complete_builder. set (b := if has_custom_http_client config then _ else _).
  destruct (Config.region config) as [r|] eqn:Hr; [|eexists; apply (get_set_some SRegion)].
  assert (sdk_get SRegion (sdk_build b) = Some r) as ->; [|by eexists].
  rewrite <-Hr. unfold Config.region. rewrite <-(base_get config SRegion) by done. unfold b.
  destruct (has_custom_http_client config); [done|by apply get_set_other].
Qed.

Lemma unusable_roots message :
  DiscoveryHttp.ensure_native_roots_are_usable = Err message →
  DiscoveryHttp.native_roots_are_usable = false.
Proof.
  unfold DiscoveryHttp.ensure_native_roots_are_usable, DiscoveryHttp.native_roots_are_usable.
  destruct DiscoveryHttp.load_native_root_store as [roots errors]. by destruct (roots_is_empty roots).
Qed.

End facts.
End ClientFacts.

(** ** Properties *)

Section properties.
Context `{UrlApi, Flate, TaskApi} {types : SdkTypes} {tls : TlsApi} {U : Type}.
Context {sdk : SdkApi (SharedInterceptor U)} {stypes : SmithyTypes} {smithy : SmithyApi}.
Context {capi : ClientApi} {laws : SdkLaws} {smithy_laws : SmithyLaws}.
Import Client ClientFacts.
Implicit Types (config : AlternatorConfig) (self : AlternatorClient).

(** C34: construction never panics and fails closed, for every configuration
    that the builder's methods can put together.  Each error names its cause: a
    deadline the clock cannot hold; routing that [try_new] refuses; an [https]
    endpoint without usable roots or a transport of its own; a default the SDK
    needs that was removed; or the SDK's verdict on the first of the complete
    configurations that it refuses, that of the partition-key client before that
    of the client.  A client that is built has an endpoint, a transport and a
    region, and the SDK accepted every configuration it is made of. *)
Theorem construction_fails_closed (ops : list Builder.BuilderOp) (b : AlternatorBuilder)
    (current : option RuntimeId) (now : Z) :
  let config := Builder.build b in
  let removed := ext_stalled_stream_protection_explicitly_unset (config_ext config) in
  Builder.apply_ops ops Config.builder = Ok b →
  ∃ r, try_from_conf config current now = Some r ∧
    match r with
    | Err (DiscoveryConfiguration _) => ∃ t, Config.discovery_timeout config = Some t ∧
        (t = 0%Z ∨ instant_checked_add now t = None)
    | Err (LiveNodesError e) => LiveNodesBuild.try_new config now = Err e
    | Err (TlsConfigurationError _) =>
        LiveNodesBuild.try_new config now = Ok None ∧ Config.http_client config = None ∧
        DiscoveryHttp.native_roots_are_usable = false
    | Err (SdkConfiguration message) =>
        removed = true ∧ message = STALLED_STREAM_MESSAGE ∨
        removed = false ∧ ∃ live_nodes, LiveNodesBuild.try_new config now = Ok live_nodes ∧
          head (omap Validation.sdk_validate (handed config live_nodes)) = Some message
    | Ok self => ∃ live_nodes,
        LiveNodesBuild.try_new config now = Ok live_nodes ∧ removed = false ∧
        omap Validation.sdk_validate (handed config live_nodes) = [] ∧
        dynamodb_client self = client_of (final_config config live_nodes) ∧
        (∀ t, Config.discovery_timeout config = Some t →
           t ≠ 0%Z ∧ is_Some (instant_checked_add now t)) ∧
        is_Some (Config.endpoint_url config) ∧
        is_Some (sdk_get SHttpClient (dynamodb_client self)) ∧
        is_Some (sdk_get SRegion (dynamodb_client self)) ∧
        client_config self = config
    end.
Proof.
  intros config removed Hops. pose proof (try_from_conf_spec config current now) as Hr.
  destruct (try_from_conf config current now) as [r|]; cycle 1.
  { exfalso. destruct Hr as (Hf & ln & c & _ & Hin & Ho). apply Ho, own_requirements.
    destruct (handed_stalled _ _ _ Hin) as [-> ->]. unfold config.
    rewrite ConfigFacts.build_behavior, ConfigFacts.build_stalled. split; [by eexists|].
    by rewrite (ConfigFacts.stalled_ok_ops _ _ _ ConfigFacts.stalled_ok_default Hops). }
  exists r. split; [done|]. subst removed. clearbody config. clear Hops.
  destruct r as [self|[msg|msg|msg|e]]; simpl in Hr.
  - destruct Hr as (ln & i & p & ln' & ln'' & Hc & Hn & _ & Hf & Hi & _ & Hd & Hv & Hcfg & _).
    apply routing_spec_interceptor in Hi as ->. exists ln. split_and!; try done.
    + intros t Ht. unfold check_discovery_timeout in Hc. rewrite Ht in Hc.
      case_bool_decide; [done|]. destruct (instant_checked_add now t); [eauto|done].
    + pose proof (LiveNodesBuildFacts.try_new_spec config now) as Hs. rewrite Hn in Hs.
      destruct ln as [[nodes m]|]; apply Hs.
    + apply (fmap_is_Some Validation.original_http). rewrite Hd, client_of_transport.
      apply fmap_is_Some. rewrite with_interceptor_get. apply ready_http.
    + rewrite Hd, client_of_get, with_interceptor_get by done. apply ready_region.
  - destruct Hr as (ln & _ & Hn & _ & [Hf|[Hf Hm]]); [by left|]. right. eauto.
  - destruct Hr as (ln & _ & Hn & Ht). unfold check_native_roots, has_custom_http_client in Ht.
    destruct ln as [[nodes m]|]; simpl in Ht; [done|]. destruct (uses_direct_https_transport _ _); [|done].
    destruct (Config.http_client config); [done|]. split_and!; [done|done|]. simpl in Ht.
    destruct DiscoveryHttp.ensure_native_roots_are_usable as [|m] eqn:He; [done|].
    by apply (unusable_roots m).
  - unfold check_discovery_timeout in Hr. destruct (Config.discovery_timeout config) as [t|]; [|done].
    exists t. split; [done|]. case_bool_decide; [by left|]. right.
    by destruct (instant_checked_add now t).
  - apply Hr.
Qed.

(** C9: authentication fails closed.  However its configuration was put
    together, a client may send unsigned requests exactly when that was allowed
    explicitly, or when it has no credentials provider and none is required; a
    client that requires authentication never does, and neither does the client
    it discovers partition keys with. *)
Theorem unsigned_requests_exact (ops : list Builder.BuilderOp) (b : AlternatorBuilder)
    (current : option RuntimeId) (now : Z) self :
  let config := Builder.build b in
  Builder.apply_ops ops Config.builder = Ok b →
  try_from_conf config current now = Some (Ok self) →
  (sdk_get SNoAuth (dynamodb_client self) = Some tt ↔
   Config.allows_no_auth config = true ∨
   Config.requires_auth config = false ∧ Config.credentials_provider config = None) ∧
  (Config.requires_auth config = true →
   sdk_get SNoAuth (dynamodb_client self) = None ∧
   ∀ p, partition_keys (discovery self) = Some p → sdk_get SNoAuth (pk_discovery_client p) = None).
Proof.
  intros config Hops Hself.
  destruct (ConfigFacts.auth_ok_ops _ _ _ ConfigFacts.auth_ok_default Hops) as [Hex Hno].
  assert (Hno' : sdk_get SNoAuth (dynamodb_config config) = Some tt ↔ Config.allows_no_auth config = true).
  { unfold config. by rewrite ConfigFacts.build_other. }
  assert (Hex' : Config.requires_auth config = true → Config.allows_no_auth config = false).
  { intros Hr. apply not_true_iff_false. intros Ha. by apply Hex. }
  pose proof (try_from_conf_outcome _ _ _ _ Hself) as Hspec. clearbody config. clear Hex Hno Hops Hself.
  destruct Hspec as (ln & i & p & ln' & ln'' & _ & Hn & _ & _ & Hroute & _ & Hd & _ & _ & _ & Hp).
  assert (Hd' : sdk_get SNoAuth (dynamodb_client self) =
    if implicit_no_auth config then Some tt else sdk_get SNoAuth (dynamodb_config config)).
  { rewrite Hd, client_of_get, with_interceptor_get by done. apply ready_no_auth. }
  assert (Hnone : Config.requires_auth config = true →
    (if implicit_no_auth config then Some tt else sdk_get SNoAuth (dynamodb_config config)) = None).
  { intros Hreq. unfold implicit_no_auth. rewrite Hreq, andb_false_r. simpl.
    specialize (Hex' Hreq). destruct (sdk_get SNoAuth _) as [[]|]; [|done].
    destruct Hno' as [Hno' _]. by rewrite Hno' in Hex'. }
  split.
  - rewrite Hd'. unfold implicit_no_auth, has_credentials_provider.
    destruct (Config.credentials_provider config), (Config.requires_auth config),
      (Config.allows_no_auth config); simpl; intuition congruence.
  - intros Hreq. split; [by rewrite Hd'; apply Hnone|]. intros p' Hp'. rewrite Hp in Hp'. subst p.
    unfold routing_spec in Hroute. destruct ln as [[nodes m]|]; [|by simplify_eq].
    destruct (enabled_affinity config); [|by simplify_eq].
    destruct Hroute as (a & p2 & m' & Heq & _ & _ & _ & _ & Hc & _). simplify_eq.
    rewrite Hc, client_of_get, pk_get, ready_no_auth by done. by apply Hnone.
Qed.

(** The routing configuration decides what a client is made of.  Its
    interceptors are the user's, the driver's, and the one for its routing: none
    with discovery off, round robin without affinity, affinity otherwise, on a
    view of its own exactly when the scope has a rack.  Only the affinity client
    has a resolver, seeded with the configured names, whose own client is routed
    round robin and so never waits for itself.  The transport is the configured
    one, or the driver's, without TLS only when the endpoint is plaintext and the
    host has no usable roots. *)
Theorem client_wiring config (current : option RuntimeId) (now : Z) self :
  try_from_conf config current now = Some (Ok self) →
  let installed c := sdk_get_all LInterceptors c in
  let base := installed (dynamodb_config config) ++ [DriverInterceptor (driver_interceptor config)] in
  ∃ live_nodes, LiveNodesBuild.try_new config now = Ok live_nodes ∧
    Validation.original_http <$> sdk_get SHttpClient (dynamodb_client self) =
      Some (Validation.original_http (default
        (Validation.sdk_http_client (negb (needs_rootless_plaintext_transport config live_nodes)))
        (Config.http_client config))) ∧
    match live_nodes, enabled_affinity config with
    | None, _ =>
        installed (dynamodb_client self) = base ∧ topology (discovery self) = [] ∧
        partition_keys (discovery self) = None
    | Some (nodes, _), None =>
        installed (dynamodb_client self) = base ++ [RoundRobinRouting nodes] ∧
        (∃ m, topology (discovery self) = [(nodes, m)]) ∧ partition_keys (discovery self) = None
    | Some (nodes, m), Some cfg =>
        let affinity_nodes := if Scope.has_rack_restriction (routing_scope (ordinary m))
                              then mkHandle AffinityView Auxiliary else nodes in
        installed (dynamodb_client self) = base ++ [AffinityRouting cfg nodes affinity_nodes] ∧
        (∃ m, topology (discovery self) = [(nodes, m)]) ∧
        ∃ p, partition_keys (discovery self) = Some p ∧
          cache (pk_resolver p) = pk_info_per_table cfg ∧
          installed (pk_discovery_client p) = base ++ [RoundRobinRouting nodes]
    end.
Proof.
  intros Hself installed base.
  pose proof (try_from_conf_outcome _ _ _ _ Hself) as Hspec.
  destruct Hspec as (ln & i & p & ln' & ln'' & _ & Hn & _ & _ & Hroute & Hs & Hd & _ & _ & Ht & Hp).
  exists ln. split; [done|]. split.
  { rewrite Hd, client_of_transport, with_interceptor_get, ready_transport.
    by destruct (Config.http_client config). }
  assert (Hi : installed (dynamodb_client self) = base ++ option_list i).
  { unfold installed. rewrite Hd, client_of_all, with_interceptor_all. f_equal. apply ready_interceptors. }
  destruct (start_spec current now ln' (routing_unstarted _ _ _ _ _ _ _ Hn Hroute)) as (l & Hl & Hm).
  rewrite Hs in Hl. injection Hl as <-.
  unfold routing_spec in Hroute. destruct ln as [[nodes m]|].
  - destruct (enabled_affinity config) as [cfg|].
    + destruct Hroute as (a & p2 & m' & Heq & -> & _ & _ & Hres & Hc & _). injection Heq as -> -> ->.
      destruct Hm as (m2 & -> & _). split; [done|]. split; [by exists m2|]. exists p2.
      rewrite Hp, Hres, Hc. split; [done|]. split; [done|].
      unfold installed. rewrite client_of_all, pk_interceptors. f_equal. apply ready_interceptors.
    + injection Hroute as -> -> ->. destruct Hm as (m2 & -> & _). split; [done|]. split; [by exists m2|done].
  - injection Hroute as -> -> ->. simplify_eq. split; [by rewrite Hi, app_nil_r|by rewrite Ht].
Qed.

Context {task_laws : TaskLaws}.

(** With discovery on, a client that is built on a runtime has its one
    discovery loop running there when construction returns; built elsewhere it
    has started nothing yet.  With discovery off there is nothing to start. *)
Theorem client_starts_discovery config (current : option RuntimeId) (now : Z) self :
  try_from_conf config current now = Some (Ok self) →
  if Config.without_discovery config then topology (discovery self) = []
  else ∃ m, topology (discovery self) = [(mkHandle OrdinaryView Ordinary, m)] ∧
    match current with
    | Some id => ∃ h, loops m = [h] ∧ active_task m = Some h ∧ aborts m = [] ∧
        discovery_runtime m = Some 0 ∧ runtimes m = [Probe.new id]
    | None => Manager.unstarted m
    end.
Proof.
  intros Hself. pose proof (try_from_conf_outcome _ _ _ _ Hself) as Hspec.
  destruct Hspec as (ln & i & p & ln' & ln'' & _ & Hn & _ & _ & Hroute & Hs & _ & _ & _ & -> & _).
  pose proof (LiveNodesBuildFacts.try_new_spec config now) as Hspec. rewrite Hn in Hspec.
  pose proof (routing_unstarted _ _ _ _ _ _ _ Hn Hroute) as Hu.
  destruct (start_spec current now ln' Hu) as (l & Hl & Hm). rewrite Hs in Hl. simplify_eq.
  destruct ln as [[nodes m]|].
  - destruct Hspec as (-> & _ & -> & _ & Htasks & _).
    assert (∃ m', ln' = Some (mkHandle OrdinaryView Ordinary, m') ∧ manager_tasks m' = manager_tasks m)
      as (m1 & -> & Ht1).
    { unfold routing_spec in Hroute. destruct (enabled_affinity config); [|by simplify_eq; eauto].
      destruct Hroute as (a & p2 & m' & Heq & _ & Ht & _). simplify_eq. eauto. }
    destruct Hm as (m2 & -> & Hm2). specialize (Hu _ m1 eq_refl). exists m2. split; [done|].
    assert (Hopen : Tasks.is_stopped (manager_tasks m1) = false).
    { rewrite Ht1, Htasks. apply default_open. }
    destruct current as [id|].
    + destruct (ManagerFacts.ensure_spec (λ _, false) id now m1) as (m3 & Hm3 & _ & Hk);
        [by apply ManagerFacts.unstarted_ok|done|]. rewrite Hm2 in Hm3. simplify_eq.
      pose proof Hu as (Hd & Hrt & Ha & Haf & Hlo & Hab).
      unfold Manager.keeps_owner in Hk. rewrite Hd in Hk. simpl in Hk.
      destruct Hk as (m4 & [Hd4 Hlen4 Ha4 Haf4 Hl4 Hab4] & Ht4 & _ & ->).
      rewrite Hrt in Hlen4. apply length_zero_iff_nil in Hlen4.
      destruct (ManagerFacts.start_discovery_open id now m4) as (h & _ & Hd' & Hr' & Ha' & _ & Hl' & Hab');
        [by rewrite Ht4|].
      exists h. rewrite Hl', Ha', Hab', Hd', Hr', Hl4, Hab4, Ha4, Haf4, Hlo, Hab, Ha, Haf, Hlen4. done.
    + unfold Manager.ensure_discovery_started in Hm2. rewrite Hopen in Hm2. by simplify_eq.
  - destruct Hspec as (-> & _). unfold routing_spec in Hroute. by simplify_eq.
Qed.

(** [shutdown] is final.  Once a client was stopped every task set it owns
    is closed: no access on any runtime starts discovery again, no partition key
    is looked up any more, and when [shutdown] returns no task is left.  The last
    known membership stays. *)
Theorem shutdown_is_final (d : ClientDiscovery (SdkConfig (I := SharedInterceptor U))) :
  let d' := Discovery.stop d in
  (∀ nodes m finished current now, (nodes, m) ∈ topology d' →
     Manager.ensure_discovery_started finished current now m = Some m ∧
     fst (Tasks.spawn (manager_tasks m)) = None ∧
     (Discovery.shutdown_returns d' = true → tracked (tasks (manager_tasks m)) = [])) ∧
  (∀ p, partition_keys d' = Some p →
     fst (Tasks.spawn (owned (pk_resolver p))) = None ∧
     (Discovery.shutdown_returns d' = true → tracked (tasks (owned (pk_resolver p))) = [])) ∧
  (∀ h m, (h, m) ∈ topology d → ∃ m', (h, m') ∈ topology d' ∧ live_nodes (ordinary m') = live_nodes (ordinary m)).
Proof.
  intros d'. split; [|split].
  - intros nodes m finished current now Hin. simpl in Hin.
    apply list_elem_of_fmap in Hin as ([h m0] & [= -> ->] & Hin).
    assert (Hst : Tasks.is_stopped (Tasks.stop (manager_tasks m0)) = true) by apply close_closed.
    split; [unfold Manager.ensure_discovery_started; simpl; by rewrite Hst|].
    split; [unfold Tasks.spawn; simpl; by rewrite Hst|].
    intros [Hall _]%andb_true_iff. rewrite forallb_forall in Hall.
    specialize (Hall (h, Manager.set_tasks (Tasks.stop (manager_tasks m0)) m0)).
    simpl in Hall. unfold Tasks.shutdown_returns in Hall. rewrite andb_true_iff, bool_decide_eq_true in Hall.
    apply Hall, list_elem_of_In, list_elem_of_fmap. by exists (h, m0).
  - intros p Hp. simpl in Hp. apply fmap_Some in Hp as (p0 & Hp0 & ->). simpl.
    assert (Hst : Tasks.is_stopped (Tasks.stop (owned (pk_resolver p0))) = true) by apply close_closed.
    split; [unfold Tasks.spawn; by rewrite Hst|].
    unfold Discovery.shutdown_returns. simpl. rewrite Hp0. simpl.
    unfold Tasks.shutdown_returns. rewrite !andb_true_iff, bool_decide_eq_true. tauto.
  - intros h m Hin. exists (Manager.set_tasks (Tasks.stop (manager_tasks m)) m). split; [|done]. apply list_elem_of_fmap. by exists (h, m).
Qed.

End properties.

(** ** Witnesses *)

Section witnesses.
Import Client ClientFacts Builder.
#[local] Existing Instances StrUrl.api MarkFlate.api ListTasks.api ListTasks.laws ListSdk.types.
#[local] Instance sdk0 : SdkApi (SharedInterceptor unit) := ListSdk.api (SharedInterceptor unit).
#[local] Instance sdk_laws0 : SdkLaws := ListSdk.laws (SharedInterceptor unit).
#[local] Instance tls0 : TlsApi := ListTls.api ([], []).
#[local] Existing Instance ListSmithy.types.
#[local] Instance smithy0 : SmithyApi := ListSmithy.api (SharedInterceptor unit).
#[local] Instance smithy_laws0 : SmithyLaws := ListSmithy.laws (SharedInterceptor unit).
#[local] Instance client0 : ClientApi := {|
  instant_checked_add now t := if decide (now + t < 2 ^ 63)%Z then Some (now + t)%Z else None;
  timeouts_default := "no timeouts" : @TimeoutConfig ListSdk.types;
  operation_timeout _ c := c;
  operation_attempt_timeout _ c := c;
|}.

(** A client of one rack of one datacenter that requires authentication and has
    no credentials, on a host without certificates. *)
Definition strict_calls : list (BuilderOp (I := SharedInterceptor unit)) :=
  [SetSeedHosts ["node1"]; SetPort 8000%Z; SetRequireAuth true;
   SetRoutingScope (Scope.from_rack "dc1" "r1");
   SetKeyRouteAffinity (Affinity.from_type AnyWrite)].
Definition strict : AlternatorBuilder :=
  ok_default Config.builder (apply_ops strict_calls Config.builder).
Definition placeholder : AlternatorClient :=
  mkClient _ _ _ _ _ _ _ (dynamodb_config (build strict)) (build strict)
    (mkDiscovery _ _ _ _ _ [] None).
Definition the_client : AlternatorClient := default placeholder (from_conf (build strict) (Some 7) 0).

Lemma strict_accepted : apply_ops strict_calls Config.builder = Ok strict.
Proof. apply ok_is_default. vm_refl. Qed.

Lemma strict_built : try_from_conf (build strict) (Some 7) 0 = Some (Ok the_client).
Proof.
  apply from_conf_Some. unfold the_client. apply some_default. vm_refl.
Qed.

(** The SDK's default is removed while the client is configured. *)
Definition unprotected_calls : list (BuilderOp (I := SharedInterceptor unit)) :=
  [SetSeedHosts ["node1"]; SetPort 8000%Z; SetStalledStreamProtection None].
Definition unprotected : AlternatorBuilder :=
  ok_default Config.builder (apply_ops unprotected_calls Config.builder).

Lemma construction_fails_closed_witness :
  apply_ops unprotected_calls Config.builder = Ok unprotected ∧
  ∃ r, try_from_conf (build unprotected) None 0 = Some r ∧
       r = Err (SdkConfiguration STALLED_STREAM_MESSAGE).
Proof.
  assert (Ha : apply_ops unprotected_calls Config.builder = Ok unprotected)
    by (apply ok_is_default; vm_refl).
  split; [exact Ha|].
  destruct (construction_fails_closed unprotected_calls unprotected None 0 Ha) as (r & Hr & _).
  exists r. split; [exact Hr|].
  assert (Hd : try_from_conf (build unprotected) None 0 =
    Some (Err (SdkConfiguration STALLED_STREAM_MESSAGE))) by vm_refl.
  rewrite Hd in Hr. by injection Hr as <-.
Defined.

Lemma unsigned_requests_exact_witness :
  apply_ops strict_calls Config.builder = Ok strict ∧
  sdk_get SNoAuth (dynamodb_client the_client) = None.
Proof.
  split; [exact strict_accepted|].
  refine (proj1 (proj2 (unsigned_requests_exact strict_calls strict (Some 7) 0 the_client
    strict_accepted strict_built) _)).
  vm_refl.
Defined.

Lemma client_wiring_witness :
  ∃ live_nodes, LiveNodesBuild.try_new (build strict) 0 = Ok live_nodes ∧
    Validation.original_http <$> sdk_get SHttpClient (dynamodb_client the_client) =
      Some ("plaintext" : @ForeignHttpClient ListSdk.types).
Proof.
  destruct (client_wiring (build strict) (Some 7) 0 the_client strict_built) as (live_nodes & Hn & _).
  exists live_nodes. split; [exact Hn|vm_refl].
Defined.

Lemma client_starts_discovery_witness :
  ∃ m, topology (discovery the_client) = [(mkHandle OrdinaryView Ordinary, m)] ∧
    ∃ h, loops m = [h] ∧ active_task m = Some h ∧ aborts m = [] ∧
      discovery_runtime m = Some 0 ∧ runtimes m = [Probe.new 7].
Proof.
  exact (client_starts_discovery (build strict) (Some 7) 0 the_client strict_built).
Defined.

Lemma shutdown_is_final_witness :
  ∀ p, partition_keys (Discovery.stop (discovery the_client)) = Some p →
    fst (Tasks.spawn (owned (pk_resolver p))) = None.
Proof.
  intros p Hp. exact (proj1 (proj1 (proj2 (shutdown_is_final (discovery the_client))) p Hp)).
Defined.

End witnesses.
