(* ===== verification/Passthroughs.v ===== *)
(** * The operations of a client ([impl AlternatorClient] and [impl Waiters] in
      [src/src/client.rs])

    Every DynamoDB operation and every waiter is reached through a wrapper that
    asks the SDK client inside for its fluent builder.  A fluent builder of the
    SDK belongs to one operation and remembers the client it came from, so that
    the wrappers are typed by their operation and what is left to check is that
    each has the name of its operation, that none is missing, and that each hands
    on the client that [try_from_conf] built: its interceptors, its transport and
    its authentication are those of every operation. *)

From S2P Require Import Prelude UrlApi NodeUrl RoutingScope LiveNodes Refresh DiscoveryTasks.
From S2P Require Import Http Classifier Resolver OptimizeHeaders Compression Interceptors Sdk Config.
From S2P Require Import DiscoveryHttp DiscoveryOwner LiveNodesBuild Validation Client.
From Stdlib Require Import Ascii.

(** The operations and the waiters of the SDK. *)
Inductive Operation : Type :=
| BatchExecuteStatement
| BatchGetItem
| BatchWriteItem
| CreateBackup
| CreateGlobalTable
| CreateTable
| DeleteBackup
| DeleteItem
| DeleteResourcePolicy
| DeleteTable
| DescribeBackup
| DescribeContinuousBackups
| DescribeContributorInsights
| DescribeEndpoints
| DescribeExport
| DescribeGlobalTable
| DescribeGlobalTableSettings
| DescribeImport
| DescribeKinesisStreamingDestination
| DescribeLimits
| DescribeTable
| DescribeTableReplicaAutoScaling
| DescribeTimeToLive
| DisableKinesisStreamingDestination
| EnableKinesisStreamingDestination
| ExecuteStatement
| ExecuteTransaction
| ExportTableToPointInTime
| GetItem
| GetResourcePolicy
| ImportTable
| ListBackups
| ListContributorInsights
| ListExports
| ListGlobalTables
| ListImports
| ListTables
| ListTagsOfResource
| PutItem
| PutResourcePolicy
| Query
| RestoreTableFromBackup
| RestoreTableToPointInTime
| Scan
| TagResource
| TransactGetItems
| TransactWriteItems
| UntagResource
| UpdateContinuousBackups
| UpdateContributorInsights
| UpdateGlobalTable
| UpdateGlobalTableSettings
| UpdateItem
| UpdateKinesisStreamingDestination
| UpdateTable
| UpdateTableReplicaAutoScaling
| UpdateTimeToLive.
Inductive Waiter : Type :=
| ContributorInsightsEnabled
| ExportCompleted
| ImportCompleted
| KinesisStreamingDestinationActive
| TableExists
| TableNotExists.
(** The fluent builders of [aws_sdk_dynamodb]: one type per operation, made by a
    client, which is its configuration. *)
Class FluentApi `{SdkApi} := {
  FluentBuilder : Operation → Type;
  WaiterBuilder : Waiter → Type;
  fluent : ∀ op, SdkConfig → FluentBuilder op;
  waiter : ∀ w, SdkConfig → WaiterBuilder w;
  builder_client : ∀ op, FluentBuilder op → SdkConfig;
  waiter_client : ∀ w, WaiterBuilder w → SdkConfig;
}.
Class FluentLaws `{FluentApi} : Prop := {
  fluent_client : ∀ op c, builder_client op (fluent op c) = c;
  waiter_fluent_client : ∀ w c, waiter_client w (waiter w c) = c;
}.

Module Passthroughs.
Section passthroughs.
Context `{UrlApi, Flate, TaskApi} {types : SdkTypes} {tls : TlsApi} {U : Type}.
Context {sdk : SdkApi (SharedInterceptor U)} {fluents : FluentApi}.
Implicit Types (self : AlternatorClient).

Definition batch_execute_statement self : FluentBuilder BatchExecuteStatement :=
  fluent BatchExecuteStatement (dynamodb_client self).
Definition batch_get_item self : FluentBuilder BatchGetItem := fluent BatchGetItem (dynamodb_client self).
Definition batch_write_item self : FluentBuilder BatchWriteItem := fluent BatchWriteItem (dynamodb_client self).
Definition create_backup self : FluentBuilder CreateBackup := fluent CreateBackup (dynamodb_client self).
Definition create_global_table self : FluentBuilder CreateGlobalTable :=
  fluent CreateGlobalTable (dynamodb_client self).
Definition create_table self : FluentBuilder CreateTable := fluent CreateTable (dynamodb_client self).
Definition delete_backup self : FluentBuilder DeleteBackup := fluent DeleteBackup (dynamodb_client self).
Definition delete_item self : FluentBuilder DeleteItem := fluent DeleteItem (dynamodb_client self).
Definition delete_resource_policy self : FluentBuilder DeleteResourcePolicy :=
  fluent DeleteResourcePolicy (dynamodb_client self).
Definition delete_table self : FluentBuilder DeleteTable := fluent DeleteTable (dynamodb_client self).
Definition describe_backup self : FluentBuilder DescribeBackup := fluent DescribeBackup (dynamodb_client self).
Definition describe_continuous_backups self : FluentBuilder DescribeContinuousBackups :=
  fluent DescribeContinuousBackups (dynamodb_client self).
Definition describe_contributor_insights self : FluentBuilder DescribeContributorInsights :=
  fluent DescribeContributorInsights (dynamodb_client self).
Definition describe_endpoints self : FluentBuilder DescribeEndpoints :=
  fluent DescribeEndpoints (dynamodb_client self).
Definition describe_export self : FluentBuilder DescribeExport := fluent DescribeExport (dynamodb_client self).
Definition describe_global_table self : FluentBuilder DescribeGlobalTable :=
  fluent DescribeGlobalTable (dynamodb_client self).
Definition describe_global_table_settings self : FluentBuilder DescribeGlobalTableSettings :=
  fluent DescribeGlobalTableSettings (dynamodb_client self).
Definition describe_import self : FluentBuilder DescribeImport := fluent DescribeImport (dynamodb_client self).
Definition describe_kinesis_streaming_destination self : FluentBuilder DescribeKinesisStreamingDestination :=
  fluent DescribeKinesisStreamingDestination (dynamodb_client self).
Definition describe_limits self : FluentBuilder DescribeLimits := fluent DescribeLimits (dynamodb_client self).
Definition describe_table self : FluentBuilder DescribeTable := fluent DescribeTable (dynamodb_client self).
Definition describe_table_replica_auto_scaling self : FluentBuilder DescribeTableReplicaAutoScaling :=
  fluent DescribeTableReplicaAutoScaling (dynamodb_client self).
Definition describe_time_to_live self : FluentBuilder DescribeTimeToLive :=
  fluent DescribeTimeToLive (dynamodb_client self).
Definition disable_kinesis_streaming_destination self : FluentBuilder DisableKinesisStreamingDestination :=
  fluent DisableKinesisStreamingDestination (dynamodb_client self).
Definition enable_kinesis_streaming_destination self : FluentBuilder EnableKinesisStreamingDestination :=
  fluent EnableKinesisStreamingDestination (dynamodb_client self).
Definition execute_statement self : FluentBuilder ExecuteStatement :=
  fluent ExecuteStatement (dynamodb_client self).
Definition execute_transaction self : FluentBuilder ExecuteTransaction :=
  fluent ExecuteTransaction (dynamodb_client self).
Definition export_table_to_point_in_time self : FluentBuilder ExportTableToPointInTime :=
  fluent ExportTableToPointInTime (dynamodb_client self).
Definition get_item self : FluentBuilder GetItem := fluent GetItem (dynamodb_client self).
Definition get_resource_policy self : FluentBuilder GetResourcePolicy :=
  fluent GetResourcePolicy (dynamodb_client self).
Definition import_table self : FluentBuilder ImportTable := fluent ImportTable (dynamodb_client self).
Definition list_backups self : FluentBuilder ListBackups := fluent ListBackups (dynamodb_client self).
Definition list_contributor_insights self : FluentBuilder ListContributorInsights :=
  fluent ListContributorInsights (dynamodb_client self).
Definition list_exports self : FluentBuilder ListExports := fluent ListExports (dynamodb_client self).
Definition list_global_tables self : FluentBuilder ListGlobalTables :=
  fluent ListGlobalTables (dynamodb_client self).
Definition list_imports self : FluentBuilder ListImports := fluent ListImports (dynamodb_client self).
Definition list_tables self : FluentBuilder ListTables := fluent ListTables (dynamodb_client self).
Definition list_tags_of_resource self : FluentBuilder ListTagsOfResource :=
  fluent ListTagsOfResource (dynamodb_client self).
Definition put_item self : FluentBuilder PutItem := fluent PutItem (dynamodb_client self).
Definition put_resource_policy self : FluentBuilder PutResourcePolicy :=
  fluent PutResourcePolicy (dynamodb_client self).
Definition query self : FluentBuilder Query := fluent Query (dynamodb_client self).
Definition restore_table_from_backup self : FluentBuilder RestoreTableFromBackup :=
  fluent RestoreTableFromBackup (dynamodb_client self).
Definition restore_table_to_point_in_time self : FluentBuilder RestoreTableToPointInTime :=
  fluent RestoreTableToPointInTime (dynamodb_client self).
Definition scan self : FluentBuilder Scan := fluent Scan (dynamodb_client self).
Definition tag_resource self : FluentBuilder TagResource := fluent TagResource (dynamodb_client self).
Definition transact_get_items self : FluentBuilder TransactGetItems :=
  fluent TransactGetItems (dynamodb_client self).
Definition transact_write_items self : FluentBuilder TransactWriteItems :=
  fluent TransactWriteItems (dynamodb_client self).
Definition untag_resource self : FluentBuilder UntagResource := fluent UntagResource (dynamodb_client self).
Definition update_continuous_backups self : FluentBuilder UpdateContinuousBackups :=
  fluent UpdateContinuousBackups (dynamodb_client self).
Definition update_contributor_insights self : FluentBuilder UpdateContributorInsights :=
  fluent UpdateContributorInsights (dynamodb_client self).
Definition update_global_table self : FluentBuilder UpdateGlobalTable :=
  fluent UpdateGlobalTable (dynamodb_client self).
Definition update_global_table_settings self : FluentBuilder UpdateGlobalTableSettings :=
  fluent UpdateGlobalTableSettings (dynamodb_client self).
Definition update_item self : FluentBuilder UpdateItem := fluent UpdateItem (dynamodb_client self).
Definition update_kinesis_streaming_destination self : FluentBuilder UpdateKinesisStreamingDestination :=
  fluent UpdateKinesisStreamingDestination (dynamodb_client self).
Definition update_table self : FluentBuilder UpdateTable := fluent UpdateTable (dynamodb_client self).
Definition update_table_replica_auto_scaling self : FluentBuilder UpdateTableReplicaAutoScaling :=
  fluent UpdateTableReplicaAutoScaling (dynamodb_client self).
Definition update_time_to_live self : FluentBuilder UpdateTimeToLive :=
  fluent UpdateTimeToLive (dynamodb_client self).

Definition wait_until_contributor_insights_enabled self : WaiterBuilder ContributorInsightsEnabled :=
  waiter ContributorInsightsEnabled (dynamodb_client self).
Definition wait_until_export_completed self : WaiterBuilder ExportCompleted :=
  waiter ExportCompleted (dynamodb_client self).
Definition wait_until_import_completed self : WaiterBuilder ImportCompleted :=
  waiter ImportCompleted (dynamodb_client self).
Definition wait_until_kinesis_streaming_destination_active self : WaiterBuilder KinesisStreamingDestinationActive :=
  waiter KinesisStreamingDestinationActive (dynamodb_client self).
Definition wait_until_table_exists self : WaiterBuilder TableExists :=
  waiter TableExists (dynamodb_client self).
Definition wait_until_table_not_exists self : WaiterBuilder TableNotExists :=
  waiter TableNotExists (dynamodb_client self).

(** The wrappers by their names. *)
Definition operations : list (string * { op : Operation & AlternatorClient → FluentBuilder op }) :=
  [("batch_execute_statement", existT BatchExecuteStatement batch_execute_statement);
   ("batch_get_item", existT BatchGetItem batch_get_item);
   ("batch_write_item", existT BatchWriteItem batch_write_item);
   ("create_backup", existT CreateBackup create_backup);
   ("create_global_table", existT CreateGlobalTable create_global_table);
   ("create_table", existT CreateTable create_table);
   ("delete_backup", existT DeleteBackup delete_backup);
   ("delete_item", existT DeleteItem delete_item);
   ("delete_resource_policy", existT DeleteResourcePolicy delete_resource_policy);
   ("delete_table", existT DeleteTable delete_table);
   ("describe_backup", existT DescribeBackup describe_backup);
   ("describe_continuous_backups", existT DescribeContinuousBackups describe_continuous_backups);
   ("describe_contributor_insights", existT DescribeContributorInsights describe_contributor_insights);
   ("describe_endpoints", existT DescribeEndpoints describe_endpoints);
   ("describe_export", existT DescribeExport describe_export);
   ("describe_global_table", existT DescribeGlobalTable describe_global_table);
   ("describe_global_table_settings", existT DescribeGlobalTableSettings describe_global_table_settings);
   ("describe_import", existT DescribeImport describe_import);
   ("describe_kinesis_streaming_destination", existT DescribeKinesisStreamingDestination describe_kinesis_streaming_destination);
   ("describe_limits", existT DescribeLimits describe_limits);
   ("describe_table", existT DescribeTable describe_table);
   ("describe_table_replica_auto_scaling", existT DescribeTableReplicaAutoScaling describe_table_replica_auto_scaling);
   ("describe_time_to_live", existT DescribeTimeToLive describe_time_to_live);
   ("disable_kinesis_streaming_destination", existT DisableKinesisStreamingDestination disable_kinesis_streaming_destination);
   ("enable_kinesis_streaming_destination", existT EnableKinesisStreamingDestination enable_kinesis_streaming_destination);
   ("execute_statement", existT ExecuteStatement execute_statement);
   ("execute_transaction", existT ExecuteTransaction execute_transaction);
   ("export_table_to_point_in_time", existT ExportTableToPointInTime export_table_to_point_in_time);
   ("get_item", existT GetItem get_item);
   ("get_resource_policy", existT GetResourcePolicy get_resource_policy);
   ("import_table", existT ImportTable import_table);
   ("list_backups", existT ListBackups list_backups);
   ("list_contributor_insights", existT ListContributorInsights list_contributor_insights);
   ("list_exports", existT ListExports list_exports);
   ("list_global_tables", existT ListGlobalTables list_global_tables);
   ("list_imports", existT ListImports list_imports);
   ("list_tables", existT ListTables list_tables);
   ("list_tags_of_resource", existT ListTagsOfResource list_tags_of_resource);
   ("put_item", existT PutItem put_item);
   ("put_resource_policy", existT PutResourcePolicy put_resource_policy);
   ("query", existT Query query);
   ("restore_table_from_backup", existT RestoreTableFromBackup restore_table_from_backup);
   ("restore_table_to_point_in_time", existT RestoreTableToPointInTime restore_table_to_point_in_time);
   ("scan", existT Scan scan);
   ("tag_resource", existT TagResource tag_resource);
   ("transact_get_items", existT TransactGetItems transact_get_items);
   ("transact_write_items", existT TransactWriteItems transact_write_items);
   ("untag_resource", existT UntagResource untag_resource);
   ("update_continuous_backups", existT UpdateContinuousBackups update_continuous_backups);
   ("update_contributor_insights", existT UpdateContributorInsights update_contributor_insights);
   ("update_global_table", existT UpdateGlobalTable update_global_table);
   ("update_global_table_settings", existT UpdateGlobalTableSettings update_global_table_settings);
   ("update_item", existT UpdateItem update_item);
   ("update_kinesis_streaming_destination", existT UpdateKinesisStreamingDestination update_kinesis_streaming_destination);
   ("update_table", existT UpdateTable update_table);
   ("update_table_replica_auto_scaling", existT UpdateTableReplicaAutoScaling update_table_replica_auto_scaling);
   ("update_time_to_live", existT UpdateTimeToLive update_time_to_live)].
Definition waiters : list (string * { w : Waiter & AlternatorClient → WaiterBuilder w }) :=
  [("wait_until_contributor_insights_enabled", existT ContributorInsightsEnabled wait_until_contributor_insights_enabled);
   ("wait_until_export_completed", existT ExportCompleted wait_until_export_completed);
   ("wait_until_import_completed", existT ImportCompleted wait_until_import_completed);
   ("wait_until_kinesis_streaming_destination_active", existT KinesisStreamingDestinationActive wait_until_kinesis_streaming_destination_active);
   ("wait_until_table_exists", existT TableExists wait_until_table_exists);
   ("wait_until_table_not_exists", existT TableNotExists wait_until_table_not_exists)].

End passthroughs.

(** ** Names *)

Definition operation_name (op : Operation) : string :=
  match op with
  | BatchExecuteStatement => "BatchExecuteStatement"
  | BatchGetItem => "BatchGetItem"
  | BatchWriteItem => "BatchWriteItem"
  | CreateBackup => "CreateBackup"
  | CreateGlobalTable => "CreateGlobalTable"
  | CreateTable => "CreateTable"
  | DeleteBackup => "DeleteBackup"
  | DeleteItem => "DeleteItem"
  | DeleteResourcePolicy => "DeleteResourcePolicy"
  | DeleteTable => "DeleteTable"
  | DescribeBackup => "DescribeBackup"
  | DescribeContinuousBackups => "DescribeContinuousBackups"
  | DescribeContributorInsights => "DescribeContributorInsights"
  | DescribeEndpoints => "DescribeEndpoints"
  | DescribeExport => "DescribeExport"
  | DescribeGlobalTable => "DescribeGlobalTable"
  | DescribeGlobalTableSettings => "DescribeGlobalTableSettings"
  | DescribeImport => "DescribeImport"
  | DescribeKinesisStreamingDestination => "DescribeKinesisStreamingDestination"
  | DescribeLimits => "DescribeLimits"
  | DescribeTable => "DescribeTable"
  | DescribeTableReplicaAutoScaling => "DescribeTableReplicaAutoScaling"
  | DescribeTimeToLive => "DescribeTimeToLive"
  | DisableKinesisStreamingDestination => "DisableKinesisStreamingDestination"
  | EnableKinesisStreamingDestination => "EnableKinesisStreamingDestination"
  | ExecuteStatement => "ExecuteStatement"
  | ExecuteTransaction => "ExecuteTransaction"
  | ExportTableToPointInTime => "ExportTableToPointInTime"
  | GetItem => "GetItem"
  | GetResourcePolicy => "GetResourcePolicy"
  | ImportTable => "ImportTable"
  | ListBackups => "ListBackups"
  | ListContributorInsights => "ListContributorInsights"
  | ListExports => "ListExports"
  | ListGlobalTables => "ListGlobalTables"
  | ListImports => "ListImports"
  | ListTables => "ListTables"
  | ListTagsOfResource => "ListTagsOfResource"
  | PutItem => "PutItem"
  | PutResourcePolicy => "PutResourcePolicy"
  | Query => "Query"
  | RestoreTableFromBackup => "RestoreTableFromBackup"
  | RestoreTableToPointInTime => "RestoreTableToPointInTime"
  | Scan => "Scan"
  | TagResource => "TagResource"
  | TransactGetItems => "TransactGetItems"
  | TransactWriteItems => "TransactWriteItems"
  | UntagResource => "UntagResource"
  | UpdateContinuousBackups => "UpdateContinuousBackups"
  | UpdateContributorInsights => "UpdateContributorInsights"
  | UpdateGlobalTable => "UpdateGlobalTable"
  | UpdateGlobalTableSettings => "UpdateGlobalTableSettings"
  | UpdateItem => "UpdateItem"
  | UpdateKinesisStreamingDestination => "UpdateKinesisStreamingDestination"
  | UpdateTable => "UpdateTable"
  | UpdateTableReplicaAutoScaling => "UpdateTableReplicaAutoScaling"
  | UpdateTimeToLive => "UpdateTimeToLive"
  end.
Definition waiter_name (w : Waiter) : string :=
  match w with
  | ContributorInsightsEnabled => "ContributorInsightsEnabled"
  | ExportCompleted => "ExportCompleted"
  | ImportCompleted => "ImportCompleted"
  | KinesisStreamingDestinationActive => "KinesisStreamingDestinationActive"
  | TableExists => "TableExists"
  | TableNotExists => "TableNotExists"
  end.

(** Where the wrapper of an operation is. *)
Definition operation_index (op : Operation) : nat :=
  match op with
  | BatchExecuteStatement => 0
  | BatchGetItem => 1
  | BatchWriteItem => 2
  | CreateBackup => 3
  | CreateGlobalTable => 4
  | CreateTable => 5
  | DeleteBackup => 6
  | DeleteItem => 7
  | DeleteResourcePolicy => 8
  | DeleteTable => 9
  | DescribeBackup => 10
  | DescribeContinuousBackups => 11
  | DescribeContributorInsights => 12
  | DescribeEndpoints => 13
  | DescribeExport => 14
  | DescribeGlobalTable => 15
  | DescribeGlobalTableSettings => 16
  | DescribeImport => 17
  | DescribeKinesisStreamingDestination => 18
  | DescribeLimits => 19
  | DescribeTable => 20
  | DescribeTableReplicaAutoScaling => 21
  | DescribeTimeToLive => 22
  | DisableKinesisStreamingDestination => 23
  | EnableKinesisStreamingDestination => 24
  | ExecuteStatement => 25
  | ExecuteTransaction => 26
  | ExportTableToPointInTime => 27
  | GetItem => 28
  | GetResourcePolicy => 29
  | ImportTable => 30
  | ListBackups => 31
  | ListContributorInsights => 32
  | ListExports => 33
  | ListGlobalTables => 34
  | ListImports => 35
  | ListTables => 36
  | ListTagsOfResource => 37
  | PutItem => 38
  | PutResourcePolicy => 39
  | Query => 40
  | RestoreTableFromBackup => 41
  | RestoreTableToPointInTime => 42
  | Scan => 43
  | TagResource => 44
  | TransactGetItems => 45
  | TransactWriteItems => 46
  | UntagResource => 47
  | UpdateContinuousBackups => 48
  | UpdateContributorInsights => 49
  | UpdateGlobalTable => 50
  | UpdateGlobalTableSettings => 51
  | UpdateItem => 52
  | UpdateKinesisStreamingDestination => 53
  | UpdateTable => 54
  | UpdateTableReplicaAutoScaling => 55
  | UpdateTimeToLive => 56
  end.
Definition waiter_index (w : Waiter) : nat :=
  match w with
  | ContributorInsightsEnabled => 0
  | ExportCompleted => 1
  | ImportCompleted => 2
  | KinesisStreamingDestinationActive => 3
  | TableExists => 4
  | TableNotExists => 5
  end.

(** [CamelCase] to [snake_case]. *)
Fixpoint snake_tail (s : string) : string :=
  match s with
  | EmptyString => EmptyString
  | String c s' =>
      if AsciiClass.is_upper c then String "_"%char (String (AsciiClass.to_lower c) (snake_tail s'))
      else String c (snake_tail s')
  end.
Definition snake_case (s : string) : string :=
  match s with
  | EmptyString => EmptyString
  | String c s' => String (AsciiClass.to_lower c) (snake_tail s')
  end.

End Passthroughs.

(** ** Properties *)

Section properties.
Context `{UrlApi, Flate, TaskApi} {types : SdkTypes} {tls : TlsApi} {U : Type}.
Context {sdk : SdkApi (SharedInterceptor U)} {fluents : FluentApi} {fluent_laws : FluentLaws}.
Import Passthroughs.

(** The wrappers are exactly the operations: there is one for each operation
    and each waiter, it has the name of its operation in snake case (waiters after
    [wait_until_]), and its builder belongs to the client's own SDK client. *)
Theorem passthroughs_exact :
  (λ o, snake_case (operation_name (projT1 o.2))) <$> operations (U := U) = fst <$> operations (U := U) ∧
  (∀ op, op ∈ (λ o, projT1 o.2) <$> operations (U := U)) ∧ NoDup (fst <$> operations (U := U)) ∧
  (λ w, "wait_until_" +:+ snake_case (waiter_name (projT1 w.2))) <$> waiters (U := U) =
    fst <$> waiters (U := U) ∧
  (∀ w, w ∈ (λ w, projT1 w.2) <$> waiters (U := U)) ∧ NoDup (fst <$> waiters (U := U)) ∧
  Forall (λ o : string * { op : Operation & AlternatorClient → FluentBuilder op }, ∀ self : AlternatorClient,
    builder_client (projT1 o.2) (projT2 o.2 self) = dynamodb_client self) (operations (U := U)) ∧
  Forall (λ w : string * { w : Waiter & AlternatorClient → WaiterBuilder w }, ∀ self : AlternatorClient,
    waiter_client (projT1 w.2) (projT2 w.2 self) = dynamodb_client self) (waiters (U := U)).
Proof.
  split_and!; [reflexivity| | |reflexivity| | | |].
  - intros op. apply (list_elem_of_lookup_2 _ (operation_index op)). by destruct op.
  - apply (bool_decide_unpack _). vm_cast_no_check I.
  - intros w. apply (list_elem_of_lookup_2 _ (waiter_index w)). by destruct w.
  - apply (bool_decide_unpack _). vm_cast_no_check I.
  - unfold operations. repeat constructor; intros self; apply fluent_client.
  - unfold waiters. repeat constructor; intros self; apply waiter_fluent_client.
Qed.

End properties.
