(* ===== verification/Text.v ===== *)
(** * Text as the standard library writes it

    Strings are their bytes in UTF-8.  This file has the characters of a string,
    [Debug] of [str], with which the driver quotes what a user configured, and
    [Display] of an unsigned integer.  Which characters beyond ASCII are printed
    as they are depends on the Unicode tables of the toolchain, which are a class.

    The lemmas: decoding undoes encoding, and a quoted string is
    self-delimiting: whatever follows it, it determines the string. *)

From stdpp Require Import pretty.
From Stdlib Require Import ZifyN.
From S2P Require Import Prelude UrlApi NodeUrl.

(** A Unicode scalar value, Rust's [char]. *)
Abbreviation scalar := N.

(** [core::unicode]: asked about scalar values beyond ASCII only. *)
Class CharTables := {
  is_grapheme_extended : scalar → bool;
  is_printable : scalar → bool;
}.

Module Text.
Local Open Scope N_scope.

Definition valid_scalar (c : scalar) : Prop := c < 0xD800 ∨ 0xE000 ≤ c < 0x110000.

Fixpoint bytes (l : list N) (rest : string) : string :=
  match l with
  | [] => rest
  | b :: l => String (Ascii.ascii_of_N b) (bytes l rest)
  end.

(** [char::encode_utf8]. *)
Definition utf8 (c : scalar) : list N :=
  if c <? 0x80 then [c]
  else if c <? 0x800 then [0xC0 + c / 64; 0x80 + c mod 64]
  else if c <? 0x10000 then [0xE0 + c / 4096; 0x80 + c / 64 mod 64; 0x80 + c mod 64]
  else [0xF0 + c / 262144; 0x80 + c / 4096 mod 64; 0x80 + c / 64 mod 64; 0x80 + c mod 64].
Definition encode (c : scalar) : string := bytes (utf8 c) EmptyString.

Definition concat_map {A} (f : A → string) (l : list A) : string :=
  foldr (λ x s, f x +:+ s) EmptyString l.
Definition of_chars (cs : list scalar) : string := concat_map encode cs.

(** [str::chars], on what is UTF-8. *)
Fixpoint chars (s : string) : list scalar :=
  match s with
  | EmptyString => []
  | String x s =>
      let x := Ascii.N_of_ascii x in
      if x <? 0x80 then x :: chars s
      else
        match s with
        | EmptyString => []
        | String y s =>
            let y := Ascii.N_of_ascii y mod 64 in
            if x <? 0xE0 then x mod 32 * 64 + y :: chars s
            else
              match s with
              | EmptyString => []
              | String z s =>
                  let z := Ascii.N_of_ascii z mod 64 in
                  if x <? 0xF0 then x mod 32 * 4096 + (y * 64 + z) :: chars s
                  else
                    match s with
                    | EmptyString => []
                    | String w s =>
                        let w := Ascii.N_of_ascii w mod 64 in
                        x mod 8 * 262144 + ((y * 64 + z) * 64 + w) :: chars s
                    end
              end
        end
  end.

(** A Rust string. *)
Definition utf8_string (s : string) : Prop :=
  ∃ cs, Forall valid_scalar cs ∧ s = of_chars cs.

(** ** [Debug] of [str] *)

Definition quote : string := bytes [34] EmptyString.
Definition backslash (d : scalar) : string := bytes [92; d] EmptyString.

Definition hex_digit (d : N) : N := if d <? 10 then 48 + d else 87 + d.
(** Lower-case hexadecimal without leading zeros; a [char] has six digits at
    most. *)
Fixpoint hex_digits (fuel : nat) (c : N) (rest : string) : string :=
  match fuel with
  | O => rest
  | S fuel =>
      let rest := bytes [hex_digit (c mod 16)] rest in
      if c <? 16 then rest else hex_digits fuel (c / 16) rest
  end.

(** The characters with an escape of their own; [str] leaves the single quote. *)
Definition simple_escape (c : scalar) : option scalar :=
  if c =? 0 then Some 48
  else if c =? 9 then Some 116
  else if c =? 13 then Some 114
  else if c =? 10 then Some 110
  else if (c =? 92) || (c =? 34) then Some c
  else None.

Section debug.
Context `{CharTables}.

Definition printed_as_is (c : scalar) : bool :=
  if c <? 0x80 then (0x20 <=? c) && (c <? 0x7F)
  else negb (is_grapheme_extended c) && is_printable c.

(** [char::escape_debug_ext], as [str] calls it. *)
Definition escape_debug (c : scalar) : string :=
  match simple_escape c with
  | Some d => backslash d
  | None =>
      if printed_as_is c then encode c
      else bytes [92; 117; 123] (hex_digits 6 c (bytes [125] EmptyString))
  end.

(** [{:?}]. *)
Definition debug_str (s : string) : string :=
  quote +:+ concat_map escape_debug (chars s) +:+ quote.
End debug.
End Text.

Module TextFacts.
Import Text.
Section facts.
Local Open Scope N_scope.

Lemma bytes_app l s t : bytes l s +:+ t = bytes l (s +:+ t).
Proof. induction l as [|b l IH]; [done|]. cbn [bytes]. by rewrite <-IH. Qed.

Lemma bytes_append l s : bytes l EmptyString +:+ s = bytes l s.
Proof. apply bytes_app. Qed.

Lemma encode_app c s : encode c +:+ s = bytes (utf8 c) s.
Proof. apply bytes_app. Qed.

Lemma byte_back b : b < 256 → Ascii.N_of_ascii (Ascii.ascii_of_N b) = b.
Proof. apply Ascii.N_ascii_embedding. Qed.

(** The first character. *)
Lemma chars_encode c s : valid_scalar c → chars (encode c +:+ s) = c :: chars s.
Proof.
  unfold valid_scalar. intros Hc. rewrite encode_app. unfold utf8.
  destruct (N.ltb_spec c 0x80); [|destruct (N.ltb_spec c 0x800); [|destruct (N.ltb_spec c 0x10000)]];
    cbn [bytes chars]; rewrite !byte_back by lia.
  - destruct (N.ltb_spec c 0x80); [done|lia].
  - destruct (N.ltb_spec (0xC0 + c / 64) 0x80); [lia|].
    destruct (N.ltb_spec (0xC0 + c / 64) 0xE0); [|lia]. f_equal. lia.
  - destruct (N.ltb_spec (0xE0 + c / 4096) 0x80); [lia|].
    destruct (N.ltb_spec (0xE0 + c / 4096) 0xE0); [lia|].
    destruct (N.ltb_spec (0xE0 + c / 4096) 0xF0); [|lia]. f_equal. lia.
  - destruct (N.ltb_spec (0xF0 + c / 262144) 0x80); [lia|].
    destruct (N.ltb_spec (0xF0 + c / 262144) 0xE0); [lia|].
    destruct (N.ltb_spec (0xF0 + c / 262144) 0xF0); [lia|]. f_equal. lia.
Qed.

Lemma concat_map_cons {A} (f : A → string) x l s :
  concat_map f (x :: l) +:+ s = f x +:+ concat_map f l +:+ s.
Proof. apply app_assoc_str. Qed.

(** Decoding undoes encoding. *)
Lemma chars_of_chars cs : Forall valid_scalar cs → chars (of_chars cs) = cs.
Proof.
  induction 1 as [|c cs Hc Hcs IH]; [done|].
  change (of_chars (c :: cs)) with (encode c +:+ of_chars cs). by rewrite chars_encode, IH.
Qed.

Lemma encode_prefix c c' s s' :
  valid_scalar c → valid_scalar c' → encode c +:+ s = encode c' +:+ s' → c = c' ∧ s = s'.
Proof.
  intros Hc Hc' He. pose proof (f_equal chars He) as Hh. rewrite !chars_encode in Hh by done.
  injection Hh as -> _. split; [done|]. by apply (inj (String.append (encode c'))).
Qed.

(** *** Hexadecimal *)

Definition hex_value (d : N) : N := if d <? 58 then d - 48 else d - 87.
Fixpoint read_hex (value : N) (s : string) : N * string :=
  match s with
  | EmptyString => (value, s)
  | String b s =>
      let b := Ascii.N_of_ascii b in
      if b =? 125 then (value, s) else read_hex (value * 16 + hex_value b) s
  end.

Lemma read_hex_digit d value rest :
  d < 16 → read_hex value (bytes [hex_digit d] rest) = read_hex (value * 16 + d) rest.
Proof.
  intros Hd. unfold hex_digit. cbn [bytes read_hex]. unfold hex_value.
  destruct (N.ltb_spec d 10); rewrite byte_back by lia.
  - destruct (N.eqb_spec (48 + d) 125); [lia|]. destruct (N.ltb_spec (48 + d) 58); [|lia]. f_equal. lia.
  - destruct (N.eqb_spec (87 + d) 125); [lia|]. destruct (N.ltb_spec (87 + d) 58); [lia|]. f_equal. lia.
Qed.

Lemma read_hex_digits fuel c rest :
  c < 16 ^ N.of_nat fuel → read_hex 0 (hex_digits fuel c rest) = read_hex c rest.
Proof.
  revert c rest. induction fuel as [|fuel IH]; intros c rest Hc; cbn [hex_digits].
  { by replace c with 0 by lia. }
  rewrite Nat2N.inj_succ, N.pow_succ_r' in Hc.
  destruct (N.ltb_spec c 16).
  - rewrite read_hex_digit by lia. f_equal. lia.
  - rewrite IH by lia. rewrite read_hex_digit by lia. f_equal. lia.
Qed.

Lemma hex_prefix c c' s s' :
  valid_scalar c → valid_scalar c' →
  hex_digits 6 c (bytes [125] s) = hex_digits 6 c' (bytes [125] s') → c = c' ∧ s = s'.
Proof.
  intros Hc Hc' He. pose proof (f_equal (read_hex 0) He) as Hr. unfold valid_scalar in *.
  rewrite !read_hex_digits in Hr by (simpl; lia). cbn in Hr. by injection Hr as -> ->.
Qed.

Lemma hex_digits_app fuel c rest s : hex_digits fuel c rest +:+ s = hex_digits fuel c (rest +:+ s).
Proof.
  revert c rest. induction fuel as [|fuel IH]; intros c rest; [done|]. cbn [hex_digits].
  destruct (c <? 16); [apply bytes_app|]. by rewrite IH, bytes_app.
Qed.

(** *** Quoting *)

Definition first_byte (s : string) : N :=
  match s with EmptyString => 0 | String b _ => Ascii.N_of_ascii b end.

Lemma simple_escape_spec c d :
  simple_escape c = Some d →
  (c, d) ∈ [(0, 48); (9, 116); (13, 114); (10, 110); (92, 92); (34, 34)].
Proof.
  assert (∀ x, Some x = Some d → (c, x) ∈ [(0, 48); (9, 116); (13, 114); (10, 110); (92, 92); (34, 34)] →
    (c, d) ∈ [(0, 48); (9, 116); (13, 114); (10, 110); (92, 92); (34, 34)]) as Hd
    by (by intros x [= ->]).
  unfold simple_escape.
  destruct (N.eqb_spec c 0) as [->|]; [intros Hx; apply (Hd _ Hx); set_solver|].
  destruct (N.eqb_spec c 9) as [->|]; [intros Hx; apply (Hd _ Hx); set_solver|].
  destruct (N.eqb_spec c 13) as [->|]; [intros Hx; apply (Hd _ Hx); set_solver|].
  destruct (N.eqb_spec c 10) as [->|]; [intros Hx; apply (Hd _ Hx); set_solver|].
  destruct (N.eqb_spec c 92) as [->|]; [intros Hx; apply (Hd _ Hx); set_solver|].
  destruct (N.eqb_spec c 34) as [->|]; [intros Hx; apply (Hd _ Hx); set_solver|done].
Qed.

Lemma simple_escape_inj c c' d : simple_escape c = Some d → simple_escape c' = Some d → c = c'.
Proof.
  intros Hc%simple_escape_spec Hc'%simple_escape_spec.
  rewrite !elem_of_cons, elem_of_nil in Hc, Hc'. naive_solver.
Qed.

Lemma first_byte_encode c s :
  valid_scalar c → simple_escape c = None →
  first_byte (encode c +:+ s) ≠ 92 ∧ first_byte (encode c +:+ s) ≠ 34.
Proof.
  unfold valid_scalar. intros Hc Hs. rewrite encode_app. unfold utf8.
  destruct (N.ltb_spec c 0x80); [|destruct (N.ltb_spec c 0x800); [|destruct (N.ltb_spec c 0x10000)]];
    cbn [bytes first_byte]; rewrite byte_back by lia; try lia.
  split; intros ->; discriminate Hs.
Qed.

Context `{CharTables}.

Lemma first_byte_escape c s : valid_scalar c → first_byte (escape_debug c +:+ s) ≠ 34.
Proof.
  intros Hc. unfold escape_debug. destruct (simple_escape c) eqn:Hs; [done|].
  destruct (printed_as_is c); [|done]. by apply first_byte_encode.
Qed.

(** The escape of a character is a prefix code. *)
Lemma escape_debug_prefix c c' s s' :
  valid_scalar c → valid_scalar c' → escape_debug c +:+ s = escape_debug c' +:+ s' → c = c' ∧ s = s'.
Proof.
  intros Hc Hc' He. pose proof (f_equal first_byte He) as Hb. unfold escape_debug in He, Hb.
  destruct (simple_escape c) as [d|] eqn:Hs, (simple_escape c') as [d'|] eqn:Hs'.
  - unfold backslash in He. rewrite !bytes_append in He. cbn [bytes] in He. injection He as Hd ->.
    assert (d = d') as ->.
    { apply simple_escape_spec in Hs, Hs'. rewrite !elem_of_cons, elem_of_nil in Hs, Hs'.
      apply (f_equal Ascii.N_of_ascii) in Hd. rewrite !byte_back in Hd; naive_solver lia. }
    split; [by eapply simple_escape_inj|done].
  - destruct (printed_as_is c'); [by destruct (first_byte_encode c' s' Hc' Hs')|].
    unfold backslash in He. rewrite bytes_append, bytes_app in He. cbn [bytes] in He. injection He as Hd _.
    apply simple_escape_spec in Hs. rewrite !elem_of_cons, elem_of_nil in Hs.
    apply (f_equal Ascii.N_of_ascii) in Hd. rewrite byte_back in Hd; naive_solver lia.
  - destruct (printed_as_is c); [by destruct (first_byte_encode c s Hc Hs)|].
    unfold backslash in He. rewrite bytes_append, bytes_app in He. cbn [bytes] in He. injection He as Hd _.
    apply simple_escape_spec in Hs'. rewrite !elem_of_cons, elem_of_nil in Hs'.
    apply (f_equal Ascii.N_of_ascii) in Hd. rewrite byte_back in Hd; naive_solver lia.
  - destruct (printed_as_is c), (printed_as_is c').
    + by apply encode_prefix.
    + by destruct (first_byte_encode c s Hc Hs).
    + by destruct (first_byte_encode c' s' Hc' Hs').
    + rewrite !bytes_app, !hex_digits_app, !bytes_app in He. cbn [bytes] in He.
      injection He as He. by apply (hex_prefix c c' s s').
Qed.

(** The quotes end a quoted string. *)
Lemma debug_chars_prefix cs cs' s s' :
  Forall valid_scalar cs → Forall valid_scalar cs' →
  concat_map escape_debug cs +:+ quote +:+ s = concat_map escape_debug cs' +:+ quote +:+ s' →
  cs = cs' ∧ s = s'.
Proof.
  intros Hcs. revert cs'. induction Hcs as [|c cs Hc Hcs IH]; intros cs' Hcs' He.
  - destruct Hcs' as [|c' cs' Hc' Hcs'].
    + split; [done|]. by apply (inj (String.append quote)).
    + rewrite concat_map_cons in He. by destruct (first_byte_escape c' _ Hc' (eq_sym (f_equal first_byte He))).
  - destruct Hcs' as [|c' cs' Hc' Hcs']; rewrite !concat_map_cons in He.
    + by destruct (first_byte_escape c _ Hc (f_equal first_byte He)).
    + apply escape_debug_prefix in He as [-> He]; [|done..].
      by destruct (IH cs' Hcs' He) as [-> ->].
Qed.

Lemma debug_str_prefix s t u w :
  utf8_string s → utf8_string t → debug_str s +:+ u = debug_str t +:+ w → s = t ∧ u = w.
Proof.
  intros (cs & Hcs & ->) (ct & Hct & ->). unfold debug_str. rewrite !chars_of_chars by done.
  rewrite !app_assoc_str. intros He%(inj (String.append quote)).
  by apply debug_chars_prefix in He as [-> ->].
Qed.
End facts.
End TextFacts.

(** ** [Display] of an unsigned integer *)

Module DecimalFacts.

#[local] Abbreviation digit := AsciiClass.is_digit.
#[local] Abbreviation digits := (str_all AsciiClass.is_digit).

Lemma pretty_go_digits x s : digits s = true → digits (pretty_N_go x s) = true.
Proof.
  revert s. induction (N.lt_wf_0 x) as [x _ IH]. intros s Hs.
  destruct (decide (0 < x)%N); [|by replace x with 0%N by lia; rewrite pretty_N_go_0].
  rewrite pretty_N_go_step by done. apply IH; [by apply N.div_lt|]. simpl. rewrite Hs, andb_true_r.
  unfold pretty_N_char. by repeat case_match.
Qed.

Lemma pretty_digits (n : N) : digits (pretty n) = true.
Proof. unfold pretty, pretty_N. case_decide; [done|by apply pretty_go_digits]. Qed.

(** A number ends where its digits do. *)
Lemma digits_prefix d d' a s a' s' :
  digits d = true → digits d' = true → digit a = false → digit a' = false →
  String.app d (String a s) = String.app d' (String a' s') → d = d' ∧ String a s = String a' s'.
Proof.
  intros Hd Hd' Ha Ha'. revert d' Hd'. induction d as [|b d IH]; intros [|b' d'] Hd' He.
  - done.
  - injection He as -> _. simpl in Hd'. by rewrite Ha in Hd'.
  - injection He as -> _. simpl in Hd. by rewrite Ha' in Hd.
  - injection He as -> He. simpl in Hd, Hd'. apply andb_true_iff in Hd as [_ Hd], Hd' as [_ Hd'].
    by destruct (IH Hd d' Hd' He) as [-> ->].
Qed.

Lemma number_prefix (n n' : N) a s a' s' :
  digit a = false → digit a' = false →
  String.app (pretty n) (String a s) = String.app (pretty n') (String a' s') →
  n = n' ∧ String a s = String a' s'.
Proof.
  intros Ha Ha' He. apply digits_prefix in He as [He ->]; [|apply pretty_digits|apply pretty_digits|done..].
  by apply (inj pretty) in He as ->.
Qed.
End DecimalFacts.
