(* ===== verification/Errors.v ===== *)
(** * What the errors say (the [Display] and [Error] implementations of
      [src/src/live_nodes.rs], [src/src/client.rs], [src/src/decompression.rs],
      the texts of [src/src/interceptors.rs], and [Debug] of [UserAgent])

    What a user of the driver gets to see of a failure is its text and its chain
    of sources.  The texts of the errors of other crates are a class.

    The theorems: the text of a failed construction identifies the failure, so
    that two different failures never read alike, although most texts quote what
    the user configured; only two failures to build the HTTP client may, when
    [reqwest] gives both the same text.  The text of an error contains that of
    its source, down the chain; and the text of a refused response says why it was refused. *)

From stdpp Require Import pretty.
From S2P Require Import Prelude UrlApi NodeUrl Text Http OptimizeHeaders Decompression Interceptors.
From S2P Require Import DiscoveryHttp Validation.

(** [to_string] of the errors of [url] and [reqwest]. *)
Class ErrorTexts `{TlsApi} := {
  parse_error_text : ParseError → string;
  reqwest_error_text : ReqwestError → string;
}.

(** The variants of [url::ParseError] have texts of their own; nothing is assumed
    of the texts of [reqwest]. *)
Class ErrorTextLaws `{ErrorTexts} : Prop := {
  parse_error_text_inj :: Inj (=) (=) parse_error_text;
}.

(** What [source] returns: an error of one of these types. *)
Inductive Source `{TlsApi} : Type :=
| SourceParse (e : ParseError)
| SourceReqwest (e : ReqwestError)
| SourceLiveNodes (e : LiveNodesBuildError).

Module ErrorText.
Section construction.
Context `{CharTables, ErrorTexts}.

(** [Display] of [LiveNodesBuildError]. *)
Definition live_nodes_error_text (e : LiveNodesBuildError) : string :=
  match e with
  | MissingRoutingTarget => "no Alternator routing target configured; set non-empty seed_hosts"
  | InvalidSeedHost seed_host source =>
      "invalid seed host " +:+ Text.debug_str seed_host +:+ ": " +:+ parse_error_text source
  | InvalidScheme scheme =>
      "invalid Alternator transport scheme " +:+ Text.debug_str scheme +:+
      ": expected http or https, or a valid custom URI scheme for direct routing with a custom HTTP client"
  | TlsConfiguration message => "failed to configure discovery TLS: " +:+ message
  | HttpClientError source =>
      "failed to build the HTTP client for live-node discovery: " +:+ reqwest_error_text source
  end.

(** Its [Error::source]. *)
Definition live_nodes_error_source (e : LiveNodesBuildError) : option Source :=
  match e with
  | MissingRoutingTarget | InvalidScheme _ => None
  | InvalidSeedHost _ source => Some (SourceParse source)
  | TlsConfiguration _ => None
  | HttpClientError source => Some (SourceReqwest source)
  end.

(** [Display] of [AlternatorClientBuildError]. *)
Definition client_error_text (e : AlternatorClientBuildError) : string :=
  match e with
  | SdkConfiguration message => "failed to configure AWS SDK client: " +:+ message
  | TlsConfigurationError message => "failed to configure SDK TLS: " +:+ message
  | DiscoveryConfiguration message => "failed to configure Alternator discovery: " +:+ message
  | LiveNodesError source =>
      "failed to configure Alternator routing: " +:+ live_nodes_error_text source
  end.

(** Its [Error::source]. *)
Definition client_error_source (e : AlternatorClientBuildError) : option Source :=
  match e with
  | SdkConfiguration _ => None
  | TlsConfigurationError _ => None
  | DiscoveryConfiguration _ => None
  | LiveNodesError source => Some (SourceLiveNodes source)
  end.

(** [From<LiveNodesBuildError>]. *)
Definition from_live_nodes_error (source : LiveNodesBuildError) : AlternatorClientBuildError :=
  LiveNodesError source.

Definition source_text (s : Source) : string :=
  match s with
  | SourceParse e => parse_error_text e
  | SourceReqwest e => reqwest_error_text e
  | SourceLiveNodes e => live_nodes_error_text e
  end.

(** What an error quotes is a Rust string. *)
Definition live_nodes_error_utf8 (e : LiveNodesBuildError) : Prop :=
  match e with
  | InvalidSeedHost seed_host _ => Text.utf8_string seed_host
  | InvalidScheme scheme => Text.utf8_string scheme
  | _ => True
  end.
Definition client_error_utf8 (e : AlternatorClientBuildError) : Prop :=
  match e with LiveNodesError source => live_nodes_error_utf8 source | _ => True end.
End construction.

(** ** Errors of an attempt *)

(** [Display] of [ResponseEncodingLayerLimitExceeded]. *)
Definition layer_limit_text (e : ResponseEncodingLayerLimitExceeded) : string :=
  "response Content-Encoding has " +:+ pretty (N.of_nat (actual e)) +:+
  " layers; maximum supported is " +:+ pretty (N.of_nat (maximum e)).

(** [Display] of [DecompressedResponseSizeLimitExceeded], also through the
    [io::Error] that carries it. *)
Definition io_error_text (e : IoError) : string :=
  match e with
  | DecompressedResponseSizeLimitExceeded limit =>
      "decompressed response exceeds " +:+ pretty limit +:+ " byte limit"
  | OtherError message => message
  end.

(** The errors of [modify_before_deserialization]. *)
Definition decode_error_text (e : DecodeError) : string :=
  match e with
  | TooManyLayers e => layer_limit_text e
  | UnsupportedEncoding token =>
      "unsupported Content-Encoding: '" +:+ token +:+ "'. Supported encodings are: gzip, deflate"
  end.

(** The errors of [modify_before_transmit] of its own; the rest are those of
    [Url::parse] and of [Request::set_uri]. *)
Definition route_error_text (e : RouteError) : option string :=
  match e with
  | NoLiveNode => Some "no live Alternator node available to route the request to"
  | CannotSetScheme => Some "cannot set scheme"
  | CannotSetHost => Some "cannot set host"
  | CannotSetPort => Some "cannot set port"
  | BadRequestUri _ | InvalidUri => None
  end.

(** ** [Debug] of [UserAgent], in its two modes *)

Definition newline : string := Text.bytes [10%N] EmptyString.

Definition user_agent_debug `{CharTables} (alternate : bool) (u : UserAgent) : string :=
  match u with
  | UaDefault => "UserAgent::Default"
  | UaDisabled => "UserAgent::Disabled"
  | UaValue value =>
      if alternate
      then "UserAgent::Value(" +:+ newline +:+ "    " +:+ Text.debug_str value +:+ "," +:+ newline +:+ ")"
      else "UserAgent::Value(" +:+ Text.debug_str value +:+ ")"
  | UaTransform _ => "UserAgent::Transform(<callback>)"
  end.
End ErrorText.

(** ** Properties *)

Section properties.
Context `{CharTables, ErrorTextLaws}.
Import ErrorText.

(** Two failures to build the HTTP client for which [reqwest] has one text. *)
Definition same_http_failure (e e' : LiveNodesBuildError) : Prop :=
  ∃ s s', e = HttpClientError s ∧ e' = HttpClientError s' ∧ reqwest_error_text s = reqwest_error_text s'.

Lemma live_nodes_error_text_inj e e' :
  live_nodes_error_utf8 e → live_nodes_error_utf8 e' →
  live_nodes_error_text e = live_nodes_error_text e' → e = e' ∨ same_http_failure e e'.
Proof.
  intros He He'. destruct e, e'; cbn [live_nodes_error_text]; intros Ht; try discriminate Ht.
  - by left.
  - left. apply (inj (String.app _)) in Ht. apply TextFacts.debug_str_prefix in Ht as [-> Ht]; [|done..].
    apply (inj (String.app _)), (inj parse_error_text) in Ht. by rewrite Ht.
  - left. apply (inj (String.app _)) in Ht. by apply TextFacts.debug_str_prefix in Ht as [-> _].
  - left. apply (inj (String.app _)) in Ht. by rewrite Ht.
  - right. apply (inj (String.app _)) in Ht. by eexists _, _.
Qed.

(** C40: a failed construction can be told from its text: two failures read alike
    exactly when they are the same failure, with the same cause and about the same
    seed host or scheme, however odd the text is that was configured as one, or
    when both are failures to build the HTTP client to which [reqwest] gives the
    same text.  No failure of another kind ever reads like one of these. *)
Theorem build_error_identified (e e' : AlternatorClientBuildError) :
  client_error_utf8 e → client_error_utf8 e' →
  client_error_text e = client_error_text e' ↔
  e = e' ∨
  ∃ s s', e = LiveNodesError (HttpClientError s) ∧ e' = LiveNodesError (HttpClientError s') ∧
    reqwest_error_text s = reqwest_error_text s'.
Proof.
  intros He He'. split; cycle 1.
  { intros [->|(s & s' & -> & -> & Hs)]; [done|]. simpl. by rewrite Hs. }
  destruct e, e'; cbn [client_error_text]; intros Ht; try discriminate Ht;
    apply (inj (String.app _)) in Ht; try (by rewrite Ht; left).
  apply live_nodes_error_text_inj in Ht as [->|(s & s' & -> & -> & Hs)]; [by left| |done..].
  right. by exists s, s'.
Qed.

(** A refused response says exactly why: two refusals that read alike are about the
    same numbers of layers or the same encoding, and two size errors that read
    alike about the same limit. *)
Theorem refusal_identified :
  (∀ e e', decode_error_text e = decode_error_text e' → e = e') ∧
  ∀ n n', io_error_text (DecompressedResponseSizeLimitExceeded n) =
          io_error_text (DecompressedResponseSizeLimitExceeded n') → n = n'.
Proof.
  split.
  - intros [[a m]|t] [[a' m']|t'] He; try discriminate He; cbn [decode_error_text] in He;
      apply (inj (String.app _)) in He.
    + apply DecimalFacts.number_prefix in He as [Ha He]; [|done..].
      apply (inj (String.app " layers; maximum supported is ")), (inj pretty) in He. cbn [actual maximum] in *.
      by apply Nat2N.inj in Ha as ->, He as ->.
    + by apply app_cancel_str in He as ->.
  - intros n n' He. apply (inj (String.app _)) in He.
    by apply DecimalFacts.number_prefix in He as [-> _].
Qed.

(** The text of an error ends with the text of its source. *)
Theorem error_text_carries_source :
  (∀ e s, live_nodes_error_source e = Some s →
     ∃ before, live_nodes_error_text e = before +:+ source_text s) ∧
  ∀ e s, client_error_source e = Some s → ∃ before, client_error_text e = before +:+ source_text s.
Proof.
  split; intros e s; destruct e; try discriminate; intros [= <-]; cbn [source_text];
    [|by eexists..]. cbn [live_nodes_error_text].
  rewrite <-(app_assoc_str (Text.debug_str _)), <-app_assoc_str, <-app_assoc_str. by eexists.
Qed.
End properties.

(** ** Witnesses: the texts of a host without roots *)

Section witnesses.
Import ErrorText.
#[local] Instance ascii_only : CharTables := {|
  is_grapheme_extended _ := false;
  is_printable _ := false;
|}.
#[local] Instance no_roots : TlsApi := ListTls.api ([], []).
#[local] Instance texts : ErrorTexts := {|
  parse_error_text e :=
    match e with
    | EmptyHost => "empty host"
    | IdnaError => "invalid international domain name"
    | InvalidPort => "invalid port number"
    | InvalidIpv4Address => "invalid IPv4 address"
    | InvalidIpv6Address => "invalid IPv6 address"
    | InvalidDomainCharacter => "invalid domain character"
    | RelativeUrlWithoutBase => "relative URL without a base"
    | RelativeUrlWithCannotBeABaseBase => "relative URL with a cannot-be-a-base base"
    | SetHostOnCannotBeABaseUrl => "a cannot-be-a-base URL has no host to set"
    | Overflow => "URLs more than 4 GB are not supported"
    end;
  reqwest_error_text _ := "builder error";
|}.
#[local] Instance texts_laws : ErrorTextLaws.
Proof.
  split. intros [] [] He; done || discriminate He.
Qed.

(** The host is: quote, tab, [a], a right-to-left mark. *)
Definition odd_host : string := Text.of_chars [34; 9; 97; 0x200F]%N.
Definition odd_error : AlternatorClientBuildError := LiveNodesError (InvalidSeedHost odd_host IdnaError).

Example odd_error_text :
  client_error_text odd_error =
  "failed to configure Alternator routing: invalid seed host " +:+ Text.quote +:+
  "\" +:+ Text.quote +:+ "\ta\u{200f}" +:+ Text.quote +:+ ": invalid international domain name".
Proof. vm_compute. reflexivity. Qed.

(** The same host without the mark. *)
Definition near_error : AlternatorClientBuildError :=
  LiveNodesError (InvalidSeedHost (Text.of_chars [34; 9; 97]%N) IdnaError).

Lemma build_error_identified_witness : client_error_text odd_error ≠ client_error_text near_error.
Proof.
  intros He%(build_error_identified odd_error near_error).
  - destruct He as [He|(s & s' & He & _ & _)]; discriminate He.
  - exists [34; 9; 97; 0x200F]%N. split; [|reflexivity].
    repeat (constructor; [unfold Text.valid_scalar; lia|]). constructor.
  - exists [34; 9; 97]%N. split; [|reflexivity].
    repeat (constructor; [unfold Text.valid_scalar; lia|]). constructor.
Defined.
End witnesses.
