(* ===== verification/System.v ===== *)
(** * A client at work

    The parts of a client run concurrently and share its discovery state: callers
    touch the manager, discovery loops refresh the ordinary view and spawn
    refreshes of the affinity view, the resolver learns partition keys, and each
    request takes a plan from one view when it is built and a node from the plan
    at each attempt.  [Sys] is that shared state, started by a client that
    [try_from_conf] built, and an event is one critical section of one of the
    parts, run by the definitions of the files before this one.  Accesses advance
    by one atomic action of [DiscoveryInterleaving] at a time, also while they
    take discovery over.  The refreshes of the loops and of the affinity tasks are
    activities that advance by one step of [RefreshInterleaving] at a time, with
    any shuffles and answers; each belongs to the task that runs it, which is one
    that the task registry admitted, and they end where they await when that task
    is aborted, cancelled or lost with its runtime.  So nothing is assumed of what
    happens to a view meanwhile.

    The theorems: the memberships of a client never become empty and consist of
    nodes of the configured scheme and port; every attempt of every request goes
    to such a node, and so does every discovery request; and no request ever
    fails for want of a node. *)

From S2P Require Import Prelude UrlApi NodeUrl RoutingScope LiveNodes Refresh Membership.
From S2P Require Import RefreshInterleaving DiscoveryTasks.
From S2P Require Import Hasher Classifier QueryPlan Resolver AffinityPlan.
From S2P Require Import Http OptimizeHeaders Compression Decompression Interceptors Sdk Config.
From S2P Require Import DiscoveryHttp DiscoveryOwner DiscoveryInterleaving DiscoveryLoop LiveNodesBuild Validation Client.
From Stdlib Require Import Ascii.

(** A refresh under way belongs to a task: the loop of a runtime, or an affinity
    task. *)
Inductive RefreshTask `{TaskApi} : Type :=
| LoopTask (h : AbortHandle) (runtime : nat)
| AffinityTask (h : AbortHandle).
Record SysRefresh `{UrlApi, TaskApi} := mkSysRefresh {
  task : RefreshTask;
  activity : RefreshSteps.Activity;
}.

(** The shared state.  [machine] is the manager with the accesses in progress,
    [sys_loops] the loops that were spawned, with their runtimes, [sys_refreshes]
    are the refreshes under way, [sys_bags] the config bags of the requests under
    way; [sys_sent] and [sys_trace] record what was sent. *)
Record Sys `{UrlApi, TaskApi, SdkTypes, TlsApi, Flate, HeaderApi} {U Stream : Type} := mkSys {
  routing : SharedInterceptor U;
  machine : Machine;
  sys_loops : list (AbortHandle * nat);
  sys_refreshes : list SysRefresh;
  sys_resolver : option PartitionKeyResolver;
  sys_bags : gmap nat Interceptors.ConfigBag;
  sys_sent : list (Request Stream * Result (Request Stream) RouteError);
  sys_trace : list Effect;
}.
Arguments Sys {_ _ _ _ _ _} U Stream.

(** One critical section.  [finished] is [AbortHandle::is_finished] then;
    [OnMachine] is one of [DiscoveryInterleaving], and [OnDestroyed] the end of a
    task while it runs no refresh. *)
Inductive SysEvent `{UrlApi, TaskApi, HeaderApi} {Stream : Type} : Type :=
| OnMachine (finished : AbortHandle → bool) (e : MachineEvent)
| OnDestroyed (h : AbortHandle)
| OnLoop (h : AbortHandle) (runtime : nat)
| OnRefresh (k : nat) (input : RefreshInput)
| OnRefreshed (finished : AbortHandle → bool) (k : nat)
| OnAborted (k : nat)
| OnResolver (i : StepInput) (a : Resolver.Activity)
| OnPlan (request : nat) (e : PlanEnv) (input : Input)
| OnAttempt (request : nat) (r : Request Stream).
Arguments SysEvent {_ _ _} Stream.

Module Sys.
Section sys.
Context `{UrlApi, TaskApi, SdkTypes, TlsApi, Flate, HeaderApi, UriApi, !HashOrder, Murmur3}.
Context {U Stream : Type}.
Implicit Types (s : Sys U Stream) (m : DiscoveryManager) (x : SysRefresh).

Definition sys_manager s : DiscoveryManager := manager (machine s).

(** Updates of some fields. *)
Definition set_machine (mch : Machine) (l : list (AbortHandle * nat)) s : Sys U Stream :=
  mkSys _ _ _ _ _ _ _ _ (routing s) mch l (sys_refreshes s) (sys_resolver s) (sys_bags s)
    (sys_sent s) (sys_trace s).
Definition set_manager m s : Sys U Stream :=
  set_machine (Interleaving.set_manager m (machine s)) (sys_loops s) s.
Definition set_refreshes m (l : list SysRefresh) (t : list Effect) s : Sys U Stream :=
  mkSys _ _ _ _ _ _ _ _ (routing s) (Interleaving.set_manager m (machine s)) (sys_loops s) l
    (sys_resolver s) (sys_bags s) (sys_sent s) (sys_trace s ++ t).
Definition set_resolver (r : option PartitionKeyResolver) s : Sys U Stream :=
  mkSys _ _ _ _ _ _ _ _ (routing s) (machine s) (sys_loops s) (sys_refreshes s) r (sys_bags s)
    (sys_sent s) (sys_trace s).
Definition set_bag (request : nat) (b : Interceptors.ConfigBag) s : Sys U Stream :=
  mkSys _ _ _ _ _ _ _ _ (routing s) (machine s) (sys_loops s) (sys_refreshes s) (sys_resolver s)
    (<[request := b]> (sys_bags s)) (sys_sent s) (sys_trace s).
Definition record_sent (r : Request Stream) (res : Result (Request Stream) RouteError) s
    : Sys U Stream :=
  mkSys _ _ _ _ _ _ _ _ (routing s) (machine s) (sys_loops s) (sys_refreshes s) (sys_resolver s)
    (sys_bags s) (sys_sent s ++ [(r, res)]) (sys_trace s).

(** The view a handle reads. *)
Definition view_at (v : ViewRef) m : option NodeView :=
  match v with OrdinaryView => Some (ordinary m) | AffinityView => affinity_nodes m end.
Definition set_view_at (v : ViewRef) (n : NodeView) m : DiscoveryManager :=
  match v with
  | OrdinaryView => Manager.set_ordinary n m
  | AffinityView => Manager.set_affinity_nodes (Some n) m
  end.

(** The plan interceptor of the client: the bag it leaves, and the resolver. *)
Definition plan_bag (e : PlanEnv) (input : Input) (b : Interceptors.ConfigBag) s
    : option (Interceptors.ConfigBag * option PartitionKeyResolver) :=
  match routing s with
  | RoundRobinRouting _ => Some (Hooks.round_robin_before_serialization b, sys_resolver s)
  | AffinityRouting cfg _ affinity =>
      v ← view_at (handle_view affinity) (sys_manager s);
      r ← sys_resolver s;
      let '(plan, r) := AffinityPlan.get_query_plan cfg e v input r in
      plan ← plan; Some (Hooks.put_plan plan b, Some r)
  | UserInterceptor _ | DriverInterceptor _ => None
  end.

(** The view the round-robin plans of the client draw from. *)
Definition drawn_view s : ViewRef :=
  match routing s with
  | RoundRobinRouting nodes | AffinityRouting _ nodes _ => handle_view nodes
  | UserInterceptor _ | DriverInterceptor _ => OrdinaryView
  end.

(** *** Refreshes and their tasks *)

Definition task_handle (t : RefreshTask) : AbortHandle :=
  match t with LoopTask h _ | AffinityTask h => h end.
Definition handle_of x : AbortHandle := task_handle (task x).

(** The view of a refresh. *)
Definition refresh_view x : ViewRef :=
  match task x with LoopTask _ _ => OrdinaryView | AffinityTask _ => AffinityView end.

(** The tasks whose futures are not destroyed; [is_finished] is false of them. *)
Definition live_tasks m : list AbortHandle := tracked (tasks (manager_tasks m)).
Definition consistent (finished : AbortHandle → bool) m : Prop :=
  Forall (λ h, finished h = false) (live_tasks m).
#[export] Instance consistent_dec (finished : AbortHandle → bool) m : Decision (consistent finished m).
Proof. unfold consistent. apply _. Defined.

(** The future of a task is destroyed. *)
Definition end_task (h : AbortHandle) m : DiscoveryManager :=
  Manager.set_tasks (mkTasks _ (stopped (manager_tasks m)) (destroyed h (tasks (manager_tasks m)))) m.

(** A task that runs no refresh. *)
Definition at_rest (h : AbortHandle) s : Prop := Forall (λ x, handle_of x ≠ h) (sys_refreshes s).

(** The loop that a step of an access spawns, with the runtime it belongs to. *)
Definition spawned (e : MachineEvent) (mch mch' : Machine) : list (AbortHandle * nat) :=
  match e with
  | Step i _ =>
      match call_pc <$> calls mch !! i with
      | Some (Body _ (SpawnLoop runtime)) =>
          (λ h, (h, runtime)) <$> drop (length (loops (manager mch))) (loops (manager mch'))
      | _ => []
      end
  | _ => []
  end.

(** The events of the machine that are not those of a refresh. *)
Definition own_event (e : MachineEvent) : bool :=
  match e with AffinityRefresh _ => false | _ => true end.

(** The refresh of a loop's iteration, [update_live_nodes]. *)
Definition loop_refresh (h : AbortHandle) (runtime : nat) m : SysRefresh :=
  mkSysRefresh _ _ (LoopTask h runtime)
    (RefreshSteps.mkActivity (mkCallOf _ (inputs m) ∅ [] false) RefreshInterleaving.Idle []).
(** The task that [start_affinity_refresh] spawns. *)
Definition affinity_refresh (h : AbortHandle) (o : DiscoveryOutcomes)
    (ordinary_candidates : list Url) m : SysRefresh :=
  mkSysRefresh _ _ (AffinityTask h)
    (RefreshSteps.mkActivity (mkCallOf _ (inputs m) o ordinary_candidates true)
       RefreshInterleaving.Idle []).

(** Where an abort takes effect: before the first step and in an [await]. *)
Definition awaits (pc : RefreshPc) : bool :=
  match pc with
  | RefreshInterleaving.Idle | AwaitAnswer _ _ _ | AwaitCandidate _ _ _ _ _ _ _ => true
  | _ => false
  end.

(** One step of a refresh. *)
Definition advance x (input : RefreshInput) m
    : option (SysRefresh * DiscoveryManager * list Effect) :=
  v ← view_at (refresh_view x) m;
  let a := activity x in
  '(pc, es, ev) ←
    RefreshSteps.refresh_step (RefreshSteps.act_call a) (RefreshSteps.act_pc a) input v;
  Some (mkSysRefresh _ _ (task x)
          (RefreshSteps.mkActivity (RefreshSteps.act_call a) pc (RefreshSteps.act_trace a ++ es)),
        set_view_at (refresh_view x) (View.run_events (option_list ev) v) m, es).

(** A refresh is over: a loop goes on to the affinity refresh, and the task of
    an affinity refresh ends; so does a loop that panicked. *)
Definition after_refresh (finished : AbortHandle → bool) x m
    : option (list SysRefresh * DiscoveryManager) :=
  match RefreshSteps.act_pc (activity x), task x with
  | RefreshInterleaving.Ended o, LoopTask _ runtime =>
      let '(candidates, m') := Manager.start_affinity_refresh finished runtime m in
      Some (option_list (c ← candidates; h ← affinity_task m'; Some (affinity_refresh h o c m)), m')
  | RefreshInterleaving.Ended _, AffinityTask h => Some ([], end_task h m)
  | Overflowed, t => Some ([], end_task (task_handle t) m)
  | _, _ => None
  end.

(** [start_affinity_refresh] waits for the start/transfer mutex. *)
Definition blocked x s : bool :=
  match RefreshSteps.act_pc (activity x), task x, lock (machine s) with
  | RefreshInterleaving.Ended _, LoopTask _ _, Some _ => true
  | _, _, _ => false
  end.

(** What an event does; [None] is an event that cannot happen or panics. *)
Definition sys_event s (ev : SysEvent Stream) : option (Sys U Stream) :=
  match ev with
  | OnMachine finished e =>
      if decide (own_event e = true ∧ consistent finished (sys_manager s)) then
        mch ← Interleaving.event finished e (machine s);
        Some (set_machine mch (sys_loops s ++ spawned e (machine s) mch) s)
      else None
  | OnDestroyed h =>
      if decide (at_rest h s) then Some (set_manager (end_task h (sys_manager s)) s) else None
  | OnLoop h runtime =>
      if decide ((h, runtime) ∈ sys_loops s ∧ h ∈ live_tasks (sys_manager s) ∧ at_rest h s) then
        Some (set_refreshes (sys_manager s)
          (sys_refreshes s ++ [loop_refresh h runtime (sys_manager s)]) [] s)
      else None
  | OnRefresh k input =>
      x ← sys_refreshes s !! k;
      '(x, m, t) ← advance x input (sys_manager s);
      Some (set_refreshes m (<[k := x]> (sys_refreshes s)) t s)
  | OnRefreshed finished k =>
      x ← sys_refreshes s !! k;
      if decide (blocked x s = false ∧ consistent finished (sys_manager s)) then
        '(l, m) ← after_refresh finished x (sys_manager s);
        Some (set_refreshes m (delete k (sys_refreshes s) ++ l) [] s)
      else None
  | OnAborted k =>
      x ← sys_refreshes s !! k;
      if awaits (RefreshSteps.act_pc (activity x)) then
        Some (set_refreshes (end_task (handle_of x) (sys_manager s)) (delete k (sys_refreshes s)) [] s)
      else None
  | OnResolver i a =>
      r ← sys_resolver s; Some (set_resolver (Some (snd (Resolver.step i a r))) s)
  | OnPlan request e input =>
      '(b, r) ← plan_bag e input (default Hooks.empty_bag (sys_bags s !! request)) s;
      Some (set_bag request b (set_resolver r s))
  | OnAttempt request r =>
      b ← sys_bags s !! request;
      v ← view_at (drawn_view s) (sys_manager s);
      let '(res, b, v) := Hooks.modify_before_signing b v r in
      Some (record_sent r res
              (set_bag request b (set_manager (set_view_at (drawn_view s) v (sys_manager s)) s)))
  end.

(** A client that was built, before anything else happened to it; a client
    without discovery has no such state. *)
Definition first_loop m : list (AbortHandle * nat) :=
  match active_task m, discovery_runtime m with Some h, Some r => [(h, r)] | _, _ => [] end.
Definition boot `{!SdkApi (SharedInterceptor U)} (self : AlternatorClient) : option (Sys U Stream) :=
  match topology (discovery self) with
  | (_, m) :: _ =>
      i ← last (sdk_get_all LInterceptors (dynamodb_client self));
      Some (mkSys _ _ _ _ _ _ _ _ i (Interleaving.initial m) (first_loop m) []
        (pk_resolver <$> partition_keys (discovery self)) ∅ [] [])
  | [] => None
  end.

(** A client takes one step. *)
Definition sys_step s s' : Prop := ∃ ev, sys_event s ev = Some s'.

End sys.
End Sys.

(** ** Specification *)

Module SysSpec.
Section spec.
Context `{UrlApi, TaskApi, SdkTypes, TlsApi, Flate, HeaderApi, !UrlEditLaws} {U Stream : Type}.
Import Membership.

(** A request under way has a plan, with nodes to route to. *)
Definition plan_ok (known : Url → Prop) (p : QueryPlanState) : Prop :=
  match p with
  | RoundRobin _ => True
  | Ordered l i => l ≠ [] ∧ Forall known l ∧ i ≤ length l
  end.
Definition bag_ok (known : Url → Prop) (b : Interceptors.ConfigBag) : Prop :=
  ∃ p, query_plan b = Some p ∧ plan_ok known p.

(** [r'] is [r], sent to a node of that scheme and port. *)
Definition sent_to (sch : string) (p : option Z) (r r' : Request Stream) : Prop :=
  ∃ node u0 u, Membership.served sch p node ∧ Url_parse (uri r) = Ok u0 ∧ uri r' = as_str u ∧
    scheme u = to_ascii_lowercase sch ∧ host_str u = host_str node ∧
    match p with Some p => port_or_known_default u = Some p | None => port u = None end ∧
    target u = target u0 ∧ headers r' = headers r ∧ body r' = body r.
Definition attempt_ok (sch : string) (p : option Z)
    (a : Request Stream * Result (Request Stream) RouteError) : Prop :=
  a.2 ≠ Err NoLiveNode ∧ ∀ r', a.2 = Ok r' → sent_to sch p a.1 r'.

(** The discovery state of a client of that scheme and port. *)
Definition manager_ok (sch : string) (p : option Z) (m : DiscoveryManager) : Prop :=
  let known := Membership.served sch p in
  alternator_scheme (inputs m) = sch ∧ inputs_port (inputs m) = p ∧
  Forall known (seed_urls (inputs m)) ∧ view_ok known (ordinary m) ∧
  ∀ v, affinity_nodes m = Some v → view_ok known v.
Definition refreshes_ok (known : Url → Prop) : list SysRefresh → Prop :=
  Forall (λ x, RefreshInvariants.activity_ok known (activity x)).

Definition sys_ok (sch : string) (p : option Z) (s : Sys U Stream) : Prop :=
  let known := Membership.served sch p in
  manager_ok sch p (Sys.sys_manager s) ∧ refreshes_ok known (sys_refreshes s) ∧
  map_Forall (λ _, bag_ok known) (sys_bags s) ∧ Forall (attempt_ok sch p) (sys_sent s) ∧
  Forall (effect_ok known) (sys_trace s).

(** The interceptor of the client has what it needs. *)
Definition routing_ok (s : Sys U Stream) : Prop :=
  match routing s with
  | RoundRobinRouting nodes => handle_view nodes = OrdinaryView
  | AffinityRouting _ nodes affinity =>
      handle_view nodes = OrdinaryView ∧ is_Some (Sys.view_at (handle_view affinity) (Sys.sys_manager s)) ∧
      is_Some (sys_resolver s)
  | UserInterceptor _ | DriverInterceptor _ => False
  end.

End spec.
End SysSpec.

(** ** Lemmas *)

Module SysFacts.
Import Sys SysSpec Membership.

(** *** What the manager's own events leave alone *)

Section manager_events.
Context `{UrlApi, TaskApi, SdkTypes, TlsApi}.
Import Manager.
Implicit Types (m : DiscoveryManager).

Definition views m : NodeView * DiscoveryInputs * option NodeView :=
  (ordinary m, inputs m, affinity_nodes m).

Lemma guard_drop_views r m : views (guard_drop r m) = views m.
Proof. unfold guard_drop, clear_registration. by case_decide. Qed.
Lemma spawn_loop_views r m : views (spawn_loop r m) = views m.
Proof.
  unfold spawn_loop. destruct (Tasks.spawn _) as [[h|] t]; [done|].
  exact (guard_drop_views r (set_tasks t m)).
Qed.
Lemma start_discovery_views id now m : views (start_discovery id now m) = views m.
Proof. unfold start_discovery. by rewrite spawn_loop_views. Qed.

Lemma arrange_recheck_views finished owner probe m m' :
  arrange_recheck finished owner probe m = Some m' → views m' = views m.
Proof.
  unfold arrange_recheck. destruct (_ || _); [by intros [= <-]|].
  destruct (last_started probe); [|done]. cbn [mbind option_bind].
  destruct (Tasks.spawn _) as [task t]. by intros [= <-].
Qed.

Lemma retain_views finished owner id now m b m' :
  retain_discovery_owner finished owner id now m = Some (b, m') → views m' = views m.
Proof.
  unfold retain_discovery_owner. destruct (runtimes m !! owner) as [rt|]; [|done].
  cbn [mbind option_bind]. case_decide; [by intros [= <- <-]|].
  destruct (Probe.should_handoff_at now rt) as [[|] rt']; [by intros [= <- <-]|].
  destruct (arrange_recheck _ _ _ _) as [m1|] eqn:Ha; [|done]. intros [= <- <-].
  by rewrite (arrange_recheck_views _ _ _ _ _ Ha).
Qed.

Lemma ensure_locked_views finished id now m m' :
  ensure_locked finished id now m = Some m' → views m' = views m.
Proof.
  unfold ensure_locked. destruct (discovery_runtime m) as [active|].
  - destruct (retain_discovery_owner _ _ _ _ _) as [[b m1]|] eqn:Hr; [|done].
    apply retain_views in Hr as Hv. cbn [mbind option_bind]. intros [= <-].
    destruct b; [done|]. by rewrite start_discovery_views.
  - intros [= <-]. apply start_discovery_views.
Qed.

Lemma ensure_views finished current now m m' :
  ensure_discovery_started finished current now m = Some m' → views m' = views m.
Proof.
  unfold ensure_discovery_started. destruct (Tasks.is_stopped _); [by intros [= <-]|].
  destruct current as [id|]; [|by intros [= <-]].
  destruct (discovery_runtime m) as [active|]; [|apply ensure_locked_views].
  destruct (retain_discovery_owner _ _ _ _ _) as [[b m1]|] eqn:Hr; [|done].
  apply retain_views in Hr as Hv. cbn [mbind option_bind]. destruct b; [by intros [= <-]|].
  intros He%ensure_locked_views. congruence.
Qed.

Lemma start_affinity_views finished r m : views (snd (start_affinity_refresh finished r m)) = views m.
Proof.
  pose proof (DiscoveryLoopFacts.start_affinity_refresh_spec finished r m) as Hs.
  destruct (start_affinity_refresh finished r m) as [c m1].
  destruct Hs as (_ & Ho & Hi & Ha & _). unfold views. simpl. by rewrite Ho, Hi, Ha.
Qed.

Lemma clear_registration_views r m : views (clear_registration r m) = views m.
Proof. unfold clear_registration. by case_decide. Qed.
Lemma poll_loop_views r m : views (poll_loop r m) = views m.
Proof.
  unfold poll_loop. destruct (runtimes m !! r) as [rt|]; [|done].
  by destruct (Probe.poll_with_probes _ rt) as [[? ?] ?].
Qed.

Lemma stage_step_views finished now marks id stage m pc m' :
  Interleaving.stage_step finished now marks id stage m = Some (pc, m') → views m' = views m.
Proof.
  destruct stage as [locked|locked owner|locked owner t|locked owner| | | | |r|r|r|r|task|];
    cbn [Interleaving.stage_step]; try (destruct (runtimes m !! owner) as [rt|]; [|done]);
    cbn [mbind option_bind]; try by intros [= <- <-].
  - by destruct (Probe.probe_verdict t rt) as [handoff rt']; intros [= <- <-].
  - destruct (arrange_recheck _ _ _ _) as [m1|] eqn:Ha; [|done]. intros [= <- <-].
    by eapply arrange_recheck_views.
  - by destruct (Tasks.spawn _) as [[h|] t]; intros [= <- <-].
  - intros [= <- <-]. apply clear_registration_views.
Qed.

Lemma pc_step_views finished now c m pc m' :
  Interleaving.pc_step finished now c m = Some (pc, m') → views m' = views m.
Proof.
  unfold Interleaving.pc_step. destruct (call_pc c) as [owner|owner| |id stage| |];
    try by intros [= <- <-].
  - destruct (runtimes m !! owner); [|done]. by intros [= <- <-].
  - apply stage_step_views.
Qed.

Lemma machine_step_views finished i now mch mch' :
  Interleaving.step finished i now mch = Some mch' → views (manager mch') = views (manager mch).
Proof.
  unfold Interleaving.step. destruct (calls mch !! i) as [c|]; [|by intros [= <-]].
  pose proof (pc_step_views finished now c (manager mch)) as Hv.
  destruct (Interleaving.pc_step finished now c (manager mch)) as [[pc m]|];
    destruct (call_pc c) as [| | |id []| |]; cbn [mbind option_bind]; try done;
    try (intros [= <-]; by apply (Hv pc)); try (destruct (lock mch)); by intros [= <-].
Qed.

Lemma machine_event_views finished e mch mch' :
  Interleaving.event finished e mch = Some mch' → views (manager mch') = views (manager mch).
Proof.
  destruct e; cbn [Interleaving.event]; [apply machine_step_views|by intros [= <-]|..]; intros [= <-].
  - by case_decide.
  - apply poll_loop_views.
  - done.
  - apply clear_registration_views.
  - destruct (lock mch); [done|apply start_affinity_views].
  - done.
Qed.

End manager_events.

(** *** What keeps the state of a client in order *)

Section keeps.
Context `{UrlApi, !UrlEqLaws, !UrlEditLaws, !UrlBuildLaws}.
Context `{TaskApi, SdkTypes, TlsApi, Flate, HeaderApi, UriApi, !HashOrder, Murmur3}.
Context {U Stream : Type} (sch : string) (p : option Z).
Abbreviation known := (Membership.served sch p).
Implicit Types (s : Sys U Stream) (m : DiscoveryManager).

Lemma manager_inputs m : manager_ok sch p m → inputs_ok known (inputs m).
Proof.
  intros (Hs & Hp & Hseeds & _). split; [done|]. intros addr u Hu.
  exists addr. unfold Refresh.host_to_uri in Hu. by rewrite Hs, Hp in Hu.
Qed.

Lemma manager_ok_frame m m' : views m' = views m → manager_ok sch p m → manager_ok sch p m'.
Proof. intros [= Ho Hi Ha]. unfold manager_ok. by rewrite Ho, Hi, Ha. Qed.

Lemma view_at_ok v m n : manager_ok sch p m → view_at v m = Some n → view_ok known n.
Proof. intros (_ & _ & _ & Ho & Ha). destruct v; [by intros [= <-]|apply Ha]. Qed.

Lemma set_view_ok v m n :
  manager_ok sch p m → view_ok known n → manager_ok sch p (set_view_at v n m).
Proof.
  intros (Hs & Hp & Hseeds & Ho & Ha) Hn. destruct v; split_and!; try done.
  intros v [= <-]. done.
Qed.

(** *** Refreshes *)

Lemma loop_refresh_ok h runtime m :
  manager_ok sch p m → RefreshInvariants.activity_ok known (activity (loop_refresh h runtime m)).
Proof.
  intros Hm. split_and!; [|done|constructor]. split_and!; [by apply manager_inputs| |constructor].
  apply map_Forall_empty.
Qed.

Lemma advance_keeps x input m x' m' t :
  manager_ok sch p m → RefreshInvariants.activity_ok known (activity x) →
  advance x input m = Some (x', m', t) →
  manager_ok sch p m' ∧ RefreshInvariants.activity_ok known (activity x') ∧ Forall (effect_ok known) t.
Proof.
  intros Hm (Hc & Hpc & Ht). unfold advance. destruct (view_at _ m) as [v|] eqn:Hv; [|done].
  cbn [mbind option_bind]. destruct (RefreshSteps.refresh_step _ _ _ _) as [[[pc es] ev]|] eqn:Hs; [|done].
  intros [= <- <- <-]. pose proof (view_at_ok _ _ _ Hm Hv) as Hvok.
  destruct (KnownFacts.refresh_step_ok known _ _ _ _ _ _ _ Hc Hvok Hpc Hs) as (Hpc' & Hes & Hev).
  split_and!; [|by split_and!; try apply Forall_app|done].
  apply set_view_ok; [done|]. by apply MembershipFacts.events_keep.
Qed.

Lemma after_keeps finished x m l m' :
  manager_ok sch p m → RefreshInvariants.activity_ok known (activity x) →
  after_refresh finished x m = Some (l, m') →
  manager_ok sch p m' ∧ refreshes_ok known l.
Proof.
  intros Hm (Hc & Hpc & Ht). unfold after_refresh.
  destruct (RefreshSteps.act_pc (activity x)) eqn:Hx; try done; [|by intros [= <- <-]; split; [|constructor]].
  destruct (task x) as [h runtime|h]; [|by intros [= <- <-]; split; [|constructor]].
  pose proof (start_affinity_views finished runtime m) as Hva.
  pose proof (DiscoveryLoopFacts.start_affinity_refresh_spec finished runtime m) as Hsp.
  destruct (Manager.start_affinity_refresh finished runtime m) as [c m2].
  destruct Hsp as [-> _]. intros [= <- <-]. split; [by eapply manager_ok_frame|].
  case_decide; [|constructor]. cbn [mbind option_bind].
  destruct (affinity_task m2); [|constructor]. apply Forall_singleton.
  split_and!; [|done|constructor]. split_and!; [by apply manager_inputs|done|].
  by destruct (view_at_ok OrdinaryView m _ Hm eq_refl).
Qed.

(** *** Requests *)

Lemma plan_keeps e input b s b' r :
  manager_ok sch p (sys_manager s) → plan_bag e input b s = Some (b', r) → bag_ok known b'.
Proof.
  intros Hm. unfold plan_bag. destruct (routing s) as [u|i|nodes|cfg nodes affinity]; try done.
  { intros [= <- <-]. by exists Plan.new_basic. }
  destruct (view_at _ _) as [v|] eqn:Hv; [|done]. apply view_at_ok in Hv as [Hne Hv]; [|done].
  destruct (sys_resolver s) as [r0|]; [|done]. cbn [mbind option_bind].
  unfold AffinityPlan.get_query_plan.
  pose proof (AffinityPlanFacts.try_affinity_plan_order cfg e v input r0) as Hord.
  destruct (AffinityPlan.try_affinity_plan cfg e v input r0) as [[[q|]|] r1]; simpl in Hord |- *;
    try done; intros [= <- <-]; [|by exists Plan.new_basic].
  destruct (Hord q eq_refl) as (order & -> & Hp). eexists. split; [done|]. simpl.
  split_and!; [|by rewrite Hp|lia]. intros ->. by apply Permutation_nil_l in Hp.
Qed.

Lemma route_keeps node (r r' : Request Stream) :
  known node → Hooks.route node r = Ok r' → sent_to sch p r r'.
Proof.
  intros Hn Hr. apply HooksFacts.route_spec in Hr as (u0 & u & ? & ? & ? & ? & ? & ? & Hrest).
  destruct (MembershipFacts.served_endpoint sch p node Hn) as [Hs Hport].
  exists node, u0, u. split_and!; try done; try apply Hrest; [congruence|].
  destruct p; [by rewrite (known_default_congr u node)|congruence].
Qed.

Lemma attempt_keeps b v (r : Request Stream) res b' v' :
  bag_ok known b → view_ok known v →
  Hooks.modify_before_signing b v r = (res, b', v') →
  bag_ok known b' ∧ view_ok known v' ∧ attempt_ok sch p (r, res).
Proof.
  intros (q & Hq & Hok) [Hne Hv] Ha. rewrite (HooksFacts.modify_before_signing_plan b v r q Hq) in Ha.
  destruct (PlanFacts.restart_step known q v Hne Hv) as (n & q' & v1 & Hstep & Hn & Hv1 & Hq').
  { by destruct q. }
  rewrite Hstep in Ha. injection Ha as <- <- <-. split; [by exists q'|].
  split; [unfold view_ok; by rewrite Hv1|]. split.
  - simpl. unfold Hooks.route. repeat case_match; done.
  - simpl. intros r'. by apply route_keeps.
Qed.

(** One event keeps the state in order. *)
Lemma sys_event_keeps s ev s' :
  sys_ok sch p s → sys_event s ev = Some s' → sys_ok sch p s'.
Proof.
  intros (Hm & Hj & Hb & Hs & Ht). unfold refreshes_ok in Hj.
  destruct ev as [finished e|h|h runtime|k input|finished k|k|i a|k e input|k r]; cbn [sys_event].
  - case_decide; [|done]. destruct (Interleaving.event finished e (machine s)) as [mch|] eqn:He; [|done].
    intros [= <-]. split; [|done]. by eapply manager_ok_frame; [eapply machine_event_views|].
  - case_decide; [|done]. intros [= <-]. by split.
  - case_decide; [|done]. intros [= <-]. split_and!; try done; simpl.
    + apply Forall_app; split; [done|]. by apply Forall_singleton, loop_refresh_ok.
    + by rewrite app_nil_r.
  - destruct (sys_refreshes s !! k) as [x|] eqn:Hk; [|done]. cbn [mbind option_bind].
    destruct (advance x input (sys_manager s)) as [[[x' m'] t]|] eqn:Ha; [|done]. intros [= <-].
    destruct (advance_keeps _ _ _ _ _ _ Hm (proj1 (Forall_lookup _ _) Hj _ _ Hk) Ha) as (Hm' & Hx & Ht').
    split_and!; try done; simpl; [by apply Forall_insert|by apply Forall_app].
  - destruct (sys_refreshes s !! k) as [x|] eqn:Hk; [|done]. cbn [mbind option_bind].
    case_decide; [|done].
    destruct (after_refresh finished x (sys_manager s)) as [[l m']|] eqn:Ha; [|done]. intros [= <-].
    destruct (after_keeps _ _ _ _ _ Hm (proj1 (Forall_lookup _ _) Hj _ _ Hk) Ha) as (Hm' & Hl).
    split_and!; try done; simpl; [|by rewrite app_nil_r].
    apply Forall_app; split; [by apply Forall_delete|done].
  - destruct (sys_refreshes s !! k) as [x|] eqn:Hk; [|done]. cbn [mbind option_bind].
    destruct (awaits _); [|done]. intros [= <-].
    split_and!; try done; simpl; [by apply Forall_delete|by rewrite app_nil_r].
  - destruct (sys_resolver s); [|done]. by intros [= <-].
  - destruct (plan_bag _ _ _ _) as [[b r]|] eqn:Hp; [|done]. intros [= <-].
    split_and!; try done. apply map_Forall_insert_2; [|done]. by eapply plan_keeps.
  - destruct (sys_bags s !! k) as [b|] eqn:Hk; [|done].
    destruct (view_at (drawn_view s) (sys_manager s)) as [v|] eqn:Hv; [|done]. cbn [mbind option_bind].
    destruct (Hooks.modify_before_signing b v r) as [[res b'] v'] eqn:Ha. intros [= <-].
    destruct (attempt_keeps b v r res b' v' (Hb k b Hk) (view_at_ok _ _ _ Hm Hv) Ha) as (Hb' & Hv' & Hat).
    split_and!; [by apply set_view_ok|done|by apply map_Forall_insert_2|by apply Forall_app; split; [|constructor]|done].
Qed.

(** Views and resolvers do not go away, and the interceptor does not change. *)
Definition grows s s' : Prop :=
  routing s' = routing s ∧
  (∀ v, is_Some (view_at v (sys_manager s)) → is_Some (view_at v (sys_manager s'))) ∧
  (is_Some (sys_resolver s) → is_Some (sys_resolver s')).

Lemma set_view_grows v n m v' :
  is_Some (view_at v' m) → is_Some (view_at v' (set_view_at v n m)).
Proof. by destruct v, v'. Qed.
Lemma views_grow m m' v : views m' = views m → is_Some (view_at v m) → is_Some (view_at v m').
Proof. intros [= Ho _ Ha]. destruct v; simpl; by rewrite ?Ho, ?Ha. Qed.

Lemma advance_grows x input m x' m' t v :
  advance x input m = Some (x', m', t) → is_Some (view_at v m) → is_Some (view_at v m').
Proof.
  unfold advance. destruct (view_at _ m); [|done]. cbn [mbind option_bind].
  destruct (RefreshSteps.refresh_step _ _ _ _) as [[[pc es] ev]|]; [|done].
  intros [= <- <- <-]. apply set_view_grows.
Qed.
Lemma after_grows finished x m l m' v :
  after_refresh finished x m = Some (l, m') → is_Some (view_at v m) → is_Some (view_at v m').
Proof.
  unfold after_refresh. destruct (RefreshSteps.act_pc _); try done; [|by intros [= <- <-]; destruct v].
  destruct (task x) as [h runtime|h]; [|by intros [= <- <-]; destruct v].
  pose proof (start_affinity_views finished runtime m) as Hv.
  destruct (Manager.start_affinity_refresh finished runtime m) as [c m2]. intros [= <- <-].
  by apply views_grow.
Qed.

Lemma event_grows s ev s' : sys_event s ev = Some s' → grows s s'.
Proof.
  unfold grows.
  destruct ev as [finished e|h|h runtime|k input|finished k|k|i a|k e input|k r]; cbn [sys_event].
  - case_decide; [|done]. destruct (Interleaving.event finished e (machine s)) as [mch|] eqn:He; [|done].
    intros [= <-]. split_and!; try done. intros v. eapply views_grow, machine_event_views, He.
  - case_decide; [|done]. by intros [= <-].
  - case_decide; [|done]. by intros [= <-].
  - destruct (sys_refreshes s !! k) as [x|]; [|done]. cbn [mbind option_bind].
    destruct (advance x input (sys_manager s)) as [[[x' m'] t]|] eqn:Ha; [|done]. intros [= <-].
    split_and!; try done. intros v. by eapply advance_grows.
  - destruct (sys_refreshes s !! k) as [x|]; [|done]. cbn [mbind option_bind].
    case_decide; [|done].
    destruct (after_refresh finished x (sys_manager s)) as [[l m']|] eqn:Ha; [|done]. intros [= <-].
    split_and!; try done. intros v. by eapply after_grows.
  - destruct (sys_refreshes s !! k) as [x|]; [|done]. cbn [mbind option_bind].
    destruct (awaits _); [|done]. by intros [= <-].
  - destruct (sys_resolver s); [|done]. intros [= <-]. split_and!; try done.
  - destruct (plan_bag _ _ _ _) as [[b r]|] eqn:Hp; [|done]. intros [= <-]. split_and!; try done.
    simpl. unfold plan_bag in Hp. destruct (routing s); try done; [by simplify_eq|].
    destruct (view_at _ _); [|done]. destruct (sys_resolver s); [|done]. cbn [mbind option_bind] in Hp.
    destruct (AffinityPlan.get_query_plan _ _ _ _ _) as [[q|] r1]; [|done]. simplify_eq/=. by eexists.
  - destruct (sys_bags s !! k) as [b|]; [|done].
    destruct (view_at (drawn_view s) (sys_manager s)) as [v|]; [|done]. cbn [mbind option_bind].
    destruct (Hooks.modify_before_signing b v r) as [[res b'] v']. intros [= <-].
    split_and!; try done. intros v1. apply set_view_grows.
Qed.

Lemma grows_routing s s' : grows s s' → routing_ok s → routing_ok s'.
Proof.
  intros (Hr & Hv & Hres). unfold routing_ok. rewrite Hr. destruct (routing s); try done.
  intros (? & ? & ?). auto.
Qed.

Lemma steps_keep s s' :
  rtc sys_step s s' → sys_ok sch p s ∧ routing_ok s → sys_ok sch p s' ∧ routing_ok s'.
Proof.
  induction 1 as [|s1 s2 s3 (ev & He) _ IH]; [done|]. intros [Hs Hr]. apply IH. split.
  - by eapply sys_event_keeps.
  - by eapply grows_routing; [eapply event_grows|].
Qed.

(** What a request needs is there. *)
Lemma drawn_ordinary s : routing_ok s → view_at (drawn_view s) (sys_manager s) = Some (ordinary (sys_manager s)).
Proof.
  unfold routing_ok, drawn_view. destruct (routing s); try done; [by intros ->|by intros (-> & _)].
Qed.

Lemma plan_total request e input s :
  routing_ok s →
  (∀ h v, view_at h (sys_manager s) = Some v → Z.of_nat (length (live_nodes v)) < 2 ^ 64)%Z →
  ∃ b r, plan_bag e input (default Hooks.empty_bag (sys_bags s !! request)) s = Some (b, r).
Proof.
  intros Hr Hmem. unfold routing_ok in Hr. unfold plan_bag.
  destruct (routing s) as [u|i|nodes|cfg nodes affinity]; try done; [by do 2 eexists|].
  destruct Hr as (_ & [v Hv] & [r0 Hr0]). rewrite Hv, Hr0. cbn [mbind option_bind].
  unfold AffinityPlan.get_query_plan.
  destruct (AffinityPlanFacts.try_affinity_plan_total cfg e v input r0 (Hmem _ _ Hv)) as (o & Ho & _).
  destruct (AffinityPlan.try_affinity_plan cfg e v input r0) as [plan r1]. simpl in Ho. subst plan.
  by do 2 eexists.
Qed.

End keeps.

(** *** A client that was just built *)

Section boot.
Context `{UrlApi, !UrlEqLaws, !UrlEditLaws, TaskApi, Flate, HeaderApi}.
Context {types : SdkTypes} {tls : TlsApi} {U Stream : Type}.
Context {sdk : SdkApi (SharedInterceptor U)} {stypes : SmithyTypes} {smithy : SmithyApi}.
Context {capi : ClientApi} {laws : SdkLaws} {smithy_laws : SmithyLaws}.

Lemma last_snoc_Some {A} (l : list A) x y : last (l ++ option_list (Some x)) = Some y → y = x.
Proof. change (option_list (Some x)) with [x]. rewrite last_snoc. congruence. Qed.

Lemma try_new_manager (config : AlternatorConfig) (now : Z) nodes m :
  LiveNodesBuild.try_new config now = Ok (Some (nodes, m)) →
  manager_ok (default "http" (Config.scheme config)) (Config.port config) m ∧
  affinity_nodes m = None ∧ live_nodes (ordinary m) = seed_urls (inputs m) ∧
  nodes = mkHandle OrdinaryView Ordinary.
Proof.
  intros Hn. pose proof (LiveNodesBuildFacts.try_new_spec config now) as Hs. rewrite Hn in Hs.
  destruct (LiveNodesBuildFacts.try_new_inputs config now nodes m Hn) as (Hsch & Hp & Ha).
  destruct Hs as (_ & _ & Hnodes & _ & _ & Hl & Hne & (urls & Hurls & Hperm) & _).
  assert (Hk : Forall (Membership.served (default "http" (Config.scheme config)) (Config.port config))
    (seed_urls (inputs m))).
  { rewrite Hperm. clear -Hurls. induction Hurls as [|h u hs us Hu _ IH]; constructor; [|done].
    by apply MembershipFacts.seed_served in Hu. }
  split_and!; try done. split_and!; try done.
  - unfold view_ok. by rewrite Hl.
  - by rewrite Ha.
Qed.

Lemma added_manager sch p m m' :
  manager_ok sch p m → seed_urls (inputs m) ≠ [] → ClientFacts.affinity_added m m' →
  manager_ok sch p m'.
Proof.
  intros (Hs & Hp & Hseeds & Ho & Ha) Hne (Ho' & Hi' & Ha' & _).
  unfold manager_ok. rewrite Ho', Hi'. split_and!; try done.
  intros v [Hv|Hv]%Ha'; [by apply Ha|]. unfold view_ok. by rewrite Hv.
Qed.

(** The client routes to its seeds. *)
Lemma boot_ok (config : AlternatorConfig) current (now : Z) self (s : Sys U Stream) :
  Client.try_from_conf config current now = Some (Ok self) → boot self = Some s →
  sys_ok (default "http" (Config.scheme config)) (Config.port config) s ∧ routing_ok s.
Proof.
  intros Hself Hboot.
  pose proof (ClientFacts.try_from_conf_outcome _ _ _ _ Hself) as Hspec.
  destruct Hspec as (ln & i & pk & ln' & ln'' & _ & Hn & _ & _ & Hroute & Hstart & Hcl & _ & _ & Htop & Hpk).
  unfold boot in Hboot. rewrite Htop in Hboot.
  destruct ln'' as [[nodes'' m'']|]; [|done]. simpl in Hboot.
  destruct (last _) as [routing0|] eqn:Hlast; [|done]. injection Hboot as <-.
  rewrite Hcl, ClientFacts.client_of_all, ClientFacts.with_interceptor_all in Hlast.
  destruct ln' as [[nodes' m']|]; [|by simplify_eq]. simpl in Hstart.
  destruct (Manager.ensure_discovery_started _ _ _ m') as [m1|] eqn:He; [|done]. simplify_eq/=.
  destruct ln as [[nodes m]|]; [|by simplify_eq].
  destruct (try_new_manager config now nodes m Hn) as (Hm & _ & Hl & ->).
  assert (Hne : seed_urls (inputs m) ≠ []).
  { rewrite <-Hl. by destruct (view_at_ok _ _ OrdinaryView m _ Hm eq_refl). }
  unfold ClientFacts.routing_spec in Hroute.
  destruct (Client.enabled_affinity config); cycle 1.
  { simplify_eq. apply last_snoc_Some in Hlast as ->. split; [|done].
    split; [|by split_and!; try constructor]. exact (manager_ok_frame _ _ _ _ (ensure_views _ _ _ _ _ He) Hm). }
  destruct Hroute as (a & pk' & m2 & Heq & -> & _ & _ & _ & _ & _ & Hadd). injection Heq as -> Hpk -> ->.
  apply last_snoc_Some in Hlast as ->. split.
  - split; [|by split_and!; try constructor].
    exact (manager_ok_frame _ _ _ _ (ensure_views _ _ _ _ _ He) (added_manager _ _ _ _ Hm Hne Hadd)).
  - split_and!; [done| |by rewrite Hpk; eexists]. destruct Hadd as (_ & _ & _ & Hv).
    destruct (Scope.has_rack_restriction _); [|by eexists]. exact (views_grow m2 m'' AffinityView (ensure_views _ _ _ _ _ He) (Hv eq_refl)).
Qed.

End boot.
End SysFacts.

(** ** Properties *)

Section properties.
Context `{UrlApi, !UrlEqLaws, !UrlEditLaws, !UrlBuildLaws, TaskApi, Flate, HeaderApi, UriApi}.
Context `{!HashOrder, Murmur3} {types : SdkTypes} {tls : TlsApi} {U Stream : Type}.
Context {sdk : SdkApi (SharedInterceptor U)} {stypes : SmithyTypes} {smithy : SmithyApi}.
Context {capi : ClientApi} {laws : SdkLaws} {smithy_laws : SmithyLaws}.
Import Sys SysSpec SysFacts Membership.

(** Everything a client built from [config] may have become. *)
Definition reachable (config : AlternatorConfig) (s : Sys U Stream) : Prop :=
  ∃ current now self s0,
    Client.try_from_conf config current now = Some (Ok self) ∧ boot self = Some s0 ∧
    rtc sys_step s0 s.

Lemma reachable_ok config s :
  reachable config s →
  sys_ok (default "http" (Config.scheme config)) (Config.port config) s ∧ routing_ok s.
Proof.
  intros (current & now & self & s0 & Hself & Hboot & Hrun).
  eapply steps_keep; [exact Hrun|]. by eapply boot_ok.
Qed.

(** C1: requests stay on the configured endpoint.  Whatever a client goes through
    after it was built (accesses on any runtime, refreshes with any answers whose
    steps interleave in any way, aborts, take-overs, key discoveries, requests in
    any order), every attempt of every request was sent to a node with the
    configured scheme and port and to nothing but its path, with headers and body
    untouched, and every discovery request went to such a node too: an answer of a
    node can add hosts to the membership, and nothing else. *)
Theorem requests_stay_on_endpoint (config : AlternatorConfig) (s : Sys U Stream) :
  let sch := default "http" (Config.scheme config) in
  reachable config s →
  (∀ r r', (r, Ok r') ∈ sys_sent s → sent_to sch (Config.port config) r r') ∧
  (∀ op node answer, EffRequest op node answer ∈ sys_trace s →
     scheme node = to_ascii_lowercase sch ∧
     match Config.port config with
     | Some p => port_or_known_default node = Some p
     | None => port node = None
     end).
Proof.
  intros sch Hs. destruct (reachable_ok config s Hs) as [(_ & _ & _ & Hsent & Htrace) _].
  rewrite Forall_forall in Hsent. split.
  - intros r r' Hr. destruct (Hsent _ Hr) as [_ Hok]. by apply Hok.
  - intros op node answer He. destruct (proj1 (Forall_forall _ _) Htrace _ He) as [Hk _].
    by apply MembershipFacts.served_endpoint.
Qed.

(** C2: requests are always routed.  In every state a client may reach, every
    request gets a plan, from a membership that fits in memory, and every request
    that has one can make its next attempt, which finds a node: no attempt ever
    failed, or can fail, for want of one. *)
Theorem requests_always_routed (config : AlternatorConfig) (s : Sys U Stream) :
  reachable config s →
  (∀ r, (r, Err NoLiveNode) ∉ sys_sent s) ∧
  (∀ request e input,
     (∀ h v, view_at h (sys_manager s) = Some v → Z.of_nat (length (live_nodes v)) < 2 ^ 64)%Z →
     ∃ s', sys_event s (OnPlan request e input) = Some s' ∧ is_Some (sys_bags s' !! request)) ∧
  (∀ request r, is_Some (sys_bags s !! request) →
     ∃ s' res, sys_event s (OnAttempt request r) = Some s' ∧
       sys_sent s' = sys_sent s ++ [(r, res)] ∧ res ≠ Err NoLiveNode).
Proof.
  intros Hs. destruct (reachable_ok config s Hs) as [(Hm & _ & Hb & Hsent & _) Hr].
  split_and!.
  - intros r Hin. rewrite Forall_forall in Hsent. by destruct (Hsent _ Hin) as [Hno _].
  - intros request e input Hmem.
    destruct (plan_total request e input s Hr Hmem) as (b & r & Hp). cbn [sys_event]. rewrite Hp.
    eexists. split; [done|]. simpl. rewrite lookup_insert_eq. by eexists.
  - intros request r [b Hk]. cbn [sys_event]. rewrite Hk. cbn [mbind option_bind].
    rewrite (drawn_ordinary s Hr). cbn [mbind option_bind].
    destruct (Hooks.modify_before_signing b (ordinary (sys_manager s)) r) as [[res b'] v'] eqn:Ha.
    do 2 eexists. split; [done|]. split; [done|].
    destruct (attempt_keeps _ _ b (ordinary (sys_manager s)) r res b' v' (Hb _ _ Hk)
      (view_at_ok _ _ OrdinaryView _ _ Hm eq_refl) Ha) as (_ & _ & Hno & _). exact Hno.
Qed.

(** C14: the state of a client stays well-formed.  At every moment both memberships
    consist of nodes of the configured scheme and port and are not empty, and so
    does every order that a request under way will follow, which it has not run
    past. *)
Theorem client_state_well_formed (config : AlternatorConfig) (s : Sys U Stream) :
  let known := Membership.served (default "http" (Config.scheme config)) (Config.port config) in
  reachable config s →
  view_ok known (ordinary (sys_manager s)) ∧
  (∀ v, affinity_nodes (sys_manager s) = Some v → view_ok known v) ∧
  (∀ request b, sys_bags s !! request = Some b → bag_ok known b).
Proof.
  intros known Hs. destruct (reachable_ok config s Hs) as [(Hm & _ & Hb & _) _].
  destruct Hm as (_ & _ & _ & Ho & Ha). done.
Qed.

End properties.

(** ** Witnesses *)

(** A URL as its parts; the port of the scheme is never spelled out. *)
Module EndpointUrl.

Fixpoint bits (p : positive) : string :=
  match p with
  | xH => EmptyString
  | xO p => String "0"%char (bits p)
  | xI p => String "1"%char (bits p)
  end.
Lemma bits_inj p q : bits p = bits q → p = q.
Proof.
  revert q. induction p as [p IH|p IH|]; intros [q|q|]; simpl; try done; intros [= Hb];
    by rewrite (IH q Hb).
Qed.

Definition default_port (sch : string) : option Z :=
  if decide (sch = "https") then Some 443%Z else if decide (sch = "http") then Some 80%Z else None.

Record parts := mkParts {
  p_scheme : string; p_host : option string; p_port : option Z; p_target : string;
}.
#[export] Instance parts_eq_dec : EqDecision parts.
Proof. solve_decision. Defined.
Definition to_tuple (u : parts) := (p_scheme u, p_host u, p_port u, p_target u).
Definition of_tuple (t : string * option string * option Z * string) : parts :=
  let '(s, h, p, g) := t in mkParts s h p g.
#[export] Instance parts_countable : Countable parts.
Proof. apply (inj_countable' to_tuple of_tuple). by intros []. Defined.

Definition parts_port (u : parts) : option Z :=
  if decide (p_port u = default_port (p_scheme u)) then None else p_port u.

#[export] Instance api : UrlApi := {|
  Url := parts;
  as_str u := bits (encode u);
  Url_parse s :=
    match StrUrl.cut "://" s with
    | Some (sch, rest) =>
        let '(authority, path) := default (rest, EmptyString) (StrUrl.cut "/" rest) in
        Ok (mkParts (to_ascii_lowercase sch) (Some authority) None path)
    | None => Err RelativeUrlWithoutBase
    end;
  Host_parse h := if decide (h = EmptyString) then Err EmptyHost else Ok ();
  scheme := p_scheme;
  host_str := p_host;
  port := parts_port;
  port_or_known_default u :=
    match parts_port u with Some p => Some p | None => default_port (p_scheme u) end;
  set_scheme u s := Some (mkParts s (p_host u) (p_port u) (p_target u));
  set_host u h := Some (mkParts (p_scheme u) h (p_port u) (p_target u));
  set_port u p := Some (mkParts (p_scheme u) (p_host u) p (p_target u));
  set_path u g := mkParts (p_scheme u) (p_host u) (p_port u) g;
  append_pair u k v := mkParts (p_scheme u) (p_host u) (p_port u) (String.app (p_target u) (String.app k v));
|}.

#[export] Instance eq_laws : UrlEqLaws.
Proof. split. intros u v Huv%bits_inj. by apply (inj encode). Qed.

#[export] Instance edit_laws : UrlEditLaws.
Proof.
  refine {| target := p_target : @Url api → string |}; simpl.
  - by intros [] s u' [= <-].
  - by intros [] h u' [= <-].
  - by intros [] p u' [= <-].
  - intros u n u' Hs [= <-]. unfold parts_port. simpl. rewrite Hs. repeat case_decide; done.
Defined.

(** A scheme has no colon. *)
Lemma prefix_colon c t : c ≠ ":"%char → String.prefix "://" (String c t) = false.
Proof. intros Hc. cbn [String.prefix]. by destruct (Ascii.ascii_dec ":" c) as [<-|]. Qed.
Lemma cut_scheme (s a : string) :
  str_all (λ c, negb (Ascii.eqb c ":"%char)) s = true →
  ∃ rest, StrUrl.cut "://" (String.app s (String.app "://" a)) = Some (s, rest).
Proof.
  induction s as [|c s IH]; intros Hs; [by destruct a; eexists|].
  apply andb_true_iff in Hs as [Hc Hs]. destruct (IH Hs) as [rest Hr]. exists rest.
  apply negb_true_iff, Ascii.eqb_neq in Hc.
  assert (Hcut : ∀ t, StrUrl.cut "://" (String c t) =
    if String.prefix "://" (String c t)
    then Some (EmptyString, String.substring 3 (String.length (String c t) - 3) (String c t))
    else (λ '(a, b), (String c a, b)) <$> StrUrl.cut "://" t) by done.
  change (String.app (String c s) ?t) with (String c (String.app s t)).
  rewrite Hcut, (prefix_colon c) by done. by rewrite Hr.
Qed.

Lemma valid_scheme_chars sch :
  NodeUrl.is_valid_uri_scheme sch = true → str_all (λ c, negb (Ascii.eqb c ":"%char)) sch = true.
Proof.
  destruct sch as [|c sch]; [done|]. simpl. intros [Hc Hs]%andb_true_iff. apply andb_true_iff. split.
  - destruct (Ascii.eqb_spec c ":"); [by subst|done].
  - clear Hc. induction sch as [|d sch IH]; [done|]. simpl in *. apply andb_true_iff in Hs as [Hd Hs].
    apply andb_true_iff. split; [|by apply IH]. destruct (Ascii.eqb_spec d ":"); [by subst|done].
Qed.

#[export] Instance build_laws : UrlBuildLaws.
Proof.
  split; simpl.
  - intros sch authority u Hs. destruct (cut_scheme sch authority (valid_scheme_chars sch Hs)) as [rest ->].
    destruct (default _ _) as [a g]. by intros [= <-].
  - by intros u p u' [= <-].
  - intros u p u' [= <-]. unfold parts_port. cbn [p_port p_scheme].
    by destruct (decide (Some p = default_port (p_scheme u))).
  - intros u u' [= <-]. unfold parts_port. cbn [p_port p_scheme].
    by destruct (decide (None = default_port (p_scheme u))).
  - by intros u1 u2 -> ->.
Qed.

End EndpointUrl.

Section witnesses.
Import Sys SysSpec Builder Membership EndpointUrl.
#[local] Existing Instances MarkFlate.api ListTasks.api ListTasks.laws ListSdk.types ListSmithy.types.
#[local] Existing Instances ListHeaders.api sum_hash.
#[local] Instance sdk0 : SdkApi (SharedInterceptor unit) := ListSdk.api (SharedInterceptor unit).
#[local] Instance sdk_laws0 : SdkLaws := ListSdk.laws (SharedInterceptor unit).
#[local] Instance tls0 : TlsApi := ListTls.api (["root"], []).
#[local] Instance smithy0 : SmithyApi := ListSmithy.api (SharedInterceptor unit).
#[local] Instance smithy_laws0 : SmithyLaws := ListSmithy.laws (SharedInterceptor unit).
#[local] Instance client0 : ClientApi := {|
  instant_checked_add now t := Some (now + t)%Z;
  timeouts_default := "no timeouts" : @TimeoutConfig ListSdk.types;
  operation_timeout _ c := c;
  operation_attempt_timeout _ c := c;
|}.
#[local] Instance uris0 : UriApi := λ _, true.
#[local] Instance order0 : HashOrder := λ m, map_to_list m.

Definition racked : AlternatorConfig :=
  build (set_key_route_affinity (Affinity.from_type AnyWrite)
    (set_routing_scope (Scope.from_rack "dc1" "r1")
      (set_port 8000%Z (set_seed_hosts ["node1"; "node2"] Config.builder)))).
Definition no_client : AlternatorClient :=
  mkClient _ _ _ _ _ _ _ (dynamodb_config racked) racked (mkDiscovery _ _ _ _ _ [] None).
Definition racked_client : AlternatorClient := default no_client (Client.from_conf racked (Some 7) 0).

Definition no_manager : DiscoveryManager :=
  LiveNodesBuild.new_manager racked 0 "http" [] (Reqwest ([], 0%Z, 0%Z)) false.
Definition no_sys : Sys unit unit :=
  mkSys _ _ _ _ _ _ _ _ (UserInterceptor tt) (Interleaving.initial no_manager) [] [] None ∅ [] [].
Definition booted : Sys unit unit := default no_sys (boot racked_client).

(** A request is planned, the loop refreshes, and the request is tried while the
    answer is awaited; every node answers with a third one.  A thread of another
    runtime accesses the client meanwhile.  The request is tried again while the
    affinity view is refreshed. *)
Definition unfinished : AbortHandle → bool := λ _, false.
Definition visit (now : Z) : list (SysEvent unit) :=
  OnMachine unfinished (Begin (Some 9) true) :: replicate 6 (OnMachine unfinished (Step 0 now)).
Definition answer3 : RefreshInput := Answer (Some (Some ["node3"])).
Definition seeds_order : RefreshInput := Order (live_nodes (ordinary (sys_manager booted))).
Definition request0 : Request unit := mkRequest "http://localhost/" [] (Collected []).
Definition history : list (SysEvent unit) :=
  [OnPlan 0 (mkEnv 0 true) (InPut (mkPut (Some "orders") None None None None));
   OnLoop 0 0; OnRefresh 0 Act; OnRefresh 0 seeds_order; OnRefresh 0 Act; OnAttempt 0 request0] ++
  visit 5 ++
  [OnRefresh 0 answer3; OnRefresh 0 Act; OnRefreshed unfinished 0;
   OnRefresh 0 Act; OnRefresh 0 seeds_order; OnRefresh 0 Act; OnAttempt 0 request0;
   OnRefresh 0 answer3; OnRefresh 0 Act; OnRefreshed unfinished 0].
Definition run_sys (evs : list (SysEvent unit)) (s : Sys unit unit) : option (Sys unit unit) :=
  foldl (λ o ev, s ← o; sys_event s ev) (Some s) evs.
Definition worked : Sys unit unit := default no_sys (run_sys history booted).

Lemma run_steps evs s s' : run_sys evs s = Some s' → rtc sys_step s s'.
Proof.
  unfold run_sys. revert s. induction evs as [|ev evs IH]; intros s; simpl.
  { intros [= ->]. reflexivity. }
  destruct (sys_event s ev) as [s1|] eqn:He.
  - intros Hrun. eapply rtc_l; [|by apply IH]. by exists ev.
  - intros Hrun. exfalso. clear -Hrun. by induction evs.
Qed.

Lemma racked_built : Client.try_from_conf racked (Some 7) 0 = Some (Ok racked_client).
Proof. apply ClientFacts.from_conf_Some. unfold racked_client. apply some_default. vm_refl. Qed.
Lemma racked_booted : boot racked_client = Some booted.
Proof. unfold booted. apply some_default. vm_refl. Qed.
Lemma worked_run : run_sys history booted = Some worked.
Proof. unfold worked. apply some_default. vm_refl. Qed.

Lemma worked_reachable : reachable racked worked.
Proof.
  exists (Some 7), 0%Z, racked_client, booted.
  split; [exact racked_built|]. split; [exact racked_booted|].
  apply (run_steps history), worked_run.
Qed.

(** Both attempts were sent, six effects of the refreshes were seen, and both
    views moved to the node the others named. *)
Example worked_state :
  (length (sys_sent worked), length (sys_trace worked), length (sys_refreshes worked),
   p_host <$> live_nodes (ordinary (sys_manager worked)),
   (λ v, p_host <$> live_nodes v) <$> affinity_nodes (sys_manager worked)) =
  (2, 6, 0, [Some "node3"], Some [Some "node3"]).
Proof. vm_refl. Qed.

Lemma requests_stay_on_endpoint_witness :
  length (sys_sent worked) = 2 ∧
  ∀ r r', (r, Ok r') ∈ sys_sent worked → sent_to "http" (Some 8000%Z) r r'.
Proof.
  split; [vm_refl|].
  exact (proj1 (requests_stay_on_endpoint racked worked worked_reachable)).
Defined.

Lemma requests_always_routed_witness :
  ∃ s' res, sys_event worked (OnAttempt 0 request0) = Some s' ∧
    sys_sent s' = sys_sent worked ++ [(request0, res)] ∧ res ≠ Err NoLiveNode.
Proof.
  apply (proj2 (proj2 (requests_always_routed racked worked worked_reachable)) 0 request0).
  assert (Hb : (if sys_bags worked !! 0 is Some _ then true else false) = true) by vm_refl.
  destruct (sys_bags worked !! 0) as [b|]; [by exists b|discriminate].
Defined.

Lemma client_state_well_formed_witness :
  view_ok (Membership.served "http" (Some 8000%Z)) (ordinary (sys_manager worked)).
Proof.
  exact (proj1 (client_state_well_formed racked worked worked_reachable)).
Defined.

End witnesses.
