(* ===== verification/SystemTasks.v ===== *)
(** * The tasks of a client at work

    [System] runs a client as a sequence of critical sections.  Here is who may
    be refreshing its views.  Every refresh under way belongs to a task that the
    client's task registry admitted, and a transfer of discovery tells the old
    loop and the old affinity task to abort before it starts new ones; but an
    abort takes effect only where the task awaits, so refreshes of old tasks may
    overlap those of new ones.

    The theorems: of the refreshes of one view under way at most one was not told
    to abort, dropping the client tells the rest, and a shutdown returns only
    once there is none; and the client never gets stuck: whatever it went
    through, the accesses and refreshes under way can come to their ends by their
    own steps. *)

From S2P Require Import Prelude UrlApi NodeUrl RoutingScope LiveNodes Refresh Membership.
From S2P Require Import RefreshInterleaving DiscoveryTasks.
From S2P Require Import Hasher Classifier QueryPlan Resolver AffinityPlan.
From S2P Require Import Http OptimizeHeaders Compression Decompression Interceptors Sdk Config.
From S2P Require Import DiscoveryHttp DiscoveryOwner DiscoveryInterleaving DiscoveryLoop LiveNodesBuild Validation Client System.

(** ** What is known of the tasks *)

Module TaskSpec.
Import Sys.
Section spec.
Context `{UrlApi, TaskApi, SdkTypes, TlsApi, Flate, HeaderApi} {U Stream : Type}.
Implicit Types (s : Sys U Stream) (m : DiscoveryManager) (x : SysRefresh).

(** The task of a refresh: it is not over, a loop is one that was started, and an
    affinity task was told to abort unless it is the current one. *)
Definition task_ok m x : Prop :=
  handle_of x ∈ live_tasks m ∧
  match task x with
  | LoopTask h _ => h ∈ loops m
  | AffinityTask h =>
      (h ∈ aborts m ∨ affinity_task m = Some h) ∧ is_Some (affinity_nodes m)
  end.

Record tasks_ok s : Prop := {
  to_machine : InterleavingFacts.machine_ok (machine s);
  to_refreshes : Forall (task_ok (sys_manager s)) (sys_refreshes s);
  to_distinct : NoDup (handle_of <$> sys_refreshes s);
  to_loops : Forall (λ l, l.1 ∈ loops (sys_manager s)) (sys_loops s);
}.

(** What never gets lost: an abort, a loop, a task before its end, and the
    current affinity task unless it is told to abort. *)
Record kept m m' : Prop := {
  ke_aborts : aborts m ⊆ aborts m';
  ke_loops : loops m ⊆ loops m';
  ke_live : live_tasks m ⊆ live_tasks m';
  ke_affinity : ∀ h, h ∈ live_tasks m → affinity_task m = Some h →
    h ∈ aborts m' ∨ affinity_task m' = Some h;
  ke_nodes : is_Some (affinity_nodes m) → is_Some (affinity_nodes m');
}.

#[export] Instance kept_preorder : PreOrder kept.
Proof.
  split.
  - intros m. split; try done. by right.
  - intros m1 m2 m3 [Ha1 Hl1 Ht1 Hf1 Hn1] [Ha2 Hl2 Ht2 Hf2 Hn2]. split; [set_solver..| |by auto].
    intros h Hh Hf. destruct (Hf1 h Hh Hf) as [Hab|Hf']; [left; by apply Ha2|]. by apply Hf2; [apply Ht1|].
Qed.

(** ** The work under way *)

(** An event that advances an access or a refresh under way. *)
Definition busy s (ev : SysEvent Stream) : Prop :=
  match ev with
  | OnMachine _ (Step i _) => Progress.able i (machine s)
  | OnRefresh _ _ | OnRefreshed _ _ => True
  | _ => False
  end.
Definition busy_step `{UriApi, !HashOrder, Murmur3} s s' : Prop :=
  ∃ ev, busy s ev ∧ sys_event s ev = Some s'.

(** No access and no refresh is under way. *)
Definition resting s : Prop :=
  sys_refreshes s = [] ∧ Forall (λ c, call_pc c = Returned) (calls (machine s)) ∧
  lock (machine s) = None.

(** What a refresh becomes: itself one step further, or the affinity refresh that
    follows that of a loop. *)
Definition is_loop x : Prop := match task x with LoopTask _ _ => True | AffinityTask _ => False end.
Definition call_of x : RefreshCall := RefreshSteps.act_call (activity x).
Definition pc_of x : RefreshPc := RefreshSteps.act_pc (activity x).
Definition further x' x : Prop :=
  (call_of x' = call_of x ∧ (is_loop x' → is_loop x) ∧
   RefreshInvariants.turn (call_of x) (pc_of x') (pc_of x)) ∨
  (is_loop x ∧ ¬ is_loop x').

End spec.

(** One element of a list goes away or becomes smaller. *)
Inductive shrinks {A} (R : A → A → Prop) (l' l : list A) : Prop :=
| Shrunk x rest : l ≡ₚ x :: rest → l' ≡ₚ rest → shrinks R l' l
| Lowered x y rest : l ≡ₚ x :: rest → R y x → l' ≡ₚ y :: rest → shrinks R l' l.

End TaskSpec.

Module TaskFacts.
Import Sys SysFacts Manager TaskSpec InterleavingFacts.

(** *** What the manager's steps keep *)

Section manager_steps.
Context `{UrlApi, TaskApi, !TaskLaws, SdkTypes, TlsApi}.
Implicit Types (m : DiscoveryManager).

(** Updates of other fields. *)
Lemma kept_frame m m' :
  aborts m' = aborts m → loops m' = loops m → live_tasks m' = live_tasks m →
  affinity_task m' = affinity_task m → affinity_nodes m' = affinity_nodes m → kept m m'.
Proof. intros Ha Hl Ht Hf Hn. split; rewrite ?Ha, ?Hl, ?Ht, ?Hf, ?Hn; auto. Qed.

Lemma spawn_live d : tracked (tasks d) ⊆ tracked (tasks (snd (Tasks.spawn d))).
Proof.
  unfold Tasks.spawn. destruct (Tasks.is_stopped d); [done|].
  pose proof (spawn_tracked (tasks d)) as Hp. destruct (spawn_on (tasks d)) as [h t]. simpl in *.
  rewrite Hp. set_solver.
Qed.

Lemma kept_spawn m task t : Tasks.spawn (manager_tasks m) = (task, t) → kept m (set_tasks t m).
Proof.
  intros Hs. pose proof (spawn_live (manager_tasks m)) as Hl. rewrite Hs in Hl.
  split; try done. by right.
Qed.

Lemma kept_record_abort t m : kept m (record_abort t m).
Proof. split; try done; [set_solver|]. by right. Qed.
Lemma kept_abort_active m : kept m (abort_active m).
Proof. split; try done; [set_solver|]. by right. Qed.
Lemma kept_abort_affinity m : kept m (abort_affinity m).
Proof. split; try done; [set_solver|]. simpl. intros h _ ->. left. set_solver. Qed.
Lemma kept_record_loop h m : kept m (record_loop h m).
Proof. split; try done; [set_solver|]. by right. Qed.
Lemma kept_clear r m : kept m (clear_registration r m).
Proof. unfold clear_registration. case_decide; [by apply kept_frame|reflexivity]. Qed.

Lemma kept_recheck finished owner probe m m' :
  arrange_recheck finished owner probe m = Some m' → kept m m'.
Proof.
  unfold arrange_recheck. destruct (_ || _); [by intros [= <-]|].
  destruct (last_started probe); [|done]. cbn [mbind option_bind].
  destruct (Tasks.spawn _) as [task t] eqn:Hs. intros [= <-].
  etrans; [exact (kept_spawn m task t Hs)|by apply kept_frame].
Qed.

Lemma kept_poll r m : kept m (poll_loop r m).
Proof.
  unfold poll_loop. destruct (runtimes m !! r) as [rt|]; [|reflexivity].
  destruct (Probe.poll_with_probes _ rt) as [[? aborted] rt'].
  etrans; [|apply kept_record_abort]. by apply kept_frame.
Qed.

Lemma kept_stage finished now marks id stage m pc m' :
  Interleaving.stage_step finished now marks id stage m = Some (pc, m') → kept m m'.
Proof.
  destruct stage as [locked|locked owner|locked owner t|locked owner| | | | |r|r|r|r|task|];
    cbn [Interleaving.stage_step]; try (destruct (runtimes m !! owner) as [rt|]; [|done]);
    cbn [mbind option_bind]; try by intros [= <- <-].
  - destruct (Probe.probe_verdict t rt) as [handoff rt']; intros [= <- <-]; by apply kept_frame.
  - destruct (arrange_recheck _ _ _ _) as [m1|] eqn:Ha; [|done]. intros [= <- <-].
    by eapply kept_recheck.
  - intros [= <- <-]. apply kept_abort_active.
  - intros [= <- <-]. apply kept_abort_affinity.
  - intros [= <- <-]. by apply kept_frame.
  - intros [= <- <-]. by apply kept_frame.
  - destruct (Tasks.spawn _) as [task t] eqn:Hs. pose proof (kept_spawn m task t Hs) as Hk.
    destruct task as [h|]; intros [= <- <-]; [|done]. etrans; [exact Hk|apply kept_record_loop].
  - intros [= <- <-]. by apply kept_frame.
  - intros [= <- <-]. apply kept_clear.
  - intros [= <- <-]. by apply kept_frame.
Qed.

Lemma kept_pc finished now c m pc m' :
  Interleaving.pc_step finished now c m = Some (pc, m') → kept m m'.
Proof.
  unfold Interleaving.pc_step. destruct (call_pc c) as [owner|owner| |id stage| |];
    try by intros [= <- <-].
  - destruct (runtimes m !! owner); [|done]. by intros [= <- <-].
  - apply kept_stage.
  - intros [= <- <-]. by apply kept_frame.
Qed.

Lemma kept_step finished i now mch mch' :
  Interleaving.step finished i now mch = Some mch' → kept (manager mch) (manager mch').
Proof.
  unfold Interleaving.step. destruct (calls mch !! i) as [c|]; [|by intros [= <-]].
  pose proof (kept_pc finished now c (manager mch)) as Hk.
  destruct (Interleaving.pc_step finished now c (manager mch)) as [[pc m]|];
    destruct (call_pc c) as [| | |id []| |]; cbn [mbind option_bind]; try done;
    try (intros [= <-]; by apply (Hk pc)); try (destruct (lock mch)); by intros [= <-].
Qed.

Lemma kept_event finished e mch mch' :
  own_event e = true → Interleaving.event finished e mch = Some mch' →
  kept (manager mch) (manager mch').
Proof.
  destruct e; cbn [Interleaving.event]; try discriminate;
    [intros _; apply kept_step|intros _ [= <-]; reflexivity|..]; intros _ [= <-].
  - by case_decide.
  - apply kept_poll.
  - by apply kept_frame.
  - apply kept_clear.
  - apply kept_frame; try done. unfold live_tasks. simpl. apply close_tracked.
Qed.

(** [start_affinity_refresh] replaces a task that is over, with a new one. *)
Lemma start_affinity_tasks finished r m :
  consistent finished m →
  let '(candidates, m') := start_affinity_refresh finished r m in
  kept m m' ∧
  ∀ c, candidates = Some c → ∃ h, affinity_task m' = Some h ∧ h ∉ live_tasks m ∧ h ∈ live_tasks m' ∧
    is_Some (affinity_nodes m').
Proof.
  intros Hc. unfold start_affinity_refresh.
  destruct (affinity_nodes m) as [v|] eqn:Hv; [|split; [reflexivity|done]].
  case_decide; [split; [reflexivity|done]|].
  destruct (from_option _ _ (affinity_task m)) eqn:Hf; [split; [reflexivity|done]|].
  destruct (Tasks.spawn (manager_tasks m)) as [task t] eqn:Hs.
  pose proof (kept_spawn m task t Hs) as Hk. split.
  - split; try apply Hk. intros h Hh Ha. exfalso. rewrite Ha in Hf. simpl in Hf.
    unfold consistent in Hc. rewrite Forall_forall in Hc. by rewrite (Hc h Hh) in Hf.
  - intros c. destruct task as [h|]; [|done]. intros _. exists h. simpl.
    unfold Tasks.spawn in Hs. destruct (Tasks.is_stopped _); [done|].
    pose proof (spawn_tracked (tasks (manager_tasks m))) as Hp.
    pose proof (spawn_fresh (tasks (manager_tasks m))) as Hn.
    destruct (spawn_on (tasks (manager_tasks m))) as [h' t']. simplify_eq/=. split_and!; [done..| |].
    + unfold live_tasks. simpl. rewrite Hp. set_solver.
    + by rewrite Hv.
Qed.

Lemma live_end h h' m : h' ∈ live_tasks (end_task h m) ↔ h' ∈ live_tasks m ∧ h' ≠ h.
Proof. apply destroyed_tracked. Qed.

(** Updates that the machine does not depend on. *)
Lemma machine_frame m mch :
  runtimes m = runtimes (manager mch) → discovery_runtime m = discovery_runtime (manager mch) →
  active_task m = active_task (manager mch) → loops m = loops (manager mch) →
  aborts m = aborts (manager mch) → machine_ok mch → machine_ok (Interleaving.set_manager m mch).
Proof.
  intros Hr Hd Ha Hl Hab Hok. apply around_ok; rewrite ?Hr, ?Hab; try done.
  by eapply owner_frame; [..|apply Hok].
Qed.

End manager_steps.

(** *** One event of a client *)

Section events.
Context `{UrlApi, TaskApi, !TaskLaws, SdkTypes, TlsApi, Flate, HeaderApi, UriApi, !HashOrder, Murmur3}.
Context {U Stream : Type}.
Implicit Types (s : Sys U Stream) (m : DiscoveryManager) (x : SysRefresh).

Lemma task_kept m m' x : kept m m' → task_ok m x → task_ok m' x.
Proof.
  intros [Ha Hl Ht Hf Hn] [Hlive Hx]. split; [by apply Ht|]. unfold handle_of in Hlive.
  destruct (task x) as [h r|h]; [by apply Hl|]. destruct Hx as [[Hab|Haf] Hv]; split; auto.
Qed.
Lemma tasks_kept m m' l : kept m m' → Forall (task_ok m) l → Forall (task_ok m') l.
Proof. intros Hk Hl. eapply Forall_impl; [exact Hl|]. intros x. by apply task_kept. Qed.
Lemma loops_kept m m' (l : list (AbortHandle * nat)) :
  kept m m' → Forall (λ l, l.1 ∈ loops m) l → Forall (λ l, l.1 ∈ loops m') l.
Proof. intros Hk Hl. eapply Forall_impl; [exact Hl|]. intros x. apply (ke_loops _ _ Hk). Qed.

Lemma task_end h m x : handle_of x ≠ h → task_ok m x → task_ok (end_task h m) x.
Proof. intros Hne [Hlive Hx]. split; [by apply live_end|done]. Qed.

Lemma kept_view v n m : kept m (set_view_at v n m).
Proof. destruct v; [by apply kept_frame|]. split; try done; by right. Qed.

(** A refresh goes away, and so may its task. *)
Lemma tasks_delete k x m (l : list SysRefresh) :
  l !! k = Some x → NoDup (handle_of <$> l) → Forall (task_ok m) l →
  NoDup (handle_of <$> delete k l) ∧ Forall (task_ok m) (delete k l) ∧
  Forall (task_ok (end_task (handle_of x) m)) (delete k l).
Proof.
  intros Hp%delete_Permutation. set (rest := delete k l) in *. clearbody rest.
  rewrite Hp, fmap_cons, NoDup_cons, Forall_cons.
  intros [Hx Hnd] [_ Hl]. split_and!; [done..|]. rewrite Forall_forall in Hl |- *.
  intros y Hy. apply task_end; [|by apply Hl]. intros Heq. apply Hx. rewrite <-Heq.
  by apply list_elem_of_fmap_2.
Qed.

(** The refreshes are as they were, or some are gone and a new one began. *)
Lemma tasks_ok_kept m s s' :
  sys_refreshes s' = sys_refreshes s → sys_loops s' = sys_loops s →
  machine s' = Interleaving.set_manager m (machine s) → kept (sys_manager s) m →
  machine_ok (machine s') → tasks_ok s → tasks_ok s'.
Proof.
  intros Hr Hl Hm Hk Hok [_ Hj Hnd Hlo]. split; unfold sys_manager in *; rewrite ?Hr, ?Hl; try done.
  - rewrite Hm. by eapply tasks_kept.
  - rewrite Hm. by eapply loops_kept.
Qed.

Lemma machine_step_tasks finished e mch s :
  own_event e = true → Interleaving.event finished e (machine s) = Some mch →
  tasks_ok s → tasks_ok (set_machine mch (sys_loops s ++ spawned e (machine s) mch) s).
Proof.
  intros Ho He [Hok Hj Hnd Hlo]. pose proof (kept_event _ _ _ _ Ho He) as Hk. split; simpl.
  - destruct (machine_event_ok finished e _ Hok) as (mch' & He' & Hok'). congruence.
  - by eapply tasks_kept.
  - done.
  - apply Forall_app. split; [by eapply loops_kept|].
    destruct e; simpl; try done. destruct (call_pc <$> _) as [[| | |? []| |]|]; try done.
    apply Forall_fmap, Forall_forall. intros h Hh. simpl. by eapply subseteq_drop.
Qed.

Lemma loop_start_tasks h runtime s :
  (h, runtime) ∈ sys_loops s → h ∈ live_tasks (sys_manager s) → at_rest h s → tasks_ok s →
  tasks_ok (set_refreshes (sys_manager s)
    (sys_refreshes s ++ [loop_refresh h runtime (sys_manager s)]) [] s).
Proof.
  intros Hin Hlive Hrest [Hok Hj Hnd Hlo]. split; simpl; [by apply machine_frame| | |done].
  - apply Forall_app; split; [done|]. apply Forall_singleton. split; [done|]. simpl.
    rewrite Forall_forall in Hlo. apply (Hlo _ Hin).
  - rewrite fmap_app. apply NoDup_app. split; [done|]. split; [|by apply NoDup_singleton].
    intros h' (x & -> & Hx)%list_elem_of_fmap Hh'%list_elem_of_singleton.
    unfold at_rest in Hrest. rewrite Forall_forall in Hrest. by apply (Hrest x Hx).
Qed.

Lemma advance_tasks k input x x' m t s :
  sys_refreshes s !! k = Some x → advance x input (sys_manager s) = Some (x', m, t) →
  tasks_ok s → tasks_ok (set_refreshes m (<[k := x']> (sys_refreshes s)) t s).
Proof.
  intros Hk Ha [Hok Hj Hnd Hlo]. unfold advance in Ha. destruct (view_at _ _) as [v|]; [|done].
  cbn [mbind option_bind] in Ha.
  destruct (RefreshSteps.refresh_step _ _ _ _) as [[[pc es] ev]|]; [|done]. injection Ha as Hx' <- <-.
  assert (handle_of x' = handle_of x ∧ task x' = task x) as [Hh Ht] by by rewrite <-Hx'.
  pose proof (kept_view (refresh_view x) (View.run_events (option_list ev) v) (sys_manager s)) as Hkv.
  split; simpl.
  - apply machine_frame; [by destruct (refresh_view x)..|done].
  - apply Forall_insert; [by eapply tasks_kept|]. eapply task_kept; [exact Hkv|].
    pose proof (proj1 (Forall_lookup _ _) Hj k x Hk) as Hx. unfold task_ok in *. by rewrite Hh, Ht.
  - rewrite list_fmap_insert, list_insert_id; [done|]. by rewrite list_lookup_fmap, Hk, Hh.
  - by eapply loops_kept.
Qed.

Lemma end_machine h mch : machine_ok mch → machine_ok (Interleaving.set_manager (end_task h (manager mch)) mch).
Proof. by apply machine_frame. Qed.

Lemma ended_tasks k x s :
  sys_refreshes s !! k = Some x → tasks_ok s →
  tasks_ok (set_refreshes (end_task (handle_of x) (sys_manager s)) (delete k (sys_refreshes s)) [] s).
Proof.
  intros Hk [Hok Hj Hnd Hlo]. destruct (tasks_delete k x _ _ Hk Hnd Hj) as (Hnd' & _ & Hj').
  split; simpl; [by apply end_machine|done..].
Qed.

Lemma refreshed_tasks finished k x l m s :
  sys_refreshes s !! k = Some x → blocked x s = false → consistent finished (sys_manager s) →
  after_refresh finished x (sys_manager s) = Some (l, m) → tasks_ok s →
  tasks_ok (set_refreshes m (delete k (sys_refreshes s) ++ l) [] s).
Proof.
  intros Hk Hb Hc Ha Hs. pose proof (ended_tasks k x s Hk Hs) as Hend.
  unfold after_refresh, handle_of, blocked in *.
  destruct (RefreshSteps.act_pc (activity x)) as [| | | | | | | | |o|]; try done;
    [|injection Ha as <- <-; by rewrite app_nil_r].
  destruct (task x) as [h runtime|h]; [|injection Ha as <- <-; by rewrite app_nil_r].
  destruct (lock (machine s)) eqn:Hl; [done|]. clear Hend. destruct Hs as [Hok Hj Hnd Hlo].
  unfold sys_manager in *. pose proof (start_affinity_tasks finished runtime _ Hc) as Hst.
  destruct (machine_event_ok finished (AffinityRefresh runtime) _ Hok) as (mch & Hev & Hok').
  simpl in Hev. rewrite Hl in Hev. injection Hev as <-.
  destruct (tasks_delete k x _ _ Hk Hnd Hj) as (Hnd' & Hj' & _).
  destruct (start_affinity_refresh _ _ _) as [c m2]. destruct Hst as [Hkept Hnew]. simpl in Hok'.
  injection Ha as <- <-. split; simpl; [done| | |by eapply loops_kept].
  - apply Forall_app. split; [by eapply tasks_kept|]. destruct c as [c|]; [|constructor].
    destruct (Hnew c eq_refl) as (h' & Hh' & _ & Hlive & Hv). cbn [mbind option_bind]. rewrite Hh'.
    apply Forall_singleton. split; [done|]. simpl. auto.
  - rewrite fmap_app. apply NoDup_app. split; [done|]. destruct c as [c|]; [|by split; [set_solver|constructor]].
    destruct (Hnew c eq_refl) as (h' & Hh' & Hfresh & _). cbn [mbind option_bind]. rewrite Hh'.
    split; [|by apply NoDup_singleton]. intros h0 (y & -> & Hy)%list_elem_of_fmap Heq%list_elem_of_singleton.
    assert (handle_of y = h') as <- by exact Heq. rewrite Forall_forall in Hj'.
    by apply Hfresh, (Hj' y Hy).
Qed.

(** One event keeps the tasks in order. *)
Lemma sys_event_tasks s ev s' : tasks_ok s → sys_event s ev = Some s' → tasks_ok s'.
Proof.
  intros Hs. pose proof (to_machine s Hs) as Hok.
  destruct ev as [finished e|h|h runtime|k input|finished k|k|i a|k e input|k r]; cbn [sys_event].
  - case_decide as Hd; [|done]. destruct Hd as [Ho Hc].
    destruct (Interleaving.event finished e (machine s)) as [mch|] eqn:He; [|done].
    intros [= <-]. by apply (machine_step_tasks finished).
  - case_decide as Hd; [|done]. intros [= <-]. unfold at_rest in Hd. destruct Hs as [_ Hj Hnd Hlo].
    split; simpl; [by apply end_machine| |done|done].
    rewrite Forall_forall in Hj, Hd |- *. intros x Hx. apply task_end; auto.
  - case_decide as Hd; [|done]. destruct Hd as (Hin & Hlive & Hrest). intros [= <-]. by apply loop_start_tasks.
  - destruct (sys_refreshes s !! k) as [x|] eqn:Hk; [|done]. cbn [mbind option_bind].
    destruct (advance x input (sys_manager s)) as [[[x' m'] t]|] eqn:Ha; [|done]. intros [= <-].
    by eapply advance_tasks.
  - destruct (sys_refreshes s !! k) as [x|] eqn:Hk; [|done]. cbn [mbind option_bind].
    case_decide as Hd; [|done]. destruct Hd as [Hb Hc].
    destruct (after_refresh finished x (sys_manager s)) as [[l m']|] eqn:Ha; [|done]. intros [= <-].
    by eapply refreshed_tasks.
  - destruct (sys_refreshes s !! k) as [x|] eqn:Hk; [|done]. cbn [mbind option_bind].
    destruct (awaits _); [|done]. intros [= <-]. by apply ended_tasks.
  - destruct (sys_resolver s); [|done]. intros [= <-]. by destruct Hs.
  - destruct (plan_bag _ _ _ _) as [[b r]|]; [|done]. intros [= <-]. by destruct Hs.
  - destruct (sys_bags s !! k) as [b|]; [|done].
    destruct (view_at (drawn_view s) (sys_manager s)) as [v|]; [|done]. cbn [mbind option_bind].
    destruct (Hooks.modify_before_signing b v r) as [[res b'] v']. intros [= <-].
    apply (tasks_ok_kept (set_view_at (drawn_view s) v' (sys_manager s)) s); try done.
    + apply kept_view.
    + simpl. apply machine_frame; [by destruct (drawn_view s)..|done].
Qed.

Lemma steps_tasks s s' : rtc sys_step s s' → tasks_ok s → tasks_ok s'.
Proof. induction 1 as [|s1 s2 s3 (ev & He) _ IH]; [done|]. intros Hs. by eapply IH, sys_event_tasks. Qed.

(** The one task that was not told to abort. *)
Lemma current_loop s x h r :
  tasks_ok s → x ∈ sys_refreshes s → task x = LoopTask h r → h ∉ aborts (sys_manager s) →
  current_task (holder (machine s)) (sys_manager s) = Some h.
Proof.
  intros [Hok Hj _ _] Hx Ht Hn. rewrite Forall_forall in Hj. destruct (Hj x Hx) as [_ Hh].
  rewrite Ht in Hh. by destruct (lo_loops _ _ (mo_loops _ Hok) h Hh).
Qed.
Lemma current_affinity s x h :
  tasks_ok s → x ∈ sys_refreshes s → task x = AffinityTask h → h ∉ aborts (sys_manager s) →
  affinity_task (sys_manager s) = Some h.
Proof.
  intros [_ Hj _ _] Hx Ht Hn. rewrite Forall_forall in Hj. destruct (Hj x Hx) as [_ Hh].
  rewrite Ht in Hh. by destruct Hh as [[|] _].
Qed.

End events.

(** *** A client that was just built *)

Section boot.
Context `{UrlApi, !UrlEqLaws, !UrlEditLaws, TaskApi, !TaskLaws, Flate, HeaderApi}.
Context {types : SdkTypes} {tls : TlsApi} {U Stream : Type}.
Context {sdk : SdkApi (SharedInterceptor U)} {stypes : SmithyTypes} {smithy : SmithyApi}.
Context {capi : ClientApi} {laws : SdkLaws} {smithy_laws : SmithyLaws}.

Lemma started_machine h id m :
  loops m = [h] → active_task m = Some h → discovery_runtime m = Some 0 → runtimes m = [Probe.new id] →
  machine_ok (Interleaving.initial m).
Proof.
  intros Hl Ha Hd Hr. split; simpl; try done.
  - split; rewrite ?Hd, ?Hr; [by intros r [= <-]|by repeat constructor].
  - split; rewrite ?Hl; [done|]. intros h' ->%list_elem_of_singleton. by right.
Qed.

Lemma boot_tasks (config : AlternatorConfig) current (now : Z) self (s : Sys U Stream) :
  Client.try_from_conf config current now = Some (Ok self) → boot self = Some s → tasks_ok s.
Proof.
  intros Hself Hboot. pose proof (Client.client_starts_discovery config current now self Hself) as Hst.
  unfold boot in Hboot. destruct (Config.without_discovery config); [by rewrite Hst in Hboot|].
  destruct Hst as (m & Ht & Hm). rewrite Ht in Hboot.
  destruct (last _) as [i|]; [|done]. injection Hboot as <-.
  assert (machine_ok (Interleaving.initial m) ∧ Forall (λ l, l.1 ∈ loops m) (first_loop m)) as [Hok Hl].
  { unfold first_loop. destruct current as [id|].
    - destruct Hm as (h & Hl & Ha & _ & Hd & Hr). rewrite Ha, Hd, Hl. split; [by eapply started_machine|].
      apply Forall_singleton. simpl. set_solver.
    - split; [by apply initial_ok|]. destruct Hm as (Hd & _ & Ha & _). by rewrite Ha. }
  split; [done|constructor|constructor|done].
Qed.

End boot.

(** *** The work under way ends *)

Section shrinking.
Context {A : Type} (R : A → A → Prop).
Implicit Types (l : list A).

Lemma shrinks_perm l1 l2 : l1 ≡ₚ l2 → Acc (shrinks R) l1 → Acc (shrinks R) l2.
Proof.
  intros Hp [Hacc]. constructor. intros l Hl. apply Hacc.
  destruct Hl as [x rest H1 H2|x y rest H1 HR H2]; [eapply Shrunk|eapply Lowered]; try done; by rewrite Hp.
Qed.

(** What a smaller list than [x :: l] looks like. *)
Lemma shrinks_cons l' x l :
  shrinks R l' (x :: l) →
  l' ≡ₚ l ∨ (∃ y, R y x ∧ l' ≡ₚ y :: l) ∨ ∃ l1, shrinks R l1 l ∧ l' ≡ₚ x :: l1.
Proof.
  assert (Hsplit : ∀ z rest, x :: l ≡ₚ z :: rest →
    z = x ∧ rest ≡ₚ l ∨ ∃ l0, l ≡ₚ z :: l0 ∧ rest ≡ₚ x :: l0).
  { intros z rest Hp. assert (x ∈ z :: rest) as [->|Hx]%elem_of_cons by (rewrite <-Hp; left).
    - left. split; [done|]. symmetry. by eapply Permutation.Permutation_cons_inv.
    - right. apply elem_of_Permutation in Hx as [l0 Hl0]. exists l0. split; [|done].
      rewrite Hl0, Permutation_swap in Hp. by apply Permutation.Permutation_cons_inv in Hp. }
  intros [z rest [[-> Hr]|(l0 & Hl & Hr)]%Hsplit Hl'|z y rest [[-> Hr]|(l0 & Hl & Hr)]%Hsplit HR Hl'].
  - left. by rewrite Hl'.
  - right; right. exists l0. split; [by eapply Shrunk|by rewrite Hl'].
  - right; left. exists y. by rewrite Hl', Hr.
  - right; right. exists (y :: l0). split; [by eapply Lowered|]. by rewrite Hl', Hr, Permutation_swap.
Qed.

Lemma shrinks_acc l : Forall (Acc R) l → Acc (shrinks R) l.
Proof.
  induction 1 as [|x l Hx _ IH].
  { constructor. intros l [z rest Hp%Permutation_nil_cons|z y rest Hp%Permutation_nil_cons]; done. }
  revert l IH. induction Hx as [x _ IHx]. intros l Hl. induction Hl as [l Hl IHl].
  constructor. intros l' [Hp|[(y & HR & Hp)|(l1 & H1 & Hp)]]%shrinks_cons; symmetry in Hp;
    (eapply shrinks_perm; [exact Hp|]).
  - by constructor.
  - apply IHx; [done|by constructor].
  - by apply IHl.
Qed.

Lemma insert_perm k x l : k < length l → <[k := x]> l ≡ₚ x :: delete k l.
Proof.
  intros Hk. rewrite insert_take_drop, delete_take_drop by done.
  symmetry. apply Permutation_middle.
Qed.

End shrinking.

Section ends.
Context `{UrlApi, TaskApi, !TaskLaws, SdkTypes, TlsApi, Flate, HeaderApi, UriApi, !HashOrder, Murmur3}.
Context {U Stream : Type}.
Implicit Types (s : Sys U Stream) (m : DiscoveryManager) (x : SysRefresh).

Lemma further_wf : well_founded (further (H:=_)).
Proof.
  assert (Haff : ∀ call pc x, call_of x = call → pc_of x = pc → ¬ is_loop x → Acc further x).
  { intros call pc. induction (TurnFacts.turn_wf call pc) as [pc _ IH]. intros x <- <- Hx.
    constructor. intros y [(Hc & Hl & Ht)|[]]; [|done]. by eapply IH; [exact Ht|done|done|auto]. }
  assert (Hall : ∀ call pc x, call_of x = call → pc_of x = pc → Acc further x).
  { intros call pc. induction (TurnFacts.turn_wf call pc) as [pc _ IH]. intros x <- <-.
    constructor. intros y [(Hc & Hl & Ht)|[_ Hy]]; [by eapply IH|by eapply Haff]. }
  intros x. by eapply Hall.
Qed.

Lemma refresh_shrinks k input x x' m t s :
  sys_refreshes s !! k = Some x → advance x input (sys_manager s) = Some (x', m, t) →
  shrinks further (<[k := x']> (sys_refreshes s)) (sys_refreshes s).
Proof.
  intros Hk Ha. unfold advance in Ha. destruct (view_at _ _) as [v|]; [|done].
  cbn [mbind option_bind] in Ha.
  destruct (RefreshSteps.refresh_step _ _ _ _) as [[[pc es] ev]|] eqn:Hst; [|done].
  injection Ha as <- _ _. eapply Lowered; [by apply delete_Permutation| |].
  2: apply insert_perm; by eapply lookup_lt_Some.
  left. split_and!; [done..|]. exists input, v, es, ev. exact Hst.
Qed.

Lemma refreshed_shrinks finished k x l m s :
  sys_refreshes s !! k = Some x → after_refresh finished x (sys_manager s) = Some (l, m) →
  shrinks further (delete k (sys_refreshes s) ++ l) (sys_refreshes s).
Proof.
  intros Hk%delete_Permutation Ha.
  assert (l = [] ∨ is_loop x ∧ ∃ y, l = [y] ∧ ¬ is_loop y) as [->|(Hx & y & -> & Hy)].
  { unfold after_refresh, is_loop in *. destruct (RefreshSteps.act_pc _); try done; [|by left; injection Ha].
    destruct (task x); [|by left; injection Ha]. destruct (Manager.start_affinity_refresh _ _ _) as [c m'].
    injection Ha as <- _. destruct c as [c|]; [|by left]. cbn [mbind option_bind].
    destruct (affinity_task m'); [|by left]. right. split; [done|]. eexists. split; [done|]. intros Hf. exact Hf. }
  - eapply Shrunk; [done|]. by rewrite app_nil_r.
  - eapply Lowered; [done|by right|]. by rewrite Permutation_app_comm.
Qed.

Lemma busy_shrinks s s' :
  busy_step s s' →
  shrinks further (sys_refreshes s') (sys_refreshes s) ∨
  sys_refreshes s' = sys_refreshes s ∧ Interleaving.work (machine s') < Interleaving.work (machine s).
Proof.
  intros (ev & Hb & He). destruct ev as [finished [i now| | | | | | |]|h|h r|k input|finished k|k|i a|k e input|k r];
    try done; cbn [sys_event busy] in *.
  - right. case_decide; [|done]. destruct (Interleaving.event _ _ _) as [mch|] eqn:Hm; [|done].
    injection He as <-. split; [done|]. by eapply Progress.step_able.
  - left. destruct (sys_refreshes s !! k) as [x|] eqn:Hk; [|done]. cbn [mbind option_bind] in He.
    destruct (advance x input _) as [[[x' m'] t]|] eqn:Ha; [|done]. injection He as <-.
    by eapply refresh_shrinks.
  - left. destruct (sys_refreshes s !! k) as [x|] eqn:Hk; [|done]. cbn [mbind option_bind] in He.
    case_decide; [|done]. destruct (after_refresh _ _ _) as [[l m']|] eqn:Ha; [|done].
    injection He as <-. by eapply refreshed_shrinks.
Qed.

Lemma busy_acc s : Acc (flip busy_step) s.
Proof.
  remember (sys_refreshes s) as l eqn:Hl.
  assert (Acc (shrinks further) l) as Hacc by apply shrinks_acc, Forall_true, further_wf.
  revert s Hl. induction Hacc as [l _ IHl]. intros s Hl.
  remember (Interleaving.work (machine s)) as n eqn:Hn. revert s Hl Hn.
  induction (lt_wf n) as [n _ IHn]. intros s -> ->.
  constructor. intros s' [Hs|[Hs Hw]]%busy_shrinks; [by eapply IHl|by eapply IHn].
Qed.

(** While the mutex is free, every refresh can go on. *)
Lemma refresh_moves x s :
  tasks_ok s → sys_refreshes s !! 0 = Some x → lock (machine s) = None → ∃ s', busy_step s s'.
Proof.
  intros [_ Hj _ _] Hk Hl. pose proof (proj1 (Forall_lookup _ _) Hj 0 x Hk) as [_ Hx].
  assert (is_Some (view_at (refresh_view x) (sys_manager s))) as [v Hv].
  { unfold refresh_view. destruct (task x); [by eexists|apply Hx]. }
  pose proof (proj2 (TurnFacts.next_input (call_of x) (pc_of x) v)) as Hnext.
  assert ((∃ o, pc_of x = RefreshInterleaving.Ended o) ∨ pc_of x = Overflowed ∨
    ∃ input st, RefreshSteps.refresh_step (call_of x) (pc_of x) input v = Some st) as Hcase
    by (clear -Hnext; destruct (pc_of x); eauto).
  assert (Hdone : is_Some (after_refresh (λ _, false) x (sys_manager s)) →
    ∃ s', sys_event s (OnRefreshed (λ _, false) 0) = Some s').
  { intros [[l m] Ha]. cbn [sys_event]. rewrite Hk. cbn [mbind option_bind].
    rewrite decide_True, Ha; [by eexists|]. split; [|by apply Forall_true].
    unfold blocked. rewrite Hl. by repeat case_match. }
  unfold after_refresh in Hdone. unfold pc_of, call_of in *.
  destruct Hcase as [[o Ho]|[Ho|(input & [[pc es] ev] & Hst)]].
  - rewrite Ho in Hdone. destruct Hdone as [s' Hs']; [|by exists s', (OnRefreshed (λ _, false) 0)].
    destruct (task x); [|by eexists]. destruct (Manager.start_affinity_refresh _ _ _). by eexists.
  - rewrite Ho in Hdone. destruct Hdone as [s' Hs']; [by eexists|by exists s', (OnRefreshed (λ _, false) 0)].
  - eexists. exists (OnRefresh 0 input). split; [done|]. cbn [sys_event]. rewrite Hk.
    cbn [mbind option_bind]. unfold advance. rewrite Hv. cbn [mbind option_bind]. by rewrite Hst.
Qed.

(** Whoever is not at rest can go on. *)
Lemma busy_or_resting s : tasks_ok s → (∃ s', busy_step s s') ∨ resting s.
Proof.
  intros Hs. pose proof (to_machine s Hs) as Hok.
  assert (Forall (λ c, call_pc c = Returned) (calls (machine s)) ∨
    Exists (λ c, call_pc c ≠ Returned) (calls (machine s))) as [Hret|Hbusy].
  { destruct (Forall_Exists_dec (λ c, call_pc c = Returned) (λ c, call_pc c ≠ Returned)
      (λ c, Progress.pc_returned_dec (call_pc c)) (calls (machine s))); auto. }
  - assert (lock (machine s) = None) as Hl.
    { destruct (lock (machine s)) as [i|] eqn:Hl; [|done]. exfalso.
      destruct (lookup_lt_is_Some_2 _ _ (mo_holder _ Hok i Hl)) as [c Hc].
      pose proof (proj2 (mo_lock _ Hok i c Hc) Hl) as Hlk. rewrite Forall_lookup in Hret.
      by rewrite (Hret i c Hc) in Hlk. }
    destruct (sys_refreshes s) as [|x l] eqn:Hr; [by right|]. left.
    apply (refresh_moves x); [done| |done]. by rewrite Hr.
  - left. destruct (Progress.some_able _ Hok Hbusy) as (i & _ & Ha).
    destruct (machine_event_ok (λ _, false) (Step i 0%Z) _ Hok) as (mch & Hm & _).
    eexists. exists (OnMachine (λ _, false) (Step i 0%Z)). split; [exact Ha|].
    cbn [sys_event]. rewrite decide_True by (split; [done|by apply Forall_true]). by rewrite Hm.
Qed.

Lemma busy_sys s s' : busy_step s s' → sys_step s s'.
Proof. intros (ev & _ & He). by exists ev. Qed.

End ends.

End TaskFacts.

(** ** Properties *)

Section properties.
Context `{UrlApi, !UrlEqLaws, !UrlEditLaws, !UrlBuildLaws, TaskApi, !TaskLaws, Flate, HeaderApi, UriApi}.
Context `{!HashOrder, Murmur3} {types : SdkTypes} {tls : TlsApi} {U Stream : Type}.
Context {sdk : SdkApi (SharedInterceptor U)} {stypes : SmithyTypes} {smithy : SmithyApi}.
Context {capi : ClientApi} {laws : SdkLaws} {smithy_laws : SmithyLaws}.
Import Sys TaskSpec TaskFacts InterleavingFacts.

Lemma reachable_tasks config (s : Sys U Stream) : reachable config s → tasks_ok s.
Proof.
  intros (current & now & self & s0 & Hself & Hboot & Hrun).
  eapply steps_tasks; [exact Hrun|]. by eapply boot_tasks.
Qed.

(** C3: every view is refreshed by one task, and the client owns it.  Whatever a
    client goes through (accesses on any runtimes that take discovery over from
    each other step by step, loops and affinity tasks that are told to abort but
    are still running, tasks that end at any moment), of the refreshes of one view
    under way at most one belongs to a task that was not told to abort; while no
    transfer is going on, dropping the client tells all of them; and a shutdown
    returns only when none is left. *)
Theorem one_refresh_per_view (config : AlternatorConfig) (s : Sys U Stream) :
  let m := sys_manager s in
  reachable config s →
  (∀ i j x y, sys_refreshes s !! i = Some x → sys_refreshes s !! j = Some y →
     refresh_view x = refresh_view y → handle_of x ∉ aborts m → handle_of y ∉ aborts m → i = j) ∧
  (lock (machine s) = None → ∀ x, x ∈ sys_refreshes s → handle_of x ∈ aborts (Manager.drop m)) ∧
  (Tasks.shutdown_returns (manager_tasks m) = true → sys_refreshes s = []).
Proof.
  intros m Hs%reachable_tasks. split_and!.
  - intros i j x y Hi Hj Hv Hx Hy.
    assert (Hh : handle_of x = handle_of y).
    { unfold refresh_view, handle_of in *. apply list_elem_of_lookup_2 in Hi, Hj.
      destruct (task x) as [h r|h] eqn:Htx, (task y) as [h' r'|h'] eqn:Hty; try done; simpl in *.
      - pose proof (current_loop s x h r Hs Hi Htx Hx). pose proof (current_loop s y h' r' Hs Hj Hty Hy).
        congruence.
      - pose proof (current_affinity s x h Hs Hi Htx Hx). pose proof (current_affinity s y h' Hs Hj Hty Hy).
        congruence. }
    apply (NoDup_lookup _ i j (handle_of x) (to_distinct s Hs)); rewrite list_lookup_fmap.
    + by rewrite Hi.
    + by rewrite Hj, Hh.
  - intros Hl x Hx. destruct (decide (handle_of x ∈ aborts m)) as [Ha|Ha]; [simpl; set_solver|].
    unfold handle_of in *. simpl. destruct (task x) as [h r|h] eqn:Ht; simpl in *.
    + pose proof (current_loop s x h r Hs Hx Ht Ha) as Hc. unfold holder in Hc. rewrite Hl in Hc.
      simpl in Hc. unfold m. rewrite Hc. set_solver.
    + pose proof (current_affinity s x h Hs Hx Ht Ha) as Hc. unfold m. rewrite Hc. set_solver.
  - intros [_ Hnil%bool_decide_eq_true]%andb_true_iff. pose proof (to_refreshes s Hs) as Hj.
    destruct (sys_refreshes s) as [|x l]; [done|]. apply Forall_cons in Hj as [[Hlive _] _].
    unfold live_tasks in Hlive. fold m in Hlive. rewrite Hnil in Hlive. by apply elem_of_nil in Hlive.
Qed.

(** C4: a client at work comes to rest.  In every state that a client may reach,
    the accesses and refreshes under way take only finitely many further steps,
    in whatever order they advance and whatever the nodes answer, also when they
    start the affinity refreshes that follow; and as long as they have not all
    returned, with the transfer mutex free, one of them can advance: nothing a
    client went through makes its parts block, or wake, each other for ever. *)
Theorem client_comes_to_rest (config : AlternatorConfig) (s : Sys U Stream) :
  reachable config s →
  Acc (flip busy_step) s ∧
  ∀ s', rtc busy_step s s' → (∃ s'', busy_step s' s'') ∨ resting s'.
Proof.
  intros Hs%reachable_tasks. split; [apply busy_acc|]. intros s' Hrun. apply busy_or_resting.
  eapply steps_tasks; [|exact Hs]. eapply rtc_subrel; [|exact Hrun]. apply busy_sys.
Qed.

End properties.

(** ** Witnesses *)

Section witnesses.
Import Sys TaskSpec EndpointUrl.
#[local] Existing Instances MarkFlate.api ListTasks.api ListTasks.laws ListSdk.types ListSmithy.types.
#[local] Existing Instances ListHeaders.api sum_hash.
#[local] Existing Instances sdk0 sdk_laws0 tls0 smithy0 smithy_laws0 client0 uris0 order0.

(** The loop of runtime 7 awaits an answer when a thread of runtime 9 finds it
    unresponsive, twice, and takes discovery over; the new loop refreshes the
    view before the old one sees its abort. *)
Definition access_at (i : nat) (now : Z) (steps : nat) : list (SysEvent unit) :=
  OnMachine unfinished (Begin (Some 9) true) :: replicate steps (OnMachine unfinished (Step i now)).
Definition take_over : list (SysEvent unit) :=
  [OnLoop 0 0; OnRefresh 0 Act; OnRefresh 0 seeds_order; OnRefresh 0 Act] ++
  access_at 0 0%Z 8 ++ access_at 1 (from_secs 1) 20 ++ [OnLoop 2 1; OnRefresh 1 Act].
Definition overlapping : Sys unit unit := default no_sys (run_sys take_over booted).

Lemma overlapping_run : run_sys take_over booted = Some overlapping.
Proof. unfold overlapping. apply some_default. vm_refl. Qed.
Lemma overlapping_reachable : reachable racked overlapping.
Proof.
  exists (Some 7), 0%Z, racked_client, booted.
  split; [exact racked_built|]. split; [exact racked_booted|].
  apply (run_steps take_over), overlapping_run.
Qed.

Lemma one_refresh_per_view_witness :
  ((handle_of <$> sys_refreshes overlapping, refresh_view <$> sys_refreshes overlapping,
    aborts (sys_manager overlapping)) = ([0; 2], [OrdinaryView; OrdinaryView], [0])) ∧
  ∀ x, x ∈ sys_refreshes overlapping → handle_of x ∈ aborts (Manager.drop (sys_manager overlapping)).
Proof.
  split; [vm_refl|].
  apply (proj1 (proj2 (one_refresh_per_view racked overlapping overlapping_reachable))). vm_refl.
Defined.

Lemma client_comes_to_rest_witness :
  length (sys_refreshes overlapping) = 2 ∧ Acc (flip busy_step) overlapping ∧
  ((∃ s', busy_step overlapping s') ∨ resting overlapping).
Proof.
  destruct (client_comes_to_rest racked overlapping overlapping_reachable) as [Hacc Hgo].
  split; [vm_refl|]. split; [exact Hacc|]. apply Hgo. reflexivity.
Defined.

(** The old loop sees its abort, the new one ends its refresh, and so does the
    affinity task that it starts. *)
Definition to_rest : list (SysEvent unit) :=
  [OnAborted 0; OnRefresh 0 seeds_order; OnRefresh 0 Act; OnRefresh 0 answer3; OnRefresh 0 Act;
   OnRefreshed unfinished 0;
   OnRefresh 0 Act; OnRefresh 0 seeds_order; OnRefresh 0 Act; OnRefresh 0 answer3; OnRefresh 0 Act;
   OnRefreshed unfinished 0].
Example take_over_rests :
  (λ s, (length (sys_refreshes s), lock (machine s), live_tasks (sys_manager s),
         p_host <$> live_nodes (ordinary (sys_manager s)))) <$> run_sys to_rest overlapping =
  Some (0, None, [2; 1], [Some "node3"]).
Proof. vm_refl. Qed.

End witnesses.
